(** * VocalBridgeOps: the message pipeline, its orchestrator and its billing

    A shallow embedding of the request-processing core of the gateway:

    - [Pricing]       packages/backend/src/config/pricing.ts (calculateCost)
    - [Orchestrator]  providers/types.ts and providers/orchestrator.ts, both in
                      unnamed/part_009 (executeWithResilience, executeWithRetry)
    - [Registry]      tools/registry.ts, in unnamed/part_003
                      (ToolRegistry.execute)
    - [Service]       the message service, in
                      packages/backend/src/services/tenant.service.ts
                      (sendMessage, withSessionLock, loadConversationHistory,
                      findByIdempotencyKey, createUsageEvent, executeToolCalls),
                      and packages/backend/src/services/session.service.ts
                      (getNextSequenceNumber, getSessionWithAgent)
    - [Store]         the tables of prisma/migrations and the Prisma calls
                      the services make

    The configuration is config/index.ts, in unnamed/part_007.

    JavaScript numbers are IEEE 754 binary64 values: the pricing arithmetic
    is carried out on Rocq's primitive floats.  Database tables are lists of
    rows in insertion order, the in-memory session-lock [Map] is a [gmap],
    thrown exceptions are values of [Exn], and asynchronous functions are
    state transformers over the [World] (tables, lock map, log).  Vendor
    adapters and tools are the environment: they enter as oracles. *)

From Stdlib Require Import ZArith Floats Lia Bool.
From stdpp Require Import gmap strings list.

Set Warnings "-inexact-float".
Open Scope string_scope.
Open Scope list_scope.
Open Scope Z_scope.

(** ** Shared vocabulary *)

Inductive ProviderType := VENDOR_A | VENDOR_B.

#[global] Instance ProviderType_eq_dec : EqDecision ProviderType.
Proof. solve_decision. Defined.

(** An opaque structured value ([unknown] in the source), kept serialised. *)
Definition Json := string.

(** utils/errors.ts: the subclasses of [AppError]. *)
Inductive ErrorClass :=
| ValidationError | UnauthorizedError | ForbiddenError | NotFoundError
| ConflictError | RateLimitError | PaymentRequiredError | ProviderError
| ProviderSchemaError | TimeoutError | InternalError.

#[global] Instance ErrorClass_eq_dec : EqDecision ErrorClass.
Proof. solve_decision. Defined.

(** The [code] each subclass passes to the [AppError] constructor. *)
Definition errorCode (c : ErrorClass) : string :=
  match c with
  | ValidationError => "VALIDATION_ERROR"
  | UnauthorizedError => "UNAUTHORIZED"
  | ForbiddenError => "FORBIDDEN"
  | NotFoundError => "NOT_FOUND"
  | ConflictError => "CONFLICT"
  | RateLimitError => "RATE_LIMITED"
  | PaymentRequiredError => "PAYMENT_REQUIRED"
  | ProviderError => "PROVIDER_ERROR"
  | ProviderSchemaError => "PROVIDER_SCHEMA_ERROR"
  | TimeoutError => "TIMEOUT_ERROR"
  | InternalError => "INTERNAL_ERROR"
  end.

(** The HTTP status each subclass passes to the [AppError] constructor. *)
Definition defaultStatusCode (c : ErrorClass) : Z :=
  match c with
  | ValidationError => 400
  | UnauthorizedError => 401
  | ForbiddenError => 403
  | NotFoundError => 404
  | ConflictError => 409
  | RateLimitError => 429
  | PaymentRequiredError => 402
  | ProviderError => 502
  | ProviderSchemaError => 502
  | TimeoutError => 504
  | InternalError => 500
  end.

(** An [AppError] object.  [statusCode] and the ad-hoc [retryable] property
    are mutable at run time (the vendor adapters assign them after
    construction), so they are fields of their own. *)
Record AppError := {
  cls : ErrorClass;
  message : string;
  statusCode : Z;
  retryableFlag : bool;          (* [(error as any).retryable === true] *)
  retryAfterMs : option Z        (* RateLimitError only *)
}.

Definition newAppError (c : ErrorClass) (msg : string) : AppError :=
  {| cls := c; message := msg; statusCode := defaultStatusCode c;
     retryableFlag := false; retryAfterMs := None |}.

(** Everything a [throw] can carry. *)
Inductive Exn :=
| AppErr (e : AppError)
| PrismaErr (code : string) (msg : string)   (* PrismaClientKnownRequestError *)
| JsErr (msg : string)                       (* any other [Error] instance *)
| NonError (repr : string).                  (* a thrown value that is no [Error] *)

Definition instanceof (e : Exn) (c : ErrorClass) : bool :=
  match e with
  | AppErr a => bool_decide (cls a = c)
  | _ => false
  end.

(** [error instanceof Error ? error : new Error(String(error))], then [.message] *)
Definition errorObjMessage (e : Exn) : string :=
  match e with
  | AppErr a => message a
  | PrismaErr _ m => m
  | JsErr m => m
  | NonError r => r
  end.

(** [(error as any).code] *)
Definition exnCode (e : Exn) : option string :=
  match e with
  | AppErr a => Some (errorCode (cls a))
  | PrismaErr c _ => Some c
  | _ => None
  end.

(** providers/types.ts *)
Record ToolCall := { tc_id : string; tc_name : string; tc_args : Json }.

Record ToolResultEntry := {
  tr_id : string;
  tr_result : option Json;       (* [None]: null or undefined *)
  tr_error : option string
}.

Inductive ConversationRole := R_user | R_assistant | R_system | R_tool.

(** What a [content] column holds: free text, or the document that
    [JSON.stringify({id, result, error})] wrote for a TOOL message.  The
    second is kept structured, so that [JSON.parse] of it is the identity;
    [JSON.parse] of free text is taken to throw a [SyntaxError]. *)
Inductive Content :=
| Text (s : string)
| ToolJson (d : ToolResultEntry).

Record ConversationMessage := {
  cm_role : ConversationRole;
  cm_content : Content;
  cm_toolCalls : option (list ToolCall);
  cm_toolResults : option (list ToolResultEntry)
}.

Record ToolDefinition := {
  td_name : string;
  td_description : string;
  td_parameters : Json
}.

Record ProviderRequest := {
  systemPrompt : string;
  messages : list ConversationMessage;
  temperature : float;
  maxTokens : Z;
  tools : option (list ToolDefinition)
}.

Record ProviderResponse := {
  content : string;
  tokensIn : Z;
  tokensOut : Z;
  latencyMs : Z;
  toolCalls : option (list ToolCall)
}.

(** ** config/pricing.ts *)

Module Pricing.

(** A JavaScript number holding the integer [z]. *)
Definition Number_of_Z (z : Z) : float :=
  if z <? 0 then PrimFloat.opp (PrimFloat.of_uint63 (Uint63.of_Z (- z)))
  else PrimFloat.of_uint63 (Uint63.of_Z z).

(** [Math.ceil]: the least integer not below a finite [x]; [None] stands
    for the results that are no integers (NaN and the infinities). *)
Definition Math_ceil (x : float) : option Z :=
  match Prim2SF x with
  | S754_zero _ => Some 0
  | S754_finite s m e =>
      let v := if s then Z.neg m else Z.pos m in
      Some (if 0 <=? e then v * 2 ^ e else - ((- v) / 2 ^ (- e)))
  | S754_infinity _ => None
  | S754_nan => None
  end.

Record ProviderPricing := {
  inputPricePerKTokens : float;
  outputPricePerKTokens : float
}.

Definition PRICING (provider : ProviderType) : ProviderPricing :=
  match provider with
  | VENDOR_A => {| inputPricePerKTokens := 0.002; outputPricePerKTokens := 0.004 |}
  | VENDOR_B => {| inputPricePerKTokens := 0.003; outputPricePerKTokens := 0.006 |}
  end.

Definition calculateCost (provider : ProviderType) (tokensIn tokensOut : Z)
  : option Z :=
  let pricing := PRICING provider in
  let inputCost := (Number_of_Z tokensIn / 1000 * inputPricePerKTokens pricing)%float in
  let outputCost := (Number_of_Z tokensOut / 1000 * outputPricePerKTokens pricing)%float in
  Math_ceil ((inputCost + outputCost) * 100)%float.

Definition getPricingSnapshot (provider : ProviderType) : ProviderPricing :=
  PRICING provider.

(** The formula of the specification read over the rationals: prices of
    2 and 4 (vendor A) or 3 and 6 (vendor B) thousandths of a dollar per
    thousand tokens, so a call costs [(i * inP + o * outP) / 10000] cents,
    rounded up. *)
Definition millis (provider : ProviderType) : Z * Z :=
  match provider with
  | VENDOR_A => (2, 4)
  | VENDOR_B => (3, 6)
  end.

Definition cost_cents_exact (provider : ProviderType) (tokensIn tokensOut : Z) : Z :=
  let '(inP, outP) := millis provider in
  - ((- (tokensIn * inP + tokensOut * outP)) / 10000).

End Pricing.

(** ** providers/orchestrator.ts (unnamed/part_009) *)

Module Orchestrator.

Record ErrorInfo := {
  ei_code : string;
  ei_message : string;
  ei_retryable : bool;
  ei_retryAfterMs : option Z
}.

Record ProviderCallResult := {
  r_success : bool;
  r_response : option ProviderResponse;
  r_error : option ErrorInfo;
  r_provider : ProviderType;
  r_isFallback : bool;
  r_attemptNumber : nat;
  r_latencyMs : Z
}.

Record OrchestratorConfig := {
  primaryProvider : ProviderType;
  fallbackProvider : option ProviderType;    (* [None]: null or undefined *)
  correlationId : option string
}.

Record ErrorEntry := {
  ee_provider : ProviderType;
  ee_error : Exn;
  ee_attemptNumber : nat
}.

(** The mutable object that [executeWithResilience] creates and hands to
    both runs of [executeWithRetry]; it is threaded through them. *)
Record RetryState := {
  attemptNumber : nat;
  errors : list ErrorEntry
}.

(** One 'Provider call attempt' log line: written once per iteration of the
    retry loop, right before [adapter.sendMessage] is called. *)
Record Attempt := {
  at_provider : ProviderType;
  at_attempt : nat;
  at_isFallback : bool
}.

(** How one call of [adapter.sendMessage] ends; a rejection also tells how
    long the attempt took ([Date.now() - attemptStartTime]). *)
Inductive AdapterOutcome :=
| Resolved (response : ProviderResponse)
| Rejected (error : Exn) (elapsedMs : Z).

(** Determine if an error is retryable *)
Definition isRetryableError (error : Exn) : bool :=
  if instanceof error ProviderSchemaError then false
  else if instanceof error RateLimitError then true
  else if instanceof error TimeoutError then true
  else
    match error with
    | AppErr a =>
        if bool_decide (cls a = ProviderError) then
          if negb (statusCode a =? 0) && (500 <=? statusCode a) && (statusCode a <? 600)
          then true
          else if retryableFlag a then true
          else false
        else false
    | _ => false
    end.

Definition getErrorCode (error : Exn) : string :=
  if instanceof error RateLimitError then "RATE_LIMITED"
  else if instanceof error TimeoutError then "TIMEOUT"
  else if instanceof error ProviderSchemaError then "PROVIDER_SCHEMA_ERROR"
  else "PROVIDER_ERROR".

Definition getRetryAfterMs (error : Exn) : option Z :=
  match error with
  | AppErr a => if bool_decide (cls a = RateLimitError) then retryAfterMs a else None
  | _ => None
  end.

Section Resilience.

(** [config.retry.maxAttempts] *)
Variable maxAttempts : nat.

(** The singleton adapters.  The vendors answer as they please, so the
    outcome of a call is given by the environment: it may depend on the
    vendor, on how many adapter calls came before it and on the request. *)
Variable adapters : ProviderType -> nat -> ProviderRequest -> AdapterOutcome.

(** The tail of [executeWithRetry], after the loop ("Should never reach
    here"). *)
Definition maxRetriesExceeded (provider : ProviderType) (isFallback : bool)
    (retryState : RetryState) : ProviderCallResult :=
  {| r_success := false;
     r_response := None;
     r_error := Some {| ei_code := "PROVIDER_ERROR";
                        ei_message := "Max retries exceeded";
                        ei_retryable := false;
                        ei_retryAfterMs := None |};
     r_provider := provider;
     r_isFallback := isFallback;
     r_attemptNumber := attemptNumber retryState;
     r_latencyMs := 0 |}.

(** The loop [for (let attempt = 1; attempt <= maxAttempts; attempt++)] of
    [executeWithRetry], entered at [attempt].  [fuel] bounds the number of
    iterations; [executeWithRetry] provides as many as the guard allows.
    The sleep between two attempts has no effect on the state. *)
Fixpoint retryLoop (fuel : nat) (request : ProviderRequest)
    (provider : ProviderType) (isFallback : bool) (attempt : nat)
    (retryState : RetryState) (log : list Attempt)
  : ProviderCallResult * RetryState * list Attempt :=
  match fuel with
  | O => (maxRetriesExceeded provider isFallback retryState, retryState, log)
  | S fuel' =>
      if negb (attempt <=? maxAttempts)%nat
      then (maxRetriesExceeded provider isFallback retryState, retryState, log)
      else
        let retryState1 :=
          {| attemptNumber := S (attemptNumber retryState);
             errors := errors retryState |} in
        let log1 :=
          log ++ [{| at_provider := provider; at_attempt := attempt;
                     at_isFallback := isFallback |}] in
        match adapters provider (length log) request with
        | Resolved response =>
            ({| r_success := true;
                r_response := Some response;
                r_error := None;
                r_provider := provider;
                r_isFallback := isFallback;
                r_attemptNumber := attemptNumber retryState1;
                r_latencyMs := latencyMs response |},
             retryState1, log1)
        | Rejected error elapsedMs =>
            let retryState2 :=
              {| attemptNumber := attemptNumber retryState1;
                 errors := errors retryState1 ++
                   [{| ee_provider := provider; ee_error := error;
                       ee_attemptNumber := attemptNumber retryState1 |}] |} in
            let isRetryable := isRetryableError error in
            let isLastAttempt := (maxAttempts <=? attempt)%nat in
            if negb isRetryable || isLastAttempt
            then
              ({| r_success := false;
                  r_response := None;
                  r_error := Some {| ei_code := getErrorCode error;
                                     ei_message := errorObjMessage error;
                                     ei_retryable := isRetryable && negb isLastAttempt;
                                     ei_retryAfterMs := getRetryAfterMs error |};
                  r_provider := provider;
                  r_isFallback := isFallback;
                  r_attemptNumber := attemptNumber retryState2;
                  r_latencyMs := elapsedMs |},
               retryState2, log1)
            else retryLoop fuel' request provider isFallback (S attempt) retryState2 log1
        end
  end.

(** Execute provider call with exponential backoff retry *)
Definition executeWithRetry (request : ProviderRequest) (provider : ProviderType)
    (retryState : RetryState) (isFallback : bool) (log : list Attempt)
  : ProviderCallResult * RetryState * list Attempt :=
  retryLoop maxAttempts request provider isFallback 1%nat retryState log.

(** The "All attempts failed" tail of [executeWithResilience].
    [retryState.errors[retryState.errors.length - 1]] is [undefined] for an
    empty array, and reading [.error] of it is a [TypeError]. *)
Definition allAttemptsFailed (config : OrchestratorConfig) (retryState : RetryState)
  : Exn + ProviderCallResult :=
  match last (errors retryState) with
  | None => inl (JsErr "Cannot read properties of undefined (reading 'error')")
  | Some lastError =>
      inr {| r_success := false;
             r_response := None;
             r_error := Some
               {| ei_code := if instanceof (ee_error lastError) RateLimitError
                             then "RATE_LIMITED" else "PROVIDER_ERROR";
                  ei_message := errorObjMessage (ee_error lastError);
                  ei_retryable := false;
                  ei_retryAfterMs := None |};
             r_provider := ee_provider lastError;
             r_isFallback :=
               match fallbackProvider config with
               | Some f => bool_decide (ee_provider lastError = f)
               | None => false
               end;
             r_attemptNumber := attemptNumber retryState;
             r_latencyMs := 0 |}
  end.

(** Execute a provider call with retry and fallback logic *)
Definition executeWithResilience (request : ProviderRequest)
    (config : OrchestratorConfig) (log : list Attempt)
  : (Exn + ProviderCallResult) * list Attempt :=
  let retryState := {| attemptNumber := 0; errors := [] |} in
  let '(primaryResult, retryState1, log1) :=
    executeWithRetry request (primaryProvider config) retryState false log in
  if r_success primaryResult then (inr primaryResult, log1)
  else
    match fallbackProvider config with
    | Some fallback =>
        if bool_decide (fallback <> primaryProvider config) then
          let '(fallbackResult, retryState2, log2) :=
            executeWithRetry request fallback retryState1 true log1 in
          if r_success fallbackResult then (inr fallbackResult, log2)
          else (allAttemptsFailed config retryState2, log2)
        else (allAttemptsFailed config retryState1, log1)
    | None => (allAttemptsFailed config retryState1, log1)
    end.

(** What one run of the retry loop leaves behind: the attempts [new] it
    logged and the errors [errs] it pushed. *)
Record PathRun (request : ProviderRequest) (provider : ProviderType)
    (isFallback : bool) (fuel attempt : nat)
    (st : RetryState) (log : list Attempt)
    (r : ProviderCallResult) (st' : RetryState) (log' : list Attempt)
    (new : list Attempt) (errs : list ErrorEntry) : Prop := {
  run_log : log' = log ++ new;
  run_errors : errors st' = errors st ++ errs;
  run_fuel : (length new <= fuel)%nat;
  run_attemptNumber : attemptNumber st' = (attemptNumber st + length new)%nat;
  run_result : r_attemptNumber r = attemptNumber st';
  run_provider : r_provider r = provider;
  run_isFallback : r_isFallback r = isFallback;
  run_flags :
    Forall (fun a => at_provider a = provider /\ at_isFallback a = isFallback) new;
  run_errs_provider : Forall (fun e => ee_provider e = provider) errs;
  run_count :
    length new = (length errs + (if r_success r then 1 else 0))%nat;
  run_some :
    (1 <= fuel)%nat -> (attempt <= maxAttempts)%nat -> (1 <= length new)%nat;
  run_abort : forall i e ms,
      (i < length new)%nat ->
      adapters provider (length log + i) request = Rejected e ms ->
      isRetryableError e = false ->
      S i = length new
}.

End Resilience.

End Orchestrator.

(** ** The database, the lock map and the log *)

Module Store.

Inductive MessageRole := USER | ASSISTANT | SYSTEM | TOOL.
Inductive ProviderCallStatus := SUCCESS | FAILED | TIMEOUT | RATE_LIMITED.
Inductive SessionStatus := ACTIVE | ENDED | ERROR.
Inductive ToolExecutionStatus := T_SUCCESS | T_FAILED | T_TIMEOUT.

#[global] Instance MessageRole_eq_dec : EqDecision MessageRole.
Proof. solve_decision. Defined.
#[global] Instance ProviderCallStatus_eq_dec : EqDecision ProviderCallStatus.
Proof. solve_decision. Defined.
#[global] Instance SessionStatus_eq_dec : EqDecision SessionStatus.
Proof. solve_decision. Defined.

(** Rows.  Primary keys are UUIDs that the database generates; the model
    draws them from a counter, which keeps them fresh.  [createdAt] columns
    are left out. *)
Record Agent := {
  a_id : string;
  a_primaryProvider : ProviderType;
  a_fallbackProvider : option ProviderType;
  a_systemPrompt : string;
  a_temperature : float;
  a_maxTokens : Z;
  a_enabledTools : list string
}.

(** A session row together with its [agent] relation ([include: {agent}]). *)
Record Session := {
  s_id : string;
  s_tenantId : string;
  s_agent : option Agent;
  s_status : SessionStatus;
  s_demoMode : bool
}.

Record Message := {
  m_id : nat;
  m_sessionId : string;
  m_sequenceNumber : Z;
  m_idempotencyKey : option string;
  m_role : MessageRole;
  m_content : Content;
  m_toolCalls : option (list ToolCall);     (* the JSON column, parsed *)
  m_providerCallId : option nat
}.

Record ProviderCall := {
  pc_id : nat;
  pc_sessionId : string;
  pc_correlationId : string;
  pc_provider : ProviderType;
  pc_isFallback : bool;
  pc_tokensIn : Z;
  pc_tokensOut : Z;
  pc_latencyMs : Z;
  pc_status : ProviderCallStatus;
  pc_errorCode : option string;
  pc_errorMessage : option string;
  pc_attemptNumber : nat;
  pc_billed : bool
}.

Record UsageEvent := {
  ue_id : nat;
  ue_tenantId : string;
  ue_agentId : string;
  ue_sessionId : string;
  ue_providerCallId : nat;
  ue_provider : ProviderType;
  ue_tokensIn : Z;
  ue_tokensOut : Z;
  ue_totalTokens : Z;
  ue_costCents : option Z;
  ue_pricingSnapshot : Pricing.ProviderPricing
}.

Record ToolExecution := {
  te_sessionId : string;
  te_messageId : string;
  te_correlationId : string;
  te_toolName : string;
  te_toolInput : Json;
  te_toolOutput : option Json;
  te_status : ToolExecutionStatus;
  te_errorMessage : option string;
  te_costCents : Z
}.

(** An entry of the in-memory [sessionLocks] map. *)
Record Lock := { locked : bool; timestamp : Z }.

(** The log lines the model keeps, named after their messages: the lines
    of the services that mark a step taken or a branch chosen.  Lines that
    only give details of a step that is marked already (the sizes of the
    history and of the request, the announcements before
    [createUsageEvent]) are left out, as are the lines of the orchestrator,
    whose attempts are recorded in [attemptLog]. *)
Inductive LogLine :=
| Processing_message (hasIdempotencyKey : bool)
| Returning_cached_response_for_idempotency_key
| Failed_to_acquire_session_lock
| Session_lock_acquired
| Session_lock_released
| User_message_stored (userMessageId : nat)
| Calling_AI_provider
| Provider_call_record_stored (providerCallId : nat)
| Provider_call_failed
| Processing_tool_calls (toolCallCount : nat)
| Executing_tool_call (toolCallId toolName : string)
| Tool_not_found (toolName : string)
| Tool_not_enabled_for_agent (toolName : string)
| Tool_execution_complete (toolName : string) (status : ToolExecutionStatus)
| Tool_call_executed (toolCallId : string) (success : bool)
| Tool_call_failed (toolCallId : string) (errorMsg : string)
| Calling_provider_with_tool_results
| Final_provider_call_record_stored (providerCallId : nat)
| Final_provider_call_failed
| Assistant_message_stored (assistantMessageId : nat)
| Skipping_usage_event_for_demo_session
| Skipping_usage_event_for_non_successful_call (providerCallId : nat)
| Creating_usage_event (providerCallId : nat)
| Skipping_usage_event_already_billed (providerCallId : nat)
| Usage_event_created_successfully (providerCallId : nat)
| Usage_event_already_exists (providerCallId : nat)
| Message_processing_completed_successfully.

Record World := {
  tbl_sessions : list Session;
  tbl_messages : list Message;
  tbl_provider_calls : list ProviderCall;
  tbl_usage_events : list UsageEvent;
  tbl_tool_executions : list ToolExecution;
  sessionLocks : gmap Z Lock;     (* keyed by the lock key, whose decimal
                                     string is the key of the source's Map *)
  nextId : nat;
  attemptLog : list Orchestrator.Attempt;
  logLines : list LogLine
}.

(** *** Asynchronous code: state, and exceptions that keep the state *)

Definition M (A : Type) : Type := World -> (Exn + A) * World.

Definition ret {A} (a : A) : M A := fun w => (inr a, w).

Definition throw {A} (e : Exn) : M A := fun w => (inl e, w).

Definition bind {A B} (m : M A) (k : A -> M B) : M B :=
  fun w =>
    match m w with
    | (inl e, w1) => (inl e, w1)
    | (inr a, w1) => k a w1
    end.

Declare Scope M_scope.
Notation "x ← y ; z" := (bind y (fun x => z))
  (at level 20, y at level 100, z at level 200, only parsing) : M_scope.
Notation "' x ← y ; z" := (bind y (fun x => z))
  (at level 20, x pattern, y at level 100, z at level 200, only parsing) : M_scope.
Notation "y ;; z" := (bind y (fun _ => z))
  (at level 100, z at level 200, only parsing, right associativity) : M_scope.
Open Scope M_scope.

(** [try { body } finally { fin }] *)
Definition tryFinally {A} (body : M A) (fin : M unit) : M A :=
  fun w =>
    let '(r, w1) := body w in
    match fin w1 with
    | (inl e, w2) => (inl e, w2)
    | (inr _, w2) => (r, w2)
    end.

(** [try { body } catch (error) { handler(error) }] *)
Definition tryCatch {A} (body : M A) (handler : Exn -> M A) : M A :=
  fun w =>
    match body w with
    | (inl e, w1) => handler e w1
    | (inr a, w1) => (inr a, w1)
    end.

(** [prisma.$transaction]: when the callback throws, the tables are rolled
    back; what is not in the database (log, lock map) stays. *)
Definition rollback (before after : World) : World :=
  {| tbl_sessions := tbl_sessions before;
     tbl_messages := tbl_messages before;
     tbl_provider_calls := tbl_provider_calls before;
     tbl_usage_events := tbl_usage_events before;
     tbl_tool_executions := tbl_tool_executions before;
     sessionLocks := sessionLocks after;
     nextId := nextId after;
     attemptLog := attemptLog after;
     logLines := logLines after |}.

Definition transaction {A} (body : M A) : M A :=
  fun w =>
    match body w with
    | (inl e, w1) => (inl e, rollback w w1)
    | (inr a, w1) => (inr a, w1)
    end.

Definition log (l : LogLine) : M unit :=
  fun w =>
    (inr tt,
     {| tbl_sessions := tbl_sessions w;
        tbl_messages := tbl_messages w;
        tbl_provider_calls := tbl_provider_calls w;
        tbl_usage_events := tbl_usage_events w;
        tbl_tool_executions := tbl_tool_executions w;
        sessionLocks := sessionLocks w;
        nextId := nextId w;
        attemptLog := attemptLog w;
        logLines := logLines w ++ [l] |}).

Definition setLocks (f : gmap Z Lock -> gmap Z Lock) : M unit :=
  fun w =>
    (inr tt,
     {| tbl_sessions := tbl_sessions w;
        tbl_messages := tbl_messages w;
        tbl_provider_calls := tbl_provider_calls w;
        tbl_usage_events := tbl_usage_events w;
        tbl_tool_executions := tbl_tool_executions w;
        sessionLocks := f (sessionLocks w);
        nextId := nextId w;
        attemptLog := attemptLog w;
        logLines := logLines w |}).

(** *** The Prisma calls the services make *)

Definition P2002 (target : string) : Exn :=
  PrismaErr "P2002" ("Unique constraint failed on the fields: " +:+ target).

(** Unique index [messages_sessionId_sequenceNumber_key]. *)
Definition clashesSequence (sessionId : string) (sequenceNumber : Z) (m : Message) : bool :=
  bool_decide (m_sessionId m = sessionId) && (m_sequenceNumber m =? sequenceNumber).

(** Unique index [messages_sessionId_idempotencyKey_key]; rows whose key is
    NULL never clash. *)
Definition clashesKey (sessionId : string) (key : option string) (m : Message) : bool :=
  match key with
  | Some k => bool_decide (m_sessionId m = sessionId)
              && bool_decide (m_idempotencyKey m = Some k)
  | None => false
  end.

(** [prisma.message.create] *)
Definition message_create (sessionId : string) (sequenceNumber : Z)
    (idempotencyKey : option string) (role : MessageRole) (content : Content)
    (toolCalls : option (list ToolCall)) (providerCallId : option nat) : M Message :=
  fun w =>
    if existsb (clashesKey sessionId idempotencyKey) (tbl_messages w)
    then (inl (P2002 "(`sessionId`,`idempotencyKey`)"), w)
    else if existsb (clashesSequence sessionId sequenceNumber) (tbl_messages w)
    then (inl (P2002 "(`sessionId`,`sequenceNumber`)"), w)
    else
      let row :=
        {| m_id := nextId w; m_sessionId := sessionId;
           m_sequenceNumber := sequenceNumber;
           m_idempotencyKey := idempotencyKey; m_role := role;
           m_content := content; m_toolCalls := toolCalls;
           m_providerCallId := providerCallId |} in
      (inr row,
       {| tbl_sessions := tbl_sessions w;
          tbl_messages := tbl_messages w ++ [row];
          tbl_provider_calls := tbl_provider_calls w;
          tbl_usage_events := tbl_usage_events w;
          tbl_tool_executions := tbl_tool_executions w;
          sessionLocks := sessionLocks w;
          nextId := S (nextId w);
          attemptLog := attemptLog w;
          logLines := logLines w |}).

(** [prisma.providerCall.create]; [billed] takes its column default. *)
Definition providerCall_create (sessionId correlationId : string)
    (result : Orchestrator.ProviderCallResult) (status : ProviderCallStatus)
  : M ProviderCall :=
  fun w =>
    let row :=
      {| pc_id := nextId w; pc_sessionId := sessionId;
         pc_correlationId := correlationId;
         pc_provider := Orchestrator.r_provider result;
         pc_isFallback := Orchestrator.r_isFallback result;
         pc_tokensIn := from_option tokensIn 0 (Orchestrator.r_response result);
         pc_tokensOut := from_option tokensOut 0 (Orchestrator.r_response result);
         pc_latencyMs := Orchestrator.r_latencyMs result;
         pc_status := status;
         pc_errorCode := Orchestrator.ei_code <$> Orchestrator.r_error result;
         pc_errorMessage := Orchestrator.ei_message <$> Orchestrator.r_error result;
         pc_attemptNumber := Orchestrator.r_attemptNumber result;
         pc_billed := false |} in
    (inr row,
     {| tbl_sessions := tbl_sessions w;
        tbl_messages := tbl_messages w;
        tbl_provider_calls := tbl_provider_calls w ++ [row];
        tbl_usage_events := tbl_usage_events w;
        tbl_tool_executions := tbl_tool_executions w;
        sessionLocks := sessionLocks w;
        nextId := S (nextId w);
        attemptLog := attemptLog w;
        logLines := logLines w |}).

(** [tx.providerCall.updateMany({where: {id, billed: false}, data: {billed: true}})];
    the result is [updated.count]. *)
Definition unbilled (id : nat) (pc : ProviderCall) : bool :=
  bool_decide (pc_id pc = id) && negb (pc_billed pc).

Definition markBilled (id : nat) (pc : ProviderCall) : ProviderCall :=
  if unbilled id pc
  then {| pc_id := pc_id pc; pc_sessionId := pc_sessionId pc;
          pc_correlationId := pc_correlationId pc; pc_provider := pc_provider pc;
          pc_isFallback := pc_isFallback pc; pc_tokensIn := pc_tokensIn pc;
          pc_tokensOut := pc_tokensOut pc; pc_latencyMs := pc_latencyMs pc;
          pc_status := pc_status pc; pc_errorCode := pc_errorCode pc;
          pc_errorMessage := pc_errorMessage pc;
          pc_attemptNumber := pc_attemptNumber pc; pc_billed := true |}
  else pc.

Definition providerCall_updateMany_billed (id : nat) : M nat :=
  fun w =>
    (inr (length (List.filter (unbilled id) (tbl_provider_calls w))),
     {| tbl_sessions := tbl_sessions w;
        tbl_messages := tbl_messages w;
        tbl_provider_calls := markBilled id <$> tbl_provider_calls w;
        tbl_usage_events := tbl_usage_events w;
        tbl_tool_executions := tbl_tool_executions w;
        sessionLocks := sessionLocks w;
        nextId := nextId w;
        attemptLog := attemptLog w;
        logLines := logLines w |}).

(** [tx.usageEvent.create], under the unique index
    [usage_events_providerCallId_key]. *)
Definition usageEvent_create (tenantId agentId sessionId : string)
    (providerCall : ProviderCall) (costCents : option Z) : M unit :=
  fun w =>
    if existsb (fun ue => bool_decide (ue_providerCallId ue = pc_id providerCall))
               (tbl_usage_events w)
    then (inl (P2002 "(`providerCallId`)"), w)
    else
      let row :=
        {| ue_id := nextId w; ue_tenantId := tenantId; ue_agentId := agentId;
           ue_sessionId := sessionId; ue_providerCallId := pc_id providerCall;
           ue_provider := pc_provider providerCall;
           ue_tokensIn := pc_tokensIn providerCall;
           ue_tokensOut := pc_tokensOut providerCall;
           ue_totalTokens := pc_tokensIn providerCall + pc_tokensOut providerCall;
           ue_costCents := costCents;
           ue_pricingSnapshot := Pricing.getPricingSnapshot (pc_provider providerCall) |} in
      (inr tt,
       {| tbl_sessions := tbl_sessions w;
          tbl_messages := tbl_messages w;
          tbl_provider_calls := tbl_provider_calls w;
          tbl_usage_events := tbl_usage_events w ++ [row];
          tbl_tool_executions := tbl_tool_executions w;
          sessionLocks := sessionLocks w;
          nextId := S (nextId w);
          attemptLog := attemptLog w;
          logLines := logLines w |}).

(** [prisma.toolExecution.create] *)
Definition toolExecution_create (row : ToolExecution) : M unit :=
  fun w =>
    (inr tt,
     {| tbl_sessions := tbl_sessions w;
        tbl_messages := tbl_messages w;
        tbl_provider_calls := tbl_provider_calls w;
        tbl_usage_events := tbl_usage_events w;
        tbl_tool_executions := tbl_tool_executions w ++ [row];
        sessionLocks := sessionLocks w;
        nextId := nextId w;
        attemptLog := attemptLog w;
        logLines := logLines w |}).

(** [prisma.message.findFirst({where})] *)
Definition message_findFirst (where_ : Message -> bool) : M (option Message) :=
  fun w => (inr (find where_ (tbl_messages w)), w).

(** The [providerCall] relation of a message ([include: {providerCall: true}]). *)
Definition includeProviderCall (w : World) (m : Message) : option ProviderCall :=
  match m_providerCallId m with
  | Some id => find (fun pc => bool_decide (pc_id pc = id)) (tbl_provider_calls w)
  | None => None
  end.

(** [orderBy: {sequenceNumber: 'asc'}] *)
Fixpoint insertBySequence (m : Message) (l : list Message) : list Message :=
  match l with
  | [] => [m]
  | x :: l' =>
      if m_sequenceNumber m <? m_sequenceNumber x then m :: x :: l'
      else x :: insertBySequence m l'
  end.

Definition orderBySequenceAsc (l : list Message) : list Message :=
  foldr insertBySequence [] l.

Definition ofSession (sessionId : string) (m : Message) : bool :=
  bool_decide (m_sessionId m = sessionId).

(** [prisma.message.findMany({where: {sessionId},
    orderBy: {sequenceNumber: 'asc'}, take})] *)
Definition message_findMany (sessionId : string) (take_ : nat) : M (list Message) :=
  fun w =>
    (inr (take take_ (orderBySequenceAsc
            (List.filter (ofSession sessionId) (tbl_messages w)))), w).

(** SQL's [MAX]: NULL over no rows. *)
Definition sqlMax (l : list Z) : option Z :=
  match l with
  | [] => None
  | x :: l' => Some (foldr Z.max x l')
  end.

(** The stored procedure [get_next_message_sequence]:
    [SELECT COALESCE(MAX(sequenceNumber), 0) + 1 FROM messages
     WHERE sessionId = p_session_id], run under a row lock on the session.
    The columns are the ones of the [messages] table (the function of the
    migration under prisma/migrations names them in snake case; a later
    migration quoted in ARCHITECTURE.md rewrites it with the table's own
    names). *)
Definition get_next_message_sequence (sessionId : string) (w : World) : Z :=
  from_option id 0
    (sqlMax (m_sequenceNumber <$> List.filter (ofSession sessionId) (tbl_messages w))) + 1.

End Store.

(** ** tools/registry.ts (unnamed/part_003) *)

Module Registry.
Import Store.

Record ToolContext := {
  ctx_tenantId : string;
  ctx_sessionId : string;
  ctx_correlationId : string
}.

(** tools/types.ts: what a tool hands back. *)
Record ToolResult := {
  success : bool;
  data : option Json;
  error : option string
}.

(** How [Promise.race([tool.execute(args, context), timer])] settles: the
    tool fulfils or rejects in time, or the timer of [limits.timeoutMs]
    rejects first. *)
Inductive Settled :=
| Fulfilled (result : ToolResult)
| RejectedWith (e : Exn)
| TimerFirst.

Record Tool := {
  name : string;
  description : string;
  parameters : Json;
  estimatedCostCents : Z;
  timeoutMs : Z;
  run : Json -> ToolContext -> Settled
}.

(** [error instanceof Error ? error.message : 'Unknown error'] *)
Definition messageOrUnknown (e : Exn) : string :=
  match e with
  | NonError _ => "Unknown error"
  | _ => errorObjMessage e
  end.

Definition failure (msg : string) : ToolResult :=
  {| success := false; data := None; error := Some msg |}.

Section Registry.

(** The private [tools] map of the singleton registry. *)
Variable tools : gmap string Tool.

(** Execute a tool with safety checks *)
Definition execute (toolName : string) (args : Json) (context : ToolContext)
    (agentEnabledTools : list string) : M ToolResult :=
  match tools !! toolName with
  | None =>
      log (Tool_not_found toolName);;
      throw (AppErr (newAppError NotFoundError
                       ("Tool '" +:+ toolName +:+ "' not found")))
  | Some tool =>
      if negb (bool_decide (toolName ∈ agentEnabledTools))
      then
        log (Tool_not_enabled_for_agent toolName);;
        throw (AppErr (newAppError ForbiddenError
                         ("Tool '" +:+ toolName +:+ "' is not enabled for this agent")))
      else
        let '(result, status) :=
          match run tool args context with
          | Fulfilled result =>
              (result, if success result then T_SUCCESS else T_FAILED)
          | TimerFirst =>
              (failure ("Tool '" +:+ toolName +:+ "' timed out"), T_TIMEOUT)
          | RejectedWith e =>
              if instanceof e TimeoutError
              then (failure (errorObjMessage e), T_TIMEOUT)
              else (failure (messageOrUnknown e), T_FAILED)
          end in
        (* Store execution record: log but don't fail the tool execution *)
        tryCatch
          (toolExecution_create
             {| te_sessionId := ctx_sessionId context;
                te_messageId := "";
                te_correlationId := ctx_correlationId context;
                te_toolName := toolName;
                te_toolInput := args;
                te_toolOutput := data result;
                te_status := status;
                te_errorMessage := error result;
                te_costCents := estimatedCostCents tool |})
          (fun _ => ret tt);;
        log (Tool_execution_complete toolName status);;
        ret result
  end.

End Registry.

End Registry.

(** ** The message service (services/tenant.service.ts, from line 162) and
       services/session.service.ts *)

Module Service.
Import Store.

(** What the service takes from its surroundings: the configuration
    (config/index.ts), the vendor adapters, the tool registry, the SHA-256
    based [uuidToLockKey], a freshly generated correlation id and the
    clock. *)
Record Env := {
  retry_maxAttempts : nat;
  session_maxHistoryMessages : nat;
  adapters : ProviderType -> nat -> ProviderRequest -> Orchestrator.AdapterOutcome;
  registry : gmap string Registry.Tool;
  uuidToLockKey : string -> Z;
  generateCorrelationId : string;
  Date_now : Z
}.

Record SendMessageInput := {
  in_content : string;
  in_idempotencyKey : option string;
  in_correlationId : option string
}.

Record Metadata := {
  md_provider : string;
  md_tokensIn : Z;
  md_tokensOut : Z;
  md_latencyMs : Z;
  md_correlationId : string;
  md_usedFallback : bool
}.

Record MessageResponse := {
  mr_id : nat;
  mr_sessionId : string;
  mr_role : MessageRole;
  mr_content : Content;
  mr_toolCalls : option (list ToolCall);
  mr_metadata : Metadata
}.

(** The truthiness test the source applies to optional strings:
    [undefined] and the empty string are falsy. *)
Definition truthy (s : option string) : option string :=
  match s with
  | Some s' => if bool_decide (s' = "") then None else Some s'
  | None => None
  end.

Definition providerName (p : ProviderType) : string :=
  match p with
  | VENDOR_A => "VENDOR_A"
  | VENDOR_B => "VENDOR_B"
  end.

(** Get provider call status from error code *)
Definition getProviderCallStatus (errorCode : option string) : ProviderCallStatus :=
  match errorCode with
  | Some code =>
      if bool_decide (code = "TIMEOUT") then TIMEOUT
      else if bool_decide (code = "RATE_LIMITED") then RATE_LIMITED
      else FAILED
  | None => FAILED
  end.

(** Format message for API response *)
Definition formatMessageResponse (message : Message * option ProviderCall)
  : MessageResponse :=
  let pc := snd message in
  {| mr_id := m_id (fst message);
     mr_sessionId := m_sessionId (fst message);
     mr_role := m_role (fst message);
     mr_content := m_content (fst message);
     mr_toolCalls := m_toolCalls (fst message);
     mr_metadata :=
       {| md_provider := from_option (fun p => providerName (pc_provider p)) "UNKNOWN" pc;
          md_tokensIn := from_option pc_tokensIn 0 pc;
          md_tokensOut := from_option pc_tokensOut 0 pc;
          md_latencyMs := from_option pc_latencyMs 0 pc;
          md_correlationId := from_option pc_correlationId "" pc;
          md_usedFallback := from_option pc_isFallback false pc |} |}.

Definition roleLowerCase (r : MessageRole) : ConversationRole :=
  match r with
  | USER => R_user
  | ASSISTANT => R_assistant
  | SYSTEM => R_system
  | TOOL => R_tool
  end.

(** The callback of [messages.map] in [loadConversationHistory]. *)
Definition toConversationMessage (msg : Message) : Exn + ConversationMessage :=
  let toolCalls :=
    if bool_decide (m_role msg = ASSISTANT) then m_toolCalls msg else None in
  if bool_decide (m_role msg = TOOL) then
    match m_content msg with
    | ToolJson toolData =>
        inr {| cm_role := roleLowerCase (m_role msg);
               cm_content := m_content msg;
               cm_toolCalls := toolCalls;
               cm_toolResults := Some [toolData] |}
    | Text _ => inl (JsErr "SyntaxError: Unexpected token in JSON")
    end
  else
    inr {| cm_role := roleLowerCase (m_role msg);
           cm_content := m_content msg;
           cm_toolCalls := toolCalls;
           cm_toolResults := None |}.

(** [Array.prototype.map] with a callback that may throw. *)
Fixpoint mapThrowing {A B} (f : A -> Exn + B) (l : list A) : Exn + list B :=
  match l with
  | [] => inr []
  | x :: l' =>
      match f x with
      | inl e => inl e
      | inr y =>
          match mapThrowing f l' with
          | inl e => inl e
          | inr ys => inr (y :: ys)
          end
      end
  end.

Definition InvoiceLookupDefinition : ToolDefinition :=
  {| td_name := "InvoiceLookup";
     td_description := "Look up invoice or order details by order ID";
     td_parameters := "{type:'object',properties:{orderId:{type:'string',description:'The order ID to look up'}},required:['orderId']}" |}.

(** Build provider request from agent config and history *)
Definition buildProviderRequest (agent : Agent) (history : list ConversationMessage)
    (newMessage : string) : ProviderRequest :=
  let enabledTools := a_enabledTools agent in
  let tools :=
    if (0 <? length enabledTools)%nat then
      if bool_decide ("InvoiceLookup" ∈ enabledTools)
      then Some [InvoiceLookupDefinition]
      else None
    else None in
  {| systemPrompt := a_systemPrompt agent;
     temperature := a_temperature agent;
     maxTokens := a_maxTokens agent;
     messages := history ++
       [{| cm_role := R_user; cm_content := Text newMessage;
           cm_toolCalls := None; cm_toolResults := None |}];
     tools := tools |}.

Section Service.

Variable env : Env.

(** Get session with agent config for message processing *)
Definition getSessionWithAgent (tenantId sessionId : string) : M (Session * Agent) :=
  fun w =>
    match find (fun s => bool_decide (s_id s = sessionId)
                         && bool_decide (s_tenantId s = tenantId))
               (tbl_sessions w) with
    | None => (inl (AppErr (newAppError NotFoundError "Session not found")), w)
    | Some session =>
        match s_agent session with
        | None => (inl (AppErr (newAppError NotFoundError "Agent not found")), w)
        | Some agent => (inr (session, agent), w)
        end
    end.

(** Get next sequence number for a session *)
Definition getNextSequenceNumber (sessionId : string) : M Z :=
  fun w => (inr (get_next_message_sequence sessionId w), w).

(** Load conversation history for context *)
Definition loadConversationHistory (sessionId : string) : M (list ConversationMessage) :=
  messages ← message_findMany sessionId (session_maxHistoryMessages env);
  match mapThrowing toConversationMessage messages with
  | inl e => throw e
  | inr history => ret history
  end.

(** Find message by idempotency key *)
Definition findByIdempotencyKey (sessionId idempotencyKey : string)
  : M (option (Message * option ProviderCall)) :=
  userMessage ← message_findFirst
    (fun m => bool_decide (m_sessionId m = sessionId)
              && bool_decide (m_idempotencyKey m = Some idempotencyKey)
              && bool_decide (m_role m = USER));
  match userMessage with
  | None => ret None
  | Some userMessage =>
      assistantMessage ← message_findFirst
        (fun m => bool_decide (m_sessionId m = sessionId)
                  && (m_sequenceNumber m =? m_sequenceNumber userMessage + 1)
                  && bool_decide (m_role m = ASSISTANT));
      fun w => (inr ((fun a => (a, includeProviderCall w a)) <$> assistantMessage), w)
  end.

(** Create usage event for billing *)
Definition createUsageEvent (tenantId agentId sessionId : string) (demoMode : bool)
    (providerCall : ProviderCall) : M unit :=
  if demoMode then log Skipping_usage_event_for_demo_session
  else if negb (bool_decide (pc_status providerCall = SUCCESS))
  then log (Skipping_usage_event_for_non_successful_call (pc_id providerCall))
  else
    let costCents := Pricing.calculateCost (pc_provider providerCall)
                       (pc_tokensIn providerCall) (pc_tokensOut providerCall) in
    log (Creating_usage_event (pc_id providerCall));;
    tryCatch
      (transaction
         (updated_count ← providerCall_updateMany_billed (pc_id providerCall);
          if (updated_count =? 0)%nat
          then log (Skipping_usage_event_already_billed (pc_id providerCall))
          else
            usageEvent_create tenantId agentId sessionId providerCall costCents;;
            log (Usage_event_created_successfully (pc_id providerCall))))
      (fun error =>
         if bool_decide (exnCode error = Some "P2002")
         then log (Usage_event_already_exists (pc_id providerCall))
         else throw error).

(** Execute tool calls *)
Fixpoint executeToolCalls (toolCalls : list ToolCall) (agent : Agent)
    (context : Registry.ToolContext) : M (list ToolResultEntry) :=
  match toolCalls with
  | [] => ret []
  | toolCall :: rest =>
      log (Executing_tool_call (tc_id toolCall) (tc_name toolCall));;
      entry ← tryCatch
        (toolResult ← Registry.execute (registry env) (tc_name toolCall)
                        (tc_args toolCall) context (a_enabledTools agent);
         log (Tool_call_executed (tc_id toolCall) (Registry.success toolResult));;
         ret {| tr_id := tc_id toolCall;
                 tr_result := if Registry.success toolResult
                              then Registry.data toolResult else None;
                 tr_error := Registry.error toolResult |})
        (fun error =>
           let errorMsg := Registry.messageOrUnknown error in
           log (Tool_call_failed (tc_id toolCall) errorMsg);;
           ret {| tr_id := tc_id toolCall; tr_result := None;
                   tr_error := Some errorMsg |});
      results ← executeToolCalls rest agent context;
      ret (entry :: results)
  end.

(** The loop "Store tool result messages" of [sendMessage]. *)
Fixpoint storeToolResults (sessionId : string) (toolResults : list ToolResultEntry)
  : M unit :=
  match toolResults with
  | [] => ret tt
  | toolResult :: rest =>
      toolSequence ← getNextSequenceNumber sessionId;
      message_create sessionId toolSequence None TOOL (ToolJson toolResult) None None;;
      storeToolResults sessionId rest
  end.

(** [executeWithResilience], called from the service. *)
Definition executeWithResilience (request : ProviderRequest)
    (config : Orchestrator.OrchestratorConfig) : M Orchestrator.ProviderCallResult :=
  fun w =>
    let '(r, attempts) :=
      Orchestrator.executeWithResilience (retry_maxAttempts env) (adapters env)
        request config (attemptLog w) in
    (r,
     {| tbl_sessions := tbl_sessions w;
        tbl_messages := tbl_messages w;
        tbl_provider_calls := tbl_provider_calls w;
        tbl_usage_events := tbl_usage_events w;
        tbl_tool_executions := tbl_tool_executions w;
        sessionLocks := sessionLocks w;
        nextId := nextId w;
        attemptLog := attempts;
        logLines := logLines w |}).

Definition statusOf (result : Orchestrator.ProviderCallResult) : ProviderCallStatus :=
  if Orchestrator.r_success result then SUCCESS
  else getProviderCallStatus (Orchestrator.ei_code <$> Orchestrator.r_error result).

(** [result.error?.message || fallbackMessage] *)
Definition errorMessageOr (result : Orchestrator.ProviderCallResult)
    (fallbackMessage : string) : string :=
  from_option id fallbackMessage
    (truthy (Orchestrator.ei_message <$> Orchestrator.r_error result)).

(** [!result.success || !result.response] fails; otherwise the response. *)
Definition responseOf (result : Orchestrator.ProviderCallResult)
  : option ProviderResponse :=
  if Orchestrator.r_success result then Orchestrator.r_response result else None.

(** Step 8 of [sendMessage], entered when the response carries tool calls:
    the interim assistant message, the tool runs, their TOOL messages and
    the second provider call.  It yields the final response and the final
    provider call. *)
Definition handleToolCalls (tenantId sessionId correlationId : string)
    (agent : Agent) (response : ProviderResponse) (toolCalls : list ToolCall)
    (providerCall : ProviderCall) : M (ProviderResponse * ProviderCall) :=
  log (Processing_tool_calls (length toolCalls));;
  assistantSequence ← getNextSequenceNumber sessionId;
  message_create sessionId assistantSequence None ASSISTANT
    (Text (content response)) (Some toolCalls) (Some (pc_id providerCall));;
  toolResults ← executeToolCalls toolCalls agent
    {| Registry.ctx_tenantId := tenantId;
       Registry.ctx_sessionId := sessionId;
       Registry.ctx_correlationId := correlationId |};
  storeToolResults sessionId toolResults;;
  updatedHistory ← loadConversationHistory sessionId;
  let toolResultRequest := buildProviderRequest agent updatedHistory "" in
  log Calling_provider_with_tool_results;;
  finalResult ← executeWithResilience toolResultRequest
    {| Orchestrator.primaryProvider := a_primaryProvider agent;
       Orchestrator.fallbackProvider := a_fallbackProvider agent;
       Orchestrator.correlationId := Some correlationId |};
  finalProviderCall ← providerCall_create sessionId correlationId finalResult
    (statusOf finalResult);
  log (Final_provider_call_record_stored (pc_id finalProviderCall));;
  match responseOf finalResult with
  | None =>
      log Final_provider_call_failed;;
      throw (AppErr (newAppError ValidationError
               (errorMessageOr finalResult
                  "Failed to get final response from AI provider")))
  | Some finalResponse => ret (finalResponse, finalProviderCall)
  end.

(** The callback that [sendMessage] runs under the session lock
    (steps 3 to 10). *)
Definition processMessage (tenantId sessionId : string) (input : SendMessageInput)
    (correlationId : string) : M MessageResponse :=
  '(session, agent) ← getSessionWithAgent tenantId sessionId;
  if negb (bool_decide (s_status session = ACTIVE))
  then throw (AppErr (newAppError ValidationError
                        "Cannot send message to ended session"))
  else
    history ← loadConversationHistory sessionId;
    let providerRequest := buildProviderRequest agent history (in_content input) in
    userSequence ← getNextSequenceNumber sessionId;
    userMessage ← message_create sessionId userSequence (in_idempotencyKey input)
      USER (Text (in_content input)) None None;
    log (User_message_stored (m_id userMessage));;
    log Calling_AI_provider;;
    result ← executeWithResilience providerRequest
      {| Orchestrator.primaryProvider := a_primaryProvider agent;
         Orchestrator.fallbackProvider := a_fallbackProvider agent;
         Orchestrator.correlationId := Some correlationId |};
    providerCall ← providerCall_create sessionId correlationId result (statusOf result);
    log (Provider_call_record_stored (pc_id providerCall));;
    match responseOf result with
    | None =>
        log Provider_call_failed;;
        throw (AppErr (newAppError ValidationError
                 (errorMessageOr result "Failed to get response from AI provider")))
    | Some response =>
        '(finalResponse, finalProviderCall, initialProviderCall) ←
          match toolCalls response with
          | Some (toolCall :: rest) =>
              '(finalResponse, finalProviderCall) ←
                handleToolCalls tenantId sessionId correlationId agent response
                  (toolCall :: rest) providerCall;
              ret (finalResponse, finalProviderCall, Some providerCall)
          | _ => ret (response, providerCall, None)
          end;
        assistantSequence ← getNextSequenceNumber sessionId;
        assistantMessage ← message_create sessionId assistantSequence None ASSISTANT
          (Text (content finalResponse)) (toolCalls finalResponse)
          (Some (pc_id finalProviderCall));
        included ← (fun w => (inr (includeProviderCall w assistantMessage), w));
        log (Assistant_message_stored (m_id assistantMessage));;
        match initialProviderCall with
        | Some initial =>
            createUsageEvent tenantId (a_id agent) sessionId (s_demoMode session) initial
        | None => ret tt
        end;;
        createUsageEvent tenantId (a_id agent) sessionId (s_demoMode session)
          finalProviderCall;;
        log Message_processing_completed_successfully;;
        ret (formatMessageResponse (assistantMessage, included))
    end.

(** Acquire session lock to prevent concurrent message processing
    (the in-memory implementation the source runs with). *)
Definition withSessionLock {T} (lockKey : Z) (fn : M T) : M T :=
  fun w =>
    if from_option locked false (sessionLocks w !! lockKey)
    then
      (log Failed_to_acquire_session_lock;;
       throw (AppErr (newAppError ConflictError
         "Session is currently processing another message. Please retry."))) w
    else
      (setLocks (insert lockKey {| locked := true; timestamp := Date_now env |});;
       log Session_lock_acquired;;
       tryFinally fn
         (setLocks (delete lockKey);; log Session_lock_released)) w.

(** Step 1 of [sendMessage]: the idempotency check. *)
Definition checkIdempotency (sessionId : string) (input : SendMessageInput)
  : M (option (Message * option ProviderCall)) :=
  match truthy (in_idempotencyKey input) with
  | Some idempotencyKey => findByIdempotencyKey sessionId idempotencyKey
  | None => ret None
  end.

(** Steps 2 to 10 of [sendMessage]: what a caller does once its check of
    step 1 has found nothing. *)
Definition lockAndProcess (tenantId sessionId : string) (input : SendMessageInput)
  : M MessageResponse :=
  let correlationId :=
    from_option id (generateCorrelationId env) (truthy (in_correlationId input)) in
  withSessionLock (uuidToLockKey env sessionId)
    (processMessage tenantId sessionId input correlationId).

(** Send a message in a session (synchronous) *)
Definition sendMessage (tenantId sessionId : string) (input : SendMessageInput)
  : M MessageResponse :=
  log (Processing_message (bool_decide (is_Some (truthy (in_idempotencyKey input)))));;
  existing ← checkIdempotency sessionId input;
  match existing with
  | Some existing =>
      log Returning_cached_response_for_idempotency_key;;
      ret (formatMessageResponse existing)
  | None => lockAndProcess tenantId sessionId input
  end.

End Service.

End Service.

(** ** What the facts are stated with *)

Module Observe.
Import Store Service.

(** The sequence numbers of a session, in the order of insertion. *)
Definition sessionSequence (sessionId : string) (w : World) : list Z :=
  m_sequenceNumber <$> List.filter (ofSession sessionId) (tbl_messages w).

(** [1; 2; ...; n] *)
Definition oneToN (n : nat) : list Z := Z.of_nat <$> seq 1 n.

(** The columns a caller of [prisma.message.create] chooses. *)
Record NewMessage := {
  nm_idempotencyKey : option string;
  nm_role : MessageRole;
  nm_content : Content;
  nm_toolCalls : option (list ToolCall);
  nm_providerCallId : option nat
}.

(** The way every message is stored in [sendMessage]: allocate the next
    sequence number, then insert the row with it. *)
Definition allocateAndInsert (sessionId : string) (d : NewMessage) : M Message :=
  sequenceNumber ← getNextSequenceNumber sessionId;
  message_create sessionId sequenceNumber (nm_idempotencyKey d) (nm_role d)
    (nm_content d) (nm_toolCalls d) (nm_providerCallId d).

Fixpoint insertAll (sessionId : string) (ds : list NewMessage) : M unit :=
  match ds with
  | [] => ret tt
  | d :: rest => allocateAndInsert sessionId d;; insertAll sessionId rest
  end.

(** The number of usage events that reference a provider call. *)
Definition usageCount (providerCallId : nat) (w : World) : nat :=
  length (List.filter (fun ue => bool_decide (ue_providerCallId ue = providerCallId))
            (tbl_usage_events w)).

(** What the schema and the billing recorder maintain: no provider call has
    two usage events (the unique index on [providerCallId]), and a provider
    call marked as billed has its usage event (the flag is only ever set in
    the transaction that inserts the event). *)
Record BillingConsistent (w : World) : Prop := {
  bc_unique : forall id, (usageCount id w <= 1)%nat;
  bc_billed : forall pc, pc ∈ tbl_provider_calls w -> pc_billed pc = true ->
                         usageCount (pc_id pc) w = 1%nat
}.

(** [n] invocations in a row. *)
Fixpoint repeatM (n : nat) (m : M unit) : M unit :=
  match n with
  | O => ret tt
  | S n' => m;; repeatM n' m
  end.

(** The world with [lines] appended to its log. *)
Definition logged (lines : list LogLine) (w : World) : World :=
  {| tbl_sessions := tbl_sessions w;
     tbl_messages := tbl_messages w;
     tbl_provider_calls := tbl_provider_calls w;
     tbl_usage_events := tbl_usage_events w;
     tbl_tool_executions := tbl_tool_executions w;
     sessionLocks := sessionLocks w;
     nextId := nextId w;
     attemptLog := attemptLog w;
     logLines := logLines w ++ lines |}.

(** A computation that leaves a component of the world as it found it,
    however it ends. *)
Definition Keeps {A B} (component : World -> B) (m : M A) : Prop :=
  forall w r w', m w = (r, w') -> component w' = component w.

(** The history of the session can be loaded. *)
Definition HistoryLoads (env : Env) (sessionId : string) (w : World) : Prop :=
  exists history, loadConversationHistory env sessionId w = (inr history, w).

(** The ways a tool call fails: the tool is not registered, it is not
    enabled for the agent, its timer fires first, or it throws. *)
Definition ToolFails (env : Env) (agent : Agent) (context : Registry.ToolContext)
    (toolCall : ToolCall) : Prop :=
  registry env !! tc_name toolCall = None
  \/ tc_name toolCall ∉ a_enabledTools agent
  \/ exists tool,
       registry env !! tc_name toolCall = Some tool
       /\ (Registry.run tool (tc_args toolCall) context = Registry.TimerFirst
           \/ exists e, Registry.run tool (tc_args toolCall) context
                        = Registry.RejectedWith e).

(** What [executeToolCalls] is to record for one call: the id of the call;
    for a call that fails no result, and an error message; the messages of
    NOT_FOUND and FORBIDDEN for a tool that is not registered, or is
    registered and not enabled. *)
Definition EntryFor (env : Env) (agent : Agent) (context : Registry.ToolContext)
    (toolCall : ToolCall) (entry : ToolResultEntry) : Prop :=
  tr_id entry = tc_id toolCall
  /\ (ToolFails env agent context toolCall ->
      tr_result entry = None /\ is_Some (tr_error entry))
  /\ (registry env !! tc_name toolCall = None ->
      tr_error entry = Some ("Tool '" +:+ tc_name toolCall +:+ "' not found"))
  /\ (is_Some (registry env !! tc_name toolCall) ->
      tc_name toolCall ∉ a_enabledTools agent ->
      tr_error entry = Some ("Tool '" +:+ tc_name toolCall
                             +:+ "' is not enabled for this agent")).

End Observe.

(** ** Scenarios *)

Module Scenario.
Import Store Service Observe.

Definition agent1 : Agent :=
  {| a_id := "a1"; a_primaryProvider := VENDOR_A;
     a_fallbackProvider := Some VENDOR_B;
     a_systemPrompt := "You are a helpful assistant.";
     a_temperature := 0.7; a_maxTokens := 100;
     a_enabledTools := ["InvoiceLookup"] |}.

Definition session1 : Session :=
  {| s_id := "s1"; s_tenantId := "t1"; s_agent := Some agent1;
     s_status := ACTIVE; s_demoMode := false |}.

(** One active session, nothing else. *)
Definition w0 : World :=
  {| tbl_sessions := [session1]; tbl_messages := []; tbl_provider_calls := [];
     tbl_usage_events := []; tbl_tool_executions := []; sessionLocks := ∅;
     nextId := 0; attemptLog := []; logLines := [] |}.

Definition hello : ProviderResponse :=
  {| content := "Hello"; tokensIn := 10; tokensOut := 20; latencyMs := 100;
     toolCalls := None |}.

Definition invoiceLookup : Registry.Tool :=
  {| Registry.name := "InvoiceLookup";
     Registry.description := "Look up invoice or order details by order ID";
     Registry.parameters := "{}";
     Registry.estimatedCostCents := 0;
     Registry.timeoutMs := 5000;
     Registry.run := fun args _ =>
       Registry.Fulfilled {| Registry.success := true;
                             Registry.data := Some "{status:'shipped'}";
                             Registry.error := None |} |}.

(** The error of the mocked vendor A: a [ProviderError] that the adapter
    marks with status 500 and [retryable]. *)
Definition serverError : Exn :=
  AppErr {| cls := ProviderError; message := "VendorA internal server error";
            statusCode := 500; retryableFlag := true; retryAfterMs := None |}.

Definition schemaError : Exn :=
  AppErr (newAppError ProviderSchemaError "Invalid response schema").

Definition envWith
    (adapters : ProviderType -> nat -> ProviderRequest -> Orchestrator.AdapterOutcome)
  : Env :=
  {| retry_maxAttempts := 3; session_maxHistoryMessages := 50;
     adapters := adapters;
     registry := {[ "InvoiceLookup" := invoiceLookup ]};
     uuidToLockKey := fun _ => 42;
     generateCorrelationId := "corr_1";
     Date_now := 0 |}.

(** Both vendors answer. *)
Definition envOk : Env := envWith (fun _ _ _ => Orchestrator.Resolved hello).

(** The error in which the adapter of vendor B wraps a failure of its
    transport: a [ProviderError] with the status 502 of its class. *)
Definition gatewayError : Exn :=
  AppErr (newAppError ProviderError "VendorB request failed: socket hang up").

(** Both vendors fail with a retryable error. *)
Definition rejecting : ProviderType -> nat -> ProviderRequest -> Orchestrator.AdapterOutcome :=
  fun provider _ _ =>
    match provider with
    | VENDOR_A => Orchestrator.Rejected serverError 5
    | VENDOR_B => Orchestrator.Rejected gatewayError 5
    end.

Definition envDown : Env := envWith rejecting.

(** The vendors ask for two tools and, on the follow-up request (the one
    that ends with an empty user turn), answer.  The second tool is not
    registered. *)
Definition endsWithEmptyUserTurn (request : ProviderRequest) : bool :=
  match last (messages request) with
  | Some m => match cm_content m with
              | Text s => bool_decide (s = "")
              | ToolJson _ => false
              end
  | None => false
  end.

Definition twoCalls : list ToolCall :=
  [{| tc_id := "call_1"; tc_name := "InvoiceLookup"; tc_args := "{orderId:'12345'}" |};
   {| tc_id := "call_2"; tc_name := "Refund"; tc_args := "{}" |}].

Definition asking : ProviderResponse :=
  {| content := ""; tokensIn := 12; tokensOut := 8; latencyMs := 90;
     toolCalls := Some twoCalls |}.

Definition answering : ProviderResponse :=
  {| content := "Your order has shipped."; tokensIn := 40; tokensOut := 9;
     latencyMs := 80; toolCalls := None |}.

Definition envTools : Env :=
  envWith (fun _ _ request =>
             if endsWithEmptyUserTurn request then Orchestrator.Resolved answering
             else Orchestrator.Resolved asking).

Definition withKey (content key : string) : SendMessageInput :=
  {| in_content := content; in_idempotencyKey := Some key; in_correlationId := None |}.

Definition request1 : ProviderRequest :=
  buildProviderRequest agent1 [] "hello".

Definition configAB : Orchestrator.OrchestratorConfig :=
  {| Orchestrator.primaryProvider := VENDOR_A;
     Orchestrator.fallbackProvider := Some VENDOR_B;
     Orchestrator.correlationId := None |}.

(** The primary path of [configAB] against vendors that are down. *)
Definition primaryRun :=
  Orchestrator.executeWithRetry 3 rejecting request1 VENDOR_A
    {| Orchestrator.attemptNumber := 0; Orchestrator.errors := [] |} false [].

(** A plain message to store. *)
Definition plain (role : MessageRole) (text : string) : NewMessage :=
  {| nm_idempotencyKey := None; nm_role := role; nm_content := Text text;
     nm_toolCalls := None; nm_providerCallId := None |}.

(** A session of 51 messages: 25 exchanges and one more question. *)
Definition exchanges (n : nat) : list NewMessage :=
  mjoin (replicate n [plain USER "question"; plain ASSISTANT "answer"]).

Definition w51 : World :=
  (insertAll "s1" (exchanges 25 ++ [plain USER "latest question"]) w0).2.

(** The world a provider call of [w0]'s session is stored in. *)
Definition success1 : Orchestrator.ProviderCallResult :=
  {| Orchestrator.r_success := true; Orchestrator.r_response := Some hello;
     Orchestrator.r_error := None; Orchestrator.r_provider := VENDOR_A;
     Orchestrator.r_isFallback := false; Orchestrator.r_attemptNumber := 1;
     Orchestrator.r_latencyMs := 100 |}.

Definition stored1 := providerCall_create "s1" "corr_1" success1 SUCCESS w0.

Definition providerCall1 : ProviderCall :=
  match stored1.1 with
  | inr row => row
  | inl _ =>
      {| pc_id := 0; pc_sessionId := ""; pc_correlationId := "";
         pc_provider := VENDOR_A; pc_isFallback := false; pc_tokensIn := 0;
         pc_tokensOut := 0; pc_latencyMs := 0; pc_status := FAILED;
         pc_errorCode := None; pc_errorMessage := None; pc_attemptNumber := 0;
         pc_billed := false |}
  end.

End Scenario.

(** ** What the further facts are stated with *)

Module Behaviour.
Import Store Service Observe.

(** [n] consecutive numbers, the first of which is [start]. *)
Definition consecutiveFrom (start : Z) (n : nat) : list Z :=
  (fun i => start + Z.of_nat i) <$> seq 0 n.

(** A computation that only adds to the messages table, adds messages of
    one session only, and numbers them consecutively from the next
    sequence number of that session. *)
Definition Appends {A} (sessionId : string) (m : M A) : Prop :=
  forall w r w', m w = (r, w') ->
    exists new,
      tbl_messages w' = tbl_messages w ++ new
      /\ Forall (fun x => m_sessionId x = sessionId) new
      /\ m_sequenceNumber <$> new
         = consecutiveFrom (get_next_message_sequence sessionId w) (length new).

(** A computation that throws nothing but errors of a given kind. *)
Definition Throws {A} (allowed : Exn -> Prop) (m : M A) : Prop :=
  forall w e w', m w = (inl e, w') -> allowed e.

(** A computation that, when it throws, has left a component of the world
    as it found it. *)
Definition KeepsOnFailure {A B} (component : World -> B) (m : M A) : Prop :=
  forall w e w', m w = (inl e, w') -> component w' = component w.

(** The errors that leave the message pipeline: the [AppError]s the
    services construct themselves, the refusals of a unique index, and
    plain JavaScript errors ([JSON.parse], a property read of
    [undefined]). *)
Inductive PipelineError : Exn -> Prop :=
| pe_not_found msg : PipelineError (AppErr (newAppError NotFoundError msg))
| pe_validation msg : PipelineError (AppErr (newAppError ValidationError msg))
| pe_conflict msg : PipelineError (AppErr (newAppError ConflictError msg))
| pe_unique target : PipelineError (P2002 target)
| pe_javascript msg : PipelineError (JsErr msg).

(** A computation that keeps a property of the world, however it ends. *)
Definition Preserves {A} (invariant : World -> Prop) (m : M A) : Prop :=
  forall w r w', invariant w -> m w = (r, w') -> invariant w'.

(** A usage event that is priced from its own columns, for a tenant and a
    session. *)
Definition WellPriced (tenantId sessionId : string) (ue : UsageEvent) : Prop :=
  ue_tenantId ue = tenantId
  /\ ue_sessionId ue = sessionId
  /\ ue_totalTokens ue = ue_tokensIn ue + ue_tokensOut ue
  /\ ue_costCents ue
     = Pricing.calculateCost (ue_provider ue) (ue_tokensIn ue) (ue_tokensOut ue)
  /\ ue_pricingSnapshot ue = Pricing.getPricingSnapshot (ue_provider ue).

(** A computation that only adds to the usage events, and adds events
    that are priced from their own columns. *)
Definition Bills {A} (tenantId sessionId : string) (m : M A) : Prop :=
  forall w r w', m w = (r, w') ->
    exists new,
      tbl_usage_events w' = tbl_usage_events w ++ new
      /\ Forall (WellPriced tenantId sessionId) new.

(** [sessionLocks.get(lockKeyStr)?.locked] *)
Definition held (lockKey : Z) (w : World) : bool :=
  from_option locked false (sessionLocks w !! lockKey).

(** A computation that either stores no message and throws, or stores an
    ASSISTANT message of the session at its next sequence number, and
    possibly more after it. *)
Definition Answers {A} (sessionId : string) (m : M A) : Prop :=
  forall w r w', m w = (r, w') ->
    (tbl_messages w' = tbl_messages w /\ exists e, r = inl e)
    \/ exists reply rest,
         tbl_messages w' = tbl_messages w ++ reply :: rest
         /\ m_role reply = ASSISTANT
         /\ m_sessionId reply = sessionId
         /\ m_sequenceNumber reply = get_next_message_sequence sessionId w.

(** A provider call but for its [billed] flag, and the provider calls of a
    world but for their flags. *)
Definition unbilledCopy (pc : ProviderCall) : ProviderCall :=
  {| pc_id := pc_id pc; pc_sessionId := pc_sessionId pc;
     pc_correlationId := pc_correlationId pc; pc_provider := pc_provider pc;
     pc_isFallback := pc_isFallback pc; pc_tokensIn := pc_tokensIn pc;
     pc_tokensOut := pc_tokensOut pc; pc_latencyMs := pc_latencyMs pc;
     pc_status := pc_status pc; pc_errorCode := pc_errorCode pc;
     pc_errorMessage := pc_errorMessage pc;
     pc_attemptNumber := pc_attemptNumber pc; pc_billed := false |}.

Definition callsButBilled (w : World) : list ProviderCall :=
  unbilledCopy <$> tbl_provider_calls w.


(** The state in which a failed invocation leaves the key of its USER
    message: the session is found, ACTIVE and not locked, its history
    loads, the key is taken by a stored message, and the idempotency check
    finds no response for it. *)
Record KeyBlocked (env : Env) (tenantId sessionId : string) (input : SendMessageInput)
    (w : World) : Prop := {
  kb_free : held (uuidToLockKey env sessionId) w = false;
  kb_session : exists session agent,
      (getSessionWithAgent tenantId sessionId w).1 = inr (session, agent)
      /\ s_status session = ACTIVE;
  kb_history : HistoryLoads env sessionId w;
  kb_taken : existsb (clashesKey sessionId (in_idempotencyKey input)) (tbl_messages w) = true;
  kb_unanswered : checkIdempotency sessionId input w = (inr None, w)
}.

End Behaviour.


(** ** The rest of the session service (services/session.service.ts), the
       transcript reader and the lock sweeper of the message service *)

Module Sessions.
Import Store Service.

(** [prisma.session.findFirst({where: {id: sessionId, tenantId}})] *)
Definition session_findFirst (tenantId sessionId : string) : M (option Session) :=
  fun w =>
    (inr (find (fun s => bool_decide (s_id s = sessionId)
                         && bool_decide (s_tenantId s = tenantId))
               (tbl_sessions w)), w).

(** Get session by ID (tenant-scoped) *)
Definition getSessionById (tenantId sessionId : string) : M Session :=
  session ← session_findFirst tenantId sessionId;
  match session with
  | None => throw (AppErr (newAppError NotFoundError "Session not found"))
  | Some session => ret session
  end.

(** [data: {status: 'ENDED', endedAt: new Date()}]; like [createdAt], the
    column [endedAt] is left out of the rows. *)
Definition ended (session : Session) : Session :=
  {| s_id := s_id session; s_tenantId := s_tenantId session;
     s_agent := s_agent session; s_status := ENDED;
     s_demoMode := s_demoMode session |}.

(** [prisma.session.update({where: {id: sessionId}, data})]: the row is
    found by its primary key alone; without a row the call throws P2025. *)
Definition session_update_ended (sessionId : string) : M Session :=
  fun w =>
    match find (fun s => bool_decide (s_id s = sessionId)) (tbl_sessions w) with
    | None =>
        (inl (PrismaErr "P2025"
                "An operation failed because it depends on one or more records that were required but not found. Record to update not found."), w)
    | Some session =>
        (inr (ended session),
         {| tbl_sessions :=
              (fun s => if bool_decide (s_id s = sessionId) then ended s else s)
                <$> tbl_sessions w;
            tbl_messages := tbl_messages w;
            tbl_provider_calls := tbl_provider_calls w;
            tbl_usage_events := tbl_usage_events w;
            tbl_tool_executions := tbl_tool_executions w;
            sessionLocks := sessionLocks w;
            nextId := nextId w;
            attemptLog := attemptLog w;
            logLines := logLines w |})
    end.

(** End a session *)
Definition endSession (tenantId sessionId : string) : M Session :=
  getSessionById tenantId sessionId;;
  session_update_ended sessionId.

(** Get messages for a session (services/tenant.service.ts, line 906) *)
Definition getSessionMessages (tenantId sessionId : string) : M (list Message) :=
  session ← session_findFirst tenantId sessionId;
  match session with
  | None => throw (AppErr (newAppError NotFoundError "Session not found"))
  | Some _ =>
      fun w =>
        (inr (orderBySequenceAsc (List.filter (ofSession sessionId) (tbl_messages w))), w)
  end.

(** The handler that [setInterval] runs every 30 seconds over the in-memory
    lock map: an entry that is held and older than [lockTimeoutMs]
    (config.session.lockTimeoutMs) is deleted.  The warning it writes goes
    to the global logger. *)
Definition stale (now lockTimeoutMs : Z) (lock : Lock) : bool :=
  locked lock && (lockTimeoutMs <? now - timestamp lock).

Definition cleanupStaleLocks (now lockTimeoutMs : Z) : M unit :=
  setLocks (filter (fun entry => stale now lockTimeoutMs entry.2 = false)).

End Sessions.

(** ** The job queue (services/job.service.ts) and the route that fills it
       (POST /sessions/:sessionId/messages/async, routes/sessions.ts) *)

Module Jobs.
Import Store Service Sessions.

Inductive JobType := SEND_MESSAGE | VOICE_PROCESS.
Inductive JobStatus := J_PENDING | J_PROCESSING | J_COMPLETED | J_FAILED.

#[global] Instance JobType_eq_dec : EqDecision JobType.
Proof. solve_decision. Defined.
#[global] Instance JobStatus_eq_dec : EqDecision JobStatus.
Proof. solve_decision. Defined.

(** The [input] column of the jobs the route creates. *)
Record JobInput := { ji_sessionId : string; ji_content : string }.

(** What [executeSendMessage] returns, stored in the [output] column. *)
Record JobOutput := {
  jo_messageId : nat;
  jo_content : Content;
  jo_metadata : Metadata
}.

(** A row of the [jobs] table.  The rows of the table are in insertion
    order, which is the order of [createdAt]; [createdAt] and [updatedAt]
    are left out. *)
Record Job := {
  j_id : nat;
  j_tenantId : string;
  j_type : JobType;
  j_idempotencyKey : option string;
  j_input : JobInput;
  j_output : option JobOutput;
  j_status : JobStatus;
  j_progress : Z;
  j_errorMessage : option string;
  j_callbackUrl : option string;
  j_callbackSent : bool;
  j_lockedAt : option Z;
  j_lockedBy : option string;
  j_lockExpiresAt : option Z;
  j_attempts : Z;
  j_maxAttempts : Z;
  j_lastError : option string;
  j_startedAt : option Z;
  j_completedAt : option Z
}.

(** The body that [sendCallback] posts. *)
Record CallbackPayload := {
  cb_jobId : nat;
  cb_type : JobType;
  cb_status : string;
  cb_result : option JobOutput;
  cb_error : option string;
  cb_completedAt : Z
}.

(** How [fetch] settles: with a response, whose [ok] tells a 2xx status,
    or with a rejection. *)
Inductive FetchOutcome :=
| Responded (ok : bool)
| FetchRejected (error : Exn).

(** What the worker takes from its surroundings: its own name, the
    configuration (config.jobs), whether the Prisma client offers field
    references ([tx.job.fields]), and the network. *)
Record Worker := {
  workerId : string;
  jobs_lockDurationMs : Z;
  jobs_maxAttempts : Z;
  fieldReferences : bool;
  fetch : string -> CallbackPayload -> FetchOutcome
}.

(** The readings of the clock in one round of the worker: at its start,
    when the job has run, and when the callback is built. *)
Record Clock := { at_start : Z; at_end : Z; at_callback : Z }.

(** The database with its [jobs] table, and the requests that went out. *)
Record Db := {
  world : World;
  tbl_jobs : list Job;
  nextJobId : nat;
  requests : list (string * CallbackPayload)
}.

Definition withWorld (w : World) (db : Db) : Db :=
  {| world := w; tbl_jobs := tbl_jobs db; nextJobId := nextJobId db;
     requests := requests db |}.

(** [prisma.job.update({where: {id}, data})].  Rows of the table are never
    deleted, so the row of a job that was read is there. *)
Definition job_update (id : nat) (data : Job -> Job) (db : Db) : Db :=
  {| world := world db;
     tbl_jobs := (fun job => if bool_decide (j_id job = id) then data job else job)
                   <$> tbl_jobs db;
     nextJobId := nextJobId db;
     requests := requests db |}.

(** *** The [data] of the updates *)

Definition claimed (workerId : string) (now lockExpiresAt : Z) (job : Job) : Job :=
  {| j_id := j_id job; j_tenantId := j_tenantId job; j_type := j_type job;
     j_idempotencyKey := j_idempotencyKey job; j_input := j_input job;
     j_output := j_output job;
     j_status := J_PROCESSING;
     j_progress := j_progress job; j_errorMessage := j_errorMessage job;
     j_callbackUrl := j_callbackUrl job; j_callbackSent := j_callbackSent job;
     j_lockedAt := Some now;
     j_lockedBy := Some workerId;
     j_lockExpiresAt := Some lockExpiresAt;
     j_attempts := j_attempts job + 1;
     j_maxAttempts := j_maxAttempts job; j_lastError := j_lastError job;
     j_startedAt := Some (from_option id now (j_startedAt job));
     j_completedAt := j_completedAt job |}.

Definition withProgress (progress : Z) (job : Job) : Job :=
  {| j_id := j_id job; j_tenantId := j_tenantId job; j_type := j_type job;
     j_idempotencyKey := j_idempotencyKey job; j_input := j_input job;
     j_output := j_output job; j_status := j_status job;
     j_progress := progress;
     j_errorMessage := j_errorMessage job;
     j_callbackUrl := j_callbackUrl job; j_callbackSent := j_callbackSent job;
     j_lockedAt := j_lockedAt job; j_lockedBy := j_lockedBy job;
     j_lockExpiresAt := j_lockExpiresAt job; j_attempts := j_attempts job;
     j_maxAttempts := j_maxAttempts job; j_lastError := j_lastError job;
     j_startedAt := j_startedAt job; j_completedAt := j_completedAt job |}.

Definition completed (result : JobOutput) (now : Z) (job : Job) : Job :=
  {| j_id := j_id job; j_tenantId := j_tenantId job; j_type := j_type job;
     j_idempotencyKey := j_idempotencyKey job; j_input := j_input job;
     j_output := Some result;
     j_status := J_COMPLETED;
     j_progress := 100;
     j_errorMessage := j_errorMessage job;
     j_callbackUrl := j_callbackUrl job; j_callbackSent := j_callbackSent job;
     j_lockedAt := None; j_lockedBy := None; j_lockExpiresAt := None;
     j_attempts := j_attempts job; j_maxAttempts := j_maxAttempts job;
     j_lastError := j_lastError job; j_startedAt := j_startedAt job;
     j_completedAt := Some now |}.

Definition failed (shouldRetry : bool) (errorMessage : string) (now : Z) (job : Job)
  : Job :=
  {| j_id := j_id job; j_tenantId := j_tenantId job; j_type := j_type job;
     j_idempotencyKey := j_idempotencyKey job; j_input := j_input job;
     j_output := j_output job;
     j_status := if shouldRetry then J_PENDING else J_FAILED;
     j_progress := j_progress job;
     j_errorMessage := if shouldRetry then None else Some errorMessage;
     j_callbackUrl := j_callbackUrl job; j_callbackSent := j_callbackSent job;
     j_lockedAt := None; j_lockedBy := None; j_lockExpiresAt := None;
     j_attempts := j_attempts job; j_maxAttempts := j_maxAttempts job;
     j_lastError := Some errorMessage;
     j_startedAt := j_startedAt job;
     j_completedAt := if shouldRetry then None else Some now |}.

Definition withCallbackSent (job : Job) : Job :=
  {| j_id := j_id job; j_tenantId := j_tenantId job; j_type := j_type job;
     j_idempotencyKey := j_idempotencyKey job; j_input := j_input job;
     j_output := j_output job; j_status := j_status job;
     j_progress := j_progress job; j_errorMessage := j_errorMessage job;
     j_callbackUrl := j_callbackUrl job;
     j_callbackSent := true;
     j_lockedAt := j_lockedAt job; j_lockedBy := j_lockedBy job;
     j_lockExpiresAt := j_lockExpiresAt job; j_attempts := j_attempts job;
     j_maxAttempts := j_maxAttempts job; j_lastError := j_lastError job;
     j_startedAt := j_startedAt job; j_completedAt := j_completedAt job |}.

Definition recovered (job : Job) : Job :=
  {| j_id := j_id job; j_tenantId := j_tenantId job; j_type := j_type job;
     j_idempotencyKey := j_idempotencyKey job; j_input := j_input job;
     j_output := j_output job;
     j_status := J_PENDING;
     j_progress := j_progress job; j_errorMessage := j_errorMessage job;
     j_callbackUrl := j_callbackUrl job; j_callbackSent := j_callbackSent job;
     j_lockedAt := None; j_lockedBy := None; j_lockExpiresAt := None;
     j_attempts := j_attempts job; j_maxAttempts := j_maxAttempts job;
     j_lastError := j_lastError job; j_startedAt := j_startedAt job;
     j_completedAt := j_completedAt job |}.

(** [column < value] of SQL: not true of NULL. *)
Definition sqlLt (column : option Z) (value : Z) : bool :=
  from_option (fun x => x <? value) false column.

(** The test [if (s)] of an optional string. *)
Definition isTruthy (s : option string) : bool :=
  match truthy s with Some _ => true | None => false end.

(** [n || fallback] on numbers. *)
Definition orNumber (n fallback : Z) : Z := if n =? 0 then fallback else n.

Section Worker.

Variable env : Env.
Variable worker : Worker.

(** [attempts: {lt: tx.job.fields?.maxAttempts || config.jobs.maxAttempts}]:
    with field references the bound is the row's own [maxAttempts] column,
    without them the configured number. *)
Definition attemptsBound (job : Job) : Z :=
  if fieldReferences worker then j_maxAttempts job else jobs_maxAttempts worker.

(** The [where] of the claim. *)
Definition available (now : Z) (job : Job) : bool :=
  (bool_decide (j_status job = J_PENDING) || bool_decide (j_status job = J_PROCESSING))
  && (bool_decide (j_lockedAt job = None) || sqlLt (j_lockExpiresAt job) now)
  && (j_attempts job <? attemptsBound job).

(** Atomic claim: find unlocked job and lock it *)
Definition claim (now lockExpiresAt : Z) (db : Db) : option Job * Db :=
  match find (available now) (tbl_jobs db) with
  | None => (None, db)
  | Some available =>
      (Some (claimed (workerId worker) now lockExpiresAt available),
       job_update (j_id available) (claimed (workerId worker) now lockExpiresAt) db)
  end.

Definition executeSendMessage (job : Job) (db : Db) : (Exn + JobOutput) * Db :=
  let input := j_input job in
  let db1 := job_update (j_id job) (withProgress 50) db in
  match sendMessage env (j_tenantId job) (ji_sessionId input)
          {| in_content := ji_content input;
             in_idempotencyKey := j_idempotencyKey job;
             in_correlationId := None |} (world db1) with
  | (inl error, w) => (inl error, withWorld w db1)
  | (inr result, w) =>
      (inr {| jo_messageId := mr_id result;
              jo_content := mr_content result;
              jo_metadata := mr_metadata result |},
       withWorld w db1)
  end.

Definition executeJob (job : Job) (db : Db) : (Exn + JobOutput) * Db :=
  match j_type job with
  | SEND_MESSAGE => executeSendMessage job db
  | VOICE_PROCESS => (inl (JsErr "Voice processing not implemented"), db)
  end.

Definition sendCallback (now : Z) (job : Job) (result : option JobOutput)
    (error : option string) (db : Db) : Db :=
  match truthy (j_callbackUrl job) with
  | None => db
  | Some callbackUrl =>
      let payload :=
        {| cb_jobId := j_id job;
           cb_type := j_type job;
           cb_status := if isTruthy error then "FAILED" else "COMPLETED";
           cb_result := if isTruthy error then None else result;
           cb_error := error;
           cb_completedAt := now |} in
      let db1 :=
        {| world := world db; tbl_jobs := tbl_jobs db; nextJobId := nextJobId db;
           requests := requests db ++ [(callbackUrl, payload)] |} in
      match fetch worker callbackUrl payload with
      | Responded _ => job_update (j_id job) withCallbackSent db1
      | FetchRejected _ => db1
      end
  end.

(** One round of the worker.  Nothing leaves it: what [executeJob] throws
    is caught, and [sendCallback] catches its own errors. *)
Definition processNextJob (clock : Clock) (db : Db) : Db :=
  let now := at_start clock in
  let lockExpiresAt := now + jobs_lockDurationMs worker in
  match claim now lockExpiresAt db with
  | (None, db1) => db1
  | (Some job, db1) =>
      match executeJob job db1 with
      | (inr result, db2) =>
          let db3 := job_update (j_id job) (completed result (at_end clock)) db2 in
          if isTruthy (j_callbackUrl job)
          then sendCallback (at_callback clock) job (Some result) None db3
          else db3
      | (inl error, db2) =>
          let errorMessage := errorObjMessage error in
          let shouldRetry :=
            j_attempts job <? orNumber (j_maxAttempts job) (jobs_maxAttempts worker) in
          let db3 :=
            job_update (j_id job) (failed shouldRetry errorMessage (at_end clock)) db2 in
          if shouldRetry then db3
          else if isTruthy (j_callbackUrl job)
               then sendCallback (at_callback clock) job None (Some errorMessage) db3
               else db3
      end
  end.

(** The rounds of [poll], one for each element of a list of clock
    readings. *)
Definition rounds (clocks : list Clock) (db : Db) : Db :=
  foldl (fun db clock => processNextJob clock db) db clocks.

(** The [where] of the recovery at the start of the worker. *)
Definition isStale (now : Z) (job : Job) : bool :=
  bool_decide (j_status job = J_PROCESSING) && sqlLt (j_lockExpiresAt job) now.

(** [prisma.job.updateMany] over the stale jobs *)
Definition recoverStaleJobs (now : Z) (db : Db) : Db :=
  {| world := world db;
     tbl_jobs := (fun job => if isStale now job then recovered job else job)
                   <$> tbl_jobs db;
     nextJobId := nextJobId db;
     requests := requests db |}.

End Worker.

(** *** The route *)

(** [prisma.job.findUnique({where: {tenantId_idempotencyKey: ...}})] *)
Definition job_findUnique (tenantId idempotencyKey : string) (db : Db) : option Job :=
  find (fun job => bool_decide (j_tenantId job = tenantId)
                   && bool_decide (j_idempotencyKey job = Some idempotencyKey))
       (tbl_jobs db).

(** Unique index [jobs_tenantId_idempotencyKey_key]; rows whose key is NULL
    never clash. *)
Definition clashesJobKey (tenantId : string) (key : option string) (job : Job) : bool :=
  match key with
  | Some k => bool_decide (j_tenantId job = tenantId)
              && bool_decide (j_idempotencyKey job = Some k)
  | None => false
  end.

(** [prisma.job.create]: the columns the route does not give take the
    defaults of the table. *)
Definition job_create (tenantId : string) (idempotencyKey : option string)
    (input : JobInput) (callbackUrl : option string) (db : Db) : (Exn + Job) * Db :=
  if existsb (clashesJobKey tenantId idempotencyKey) (tbl_jobs db)
  then (inl (P2002 "(`tenantId`,`idempotencyKey`)"), db)
  else
    let row :=
      {| j_id := nextJobId db; j_tenantId := tenantId; j_type := SEND_MESSAGE;
         j_idempotencyKey := idempotencyKey; j_input := input;
         j_output := None; j_status := J_PENDING; j_progress := 0;
         j_errorMessage := None; j_callbackUrl := callbackUrl;
         j_callbackSent := false; j_lockedAt := None; j_lockedBy := None;
         j_lockExpiresAt := None; j_attempts := 0; j_maxAttempts := 3;
         j_lastError := None; j_startedAt := None; j_completedAt := None |} in
    (inr row,
     {| world := world db; tbl_jobs := tbl_jobs db ++ [row];
        nextJobId := S (nextJobId db); requests := requests db |}).

(** The reply of the route: the HTTP status, and the job it names. *)
Record AsyncReply := {
  rp_statusCode : Z;
  rp_jobId : nat;
  rp_status : JobStatus
}.

(** Send a message (asynchronous - returns job ID): the handler, once the
    body has passed its schema. *)
Definition sendMessageAsync (tenantId sessionId : string)
    (idempotencyKey : option string) (content : string) (callbackUrl : option string)
    (db : Db) : (Exn + AsyncReply) * Db :=
  match getSessionById tenantId sessionId (world db) with
  | (inl error, w) => (inl error, withWorld w db)
  | (inr _, w) =>
      let db1 := withWorld w db in
      let create :=
        match job_create tenantId idempotencyKey
                {| ji_sessionId := sessionId; ji_content := content |} callbackUrl db1 with
        | (inl error, db2) => (inl error, db2)
        | (inr job, db2) =>
            (inr {| rp_statusCode := 202; rp_jobId := j_id job;
                    rp_status := j_status job |}, db2)
        end in
      match truthy idempotencyKey with
      | Some key =>
          match job_findUnique tenantId key db1 with
          | Some existingJob =>
              (inr {| rp_statusCode := 200; rp_jobId := j_id existingJob;
                      rp_status := j_status existingJob |}, db1)
          | None => create
          end
      | None => create
      end
  end.

End Jobs.

(** ** What the facts about the job queue are stated with *)

Module JobBehaviour.
Import Store Service Sessions Jobs.

(** Whom a job belongs to: its id, its tenant and its idempotency key. *)
Definition identity (job : Job) : nat * string * option string :=
  (j_id job, j_tenantId job, j_idempotencyKey job).

Section Worker.

Variable worker : Worker.

(** What a round has done to the row of the job it ran. *)
Record Ran (clock : Clock) (job job' : Job) : Prop := {
  ran_id : j_id job' = j_id job;
  ran_tenantId : j_tenantId job' = j_tenantId job;
  ran_type : j_type job' = j_type job;
  ran_idempotencyKey : j_idempotencyKey job' = j_idempotencyKey job;
  ran_input : j_input job' = j_input job;
  ran_callbackUrl : j_callbackUrl job' = j_callbackUrl job;
  ran_maxAttempts : j_maxAttempts job' = j_maxAttempts job;
  ran_attempts : j_attempts job' = j_attempts job + 1;
  ran_lockedAt : j_lockedAt job' = None;
  ran_lockedBy : j_lockedBy job' = None;
  ran_lockExpiresAt : j_lockExpiresAt job' = None;
  ran_startedAt : j_startedAt job' = Some (from_option id (at_start clock) (j_startedAt job));
  ran_status :
    (j_status job' = J_COMPLETED /\ j_progress job' = 100
     /\ is_Some (j_output job') /\ j_completedAt job' = Some (at_end clock))
    \/ (j_status job' = J_PENDING
        /\ j_attempts job' < orNumber (j_maxAttempts job) (jobs_maxAttempts worker)
        /\ is_Some (j_lastError job') /\ j_errorMessage job' = None
        /\ j_completedAt job' = None)
    \/ (j_status job' = J_FAILED
        /\ orNumber (j_maxAttempts job) (jobs_maxAttempts worker) <= j_attempts job'
        /\ is_Some (j_lastError job') /\ j_errorMessage job' = j_lastError job'
        /\ j_completedAt job' = Some (at_end clock))
}.

(** A job that no round takes, whatever the time: it is COMPLETED or
    FAILED, or its attempts have reached the bound of the claim. *)
Definition Settled (job : Job) : Prop :=
  j_status job = J_COMPLETED \/ j_status job = J_FAILED
  \/ attemptsBound worker job <= j_attempts job.

End Worker.

End JobBehaviour.

(** ** API keys (services/tenant.service.ts, lines 1 to 161) and the
       authentication hooks (plugins/auth.ts, in tools/types.ts) *)

Module Accounts.

Inductive TenantRole := ADMIN | ANALYST.

#[global] Instance TenantRole_eq_dec : EqDecision TenantRole.
Proof. solve_decision. Defined.

(** A row of the [api_keys] table, in insertion order; [createdAt] is left
    out.  The tenant of a key is named by its id: the rows of the tenants
    (name, email) play no part here. *)
Record ApiKey := {
  k_id : nat;
  k_tenantId : string;
  k_keyPrefix : string;
  k_keyHash : string;
  k_name : option string;
  k_role : TenantRole;
  k_expiresAt : option Z;
  k_revokedAt : option Z;
  k_lastUsedAt : option Z
}.

(** utils/crypto.ts: the SHA-256 digest and the random generator enter as
    oracles; [generateApiKey n] is the key of the n-th draw. *)
Record Crypto := {
  hashApiKey : string -> string;
  generateApiKey : nat -> string
}.

(** Extract the prefix from an API key for identification *)
Definition getKeyPrefix (apiKey : string) : string := String.substring 0%nat 12%nat apiKey.

Record Directory := {
  tbl_api_keys : list ApiKey;
  nextKeyId : nat;
  drawn : nat                      (* the keys generated so far *)
}.

Record CreateApiKeyInput := {
  ck_name : option string;
  ck_role : TenantRole;
  ck_expiresAt : option Z
}.

(** What [authenticate] leaves on the request: [request.tenant] (its id and
    [keyRole]) and [request.apiKey]. *)
Record RequestContext := {
  rc_tenantId : string;
  rc_keyRole : TenantRole;
  rc_apiKey : ApiKey
}.

Definition withRevokedAt (revokedAt : Z) (key : ApiKey) : ApiKey :=
  {| k_id := k_id key; k_tenantId := k_tenantId key; k_keyPrefix := k_keyPrefix key;
     k_keyHash := k_keyHash key; k_name := k_name key; k_role := k_role key;
     k_expiresAt := k_expiresAt key;
     k_revokedAt := Some revokedAt;
     k_lastUsedAt := k_lastUsedAt key |}.

Definition withExpiresAt (expiresAt : Z) (key : ApiKey) : ApiKey :=
  {| k_id := k_id key; k_tenantId := k_tenantId key; k_keyPrefix := k_keyPrefix key;
     k_keyHash := k_keyHash key; k_name := k_name key; k_role := k_role key;
     k_expiresAt := Some expiresAt;
     k_revokedAt := k_revokedAt key;
     k_lastUsedAt := k_lastUsedAt key |}.

Definition withLastUsedAt (lastUsedAt : Z) (key : ApiKey) : ApiKey :=
  {| k_id := k_id key; k_tenantId := k_tenantId key; k_keyPrefix := k_keyPrefix key;
     k_keyHash := k_keyHash key; k_name := k_name key; k_role := k_role key;
     k_expiresAt := k_expiresAt key;
     k_revokedAt := k_revokedAt key;
     k_lastUsedAt := Some lastUsedAt |}.

(** [prisma.apiKey.update({where: {id}, data})] on a row that was read. *)
Definition apiKey_update (id : nat) (data : ApiKey -> ApiKey) (dir : Directory)
  : Directory :=
  {| tbl_api_keys := (fun key => if bool_decide (k_id key = id) then data key else key)
                       <$> tbl_api_keys dir;
     nextKeyId := nextKeyId dir;
     drawn := drawn dir |}.

(** [prisma.apiKey.create], under the unique index [api_keys_keyHash_key]. *)
Definition apiKey_create (tenantId keyPrefix keyHash : string) (name : option string)
    (role : TenantRole) (expiresAt : option Z) (dir : Directory)
  : (Exn + ApiKey) * Directory :=
  if existsb (fun key => bool_decide (k_keyHash key = keyHash)) (tbl_api_keys dir)
  then (inl (Store.P2002 "(`keyHash`)"), dir)
  else
    let row :=
      {| k_id := nextKeyId dir; k_tenantId := tenantId; k_keyPrefix := keyPrefix;
         k_keyHash := keyHash; k_name := name; k_role := role;
         k_expiresAt := expiresAt; k_revokedAt := None; k_lastUsedAt := None |} in
    (inr row,
     {| tbl_api_keys := tbl_api_keys dir ++ [row];
        nextKeyId := S (nextKeyId dir);
        drawn := drawn dir |}).

(** [generateApiKey()]: the next draw. *)
Definition draw (crypto : Crypto) (dir : Directory) : string * Directory :=
  (generateApiKey crypto (drawn dir),
   {| tbl_api_keys := tbl_api_keys dir; nextKeyId := nextKeyId dir;
      drawn := S (drawn dir) |}).

Section Keys.

Variable crypto : Crypto.

(** Create a new API key for a tenant *)
Definition createApiKey (tenantId : string) (input : CreateApiKeyInput) (dir : Directory)
  : (Exn + ApiKey * string) * Directory :=
  let '(plainKey, dir1) := draw crypto dir in
  match apiKey_create tenantId (getKeyPrefix plainKey) (hashApiKey crypto plainKey)
          (ck_name input) (ck_role input) (ck_expiresAt input) dir1 with
  | (inl error, dir2) => (inl error, dir2)
  | (inr apiKey, dir2) => (inr (apiKey, plainKey), dir2)
  end.

(** List API keys for a tenant (without exposing keys): the rows that are
    not revoked, the newest first. *)
Definition listApiKeys (tenantId : string) (dir : Directory) : list ApiKey :=
  reverse (List.filter (fun key => bool_decide (k_tenantId key = tenantId)
                                   && bool_decide (k_revokedAt key = None))
             (tbl_api_keys dir)).

(** [prisma.apiKey.findFirst({where: {id: keyId, tenantId}})] *)
Definition apiKey_findFirst (tenantId : string) (keyId : nat) (dir : Directory)
  : option ApiKey :=
  find (fun key => bool_decide (k_id key = keyId)
                   && bool_decide (k_tenantId key = tenantId))
       (tbl_api_keys dir).

(** Revoke an API key *)
Definition revokeApiKey (tenantId : string) (keyId : nat) (now : Z) (dir : Directory)
  : (Exn + ApiKey) * Directory :=
  match apiKey_findFirst tenantId keyId dir with
  | None => (inl (AppErr (newAppError NotFoundError "API key not found")), dir)
  | Some apiKey => (inr (withRevokedAt now apiKey), apiKey_update keyId (withRevokedAt now) dir)
  end.

Definition gracePeriodMs : Z := 24 * 60 * 60 * 1000.

(** Rotate an API key (create new, schedule old for expiry).  The two
    writes are one transaction: when the insert is refused, nothing is
    written. *)
Definition rotateApiKey (tenantId : string) (keyId : nat) (now : Z) (dir : Directory)
  : (Exn + ApiKey * string * Z) * Directory :=
  match apiKey_findFirst tenantId keyId dir with
  | None => (inl (AppErr (newAppError NotFoundError "API key not found")), dir)
  | Some oldKey =>
      let '(plainKey, dir1) := draw crypto dir in
      let oldKeyValidUntil := now + gracePeriodMs in
      match apiKey_create tenantId (getKeyPrefix plainKey) (hashApiKey crypto plainKey)
              (Some match Service.truthy (k_name oldKey) with
                    | Some name => name +:+ " (rotated)"
                    | None => "Rotated key"
                    end)
              (k_role oldKey) None dir1 with
      | (inl error, _) => (inl error, dir1)
      | (inr newKey, dir2) =>
          (inr (newKey, plainKey, oldKeyValidUntil),
           apiKey_update keyId (withExpiresAt oldKeyValidUntil) dir2)
      end
  end.

(** Authenticate request using API key.  [now] is the reading of the clock
    for the expiry, [usedAt] the one for [lastUsedAt], whose update is not
    awaited. *)
Definition authenticate (apiKeyHeader : option string) (now usedAt : Z) (dir : Directory)
  : (Exn + RequestContext) * Directory :=
  match Service.truthy apiKeyHeader with
  | None => (inl (AppErr (newAppError UnauthorizedError "Missing API key")), dir)
  | Some apiKeyHeader =>
      let keyHash := hashApiKey crypto apiKeyHeader in
      match find (fun key => bool_decide (k_keyHash key = keyHash)) (tbl_api_keys dir) with
      | None => (inl (AppErr (newAppError UnauthorizedError "Invalid API key")), dir)
      | Some apiKey =>
          match k_revokedAt apiKey with
          | Some _ =>
              (inl (AppErr (newAppError UnauthorizedError "API key has been revoked")), dir)
          | None =>
              if from_option (fun expiresAt => expiresAt <? now) false (k_expiresAt apiKey)
              then (inl (AppErr (newAppError UnauthorizedError "API key has expired")), dir)
              else
                (inr {| rc_tenantId := k_tenantId apiKey; rc_keyRole := k_role apiKey;
                        rc_apiKey := apiKey |},
                 apiKey_update (k_id apiKey) (withLastUsedAt usedAt) dir)
          end
      end
  end.

(** Require specific role(s) for access *)
Definition requireRole (allowedRoles : list TenantRole) (tenant : option RequestContext)
  : Exn + unit :=
  match tenant with
  | None => inl (AppErr (newAppError UnauthorizedError "Authentication required"))
  | Some tenant =>
      if bool_decide (rc_keyRole tenant ∈ allowedRoles) then inr tt
      else inl (AppErr (newAppError ForbiddenError "Insufficient permissions"))
  end.

(** The calls that write to the table, and a sequence of them. *)
Inductive Call :=
| CreateApiKey (tenantId : string) (input : CreateApiKeyInput)
| RevokeApiKey (tenantId : string) (keyId : nat) (now : Z)
| RotateApiKey (tenantId : string) (keyId : nat) (now : Z)
| Authenticate (apiKeyHeader : option string) (now usedAt : Z).

Definition perform (call : Call) (dir : Directory) : Directory :=
  match call with
  | CreateApiKey tenantId input => (createApiKey tenantId input dir).2
  | RevokeApiKey tenantId keyId now => (revokeApiKey tenantId keyId now dir).2
  | RotateApiKey tenantId keyId now => (rotateApiKey tenantId keyId now dir).2
  | Authenticate apiKeyHeader now usedAt => (authenticate apiKeyHeader now usedAt dir).2
  end.

Definition performAll (calls : list Call) (dir : Directory) : Directory :=
  foldl (fun dir call => perform call dir) dir calls.

End Keys.

End Accounts.

(** ** What the facts about API keys are stated with *)

Module AccountBehaviour.
Import Accounts.

(** A digest under which the table holds a key, and only keys that are
    revoked. *)
Definition RevokedDigest (keyHash : string) (dir : Directory) : Prop :=
  (exists key, key ∈ tbl_api_keys dir /\ k_keyHash key = keyHash)
  /\ forall key, key ∈ tbl_api_keys dir -> k_keyHash key = keyHash ->
                 k_revokedAt key <> None.

End AccountBehaviour.

(** ** The synchronous message route (POST /sessions/:sessionId/messages,
       routes/sessions.ts) with its hooks and the error handler
       (plugins/correlation-id.ts, plugins/auth.ts, plugins/error-handler.ts) *)

Module Routes.
Import Store Service Accounts.

(** What is sent back: the value the handler returns, or the document of
    [AppError.toResponse] (its [details] are left out, as they are in
    [AppError]). *)
Inductive ReplyBody :=
| Sent (response : MessageResponse)
| Failed (code message correlationId : string).

Record Reply := {
  re_statusCode : Z;
  re_correlationId : string;        (* the header x-correlation-id *)
  re_body : ReplyBody
}.

Record MessageRequest := {
  rq_apiKey : option string;          (* the header x-api-key *)
  rq_idempotencyKey : option string;  (* the header x-idempotency-key *)
  rq_correlationId : option string;   (* the header x-correlation-id *)
  rq_sessionId : string;              (* the parameter of the path *)
  rq_content : option string          (* [content] of the body, when a string *)
}.

(** The error handler.  The routes parse their bodies with [safeParse] and
    declare no schema, so neither a [ZodError] nor a validation error of
    Fastify reaches it, and no error of [Exn] has a property [validation]:
    an error is an [AppError], or unknown.  What the handler logs goes to
    the global logger. *)
Definition errorHandler (correlationId : string) (error : Exn) : Reply :=
  match error with
  | AppErr e =>
      {| re_statusCode := statusCode e; re_correlationId := correlationId;
         re_body := Failed (errorCode (cls e)) (message e) correlationId |}
  | _ =>
      {| re_statusCode := defaultStatusCode InternalError;
         re_correlationId := correlationId;
         re_body := Failed (errorCode InternalError) "Internal server error"
                      correlationId |}
  end.

(** [SendMessageSchema]: [content: z.string().min(1).max(10000)] *)
Definition SendMessageSchema (content : option string) : option string :=
  match content with
  | Some content =>
      let length := Z.of_nat (String.length content) in
      if (1 <=? length) && (length <=? 10000) then Some content else None
  | None => None
  end.

Section Route.

Variable env : Env.
Variable crypto : Crypto.

(** The hook of plugins/correlation-id.ts. *)
Definition correlationIdOf (request : MessageRequest) : string :=
  from_option id (generateCorrelationId env) (truthy (rq_correlationId request)).

(** Send a message (synchronous): the hooks [authenticate] and
    [requireRole('ADMIN')], the handler, and the error handler for what
    they throw.  [now] and [usedAt] are the readings of the clock in
    [authenticate]. *)
Definition postMessage (request : MessageRequest) (now usedAt : Z)
    (state : Directory * World) : Reply * (Directory * World) :=
  let correlationId := correlationIdOf request in
  let '(dir, w) := state in
  match authenticate crypto (rq_apiKey request) now usedAt dir with
  | (inl error, dir1) => (errorHandler correlationId error, (dir1, w))
  | (inr tenant, dir1) =>
      match requireRole [ADMIN] (Some tenant) with
      | inl error => (errorHandler correlationId error, (dir1, w))
      | inr _ =>
          match SendMessageSchema (rq_content request) with
          | None =>
              (errorHandler correlationId
                 (AppErr (newAppError ValidationError "Invalid request body")),
               (dir1, w))
          | Some content =>
              match sendMessage env (rc_tenantId tenant) (rq_sessionId request)
                      {| in_content := content;
                         in_idempotencyKey := rq_idempotencyKey request;
                         in_correlationId := Some correlationId |} w with
              | (inl error, w1) => (errorHandler correlationId error, (dir1, w1))
              | (inr response, w1) =>
                  ({| re_statusCode := 200; re_correlationId := correlationId;
                      re_body := Sent response |}, (dir1, w1))
              end
          end
      end
  end.

End Route.

End Routes.

(** ** What the facts about the attempts of a job are stated with *)

Module JobAttempts.
Import Store Service Jobs.

(** The input that the worker hands to [sendMessage] for a job
    ([executeSendMessage]). *)
Definition messageOf (job : Job) : SendMessageInput :=
  {| in_content := ji_content (j_input job);
     in_idempotencyKey := j_idempotencyKey job;
     in_correlationId := None |}.

(** The message of the refusal by the unique index on session and key. *)
Definition keyRefusal : string :=
  errorObjMessage (P2002 "(`sessionId`,`idempotencyKey`)").

End JobAttempts.

(** ** What the facts about the records of tool executions are stated with *)

Module ToolAudit.
Import Store Service.

Section Audit.

Variable env : Env.



End Audit.

End ToolAudit.

(** ** What the facts about the lock sweeper are stated with *)

Module LockBehaviour.
Import Store Service.

(** The errors of the callback that [sendMessage] runs under the lock of
    the session: those of the pipeline but for the [ConflictError] of the
    lock. *)
Inductive CallbackError : Exn -> Prop :=
| ce_not_found msg : CallbackError (AppErr (newAppError NotFoundError msg))
| ce_validation msg : CallbackError (AppErr (newAppError ValidationError msg))
| ce_unique target : CallbackError (P2002 target)
| ce_javascript msg : CallbackError (JsErr msg).

End LockBehaviour.

(** ** Further scenarios *)

Module Cases.
Import Store Service Observe Behaviour Scenario.

(** Every attempt on either vendor runs into the request timeout of the
    adapter. *)
Definition timingOut
  : ProviderType -> nat -> ProviderRequest -> Orchestrator.AdapterOutcome :=
  fun provider _ _ =>
    match provider with
    | VENDOR_A =>
        Orchestrator.Rejected
          (AppErr (newAppError TimeoutError "VendorA request timed out after 30000ms"))
          30000
    | VENDOR_B =>
        Orchestrator.Rejected
          (AppErr (newAppError TimeoutError "VendorB request timed out after 15000ms"))
          15000
    end.

(** Vendor A is down, vendor B answers. *)
Definition failingOver
  : ProviderType -> nat -> ProviderRequest -> Orchestrator.AdapterOutcome :=
  fun provider _ _ =>
    match provider with
    | VENDOR_A => Orchestrator.Rejected serverError 5
    | VENDOR_B => Orchestrator.Resolved hello
    end.

(** The vendors ask for the two tools, and are down when the follow-up
    request comes. *)
Definition envToolsThenDown : Env :=
  envWith (fun provider n request =>
             if endsWithEmptyUserTurn request then rejecting provider n request
             else Orchestrator.Resolved asking).

Definition withSession (session : Session) : World :=
  {| tbl_sessions := [session]; tbl_messages := []; tbl_provider_calls := [];
     tbl_usage_events := []; tbl_tool_executions := []; sessionLocks := ∅;
     nextId := 0; attemptLog := []; logLines := [] |}.

Definition demoSession : Session :=
  {| s_id := "s1"; s_tenantId := "t1"; s_agent := Some agent1;
     s_status := ACTIVE; s_demoMode := true |}.

Definition endedSession : Session :=
  {| s_id := "s1"; s_tenantId := "t1"; s_agent := Some agent1;
     s_status := ENDED; s_demoMode := false |}.

(** [w0] while another invocation holds the lock of its session. *)
Definition wLocked : World :=
  {| tbl_sessions := [session1]; tbl_messages := []; tbl_provider_calls := [];
     tbl_usage_events := []; tbl_tool_executions := [];
     sessionLocks := {[ 42 := {| locked := true; timestamp := 0 |} ]};
     nextId := 0; attemptLog := []; logLines := [] |}.

End Cases.


(** ** Scenarios of the job queue *)

Module JobCases.
Import Store Service Observe Sessions Jobs Scenario.

(** A worker with the configuration of config/index.ts, a client with
    field references, and callbacks that are answered with 200. *)
Definition worker1 : Worker :=
  {| workerId := "worker_host_1";
     jobs_lockDurationMs := 300000;
     jobs_maxAttempts := 3;
     fieldReferences := true;
     fetch := fun _ _ => Responded true |}.

(** A job as the route creates it. *)
Definition newJob (id : nat) (type : JobType) (key : option string) : Job :=
  {| j_id := id; j_tenantId := "t1"; j_type := type;
     j_idempotencyKey := key;
     j_input := {| ji_sessionId := "s1"; ji_content := "Hi" |};
     j_output := None; j_status := J_PENDING; j_progress := 0;
     j_errorMessage := None;
     j_callbackUrl := Some "https://example.com/hook";
     j_callbackSent := false; j_lockedAt := None; j_lockedBy := None;
     j_lockExpiresAt := None; j_attempts := 0; j_maxAttempts := 3;
     j_lastError := None; j_startedAt := None; j_completedAt := None |}.

(** A job whose worker stopped during its third attempt. *)
Definition abandoned : Job :=
  claimed "worker_host_0" 1000 301000
    (claimed "worker_host_0" 500 300500
       (claimed "worker_host_0" 0 300000 (newJob 0 SEND_MESSAGE None))).

Definition queue (jobs : list Job) : Db :=
  {| world := w0; tbl_jobs := jobs; nextJobId := length jobs; requests := [] |}.

Definition db2 : Db := queue [abandoned; newJob 1 SEND_MESSAGE (Some "k1")].

Definition voiceQueue : Db := queue [abandoned; newJob 1 VOICE_PROCESS None].

(** The reply to a submission that creates the third job of [db2]. *)
Definition accepted : AsyncReply :=
  {| rp_statusCode := 202; rp_jobId := 2; rp_status := J_PENDING |}.

(** [db2] after a submission with the key k2, and with an empty key. *)
Definition db3 : Db := (sendMessageAsync "t1" "s1" (Some "k2") "Hi" None db2).2.

Definition db4 : Db := (sendMessageAsync "t1" "s1" (Some "") "Hi" None db2).2.

Definition tick (n : Z) : Clock :=
  {| at_start := n; at_end := n + 200; at_callback := n + 250 |}.

End JobCases.

(** ** Scenarios of the API keys *)

Module AccountCases.
Import Accounts.

Fixpoint marks (n : nat) : string :=
  match n with
  | O => ""
  | S k => "x" +:+ marks k
  end.

(** A digest that tells the keys apart, and a generator whose draws
    differ. *)
Definition crypto1 : Crypto :=
  {| hashApiKey := fun apiKey => "sha256:" +:+ apiKey;
     generateApiKey := fun n => "vb_live_" +:+ marks n |}.

(** The first key of tenant t1, which expired at time 100. *)
Definition key0 : ApiKey :=
  {| k_id := 0; k_tenantId := "t1"; k_keyPrefix := "vb_live_firs";
     k_keyHash := "sha256:vb_live_first"; k_name := Some "Default API Key";
     k_role := ADMIN; k_expiresAt := Some 100; k_revokedAt := None;
     k_lastUsedAt := None |}.

Definition dir0 : Directory :=
  {| tbl_api_keys := [key0]; nextKeyId := 1; drawn := 0 |}.

Definition analystKey : CreateApiKeyInput :=
  {| ck_name := Some "reports"; ck_role := ANALYST; ck_expiresAt := Some 5000 |}.

End AccountCases.
(** ** Scenarios of the message route *)

Module RouteCases.
Import Store Accounts Routes.

(** A message for session s1 under the first key of tenant t1, with a
    correlation id of the client. *)
Definition greeting : MessageRequest :=
  {| rq_apiKey := Some "vb_live_first"; rq_idempotencyKey := Some "k1";
     rq_correlationId := Some "corr_client"; rq_sessionId := "s1";
     rq_content := Some "Hi" |}.

End RouteCases.


(** * Facts *)

(** ** Pricing *)

Module PricingFacts.
Import Pricing.

(** Over the rationals the formula of the specification is superadditive
    up to one cent, is never negative on token counts that are not, and
    is 0 on no tokens. *)
Lemma cost_cents_exact_superadditive p a b c d :
  cost_cents_exact p (a + b) (c + d)
  >= cost_cents_exact p a c + cost_cents_exact p b d - 1.
Proof.
  unfold cost_cents_exact. destruct (millis p) as [inP outP].
  replace (- ((a + b) * inP + (c + d) * outP))
    with (- (a * inP + c * outP) + - (b * inP + d * outP)) by lia.
  generalize (- (a * inP + c * outP)), (- (b * inP + d * outP)). intros x y.
  Z.to_euclidean_division_equations. lia.
Qed.

Lemma cost_cents_exact_nonneg p a c :
  0 <= a -> 0 <= c -> 0 <= cost_cents_exact p a c.
Proof.
  intros Ha Hc. unfold cost_cents_exact.
  assert (0 <= fst (millis p) /\ 0 <= snd (millis p)) as [Hi Ho] by (destruct p; cbn; lia).
  destruct (millis p) as [inP outP]. cbn in Hi, Ho.
  assert (0 <= a * inP + c * outP) by nia.
  Z.to_euclidean_division_equations. lia.
Qed.

(** [calculateCost] on the tests of the repository. *)
Example calculateCost_tests :
  calculateCost VENDOR_A 1000 1000 = Some 1
  /\ calculateCost VENDOR_B 1000 1000 = Some 1
  /\ calculateCost VENDOR_A 0 0 = Some 0
  /\ calculateCost VENDOR_A 1 1 = Some 1.
Proof. vm_compute. done. Qed.

(** Binary floating point puts a price that is a whole number of cents
    just above it, and [Math.ceil] then charges one cent more: 35000 input
    tokens of vendor A cost 7 cents, and [calculateCost] answers 8. *)
Example calculateCost_rounds_past_exact :
  calculateCost VENDOR_A 35000 0 = Some 8
  /\ cost_cents_exact VENDOR_A 35000 0 = 7.
Proof. vm_compute. done. Qed.

(** C9. [calculateCost] is not superadditive up to one cent: the calls
    (4998, 1) and (4980, 10) of vendor A cost 2 cents each, and the call
    with the sums of their token counts costs 2 cents as well, which is
    below 2 + 2 - 1. *)
Theorem calculateCost_not_superadditive :
  calculateCost VENDOR_A 4998 1 = Some 2
  /\ calculateCost VENDOR_A 4980 10 = Some 2
  /\ calculateCost VENDOR_A (4998 + 4980) (1 + 10) = Some 2
  /\ ~ (2 >= 2 + 2 - 1).
Proof. repeat split; try (vm_compute; reflexivity). lia. Qed.

End PricingFacts.


(** ** The orchestrator: retry and fallback *)

Module OrchestratorFacts.
Import Orchestrator.

Section Facts.

Variable maxAttempts : nat.
Variable adapters : ProviderType -> nat -> ProviderRequest -> AdapterOutcome.

Ltac run_side :=
  cbn; first [ done | lia | by rewrite app_nil_r | by repeat constructor | idtac ].

Lemma retryLoop_run request provider isFallback fuel :
  forall attempt st log,
  exists new errs,
    PathRun maxAttempts adapters request provider isFallback fuel attempt st log
      (retryLoop maxAttempts adapters fuel request provider isFallback attempt st log).1.1
      (retryLoop maxAttempts adapters fuel request provider isFallback attempt st log).1.2
      (retryLoop maxAttempts adapters fuel request provider isFallback attempt st log).2
      new errs.
Proof.
  induction fuel as [|fuel IH]; intros attempt st log; cbn [retryLoop].
  - exists [], []. split; run_side.
  - destruct (negb (attempt <=? maxAttempts)%nat) eqn:Eguard.
    + exists [], []. split; run_side.
      intros _ Hle. apply negb_true_iff, Nat.leb_gt in Eguard. lia.
    + destruct (adapters provider (length log) request) as [response|error ms] eqn:Eout.
      * eexists [_], []. split; run_side.
      * destruct (negb (isRetryableError error) || (maxAttempts <=? attempt)%nat) eqn:Estop.
        -- eexists [_], [_]. split; run_side.
        -- set (st2 := {| attemptNumber := _; errors := _ |}).
           set (log1 := log ++ _).
           destruct (IH (S attempt) st2 log1) as (new & errs & H).
           destruct H as [Hlog Herrs Hfuel Hnum Hres Hprov Hfb Hflags Hep Hcount Hsome Habort].
           eexists (_ :: new), (_ :: errs). split; run_side.
           ++ rewrite Hlog. subst log1. by rewrite <- app_assoc.
           ++ rewrite Herrs. subst st2. cbn. by rewrite <- app_assoc.
           ++ rewrite Hnum. subst st2. cbn. lia.
           ++ constructor; [done|]. exact Hflags.
           ++ constructor; [done|]. exact Hep.
           ++ intros i e ms' Hi Hrej Hnr. destruct i as [|i].
              ** rewrite Nat.add_0_r, Eout in Hrej.
                 injection Hrej as -> ->. by rewrite Hnr in Estop.
              ** f_equal. apply (Habort i e ms'); [lia| |done].
                 subst log1. rewrite length_app. cbn.
                 by replace (length log + 1 + i)%nat with (length log + S i)%nat by lia.
Qed.

Lemma executeWithRetry_run request provider st isFallback log :
  exists new errs,
    PathRun maxAttempts adapters request provider isFallback maxAttempts 1 st log
      (executeWithRetry maxAttempts adapters request provider st isFallback log).1.1
      (executeWithRetry maxAttempts adapters request provider st isFallback log).1.2
      (executeWithRetry maxAttempts adapters request provider st isFallback log).2
      new errs.
Proof. apply retryLoop_run. Qed.

(** A path that ran and failed has pushed an error, and the last error of
    the shared state is one of its own. *)
Lemma failed_path_last_error request provider isFallback fuel attempt st log r st' log' new errs :
  PathRun maxAttempts adapters request provider isFallback fuel attempt st log r st' log' new errs ->
  r_success r = false ->
  (1 <= length new)%nat ->
  exists lastError,
    last (errors st') = Some lastError /\ ee_provider lastError = provider.
Proof.
  intros [_ Herrs _ _ _ _ _ _ Hep Hcount _ _] Hfail Hnew.
  rewrite Hfail in Hcount.
  destruct (last errs) as [e|] eqn:Hlast.
  - exists e. split.
    + rewrite Herrs. destruct errs as [|x errs]; [done|].
      by rewrite last_app_cons, <- Hlast.
    + apply last_Some in Hlast as [l' ->].
      apply Forall_app in Hep as [_ Hep]. by inversion Hep.
  - apply last_None in Hlast. subst errs. cbn in Hcount. lia.
Qed.

(** C5. When the primary path ends without success, a second path runs if
    and only if a fallback provider is configured and differs from the
    primary one.  The second path is [executeWithRetry] on the fallback
    provider and makes between one and [maxAttempts] attempts; without it
    the result is a failure built from the last error of the primary path,
    whose attempts are the only ones made. *)
Theorem fallback_runs_iff request config log primaryResult st1 log1 :
  (1 <= maxAttempts)%nat ->
  executeWithRetry maxAttempts adapters request (primaryProvider config)
    {| attemptNumber := 0; errors := [] |} false log = (primaryResult, st1, log1) ->
  r_success primaryResult = false ->
  exists second,
    (executeWithResilience maxAttempts adapters request config log).2 = log1 ++ second
    /\ (second <> [] <->
        exists f, fallbackProvider config = Some f /\ f <> primaryProvider config)
    /\ (forall f, fallbackProvider config = Some f -> f <> primaryProvider config ->
        (executeWithRetry maxAttempts adapters request f st1 true log1).2 = log1 ++ second
        /\ (1 <= length second <= maxAttempts)%nat
        /\ Forall (fun a => at_provider a = f /\ at_isFallback a = true) second)
    /\ (fallbackProvider config = None
        \/ fallbackProvider config = Some (primaryProvider config) ->
        second = []
        /\ exists res lastError,
          (executeWithResilience maxAttempts adapters request config log).1 = inr res
          /\ last (errors st1) = Some lastError
          /\ ee_provider lastError = primaryProvider config
          /\ r_success res = false
          /\ r_provider res = primaryProvider config
          /\ r_attemptNumber res = attemptNumber st1
          /\ length log1 = (length log + attemptNumber st1)%nat
          /\ ei_message <$> r_error res = Some (errorObjMessage (ee_error lastError))).
Proof.
  intros Hmax Hprim Hfail.
  destruct (executeWithRetry_run request (primaryProvider config)
              {| attemptNumber := 0; errors := [] |} false log) as (new1 & errs1 & Hrun1).
  rewrite Hprim in Hrun1. cbn in Hrun1.
  assert (1 <= length new1)%nat as Hnew1 by (apply (run_some _ _ _ _ _ _ _ _ _ _ _ _ _ _ Hrun1); lia).
  destruct (failed_path_last_error _ _ _ _ _ _ _ _ _ _ _ _ Hrun1 Hfail Hnew1)
    as (lastError & Hlast & HlastP).
  unfold executeWithResilience. rewrite Hprim, Hfail.
  assert (Hnofb :
    (allAttemptsFailed config st1, log1).2 = log1 ++ []
    /\ exists res lastError,
          (allAttemptsFailed config st1, log1).1 = inr res
          /\ last (errors st1) = Some lastError
          /\ ee_provider lastError = primaryProvider config
          /\ r_success res = false
          /\ r_provider res = primaryProvider config
          /\ r_attemptNumber res = attemptNumber st1
          /\ length log1 = (length log + attemptNumber st1)%nat
          /\ ei_message <$> r_error res = Some (errorObjMessage (ee_error lastError))).
  { split; [by rewrite app_nil_r|].
    unfold allAttemptsFailed. rewrite Hlast. cbn.
    eexists _, lastError. repeat split; try done.
    - pose proof (run_log _ _ _ _ _ _ _ _ _ _ _ _ _ _ Hrun1) as ->.
      pose proof (run_attemptNumber _ _ _ _ _ _ _ _ _ _ _ _ _ _ Hrun1) as ->. cbn.
      by rewrite length_app. }
  destruct (fallbackProvider config) as [f|] eqn:Hfb.
  - case_bool_decide as Hne.
    + destruct (executeWithRetry_run request f st1 true log1) as (new2 & errs2 & Hrun2).
      destruct (executeWithRetry maxAttempts adapters request f st1 true log1)
        as [[fallbackResult st2] log2] eqn:Hfbrun.
      cbn in Hrun2.
      assert (1 <= length new2)%nat as Hnew2
        by (apply (run_some _ _ _ _ _ _ _ _ _ _ _ _ _ _ Hrun2); lia).
      exists new2. split.
      { destruct (r_success fallbackResult); cbn;
          apply (run_log _ _ _ _ _ _ _ _ _ _ _ _ _ _ Hrun2). }
      split.
      { split; [intros _; by exists f|]. intros _ ->. cbn in Hnew2. lia. }
      split.
      { intros f' [= <-] _. rewrite Hfbrun. cbn. split; [apply (run_log _ _ _ _ _ _ _ _ _ _ _ _ _ _ Hrun2)|].
        split; [split; [done|apply (run_fuel _ _ _ _ _ _ _ _ _ _ _ _ _ _ Hrun2)]|].
        apply (run_flags _ _ _ _ _ _ _ _ _ _ _ _ _ _ Hrun2). }
      intros [?|[= ->]]; done.
    + assert (f = primaryProvider config) as -> by (destruct (decide (f = primaryProvider config)); [done|by destruct Hne]).
      destruct Hnofb as [Hlog Hres]. exists []. split; [done|]. split.
      { split; [done|]. intros (f' & [= <-] & ?). done. }
      split; [intros f' [= <-] ?; done|]. by intros _.
  - destruct Hnofb as [Hlog Hres]. exists []. split; [done|]. split.
    { split; [done|]. intros (f' & ? & ?). done. }
    split; [intros f' ?; done|]. by intros _.
Qed.

(** Within the attempts of one path, a rejection that is not retryable
    is the last one. *)
Lemma path_abort request provider isFallback fuel attempt st log r st' log' new errs :
  PathRun maxAttempts adapters request provider isFallback fuel attempt st log r st' log' new errs ->
  forall i a e ms,
    new !! i = Some a ->
    adapters (at_provider a) (length log + i) request = Rejected e ms ->
    isRetryableError e = false ->
    S i = length new.
Proof.
  intros Hrun i a e ms Hi Hrej Hnr.
  pose proof (run_flags _ _ _ _ _ _ _ _ _ _ _ _ _ _ Hrun) as Hflags.
  rewrite Forall_lookup in Hflags. destruct (Hflags i a Hi) as [Hp _].
  rewrite Hp in Hrej.
  apply (run_abort _ _ _ _ _ _ _ _ _ _ _ _ _ _ Hrun i e ms); [|done..].
  by apply lookup_lt_Some in Hi.
Qed.

(** C6. One call of [executeWithResilience] makes at most
    [2 * maxAttempts] attempts, and the [attemptNumber] of its result is
    their number; neither path makes more than [maxAttempts] of them; and
    after a rejection that is not retryable the next attempt, if there is
    one, belongs to the other path. *)
Theorem attempts_bounded request config log :
  exists new,
    (executeWithResilience maxAttempts adapters request config log).2 = log ++ new
    /\ (length new <= 2 * maxAttempts)%nat
    /\ (forall res,
          (executeWithResilience maxAttempts adapters request config log).1 = inr res ->
          r_attemptNumber res = length new
          /\ (r_attemptNumber res <= 2 * maxAttempts)%nat)
    /\ (length (List.filter (fun a => negb (at_isFallback a)) new) <= maxAttempts)%nat
    /\ (length (List.filter at_isFallback new) <= maxAttempts)%nat
    /\ (forall i j a b e ms,
          new !! i = Some a ->
          adapters (at_provider a) (length log + i) request = Rejected e ms ->
          isRetryableError e = false ->
          (i < j)%nat -> new !! j = Some b ->
          at_isFallback b <> at_isFallback a).
Proof.
  unfold executeWithResilience.
  destruct (executeWithRetry_run request (primaryProvider config)
              {| attemptNumber := 0; errors := [] |} false log) as (new1 & errs1 & Hrun1).
  destruct (executeWithRetry maxAttempts adapters request (primaryProvider config)
              {| attemptNumber := 0; errors := [] |} false log)
    as [[primaryResult st1] log1] eqn:Hprim.
  cbn in Hrun1.
  pose proof (run_log _ _ _ _ _ _ _ _ _ _ _ _ _ _ Hrun1) as Hlog1.
  pose proof (run_fuel _ _ _ _ _ _ _ _ _ _ _ _ _ _ Hrun1) as Hfuel1.
  pose proof (run_attemptNumber _ _ _ _ _ _ _ _ _ _ _ _ _ _ Hrun1) as Hnum1.
  pose proof (run_result _ _ _ _ _ _ _ _ _ _ _ _ _ _ Hrun1) as Hres1.
  pose proof (run_flags _ _ _ _ _ _ _ _ _ _ _ _ _ _ Hrun1) as Hflags1.
  cbn in Hnum1.
  assert (Hprimary_only : forall result : Exn + ProviderCallResult,
    (forall res, result = inr res -> r_attemptNumber res = attemptNumber st1) ->
    exists new,
      (result, log1).2 = log ++ new
      /\ (length new <= 2 * maxAttempts)%nat
      /\ (forall res, (result, log1).1 = inr res ->
            r_attemptNumber res = length new
            /\ (r_attemptNumber res <= 2 * maxAttempts)%nat)
      /\ (length (List.filter (fun a => negb (at_isFallback a)) new) <= maxAttempts)%nat
      /\ (length (List.filter at_isFallback new) <= maxAttempts)%nat
      /\ (forall i j a b e ms,
            new !! i = Some a ->
            adapters (at_provider a) (length log + i) request = Rejected e ms ->
            isRetryableError e = false ->
            (i < j)%nat -> new !! j = Some b ->
            at_isFallback b <> at_isFallback a)).
  { intros result Hresult. exists new1. cbn.
    split; [done|]. split; [lia|].
    split; [intros res ->%Hresult; lia|].
    split; [etrans; [apply List.filter_length_le|lia]|].
    split; [etrans; [apply List.filter_length_le|lia]|].
    intros i j a b e ms Hi Hrej Hnr Hij Hj.
    pose proof (path_abort _ _ _ _ _ _ _ _ _ _ _ _ Hrun1 i a e ms Hi Hrej Hnr).
    apply lookup_lt_Some in Hj. lia. }
  destruct (r_success primaryResult) eqn:Hsucc.
  { apply Hprimary_only. by intros res [= <-]. }
  assert (forall res, allAttemptsFailed config st1 = inr res ->
                      r_attemptNumber res = attemptNumber st1) as Hfailed1.
  { unfold allAttemptsFailed. intros res. destruct (last (errors st1)); [|done].
    by intros [= <-]. }
  destruct (fallbackProvider config) as [f|] eqn:Hfb; [|by apply Hprimary_only].
  case_bool_decide as Hne; [|by apply Hprimary_only].
  destruct (executeWithRetry_run request f st1 true log1) as (new2 & errs2 & Hrun2).
  destruct (executeWithRetry maxAttempts adapters request f st1 true log1)
    as [[fallbackResult st2] log2] eqn:Hfbrun.
  cbn in Hrun2.
  pose proof (run_log _ _ _ _ _ _ _ _ _ _ _ _ _ _ Hrun2) as Hlog2.
  pose proof (run_fuel _ _ _ _ _ _ _ _ _ _ _ _ _ _ Hrun2) as Hfuel2.
  pose proof (run_attemptNumber _ _ _ _ _ _ _ _ _ _ _ _ _ _ Hrun2) as Hnum2.
  pose proof (run_result _ _ _ _ _ _ _ _ _ _ _ _ _ _ Hrun2) as Hres2.
  pose proof (run_flags _ _ _ _ _ _ _ _ _ _ _ _ _ _ Hrun2) as Hflags2.
  assert (Hfilter1 : List.filter at_isFallback new1 = []).
  { clear -Hflags1. induction Hflags1 as [|a l [_ Ha] _ IH]; [done|].
    cbn. by rewrite Ha. }
  assert (Hfilter2 : List.filter (fun a => negb (at_isFallback a)) new2 = []).
  { clear -Hflags2. induction Hflags2 as [|a l [_ Ha] _ IH]; [done|].
    cbn. by rewrite Ha. }
  assert (Hboth : forall result : Exn + ProviderCallResult,
    (forall res, result = inr res -> r_attemptNumber res = attemptNumber st2) ->
    exists new,
      (result, log2).2 = log ++ new
      /\ (length new <= 2 * maxAttempts)%nat
      /\ (forall res, (result, log2).1 = inr res ->
            r_attemptNumber res = length new
            /\ (r_attemptNumber res <= 2 * maxAttempts)%nat)
      /\ (length (List.filter (fun a => negb (at_isFallback a)) new) <= maxAttempts)%nat
      /\ (length (List.filter at_isFallback new) <= maxAttempts)%nat
      /\ (forall i j a b e ms,
            new !! i = Some a ->
            adapters (at_provider a) (length log + i) request = Rejected e ms ->
            isRetryableError e = false ->
            (i < j)%nat -> new !! j = Some b ->
            at_isFallback b <> at_isFallback a)).
  { intros result Hresult. exists (new1 ++ new2). cbn.
    split; [by rewrite Hlog2, Hlog1, <- app_assoc|].
    rewrite length_app. split; [lia|].
    split; [intros res ->%Hresult; lia|].
    rewrite !List.filter_app, !length_app, Hfilter1, Hfilter2. cbn.
    split; [pose proof (List.filter_length_le (fun a => negb (at_isFallback a)) new1); lia|].
    split; [pose proof (List.filter_length_le at_isFallback new2); lia|].
    intros i j a b e ms Hi Hrej Hnr Hij Hj.
    rewrite Forall_lookup in Hflags1. rewrite Forall_lookup in Hflags2.
    destruct (decide (i < length new1)%nat) as [Hlt|Hge].
    - rewrite lookup_app_l in Hi by done.
      pose proof (path_abort _ _ _ _ _ _ _ _ _ _ _ _ Hrun1 i a e ms Hi Hrej Hnr).
      rewrite lookup_app_r in Hj by lia.
      destruct (Hflags1 _ _ Hi) as [_ ->]. destruct (Hflags2 _ _ Hj) as [_ ->]. done.
    - rewrite lookup_app_r in Hi by lia.
      assert (length log + i = length log1 + (i - length new1))%nat as Hidx
        by (rewrite Hlog1, length_app; lia).
      rewrite Hidx in Hrej.
      pose proof (path_abort _ _ _ _ _ _ _ _ _ _ _ _ Hrun2 _ a e ms Hi Hrej Hnr).
      apply lookup_lt_Some in Hj. rewrite length_app in Hj. lia. }
  destruct (r_success fallbackResult) eqn:Hsucc2.
  { apply Hboth. by intros res [= <-]. }
  apply Hboth. unfold allAttemptsFailed. intros res.
  destruct (last (errors st2)); [|done]. by intros [= <-].
Qed.

(** With at least one attempt per path, [executeWithResilience] returns a
    result: the array of errors it reads the last error from is not
    empty. *)
Lemma executeWithResilience_returns request config log :
  (1 <= maxAttempts)%nat ->
  exists res, (executeWithResilience maxAttempts adapters request config log).1 = inr res.
Proof.
  intros Hmax. unfold executeWithResilience.
  destruct (executeWithRetry_run request (primaryProvider config)
              {| attemptNumber := 0; errors := [] |} false log) as (new1 & errs1 & Hrun1).
  destruct (executeWithRetry maxAttempts adapters request (primaryProvider config)
              {| attemptNumber := 0; errors := [] |} false log)
    as [[primaryResult st1] log1] eqn:Hprim.
  cbn in Hrun1.
  destruct (r_success primaryResult) eqn:Hsucc; [by eexists|].
  assert (1 <= length new1)%nat as Hnew1
    by (apply (run_some _ _ _ _ _ _ _ _ _ _ _ _ _ _ Hrun1); lia).
  destruct (failed_path_last_error _ _ _ _ _ _ _ _ _ _ _ _ Hrun1 Hsucc Hnew1)
    as (lastError & Hlast & _).
  assert (exists res, allAttemptsFailed config st1 = inr res) as Hfail1
    by (unfold allAttemptsFailed; rewrite Hlast; by eexists).
  destruct (fallbackProvider config) as [f|]; [|done].
  case_bool_decide; [|done].
  destruct (executeWithRetry_run request f st1 true log1) as (new2 & errs2 & Hrun2).
  destruct (executeWithRetry maxAttempts adapters request f st1 true log1)
    as [[fallbackResult st2] log2] eqn:Hfbrun.
  cbn in Hrun2.
  destruct (r_success fallbackResult) eqn:Hsucc2; [by eexists|].
  assert (1 <= length new2)%nat as Hnew2
    by (apply (run_some _ _ _ _ _ _ _ _ _ _ _ _ _ _ Hrun2); lia).
  destruct (failed_path_last_error _ _ _ _ _ _ _ _ _ _ _ _ Hrun2 Hsucc2 Hnew2)
    as (lastError2 & Hlast2 & _).
  unfold allAttemptsFailed. rewrite Hlast2. by eexists.
Qed.

(** It makes at least one attempt. *)
Lemma executeWithResilience_attempts request config log :
  (1 <= maxAttempts)%nat ->
  exists new, (executeWithResilience maxAttempts adapters request config log).2 = log ++ new
              /\ new <> [].
Proof.
  intros Hmax. unfold executeWithResilience.
  destruct (executeWithRetry_run request (primaryProvider config)
              {| attemptNumber := 0; errors := [] |} false log) as (new1 & errs1 & Hrun1).
  destruct (executeWithRetry maxAttempts adapters request (primaryProvider config)
              {| attemptNumber := 0; errors := [] |} false log)
    as [[primaryResult st1] log1] eqn:Hprim.
  cbn in Hrun1.
  assert (1 <= length new1)%nat as Hnew1
    by (apply (run_some _ _ _ _ _ _ _ _ _ _ _ _ _ _ Hrun1); lia).
  pose proof (run_log _ _ _ _ _ _ _ _ _ _ _ _ _ _ Hrun1) as Hlog1.
  assert (new1 <> []) as Hne by (intros ->; cbn in Hnew1; lia).
  assert (forall x : Exn + ProviderCallResult,
            exists new, (x, log1).2 = log ++ new /\ new <> []) as Hprimary
    by (intros x; by exists new1).
  destruct (r_success primaryResult); [done|].
  destruct (fallbackProvider config) as [f|]; [|done].
  case_bool_decide; [|done].
  destruct (executeWithRetry_run request f st1 true log1) as (new2 & errs2 & Hrun2).
  destruct (executeWithRetry maxAttempts adapters request f st1 true log1)
    as [[fallbackResult st2] log2] eqn:Hfbrun.
  cbn in Hrun2.
  pose proof (run_log _ _ _ _ _ _ _ _ _ _ _ _ _ _ Hrun2) as Hlog2.
  assert (forall x : Exn + ProviderCallResult,
            exists new, (x, log2).2 = log ++ new /\ new <> []) as Hboth.
  { intros x. exists (new1 ++ new2). cbn. split; [by rewrite Hlog2, Hlog1, <- app_assoc|].
    intros [-> _]%app_eq_nil. done. }
  by destruct (r_success fallbackResult).
Qed.

End Facts.
End OrchestratorFacts.

(** ** The sequence generator *)

Module SequenceFacts.
Import Store Service Observe.

Lemma sqlMax_spec l m :
  sqlMax l = Some m -> m ∈ l /\ forall x, x ∈ l -> x <= m.
Proof.
  destruct l as [|x l]; [done|]. cbn. intros [= <-].
  induction l as [|y l [IHin IHle]]; cbn.
  - split; [left|]. intros z ->%list_elem_of_singleton. lia.
  - split.
    + destruct (Z.max_spec y (foldr Z.max x l)) as [[_ ->]|[_ ->]].
      * apply elem_of_cons in IHin as [->|?]; [left|right; by right].
      * right; left.
    + intros z [->|[->|Hz]%elem_of_cons]%elem_of_cons.
      * specialize (IHle x ltac:(left)). lia.
      * lia.
      * specialize (IHle z ltac:(by right)). lia.
Qed.

Lemma sqlMax_snoc l x :
  (forall y, y ∈ l -> y <= x) -> sqlMax (l ++ [x]) = Some x.
Proof.
  destruct l as [|a l]; [done|]. cbn. intros Hle. f_equal.
  assert (a <= x) by (apply Hle; left).
  assert (forall y, y ∈ l -> y <= x) as Hl by (intros y ?; apply Hle; by right).
  clear Hle. induction l as [|b l IH]; cbn; [lia|].
  rewrite IH by (intros y ?; apply Hl; by right).
  specialize (Hl b ltac:(left)). lia.
Qed.

Lemma sqlMax_oneToN n : from_option id 0 (sqlMax (oneToN n)) = Z.of_nat n.
Proof.
  destruct n as [|n]; [done|]. unfold oneToN.
  rewrite seq_S, fmap_app. cbn [fmap list_fmap].
  rewrite sqlMax_snoc; [cbn; lia|].
  intros y (k & -> & Hk%elem_of_seq)%list_elem_of_fmap. lia.
Qed.

Lemma sessionSequence_elem sessionId w m :
  m ∈ tbl_messages w -> m_sessionId m = sessionId ->
  m_sequenceNumber m ∈ sessionSequence sessionId w.
Proof.
  intros Hin Hs. unfold sessionSequence. apply list_elem_of_fmap.
  exists m. split; [done|]. apply list_elem_of_In, List.filter_In.
  split; [by apply list_elem_of_In|]. unfold ofSession. by apply bool_decide_eq_true.
Qed.

Lemma sessionSequence_inv sessionId w z :
  z ∈ sessionSequence sessionId w ->
  exists m, m ∈ tbl_messages w /\ m_sessionId m = sessionId /\ m_sequenceNumber m = z.
Proof.
  unfold sessionSequence. intros (m & -> & Hm)%list_elem_of_fmap.
  apply list_elem_of_In, List.filter_In in Hm as [Hin Hs].
  exists m. split; [by apply list_elem_of_In|].
  split; [|done]. by apply bool_decide_eq_true in Hs.
Qed.

(** The next sequence number is above every number of the session. *)
Lemma next_sequence_fresh sessionId w m :
  m ∈ tbl_messages w -> m_sessionId m = sessionId ->
  m_sequenceNumber m < get_next_message_sequence sessionId w.
Proof.
  intros Hin Hs. pose proof (sessionSequence_elem _ _ _ Hin Hs) as Hel.
  unfold get_next_message_sequence. fold (sessionSequence sessionId w).
  destruct (sqlMax (sessionSequence sessionId w)) as [mx|] eqn:Hmax.
  - apply sqlMax_spec in Hmax as [_ Hle]. cbn. specialize (Hle _ Hel). lia.
  - destruct (sessionSequence sessionId w); [by apply elem_of_nil in Hel|done].
Qed.

Lemma no_sequence_clash sessionId w :
  existsb (clashesSequence sessionId (get_next_message_sequence sessionId w))
    (tbl_messages w) = false.
Proof.
  apply not_true_is_false. intros (m & Hin & Hc)%existsb_exists.
  unfold clashesSequence in Hc. apply andb_true_iff in Hc as [Hs Hq].
  apply bool_decide_eq_true in Hs. apply Z.eqb_eq in Hq.
  apply list_elem_of_In in Hin.
  pose proof (next_sequence_fresh _ _ _ Hin Hs). lia.
Qed.

Lemma no_key_no_clash sessionId l :
  existsb (clashesKey sessionId None) l = false.
Proof. by induction l. Qed.

(** Allocating and inserting either stores the next number, or is refused
    on the idempotency key and stores nothing. *)
Lemma allocateAndInsert_step sessionId d w :
  (exists row,
     allocateAndInsert sessionId d w =
       (inr row,
        {| tbl_sessions := tbl_sessions w;
           tbl_messages := tbl_messages w ++ [row];
           tbl_provider_calls := tbl_provider_calls w;
           tbl_usage_events := tbl_usage_events w;
           tbl_tool_executions := tbl_tool_executions w;
           sessionLocks := sessionLocks w;
           nextId := S (nextId w);
           attemptLog := attemptLog w;
           logLines := logLines w |})
     /\ row = {| m_id := nextId w; m_sessionId := sessionId;
                 m_sequenceNumber := get_next_message_sequence sessionId w;
                 m_idempotencyKey := nm_idempotencyKey d; m_role := nm_role d;
                 m_content := nm_content d; m_toolCalls := nm_toolCalls d;
                 m_providerCallId := nm_providerCallId d |}
     /\ existsb (clashesKey sessionId (nm_idempotencyKey d)) (tbl_messages w) = false)
  \/ (allocateAndInsert sessionId d w = (inl (P2002 "(`sessionId`,`idempotencyKey`)"), w)
      /\ existsb (clashesKey sessionId (nm_idempotencyKey d)) (tbl_messages w) = true).
Proof.
  unfold allocateAndInsert, bind, getNextSequenceNumber, message_create.
  destruct (existsb (clashesKey _ _) _) eqn:Hkey; [by right|].
  rewrite no_sequence_clash. left. eexists. done.
Qed.

Lemma sessionSequence_snoc sessionId w w' row :
  tbl_messages w' = tbl_messages w ++ [row] ->
  m_sessionId row = sessionId ->
  sessionSequence sessionId w' = sessionSequence sessionId w ++ [m_sequenceNumber row].
Proof.
  intros Hm Hs. unfold sessionSequence. rewrite Hm, List.filter_app, fmap_app. f_equal.
  cbn. unfold ofSession. by rewrite bool_decide_eq_true_2.
Qed.

Lemma oneToN_S n : oneToN (S n) = oneToN n ++ [Z.of_nat n + 1].
Proof.
  unfold oneToN. rewrite seq_S, fmap_app. cbn. do 2 f_equal. lia.
Qed.

Lemma next_on_oneToN sessionId w n :
  sessionSequence sessionId w = oneToN n ->
  get_next_message_sequence sessionId w = Z.of_nat n + 1.
Proof.
  intros H. unfold get_next_message_sequence. fold (sessionSequence sessionId w).
  by rewrite H, sqlMax_oneToN.
Qed.

(** Gap-free numbering is kept by any run of allocations and inserts, and
    the run stores every message unless an insert is refused. *)
Lemma insertAll_gap_free sessionId ds :
  forall w n,
    sessionSequence sessionId w = oneToN n ->
    exists r w' j,
      insertAll sessionId ds w = (r, w')
      /\ sessionSequence sessionId w' = oneToN (n + j)
      /\ (j <= length ds)%nat
      /\ (r = inr tt -> j = length ds)
      /\ (Forall (fun d => nm_idempotencyKey d = None) ds -> r = inr tt).
Proof.
  induction ds as [|d ds IH]; intros w n Hseq; cbn [insertAll].
  - exists (inr tt), w, 0%nat. rewrite Nat.add_0_r. done.
  - unfold bind at 1.
    destruct (allocateAndInsert_step sessionId d w) as [(row & -> & Hrow & Hkey)|[-> Hkey]].
    + set (w1 := {| tbl_messages := _ |}).
      assert (sessionSequence sessionId w1 = oneToN (S n)) as Hseq1.
      { rewrite (sessionSequence_snoc sessionId w w1 row); [|done|by subst row].
        rewrite Hseq, oneToN_S. f_equal. subst row. cbn.
        by rewrite (next_on_oneToN _ _ n). }
      destruct (IH w1 (S n) Hseq1) as (r & w' & j & Hrun & Hseq' & Hj & Hok & Hnone).
      exists r, w', (S j). rewrite Hrun.
      replace (n + S j)%nat with (S n + j)%nat by lia.
      split; [done|]. split; [done|]. split; [cbn; lia|].
      split; [intros ?; cbn; f_equal; auto|].
      intros Hall. apply Hnone. by inversion Hall.
    + exists (inl (P2002 "(`sessionId`,`idempotencyKey`)")), w, 0%nat.
      rewrite Nat.add_0_r. split; [done|]. split; [done|]. split; [cbn; lia|].
      split; [done|].
      intros Hall. inversion Hall as [|? ? Hd _]; subst.
      by rewrite Hd, no_key_no_clash in Hkey.
Qed.

(** C4. [getNextSequenceNumber] returns the largest sequence number of the
    session's messages plus one, and 1 for a session that has none: the
    result is above every existing number and, unless the session is
    empty, one above an existing one.  From a session without messages,
    allocations that are each followed by their insert number the messages
    1, 2, ..., without gaps. *)
Theorem getNextSequenceNumber_max_plus_one sessionId (w w0 : World) ds :
  sessionSequence sessionId w0 = [] ->
  Forall (fun d => nm_idempotencyKey d = None) ds ->
  (exists next,
     getNextSequenceNumber sessionId w = (inr next, w)
     /\ (forall m, m ∈ tbl_messages w -> m_sessionId m = sessionId ->
                   m_sequenceNumber m < next)
     /\ (sessionSequence sessionId w = [] -> next = 1)
     /\ (sessionSequence sessionId w <> [] ->
         exists m, m ∈ tbl_messages w /\ m_sessionId m = sessionId
                   /\ next = m_sequenceNumber m + 1))
  /\ getNextSequenceNumber sessionId w0 = (inr 1, w0)
  /\ exists w',
       insertAll sessionId ds w0 = (inr tt, w')
       /\ sessionSequence sessionId w' = oneToN (length ds).
Proof.
  intros Hempty Hkeys. split; [|split].
  - exists (get_next_message_sequence sessionId w). split; [done|].
    split; [intros m; apply next_sequence_fresh|].
    unfold get_next_message_sequence. fold (sessionSequence sessionId w).
    split; [by intros ->|]. intros Hne.
    destruct (sqlMax (sessionSequence sessionId w)) as [mx|] eqn:Hmax.
    + apply sqlMax_spec in Hmax as [(m & Hin & Hs & <-)%sessionSequence_inv _].
      by exists m.
    + by destruct (sessionSequence sessionId w).
  - unfold getNextSequenceNumber, get_next_message_sequence.
    fold (sessionSequence sessionId w0). by rewrite Hempty.
  - destruct (insertAll_gap_free sessionId ds w0 0 Hempty)
      as (r & w' & j & Hrun & Hseq & _ & Hok & Hnone).
    specialize (Hnone Hkeys). subst r. rewrite (Hok eq_refl) in Hseq.
    by exists w'.
Qed.

End SequenceFacts.

(** ** The billing recorder *)

Module BillingFacts.
Import Store Service Observe.

Lemma usage_exists_count id l :
  existsb (fun ue => bool_decide (ue_providerCallId ue = id)) l
  = negb (length (List.filter (fun ue => bool_decide (ue_providerCallId ue = id)) l) =? 0)%nat.
Proof.
  induction l as [|ue l IH]; [done|]. cbn.
  destruct (bool_decide (ue_providerCallId ue = id)); [done|]. by rewrite IH.
Qed.

Lemma markBilled_id id pc : pc_id (markBilled id pc) = pc_id pc.
Proof. unfold markBilled. by destruct (unbilled id pc). Qed.

(** Without a row to update, [updateMany] leaves the table as it is. *)
Lemma markBilled_none id l :
  List.filter (unbilled id) l = [] -> markBilled id <$> l = l.
Proof.
  induction l as [|pc l IH]; [done|]. cbn.
  destruct (unbilled id pc) eqn:Hu; [done|]. intros H.
  unfold markBilled at 1. rewrite Hu. f_equal. by apply IH.
Qed.

Lemma markBilled_elem id (l : list ProviderCall) pc' :
  pc' ∈ markBilled id <$> l ->
  exists pc, pc ∈ l /\ pc' = markBilled id pc.
Proof. intros (pc & -> & Hin)%list_elem_of_fmap. by exists pc. Qed.

Lemma unbilled_none_billed id (l : list ProviderCall) pc :
  List.filter (unbilled id) l = [] -> pc ∈ l -> pc_id pc = id -> pc_billed pc = true.
Proof.
  intros Hf Hin Hid.
  destruct (pc_billed pc) eqn:Hb; [done|].
  assert (pc ∈ List.filter (unbilled id) l) as Hin'.
  { apply list_elem_of_In, List.filter_In. split; [by apply list_elem_of_In|].
    unfold unbilled. by rewrite bool_decide_eq_true_2, Hb. }
  rewrite Hf in Hin'. by apply elem_of_nil in Hin'.
Qed.

Section Billing.

Variable env : Env.
Variables tenantId agentId sessionId : string.

(** One invocation for a successful call of a session that is no demo. *)
Lemma createUsageEvent_once providerCall w :
  BillingConsistent w ->
  (exists row, row ∈ tbl_provider_calls w /\ pc_id row = pc_id providerCall) ->
  pc_status providerCall = SUCCESS ->
  exists w',
    createUsageEvent tenantId agentId sessionId false providerCall w = (inr tt, w')
    /\ BillingConsistent w'
    /\ usageCount (pc_id providerCall) w' = 1%nat
    /\ (exists row, row ∈ tbl_provider_calls w' /\ pc_id row = pc_id providerCall)
    /\ (forall id, id <> pc_id providerCall -> usageCount id w' = usageCount id w)
    /\ (usageCount (pc_id providerCall) w <= usageCount (pc_id providerCall) w')%nat.
Proof.
  intros [Huniq Hbilled] (row & Hrow & Hid) Hstatus.
  unfold createUsageEvent. rewrite Hstatus.
  rewrite bool_decide_eq_true_2 by done. cbn [negb].
  destruct w as [ss ms pcs ues tes locks nid alog lines].
  unfold usageCount in *. cbn [tbl_usage_events tbl_provider_calls] in *.
  unfold bind at 1. cbn [log].
  unfold tryCatch, transaction, bind at 1. cbn [providerCall_updateMany_billed].
  cbn [tbl_sessions tbl_messages tbl_provider_calls tbl_usage_events
       tbl_tool_executions sessionLocks nextId attemptLog logLines].
  destruct (length (List.filter (unbilled (pc_id providerCall)) pcs) =? 0)%nat eqn:Hcount.
  - (* already billed *)
    apply Nat.eqb_eq, nil_length_inv in Hcount.
    rewrite (markBilled_none _ _ Hcount). cbn [log].
    cbn [tbl_sessions tbl_messages tbl_provider_calls tbl_usage_events
         tbl_tool_executions sessionLocks nextId attemptLog logLines].
    eexists. split; [done|].
    cbn [tbl_usage_events tbl_provider_calls].
    pose proof (unbilled_none_billed _ _ _ Hcount Hrow Hid) as Hb.
    pose proof (Hbilled row Hrow Hb) as Hone. rewrite Hid in Hone.
    split; [by split|]. split; [done|]. split; [by exists row|]. split; [done|lia].
  - unfold bind at 1. unfold usageEvent_create.
    cbn [tbl_sessions tbl_messages tbl_provider_calls tbl_usage_events
         tbl_tool_executions sessionLocks nextId attemptLog logLines].
    rewrite usage_exists_count.
    destruct (length (List.filter
                (fun ue => bool_decide (ue_providerCallId ue = pc_id providerCall)) ues) =? 0)%nat
      eqn:Hevents; cbn [negb].
    + (* the event is inserted *)
      cbn [log rollback].
      cbn [tbl_sessions tbl_messages tbl_provider_calls tbl_usage_events
           tbl_tool_executions sessionLocks nextId attemptLog logLines].
      eexists. split; [done|].
      cbn [tbl_usage_events tbl_provider_calls].
      apply Nat.eqb_eq in Hevents.
      assert (Hcounts : forall id,
        length (List.filter (fun ue => bool_decide (ue_providerCallId ue = id))
                  (ues ++ [{| ue_id := nid; ue_tenantId := tenantId; ue_agentId := agentId;
                              ue_sessionId := sessionId;
                              ue_providerCallId := pc_id providerCall;
                              ue_provider := pc_provider providerCall;
                              ue_tokensIn := pc_tokensIn providerCall;
                              ue_tokensOut := pc_tokensOut providerCall;
                              ue_totalTokens := pc_tokensIn providerCall + pc_tokensOut providerCall;
                              ue_costCents := Pricing.calculateCost (pc_provider providerCall)
                                (pc_tokensIn providerCall) (pc_tokensOut providerCall);
                              ue_pricingSnapshot := Pricing.getPricingSnapshot (pc_provider providerCall) |}]))
        = (length (List.filter (fun ue => bool_decide (ue_providerCallId ue = id)) ues)
           + (if bool_decide (pc_id providerCall = id) then 1 else 0))%nat).
      { intros id. rewrite List.filter_app, length_app. cbn.
        by destruct (bool_decide (pc_id providerCall = id)). }
      split; [split; unfold usageCount; cbn [tbl_usage_events tbl_provider_calls]|].
      * intros id. rewrite Hcounts. case_bool_decide as Hcase; [|specialize (Huniq id); lia].
        subst id. lia.
      * intros pc' (pc & Hpc & ->)%markBilled_elem Hb. rewrite markBilled_id, Hcounts.
        case_bool_decide as Hcase; [rewrite <- Hcase; lia|].
        unfold markBilled, unbilled in Hb.
        rewrite bool_decide_eq_false_2 in Hb by done. cbn in Hb.
        rewrite (Hbilled pc Hpc Hb). lia.
      * rewrite Hcounts, bool_decide_eq_true_2 by done. split; [lia|].
        split.
        { exists (markBilled (pc_id providerCall) row).
          split; [by apply list_elem_of_fmap_2|]. by rewrite markBilled_id. }
        split; [|lia]. intros id Hne. rewrite Hcounts, bool_decide_eq_false_2 by done. lia.
    + (* the unique index refuses the event: rolled back and swallowed *)
      cbn [rollback exnCode P2002].
      rewrite bool_decide_eq_true_2 by done. cbn [log].
      cbn [tbl_sessions tbl_messages tbl_provider_calls tbl_usage_events
           tbl_tool_executions sessionLocks nextId attemptLog logLines].
      eexists. split; [done|].
      unfold rollback. cbn [tbl_usage_events tbl_provider_calls].
      apply Nat.eqb_neq in Hevents. pose proof (Huniq (pc_id providerCall)).
      split; [by split|]. split; [lia|]. split; [by exists row|]. split; [done|lia].
Qed.

(** The invariant holds of a database without provider calls, and storing
    a provider call keeps it: the new row is not billed. *)
Lemma providerCall_create_consistent correlationId result status w :
  BillingConsistent w ->
  exists row w',
    providerCall_create sessionId correlationId result status w = (inr row, w')
    /\ row ∈ tbl_provider_calls w'
    /\ pc_billed row = false
    /\ BillingConsistent w'.
Proof.
  intros [Huniq Hbilled]. unfold providerCall_create. eexists _, _.
  split; [done|]. cbn. split; [apply elem_of_app; right; left|]. split; [done|].
  split; [done|]. cbn. intros pc [Hin|Hin%list_elem_of_singleton]%elem_of_app Hb.
  - by apply Hbilled.
  - subst pc. done.
Qed.

(** C1. For a provider call with status SUCCESS of a session that is no
    demo, any number of invocations of [createUsageEvent] return without an
    error, leave at most one usage event for the call (they add at most
    one), and leave exactly one as soon as there was an invocation. *)
Theorem billing_exactly_once providerCall w n :
  BillingConsistent w ->
  (exists row, row ∈ tbl_provider_calls w /\ pc_id row = pc_id providerCall) ->
  pc_status providerCall = SUCCESS ->
  exists w',
    repeatM n (createUsageEvent tenantId agentId sessionId false providerCall) w
      = (inr tt, w')
    /\ (usageCount (pc_id providerCall) w' <= 1)%nat
    /\ (usageCount (pc_id providerCall) w <= usageCount (pc_id providerCall) w')%nat
    /\ (1 <= n -> usageCount (pc_id providerCall) w' = 1)%nat
    /\ (forall id, id <> pc_id providerCall -> usageCount id w' = usageCount id w)
    /\ BillingConsistent w'.
Proof.
  revert w. induction n as [|n IH]; intros w Hcons Hrow Hstatus; cbn [repeatM].
  - exists w. split; [done|]. split; [apply (bc_unique _ Hcons)|].
    split; [done|]. split; [lia|]. done.
  - destruct (createUsageEvent_once providerCall w Hcons Hrow Hstatus)
      as (w1 & Hrun & Hcons1 & Hone & Hrow1 & Hothers1 & Hmono1).
    destruct (IH w1 Hcons1 Hrow1 Hstatus)
      as (w' & Hrun' & Hle & Hmono & _ & Hothers & Hcons').
    exists w'. unfold bind. rewrite Hrun. split; [done|]. split; [done|].
    split; [lia|]. split; [intros _; lia|]. split; [|done].
    intros id Hne. by rewrite Hothers, Hothers1.
Qed.

End Billing.
End BillingFacts.

(** ** The conversation history *)

Module HistoryFacts.
Import Store Service Observe.

Lemma insertBySequence_snoc m s x :
  m_sequenceNumber m < m_sequenceNumber x ->
  insertBySequence m (s ++ [x]) = insertBySequence m s ++ [x].
Proof.
  intros Hlt. induction s as [|y s IH]; cbn.
  - by rewrite (proj2 (Z.ltb_lt _ _) Hlt).
  - destruct (m_sequenceNumber m <? m_sequenceNumber y); [done|]. by rewrite IH.
Qed.

(** A row above all others sorts to the end. *)
Lemma orderBySequenceAsc_snoc l x :
  Forall (fun m => m_sequenceNumber m < m_sequenceNumber x) l ->
  orderBySequenceAsc (l ++ [x]) = orderBySequenceAsc l ++ [x].
Proof.
  unfold orderBySequenceAsc. rewrite foldr_app. cbn.
  induction 1 as [|m l Hm _ IH]; cbn; [done|].
  by rewrite IH, insertBySequence_snoc.
Qed.

(** Rows numbered 1, 2, ..., n in this order are in ascending order. *)
Lemma orderBySequenceAsc_oneToN n :
  forall l, m_sequenceNumber <$> l = oneToN n -> orderBySequenceAsc l = l.
Proof.
  induction n as [|n IH]; intros l Hl.
  - by apply fmap_nil_inv in Hl as ->.
  - rewrite SequenceFacts.oneToN_S in Hl.
    apply fmap_app_inv in Hl as (l' & lx & Hl' & Hx & ->).
    destruct lx as [|x [|? ?]]; try done. injection Hx as Hx.
    symmetry in Hl'.
    rewrite orderBySequenceAsc_snoc, (IH l' Hl'); [done|].
    apply Forall_forall. intros m Hm.
    assert (m_sequenceNumber m ∈ oneToN n) as Hin
      by (rewrite <- Hl'; by apply list_elem_of_fmap_2).
    apply list_elem_of_fmap in Hin as (k & -> & Hk%elem_of_seq). lia.
Qed.

Lemma oneToN_take k n : take k (oneToN n) = oneToN (min k n).
Proof.
  unfold oneToN. rewrite <- fmap_take. f_equal. apply take_seq.
Qed.

(** C7. For a session whose messages are numbered 1 to n,
    [loadConversationHistory] reads the messages numbered 1 to
    [min maxHistoryMessages n] and builds the history from them: once the
    session has more than [maxHistoryMessages] messages, the history is
    made of the oldest ones, and the most recent message is not part of
    it. *)
Theorem history_keeps_oldest env sessionId w n :
  sessionSequence sessionId w = oneToN n ->
  exists rows,
    message_findMany sessionId (session_maxHistoryMessages env) w = (inr rows, w)
    /\ m_sequenceNumber <$> rows = oneToN (min (session_maxHistoryMessages env) n)
    /\ loadConversationHistory env sessionId w
       = (match mapThrowing toConversationMessage rows with
          | inl e => inl e
          | inr history => inr history
          end, w)
    /\ ((session_maxHistoryMessages env < n)%nat ->
        forall m, m_sequenceNumber m = Z.of_nat n -> m ∉ rows).
Proof.
  intros Hseq. unfold sessionSequence in Hseq.
  eexists. split; [done|].
  rewrite (orderBySequenceAsc_oneToN n _ Hseq).
  split; [by rewrite fmap_take, Hseq, oneToN_take|].
  split.
  - unfold loadConversationHistory, bind, message_findMany.
    rewrite (orderBySequenceAsc_oneToN n _ Hseq).
    by destruct (mapThrowing _ _).
  - intros Hlt m Hm Hin.
    assert (m_sequenceNumber m ∈ oneToN (min (session_maxHistoryMessages env) n)) as Hel.
    { rewrite <- oneToN_take, <- Hseq, <- fmap_take. by apply list_elem_of_fmap_2. }
    apply list_elem_of_fmap in Hel as (k & Hk & Hr%elem_of_seq). lia.
Qed.

End HistoryFacts.

(** ** How computations compose *)

Module MonadFacts.
Import Store Service Observe.

Lemma bind_inv {A B} (m : M A) (k : A -> M B) w r w' :
  bind m k w = (r, w') ->
  (exists e, m w = (inl e, w') /\ r = inl e)
  \/ (exists a w1, m w = (inr a, w1) /\ k a w1 = (r, w')).
Proof.
  unfold bind. destruct (m w) as [[e|a] w1]; intros H.
  - left. exists e. by injection H as <- <-.
  - right. by exists a, w1.
Qed.

Lemma bind_inr {A B} (m : M A) (k : A -> M B) w a w1 :
  m w = (inr a, w1) -> bind m k w = k a w1.
Proof. unfold bind. by intros ->. Qed.

Lemma bind_inl {A B} (m : M A) (k : A -> M B) w e w1 :
  m w = (inl e, w1) -> bind m k w = (inl e, w1).
Proof. unfold bind. by intros ->. Qed.

Section Keeps.

Context {C : Type} (component : World -> C).

Lemma Keeps_ret {A} (a : A) : Keeps component (ret a).
Proof. by intros w r w' [= <- <-]. Qed.

Lemma Keeps_throw {A} e : Keeps component (@throw A e).
Proof. by intros w r w' [= <- <-]. Qed.

Lemma Keeps_bind {A B} (m : M A) (k : A -> M B) :
  Keeps component m -> (forall a, Keeps component (k a)) ->
  Keeps component (bind m k).
Proof.
  intros Hm Hk w r w' [(e & H & _)|(a & w1 & H & Hk')]%bind_inv.
  - by apply Hm in H.
  - apply Hm in H. apply Hk in Hk'. congruence.
Qed.

Lemma Keeps_tryCatch {A} (body : M A) handler :
  Keeps component body -> (forall e, Keeps component (handler e)) ->
  Keeps component (tryCatch body handler).
Proof.
  intros Hb Hh w r w'. unfold tryCatch.
  destruct (body w) as [[e|a] w1] eqn:Hbody; intros H.
  - apply Hb in Hbody. apply Hh in H. congruence.
  - injection H as <- <-. by apply Hb in Hbody.
Qed.

Lemma Keeps_tryFinally {A} (body : M A) fin :
  Keeps component body -> Keeps component fin ->
  Keeps component (tryFinally body fin).
Proof.
  intros Hb Hf w r w'. unfold tryFinally.
  destruct (body w) as [r1 w1] eqn:Hbody.
  destruct (fin w1) as [[e|[]] w2] eqn:Hfin; intros [= <- <-];
    apply Hb in Hbody; apply Hf in Hfin; congruence.
Qed.

End Keeps.

(** Computations that only read. *)
Lemma Keeps_read {A C} (component : World -> C) (m : M A) :
  (forall w, (m w).2 = w) -> Keeps component m.
Proof. intros H w r w' Hm. specialize (H w). rewrite Hm in H. cbn in H. by subst. Qed.

End MonadFacts.

(** ** What the steps of the pipeline leave alone *)

Module FrameFacts.
Import Store Service Observe MonadFacts.

(** Solves [Keeps component m] for a primitive [m], once it is unfolded. *)
Ltac keeps_primitive :=
  let H := fresh in
  intros ? ? ? H; repeat (case_match; simplify_eq); by simplify_eq.

Lemma log_run l w : log l w = (inr tt, logged [l] w).
Proof. done. Qed.

Lemma Keeps_log {C} (component : World -> C) l :
  (forall w, component (logged [l] w) = component w) -> Keeps component (log l).
Proof. intros Hc w r w'. rewrite log_run. by intros [= <- <-]. Qed.

Lemma Keeps_transaction_tables {A C} (component : World -> C) (body : M A) :
  (forall w w1, component (rollback w w1) = component w) ->
  Keeps component body -> Keeps component (transaction body).
Proof.
  intros Hr Hb w r w'. unfold transaction.
  destruct (body w) as [[e|a] w1] eqn:Hbody; intros [= <- <-]; [done|].
  by apply Hb in Hbody.
Qed.

Lemma Keeps_transaction_rest {A C} (component : World -> C) (body : M A) :
  (forall w w1, component (rollback w w1) = component w1) ->
  Keeps component body -> Keeps component (transaction body).
Proof.
  intros Hr Hb w r w'. unfold transaction.
  destruct (body w) as [[e|a] w1] eqn:Hbody; intros [= <- <-];
    apply Hb in Hbody; [by rewrite Hr|done].
Qed.

(** *** The messages table *)

Lemma messages_setLocks f : Keeps tbl_messages (setLocks f).
Proof. unfold setLocks. keeps_primitive. Qed.

Lemma messages_findFirst p : Keeps tbl_messages (message_findFirst p).
Proof. unfold message_findFirst. keeps_primitive. Qed.

Lemma messages_findMany sessionId k : Keeps tbl_messages (message_findMany sessionId k).
Proof. unfold message_findMany. keeps_primitive. Qed.

Lemma messages_providerCall_create sessionId correlationId result status :
  Keeps tbl_messages (providerCall_create sessionId correlationId result status).
Proof. unfold providerCall_create. keeps_primitive. Qed.

Lemma messages_updateMany id : Keeps tbl_messages (providerCall_updateMany_billed id).
Proof. unfold providerCall_updateMany_billed. keeps_primitive. Qed.

Lemma messages_usageEvent_create tenantId agentId sessionId providerCall costCents :
  Keeps tbl_messages (usageEvent_create tenantId agentId sessionId providerCall costCents).
Proof. unfold usageEvent_create. keeps_primitive. Qed.

Lemma messages_toolExecution_create row : Keeps tbl_messages (toolExecution_create row).
Proof. unfold toolExecution_create. keeps_primitive. Qed.

Lemma messages_getSessionWithAgent tenantId sessionId :
  Keeps tbl_messages (getSessionWithAgent tenantId sessionId).
Proof. unfold getSessionWithAgent. keeps_primitive. Qed.

Lemma messages_getNextSequenceNumber sessionId :
  Keeps tbl_messages (getNextSequenceNumber sessionId).
Proof. unfold getNextSequenceNumber. keeps_primitive. Qed.

Lemma messages_executeWithResilience env request config :
  Keeps tbl_messages (executeWithResilience env request config).
Proof. unfold executeWithResilience. keeps_primitive. Qed.

(** *** The lock map *)

Lemma locks_findFirst p : Keeps sessionLocks (message_findFirst p).
Proof. unfold message_findFirst. keeps_primitive. Qed.

Lemma locks_findMany sessionId k : Keeps sessionLocks (message_findMany sessionId k).
Proof. unfold message_findMany. keeps_primitive. Qed.

Lemma locks_message_create sessionId sequenceNumber key role content toolCalls providerCallId :
  Keeps sessionLocks
    (message_create sessionId sequenceNumber key role content toolCalls providerCallId).
Proof. unfold message_create. keeps_primitive. Qed.

Lemma locks_providerCall_create sessionId correlationId result status :
  Keeps sessionLocks (providerCall_create sessionId correlationId result status).
Proof. unfold providerCall_create. keeps_primitive. Qed.

Lemma locks_updateMany id : Keeps sessionLocks (providerCall_updateMany_billed id).
Proof. unfold providerCall_updateMany_billed. keeps_primitive. Qed.

Lemma locks_usageEvent_create tenantId agentId sessionId providerCall costCents :
  Keeps sessionLocks (usageEvent_create tenantId agentId sessionId providerCall costCents).
Proof. unfold usageEvent_create. keeps_primitive. Qed.

Lemma locks_toolExecution_create row : Keeps sessionLocks (toolExecution_create row).
Proof. unfold toolExecution_create. keeps_primitive. Qed.

Lemma locks_getSessionWithAgent tenantId sessionId :
  Keeps sessionLocks (getSessionWithAgent tenantId sessionId).
Proof. unfold getSessionWithAgent. keeps_primitive. Qed.

Lemma locks_getNextSequenceNumber sessionId :
  Keeps sessionLocks (getNextSequenceNumber sessionId).
Proof. unfold getNextSequenceNumber. keeps_primitive. Qed.

Lemma locks_executeWithResilience env request config :
  Keeps sessionLocks (executeWithResilience env request config).
Proof. unfold executeWithResilience. keeps_primitive. Qed.

Create HintDb keeps.

#[export] Hint Resolve
  messages_setLocks messages_findFirst messages_findMany
  messages_providerCall_create messages_updateMany messages_usageEvent_create
  messages_toolExecution_create messages_getSessionWithAgent
  messages_getNextSequenceNumber messages_executeWithResilience
  locks_findFirst locks_findMany locks_message_create locks_providerCall_create
  locks_updateMany locks_usageEvent_create locks_toolExecution_create
  locks_getSessionWithAgent locks_getNextSequenceNumber
  locks_executeWithResilience : keeps.

(** Solves [Keeps component m] for a computation [m] built from the
    primitives, by following its structure. *)
Ltac keeps :=
  repeat first
    [ progress intros
    | solve [eauto with keeps]
    | apply Keeps_ret
    | apply Keeps_throw
    | apply Keeps_bind
    | apply Keeps_tryCatch
    | apply Keeps_tryFinally
    | apply Keeps_log; reflexivity
    | apply Keeps_transaction_tables; [reflexivity|]
    | apply Keeps_transaction_rest; [reflexivity|]
    | match goal with
      | |- Keeps _ (match ?x with _ => _ end) => destruct x
      | |- Keeps _ (fun w => _) => by apply Keeps_read
      end
    | solve [ unfold setLocks, message_findFirst, message_findMany, message_create,
                providerCall_create, providerCall_updateMany_billed,
                usageEvent_create, toolExecution_create, getSessionWithAgent,
                getNextSequenceNumber, executeWithResilience;
              keeps_primitive ] ].

Section Frames.

Variable env : Env.

Lemma messages_loadConversationHistory sessionId :
  Keeps tbl_messages (loadConversationHistory env sessionId).
Proof. unfold loadConversationHistory. keeps. Qed.

Lemma locks_loadConversationHistory sessionId :
  Keeps sessionLocks (loadConversationHistory env sessionId).
Proof. unfold loadConversationHistory. keeps. Qed.

Lemma messages_findByIdempotencyKey sessionId key :
  Keeps tbl_messages (findByIdempotencyKey sessionId key).
Proof. unfold findByIdempotencyKey. keeps. Qed.

Lemma messages_createUsageEvent tenantId agentId sessionId demoMode providerCall :
  Keeps tbl_messages (createUsageEvent tenantId agentId sessionId demoMode providerCall).
Proof. unfold createUsageEvent. keeps. Qed.

Lemma locks_createUsageEvent tenantId agentId sessionId demoMode providerCall :
  Keeps sessionLocks (createUsageEvent tenantId agentId sessionId demoMode providerCall).
Proof. unfold createUsageEvent. keeps. Qed.

Lemma messages_execute toolName args context enabled :
  Keeps tbl_messages (Registry.execute (registry env) toolName args context enabled).
Proof. unfold Registry.execute. keeps. Qed.

Lemma locks_execute toolName args context enabled :
  Keeps sessionLocks (Registry.execute (registry env) toolName args context enabled).
Proof. unfold Registry.execute. keeps. Qed.

Lemma messages_executeToolCalls toolCalls agent context :
  Keeps tbl_messages (executeToolCalls env toolCalls agent context).
Proof.
  induction toolCalls as [|toolCall rest IH]; cbn [executeToolCalls]; [keeps|].
  pose proof messages_execute. keeps.
Qed.

Lemma locks_executeToolCalls toolCalls agent context :
  Keeps sessionLocks (executeToolCalls env toolCalls agent context).
Proof.
  induction toolCalls as [|toolCall rest IH]; cbn [executeToolCalls]; [keeps|].
  pose proof locks_execute. keeps.
Qed.

Lemma locks_storeToolResults sessionId toolResults :
  Keeps sessionLocks (storeToolResults sessionId toolResults).
Proof.
  induction toolResults as [|toolResult rest IH]; cbn [storeToolResults]; keeps.
Qed.

Lemma locks_handleToolCalls tenantId sessionId correlationId agent response toolCalls providerCall :
  Keeps sessionLocks
    (handleToolCalls env tenantId sessionId correlationId agent response toolCalls providerCall).
Proof.
  unfold handleToolCalls.
  pose proof locks_executeToolCalls. pose proof locks_storeToolResults.
  pose proof locks_loadConversationHistory. keeps.
Qed.

(** The callback that runs under the lock never touches the lock map. *)
Lemma locks_processMessage tenantId sessionId input correlationId :
  Keeps sessionLocks (processMessage env tenantId sessionId input correlationId).
Proof.
  unfold processMessage.
  pose proof locks_handleToolCalls. pose proof locks_createUsageEvent.
  pose proof locks_loadConversationHistory. keeps.
Qed.

(** Running the tools and storing their messages neither stores a provider
    call nor calls an adapter. *)
Lemma provider_calls_executeToolCalls toolCalls agent context :
  Keeps tbl_provider_calls (executeToolCalls env toolCalls agent context).
Proof.
  induction toolCalls as [|toolCall rest IH]; cbn [executeToolCalls]; [keeps|].
  assert (forall n a c e, Keeps tbl_provider_calls (Registry.execute (registry env) n a c e))
    by (intros; unfold Registry.execute; keeps).
  keeps.
Qed.

Lemma attempts_executeToolCalls toolCalls agent context :
  Keeps attemptLog (executeToolCalls env toolCalls agent context).
Proof.
  induction toolCalls as [|toolCall rest IH]; cbn [executeToolCalls]; [keeps|].
  assert (forall n a c e, Keeps attemptLog (Registry.execute (registry env) n a c e))
    by (intros; unfold Registry.execute; keeps).
  keeps.
Qed.

Lemma provider_calls_storeToolResults sessionId toolResults :
  Keeps tbl_provider_calls (storeToolResults sessionId toolResults).
Proof.
  induction toolResults as [|toolResult rest IH]; cbn [storeToolResults]; keeps.
Qed.

Lemma attempts_storeToolResults sessionId toolResults :
  Keeps attemptLog (storeToolResults sessionId toolResults).
Proof.
  induction toolResults as [|toolResult rest IH]; cbn [storeToolResults]; keeps.
Qed.

End Frames.

End FrameFacts.

(** ** The message pipeline *)

Module PipelineFacts.
Import Store Service Observe MonadFacts FrameFacts.

Lemma bind_inr_inv {A B} (m : M A) (k : A -> M B) w b w' :
  bind m k w = (inr b, w') ->
  exists a w1, m w = (inr a, w1) /\ k a w1 = (inr b, w').
Proof. intros [(e & _ & [=])|H]%bind_inv. done. Qed.

(** *** Storing messages *)

Lemma message_create_inv sessionId sequenceNumber key role content toolCalls providerCallId w row w' :
  message_create sessionId sequenceNumber key role content toolCalls providerCallId w
    = (inr row, w') ->
  tbl_messages w' = tbl_messages w ++ [row]
  /\ row = {| m_id := nextId w; m_sessionId := sessionId;
              m_sequenceNumber := sequenceNumber; m_idempotencyKey := key;
              m_role := role; m_content := content; m_toolCalls := toolCalls;
              m_providerCallId := providerCallId |}
  /\ existsb (clashesKey sessionId key) (tbl_messages w) = false.
Proof.
  unfold message_create. intros H.
  destruct (existsb (clashesKey _ _) _); [done|].
  destruct (existsb (clashesSequence _ _) _); [done|].
  by injection H as <- <-.
Qed.

(** Inserting at the next sequence number without an idempotency key
    always succeeds. *)
Lemma message_create_next sessionId role content toolCalls providerCallId w :
  exists row w',
    message_create sessionId (get_next_message_sequence sessionId w) None role content
      toolCalls providerCallId w = (inr row, w').
Proof.
  unfold message_create.
  rewrite SequenceFacts.no_key_no_clash, SequenceFacts.no_sequence_clash.
  by eexists _, _.
Qed.

Lemma get_next_ext sessionId w1 w2 :
  tbl_messages w1 = tbl_messages w2 ->
  get_next_message_sequence sessionId w1 = get_next_message_sequence sessionId w2.
Proof. unfold get_next_message_sequence. by intros ->. Qed.

Lemma get_next_snoc sessionId w w' row :
  tbl_messages w' = tbl_messages w ++ [row] ->
  m_sessionId row = sessionId ->
  m_sequenceNumber row = get_next_message_sequence sessionId w ->
  get_next_message_sequence sessionId w' = get_next_message_sequence sessionId w + 1.
Proof.
  intros Hm Hs Hq. unfold get_next_message_sequence at 1.
  rewrite Hm, List.filter_app, fmap_app. cbn. unfold ofSession at 2.
  rewrite bool_decide_eq_true_2 by done. cbn.
  rewrite SequenceFacts.sqlMax_snoc; [cbn; lia|].
  intros y Hy. fold (sessionSequence sessionId w) in Hy.
  apply SequenceFacts.sessionSequence_inv in Hy as (m & Hin & Hms & <-).
  pose proof (SequenceFacts.next_sequence_fresh _ _ _ Hin Hms). lia.
Qed.

(** *** Loading the history *)

Lemma mapThrowing_app {A B} (f : A -> Exn + B) l1 l2 :
  mapThrowing f (l1 ++ l2) =
  match mapThrowing f l1 with
  | inl e => inl e
  | inr ys1 =>
      match mapThrowing f l2 with
      | inl e => inl e
      | inr ys2 => inr (ys1 ++ ys2)
      end
  end.
Proof.
  induction l1 as [|x l1 IH]; cbn.
  - by destruct (mapThrowing f l2).
  - destruct (f x); [done|]. rewrite IH.
    destruct (mapThrowing f l1); [done|]. by destruct (mapThrowing f l2).
Qed.

Lemma mapThrowing_take {A B} (f : A -> Exn + B) l ys k :
  mapThrowing f l = inr ys -> mapThrowing f (take k l) = inr (take k ys).
Proof.
  revert l ys. induction k as [|k IH]; intros l ys; [done|].
  destruct l as [|x l]; cbn; [by intros [= <-]|].
  destruct (f x); [done|]. destruct (mapThrowing f l) eqn:Hl; [done|].
  intros [= <-]. by rewrite (IH l _ Hl).
Qed.

Lemma loadConversationHistory_run env sessionId w :
  loadConversationHistory env sessionId w =
  (mapThrowing toConversationMessage
     (take (session_maxHistoryMessages env)
        (orderBySequenceAsc (List.filter (ofSession sessionId) (tbl_messages w)))), w).
Proof.
  unfold loadConversationHistory, bind, message_findMany.
  by destruct (mapThrowing _ _).
Qed.

Lemma HistoryLoads_ext env sessionId w1 w2 :
  tbl_messages w1 = tbl_messages w2 ->
  HistoryLoads env sessionId w1 -> HistoryLoads env sessionId w2.
Proof.
  intros Hm [h Hh]. exists h. rewrite loadConversationHistory_run in *.
  rewrite <- Hm. by injection Hh as ->.
Qed.

(** A stored message that can be translated keeps the history loadable. *)
Lemma HistoryLoads_snoc env sessionId w w' row c :
  HistoryLoads env sessionId w ->
  tbl_messages w' = tbl_messages w ++ [row] ->
  m_sessionId row = sessionId ->
  m_sequenceNumber row = get_next_message_sequence sessionId w ->
  toConversationMessage row = inr c ->
  HistoryLoads env sessionId w'.
Proof.
  intros [h Hh] Hm Hs Hq Hc. unfold HistoryLoads.
  rewrite loadConversationHistory_run in *. injection Hh as Hh.
  rewrite Hm, List.filter_app. cbn. unfold ofSession at 2.
  rewrite bool_decide_eq_true_2 by done.
  rewrite HistoryFacts.orderBySequenceAsc_snoc.
  2:{ apply Forall_forall. intros m [Hin Hms]%list_elem_of_In%List.filter_In.
      apply bool_decide_eq_true in Hms. rewrite Hq.
      apply SequenceFacts.next_sequence_fresh; [by apply list_elem_of_In|done]. }
  rewrite take_app, mapThrowing_app, Hh.
  rewrite (mapThrowing_take _ [row] [c]); [by eexists|].
  cbn. by rewrite Hc.
Qed.

(** *** Tool calls *)

Section Tools.

Variable env : Env.

(** One tool call: whatever the registry and the tool do, the call is
    turned into an entry. *)
Lemma tool_call_entry toolCall agent context w :
  exists entry w',
    tryCatch
      (bind (Registry.execute (registry env) (tc_name toolCall) (tc_args toolCall)
               context (a_enabledTools agent))
         (fun toolResult =>
            bind (log (Tool_call_executed (tc_id toolCall) (Registry.success toolResult)))
              (fun _ =>
                 ret {| tr_id := tc_id toolCall;
                        tr_result := if Registry.success toolResult
                                     then Registry.data toolResult else None;
                        tr_error := Registry.error toolResult |})))
      (fun error =>
         let errorMsg := Registry.messageOrUnknown error in
         bind (log (Tool_call_failed (tc_id toolCall) errorMsg))
           (fun _ =>
              ret {| tr_id := tc_id toolCall; tr_result := None;
                     tr_error := Some errorMsg |})) w
    = (inr entry, w')
    /\ EntryFor env agent context toolCall entry.
Proof.
  unfold tryCatch, bind, Registry.execute, EntryFor, ToolFails.
  destruct (registry env !! tc_name toolCall) as [tool|] eqn:Hreg.
  - case_bool_decide as Hen; cbn [negb].
    + destruct (Registry.run tool (tc_args toolCall) context) as [result|e|] eqn:Hrun.
      * cbn. eexists _, _. split; [done|]. cbn. split; [done|].
        split; [|split; [done|by intros _ ?]].
        intros [?|[?|(tool' & [= <-] & [?|[e ?]])]]; congruence.
      * destruct (instanceof e TimeoutError); cbn; eexists _, _; (split; [done|]); cbn;
          (split; [done|]); (split; [done|]); (split; [done|by intros _ ?]).
      * cbn. eexists _, _. split; [done|]. cbn. split; [done|]. split; [done|].
        split; [done|by intros _ ?].
    + cbn. eexists _, _. split; [done|]. cbn. split; [done|]. split; [done|].
      split; [done|]. done.
  - cbn. eexists _, _. split; [done|]. cbn. split; [done|]. split; [done|].
    split; [done|]. by intros [? ?].
Qed.

(** [executeToolCalls] never throws: it returns one entry per call, in the
    order of the calls. *)
Lemma executeToolCalls_total toolCalls agent context :
  forall w, exists results w',
    executeToolCalls env toolCalls agent context w = (inr results, w')
    /\ Forall2 (EntryFor env agent context) toolCalls results.
Proof.
  induction toolCalls as [|toolCall rest IH]; intros w; cbn [executeToolCalls].
  - by eexists _, _.
  - rewrite (bind_inr _ _ _ _ _ (log_run _ _)).
    destruct (tool_call_entry toolCall agent context
                (logged [Executing_tool_call (tc_id toolCall) (tc_name toolCall)] w))
      as (entry & w1 & Hrun & Hentry).
    rewrite (bind_inr _ _ _ _ _ Hrun).
    destruct (IH w1) as (results & w' & Hrest & Hall).
    rewrite (bind_inr _ _ _ _ _ Hrest).
    eexists _, _. split; [done|]. by constructor.
Qed.

(** The TOOL messages: one per entry, each at the next sequence number. *)
Lemma storeToolResults_total sessionId toolResults :
  forall w, exists rows w',
    storeToolResults sessionId toolResults w = (inr tt, w')
    /\ tbl_messages w' = tbl_messages w ++ rows
    /\ m_content <$> rows = ToolJson <$> toolResults
    /\ Forall (fun row => m_role row = TOOL /\ m_sessionId row = sessionId) rows
    /\ (HistoryLoads env sessionId w -> HistoryLoads env sessionId w').
Proof.
  induction toolResults as [|toolResult rest IH]; intros w; cbn [storeToolResults].
  - exists [], w. by rewrite app_nil_r.
  - unfold bind at 1. unfold getNextSequenceNumber at 1.
    destruct (message_create_next sessionId TOOL (ToolJson toolResult) None None w)
      as (row & w1 & Hrow).
    rewrite (bind_inr _ _ _ _ _ Hrow).
    apply message_create_inv in Hrow as (Hm & Hfields & _).
    destruct (IH w1) as (rows & w' & Hrest & Hm' & Hcontents & Hroles & Hloads).
    exists (row :: rows), w'. split; [done|].
    split; [by rewrite Hm', Hm, <- app_assoc|].
    split; [cbn; f_equal; [by subst row|done]|].
    split; [constructor; [by subst row|done]|].
    intros Hw. apply Hloads.
    eapply (HistoryLoads_snoc env sessionId w w1 row); try done; by subst row.
Qed.

(** The orchestrator, seen from the service: with at least one attempt per
    path it returns a result, and it changes the log of attempts only. *)
Lemma executeWithResilience_run request config w :
  (1 <= retry_maxAttempts env)%nat ->
  exists result w',
    executeWithResilience env request config w = (inr result, w')
    /\ Orchestrator.executeWithResilience (retry_maxAttempts env) (adapters env)
         request config (attemptLog w) = (inr result, attemptLog w')
    /\ tbl_messages w' = tbl_messages w
    /\ tbl_provider_calls w' = tbl_provider_calls w.
Proof.
  intros Hmax. unfold executeWithResilience.
  destruct (OrchestratorFacts.executeWithResilience_returns
              (retry_maxAttempts env) (adapters env) request config (attemptLog w) Hmax)
    as [res Hres].
  destruct (Orchestrator.executeWithResilience _ _ _ _ _) as [r attempts].
  cbn in Hres. subst r. by eexists _, _.
Qed.

(** C10. When the response of the provider carries tool calls, no failure
    of a tool ends the pipeline: every call is turned into an entry (for a
    call that fails, one without result and with the error message), the
    interim assistant message is followed by exactly one TOOL message per
    call, holding its entry, and then the provider is called again on the
    history that includes these messages and the record of this second
    provider call is stored.  How the step ends only depends on what this
    second provider call returns. *)
Theorem tool_failures_never_abort tenantId sessionId correlationId agent response
    toolCalls providerCall w :
  (1 <= retry_maxAttempts env)%nat ->
  HistoryLoads env sessionId w ->
  exists r w' interim results toolRows updatedHistory finalResult finalProviderCall,
    handleToolCalls env tenantId sessionId correlationId agent response toolCalls
      providerCall w = (r, w')
    /\ Forall2 (EntryFor env agent
                  {| Registry.ctx_tenantId := tenantId;
                     Registry.ctx_sessionId := sessionId;
                     Registry.ctx_correlationId := correlationId |})
         toolCalls results
    /\ tbl_messages w' = tbl_messages w ++ interim :: toolRows
    /\ m_role interim = ASSISTANT
    /\ m_toolCalls interim = Some toolCalls
    /\ m_content <$> toolRows = ToolJson <$> results
    /\ Forall (fun row => m_role row = TOOL /\ m_sessionId row = sessionId) toolRows
    /\ length toolRows = length toolCalls
    /\ loadConversationHistory env sessionId w' = (inr updatedHistory, w')
    /\ Orchestrator.executeWithResilience (retry_maxAttempts env) (adapters env)
         (buildProviderRequest agent updatedHistory "")
         {| Orchestrator.primaryProvider := a_primaryProvider agent;
            Orchestrator.fallbackProvider := a_fallbackProvider agent;
            Orchestrator.correlationId := Some correlationId |}
         (attemptLog w) = (inr finalResult, attemptLog w')
    /\ tbl_provider_calls w' = tbl_provider_calls w ++ [finalProviderCall]
    /\ pc_status finalProviderCall = statusOf finalResult
    /\ r = match responseOf finalResult with
           | Some finalResponse => inr (finalResponse, finalProviderCall)
           | None =>
               inl (AppErr (newAppError ValidationError
                      (errorMessageOr finalResult
                         "Failed to get final response from AI provider")))
           end.
Proof.
  intros Hmax Hloads. unfold handleToolCalls.
  (* the interim assistant message *)
  rewrite (bind_inr _ _ _ _ _ (log_run _ _)).
  set (w1 := logged [Processing_tool_calls (length toolCalls)] w).
  unfold bind at 1. unfold getNextSequenceNumber at 1.
  destruct (message_create_next sessionId ASSISTANT (Text (content response))
              (Some toolCalls) (Some (pc_id providerCall)) w1) as (interim & w2 & Hinterim).
  rewrite (bind_inr _ _ _ _ _ Hinterim).
  pose proof (locks_message_create _ _ _ _ _ _ _ _ _ _ Hinterim) as _.
  assert (tbl_provider_calls w2 = tbl_provider_calls w1 /\ attemptLog w2 = attemptLog w1)
    as [Hpc2 Hat2].
  { unfold message_create in Hinterim. repeat case_match; by simplify_eq. }
  apply message_create_inv in Hinterim as (Hm2 & Hfields & _).
  assert (HistoryLoads env sessionId w1) as Hloads1
    by (by apply (HistoryLoads_ext env sessionId w w1)).
  assert (HistoryLoads env sessionId w2) as Hloads2.
  { eapply (HistoryLoads_snoc env sessionId w1 w2 interim); try done; by subst interim. }
  (* the tools *)
  destruct (executeToolCalls_total toolCalls agent
              {| Registry.ctx_tenantId := tenantId;
                 Registry.ctx_sessionId := sessionId;
                 Registry.ctx_correlationId := correlationId |} w2)
    as (results & w3 & Htools & Hentries).
  rewrite (bind_inr _ _ _ _ _ Htools).
  pose proof (messages_executeToolCalls env _ _ _ _ _ _ Htools) as Hm3.
  pose proof (provider_calls_executeToolCalls env _ _ _ _ _ _ Htools) as Hpc3.
  pose proof (attempts_executeToolCalls env _ _ _ _ _ _ Htools) as Hat3.
  assert (HistoryLoads env sessionId w3) as Hloads3
    by (by apply (HistoryLoads_ext env sessionId w2 w3)).
  (* their messages *)
  destruct (storeToolResults_total sessionId results w3)
    as (toolRows & w4 & Hstore & Hm4 & Hcontents & Hroles & Hloads4).
  rewrite (bind_inr _ _ _ _ _ Hstore).
  pose proof (provider_calls_storeToolResults _ _ _ _ _ Hstore) as Hpc4.
  pose proof (attempts_storeToolResults _ _ _ _ _ Hstore) as Hat4.
  (* the updated history and the second provider call *)
  destruct (Hloads4 Hloads3) as [updatedHistory Hhistory].
  rewrite (bind_inr _ _ _ _ _ Hhistory).
  rewrite (bind_inr _ _ _ _ _ (log_run _ _)).
  set (w5 := logged [Calling_provider_with_tool_results] w4).
  destruct (executeWithResilience_run
              (buildProviderRequest agent updatedHistory "")
              {| Orchestrator.primaryProvider := a_primaryProvider agent;
                 Orchestrator.fallbackProvider := a_fallbackProvider agent;
                 Orchestrator.correlationId := Some correlationId |} w5 Hmax)
    as (finalResult & w6 & Hcall & Horch & Hm6 & Hpc6).
  rewrite (bind_inr _ _ _ _ _ Hcall).
  unfold bind at 1. unfold providerCall_create at 1.
  rewrite (bind_inr _ _ _ _ _ (log_run _ _)).
  set (finalProviderCall := {| pc_id := nextId w6 |}).
  assert (tbl_messages w6 = tbl_messages w ++ interim :: toolRows) as Hmessages.
  { rewrite Hm6. subst w5. cbn. rewrite Hm4, Hm3, Hm2. subst w1. cbn.
    by rewrite <- app_assoc. }
  assert (tbl_provider_calls w6 = tbl_provider_calls w) as Hcalls.
  { rewrite Hpc6. subst w5. cbn. rewrite Hpc4, Hpc3, Hpc2. by subst w1. }
  assert (attemptLog w5 = attemptLog w) as Hattempts.
  { subst w5. cbn. rewrite Hat4, Hat3, Hat2. by subst w1. }
  rewrite Hattempts in Horch.
  assert (length toolRows = length toolCalls) as Hlen.
  { rewrite <- (length_fmap m_content), Hcontents, length_fmap.
    symmetry. by eapply Forall2_length. }
  assert (forall w7, tbl_messages w7 = tbl_messages w6 ->
            loadConversationHistory env sessionId w7 = (inr updatedHistory, w7)) as Hreload.
  { intros w7 H7. rewrite loadConversationHistory_run in *.
    rewrite H7, Hm6. change (tbl_messages w5) with (tbl_messages w4).
    by injection Hhistory as ->. }
  destruct (responseOf finalResult) as [finalResponse|] eqn:Hresponse.
  - eexists _, _, interim, results, toolRows, updatedHistory, finalResult, finalProviderCall.
    split; [done|]. split; [done|].
    split; [exact Hmessages|]. split; [by rewrite Hfields|]. split; [by rewrite Hfields|].
    split; [done|]. split; [done|]. split; [done|].
    split; [by apply Hreload|]. split; [exact Horch|].
    split; [cbn; by rewrite Hcalls|]. split; [done|]. by rewrite Hresponse.
  - rewrite (bind_inr _ _ _ _ _ (log_run _ _)).
    eexists _, _, interim, results, toolRows, updatedHistory, finalResult, finalProviderCall.
    split; [done|]. split; [done|].
    split; [exact Hmessages|]. split; [by rewrite Hfields|]. split; [by rewrite Hfields|].
    split; [done|]. split; [done|]. split; [done|].
    split; [by apply Hreload|]. split; [exact Horch|].
    split; [cbn; by rewrite Hcalls|]. split; [done|]. by rewrite Hresponse.
Qed.

(** *** A message that went through *)

(** The messages a successful tool round leaves: the interim assistant
    message at the next sequence number, then the TOOL messages. *)
Lemma handleToolCalls_success_messages tenantId sessionId correlationId agent response
    toolCalls providerCall w x w' :
  handleToolCalls env tenantId sessionId correlationId agent response toolCalls
    providerCall w = (inr x, w') ->
  exists interim rest,
    tbl_messages w' = tbl_messages w ++ interim :: rest
    /\ m_role interim = ASSISTANT
    /\ m_sessionId interim = sessionId
    /\ m_sequenceNumber interim = get_next_message_sequence sessionId w.
Proof.
  unfold handleToolCalls. intros H.
  apply bind_inr_inv in H as ([] & w1 & Hlog & H). rewrite log_run in Hlog.
  injection Hlog as <-.
  apply bind_inr_inv in H as (assistantSequence & w1' & Hseq & H).
  unfold getNextSequenceNumber in Hseq. injection Hseq as <- <-.
  apply bind_inr_inv in H as (interim & w2 & Hinterim & H).
  apply message_create_inv in Hinterim as (Hm2 & Hfields & _).
  apply bind_inr_inv in H as (results & w3 & Htools & H).
  apply messages_executeToolCalls in Htools as Hm3.
  apply bind_inr_inv in H as ([] & w4 & Hstore & H).
  destruct (storeToolResults_total sessionId results w3) as (rows & w4' & Hstore' & Hm4 & _).
  rewrite Hstore in Hstore'. injection Hstore' as <-.
  match type of H with
  | ?m _ = _ =>
      assert (Keeps tbl_messages m) as Hrest
        by (pose proof messages_loadConversationHistory; keeps)
  end.
  apply Hrest in H. exists interim, rows.
  split; [by rewrite H, Hm4, Hm3, Hm2, <- app_assoc|].
  by rewrite Hfields.
Qed.

(** The messages a successful run of the locked callback leaves: the USER
    message at the next sequence number, carrying the idempotency key, and
    right after it an ASSISTANT message. *)
Lemma processMessage_success_messages tenantId sessionId input correlationId w resp w' :
  processMessage env tenantId sessionId input correlationId w = (inr resp, w') ->
  exists userMessage assistantMessage rest,
    tbl_messages w' = tbl_messages w ++ userMessage :: assistantMessage :: rest
    /\ existsb (clashesKey sessionId (in_idempotencyKey input)) (tbl_messages w) = false
    /\ m_role userMessage = USER
    /\ m_sessionId userMessage = sessionId
    /\ m_idempotencyKey userMessage = in_idempotencyKey input
    /\ m_sequenceNumber userMessage = get_next_message_sequence sessionId w
    /\ m_role assistantMessage = ASSISTANT
    /\ m_sessionId assistantMessage = sessionId
    /\ m_sequenceNumber assistantMessage = get_next_message_sequence sessionId w + 1.
Proof.
  unfold processMessage. intros H.
  apply bind_inr_inv in H as ([session agent] & w1 & Hsession & H).
  apply messages_getSessionWithAgent in Hsession as Hm1.
  destruct (negb (bool_decide (s_status session = ACTIVE))); [done|].
  apply bind_inr_inv in H as (history & w2 & Hhistory & H).
  apply messages_loadConversationHistory in Hhistory as Hm2.
  apply bind_inr_inv in H as (userSequence & w2' & Hseq & H).
  unfold getNextSequenceNumber in Hseq. injection Hseq as <- <-.
  apply bind_inr_inv in H as (userMessage & w3 & Huser & H).
  apply message_create_inv in Huser as (Hm3 & Hufields & Hkey).
  apply bind_inr_inv in H as ([] & w4 & Hlog & H). rewrite log_run in Hlog.
  injection Hlog as <-.
  apply bind_inr_inv in H as ([] & w5 & Hlog & H). rewrite log_run in Hlog.
  injection Hlog as <-.
  apply bind_inr_inv in H as (result & w6 & Hcall & H).
  apply messages_executeWithResilience in Hcall as Hm6.
  apply bind_inr_inv in H as (providerCall & w7 & Hpc & H).
  apply messages_providerCall_create in Hpc as Hm7.
  apply bind_inr_inv in H as ([] & w8 & Hlog & H). rewrite log_run in Hlog.
  injection Hlog as <-.
  destruct (responseOf result) as [response|];
    [|by apply bind_inr_inv in H as (? & ? & _ & ?)].
  apply bind_inr_inv in H as ([[finalResponse finalProviderCall] initial] & w9 & Hround & H).
  apply bind_inr_inv in H as (assistantSequence & w9' & Hseq & H).
  unfold getNextSequenceNumber in Hseq. injection Hseq as <- <-.
  apply bind_inr_inv in H as (assistantMessage & w10 & Hassistant & H).
  apply message_create_inv in Hassistant as (Hm10 & Hafields & _).
  match type of H with
  | ?m _ = _ =>
      assert (Keeps tbl_messages m) as Hrest
        by (pose proof messages_createUsageEvent; keeps)
  end.
  apply Hrest in H. clear Hrest.
  assert (tbl_messages w3 = tbl_messages w ++ [userMessage]) as Hafter
    by (by rewrite Hm3, Hm2, Hm1).
  assert (get_next_message_sequence sessionId w2 = get_next_message_sequence sessionId w)
    as Hnext by (apply get_next_ext; by rewrite Hm2, Hm1).
  assert (tbl_messages
            (logged [Provider_call_record_stored (pc_id providerCall)] w7)
          = tbl_messages w3) as Hm8 by (cbn; by rewrite Hm7, Hm6).
  assert (get_next_message_sequence sessionId
            (logged [Provider_call_record_stored (pc_id providerCall)] w7)
          = get_next_message_sequence sessionId w + 1) as Hnext8.
  { rewrite (get_next_ext _ _ w3 Hm8), <- Hnext.
    apply (get_next_snoc sessionId w2 w3 userMessage); [done|by rewrite Hufields..]. }
  assert (existsb (clashesKey sessionId (in_idempotencyKey input)) (tbl_messages w) = false)
    as Hkey' by (by rewrite <- Hm1, <- Hm2).
  assert (m_role userMessage = USER /\ m_sessionId userMessage = sessionId
          /\ m_idempotencyKey userMessage = in_idempotencyKey input
          /\ m_sequenceNumber userMessage = get_next_message_sequence sessionId w)
    as (Hu1 & Hu2 & Hu3 & Hu4) by (rewrite <- Hnext, Hufields; done).
  destruct (toolCalls response) as [[|toolCall rest]|] eqn:Hcalls.
  - (* an empty list of tool calls *)
    injection Hround as <- <- <- <-.
    exists userMessage, assistantMessage, [].
    split; [by rewrite H, Hm10, Hm8, Hafter, <- app_assoc|].
    rewrite Hafields. cbn [m_role m_sessionId m_sequenceNumber]. by rewrite Hnext8.
  - (* tool calls *)
    apply bind_inr_inv in Hround as ([finalResponse' finalProviderCall'] & w9'' & Htools & Hret).
    injection Hret as <- <- <- <-.
    apply handleToolCalls_success_messages in Htools
      as (interim & toolRows & Hm9 & Hi1 & Hi2 & Hi3).
    exists userMessage, interim, (toolRows ++ [assistantMessage]).
    split; [rewrite H, Hm10, Hm9, Hm8, Hafter, <- !app_assoc; done|].
    by rewrite Hi3, Hnext8.
  - (* no tool calls *)
    injection Hround as <- <- <- <-.
    exists userMessage, assistantMessage, [].
    split; [by rewrite H, Hm10, Hm8, Hafter, <- app_assoc|].
    rewrite Hafields. cbn [m_role m_sessionId m_sequenceNumber]. by rewrite Hnext8.
Qed.

(** *** The idempotency check *)

Lemma findByIdempotencyKey_run sessionId key w :
  findByIdempotencyKey sessionId key w =
  (inr match find (fun m => bool_decide (m_sessionId m = sessionId)
                            && bool_decide (m_idempotencyKey m = Some key)
                            && bool_decide (m_role m = USER)) (tbl_messages w) with
       | None => None
       | Some userMessage =>
           (fun a => (a, includeProviderCall w a)) <$>
           find (fun m => bool_decide (m_sessionId m = sessionId)
                          && (m_sequenceNumber m =? m_sequenceNumber userMessage + 1)
                          && bool_decide (m_role m = ASSISTANT)) (tbl_messages w)
       end, w).
Proof.
  unfold findByIdempotencyKey, bind, message_findFirst.
  by destruct (find _ (tbl_messages w)).
Qed.

(** A second invocation that finds the stored pair answers from it and
    only writes two log lines. *)
Lemma sendMessage_replays tenantId sessionId input key w userMessage assistantMessage :
  in_idempotencyKey input = Some key -> key <> "" ->
  find (fun m => bool_decide (m_sessionId m = sessionId)
                 && bool_decide (m_idempotencyKey m = Some key)
                 && bool_decide (m_role m = USER)) (tbl_messages w) = Some userMessage ->
  find (fun m => bool_decide (m_sessionId m = sessionId)
                 && (m_sequenceNumber m =? m_sequenceNumber userMessage + 1)
                 && bool_decide (m_role m = ASSISTANT)) (tbl_messages w)
    = Some assistantMessage ->
  sendMessage env tenantId sessionId input w =
  (inr (formatMessageResponse (assistantMessage, includeProviderCall w assistantMessage)),
   logged [Processing_message true; Returning_cached_response_for_idempotency_key] w).
Proof.
  intros Hkey Hne Hu Ha. unfold sendMessage, checkIdempotency.
  rewrite Hkey. cbn [truthy]. rewrite (bool_decide_eq_false_2 (key = "")) by done.
  rewrite (bool_decide_eq_true_2 (is_Some (Some key))) by done.
  rewrite (bind_inr _ _ _ _ _ (log_run _ _)).
  rewrite (bind_inr _ _ _ _ _ (findByIdempotencyKey_run _ _ _)).
  change (tbl_messages (logged _ w)) with (tbl_messages w).
  rewrite Hu, Ha. cbn [fmap option_fmap option_map].
  rewrite (bind_inr _ _ _ _ _ (log_run _ _)).
  unfold ret, logged, includeProviderCall. cbn.
  by rewrite <- app_assoc.
Qed.

Lemma find_after_none {A} (p : A -> bool) old x l :
  (forall m, m ∈ old -> p m = false) ->
  find p (old ++ x :: l) = if p x then Some x else find p l.
Proof.
  intros Hold. induction old as [|y old IH]; [done|]. cbn.
  rewrite (Hold y) by left. apply IH. intros m Hm. apply Hold. by right.
Qed.

(** After a run that went through, the check of step 1 finds the USER
    message of the run and the ASSISTANT message right after it. *)
Lemma stored_pair_found sessionId key old userMessage assistantMessage rest w :
  existsb (clashesKey sessionId (Some key)) old = false ->
  (forall m, m ∈ old -> m_sessionId m = sessionId ->
             m_sequenceNumber m < get_next_message_sequence sessionId w) ->
  m_role userMessage = USER -> m_sessionId userMessage = sessionId ->
  m_idempotencyKey userMessage = Some key ->
  m_sequenceNumber userMessage = get_next_message_sequence sessionId w ->
  m_role assistantMessage = ASSISTANT -> m_sessionId assistantMessage = sessionId ->
  m_sequenceNumber assistantMessage = get_next_message_sequence sessionId w + 1 ->
  find (fun m => bool_decide (m_sessionId m = sessionId)
                 && bool_decide (m_idempotencyKey m = Some key)
                 && bool_decide (m_role m = USER))
       (old ++ userMessage :: assistantMessage :: rest) = Some userMessage
  /\ find (fun m => bool_decide (m_sessionId m = sessionId)
                    && (m_sequenceNumber m =? m_sequenceNumber userMessage + 1)
                    && bool_decide (m_role m = ASSISTANT))
          (old ++ userMessage :: assistantMessage :: rest) = Some assistantMessage.
Proof.
  intros Hclash Hfresh Hu1 Hu2 Hu3 Hu4 Ha1 Ha2 Ha3. split.
  - rewrite find_after_none.
    + by rewrite Hu1, Hu2, Hu3, !bool_decide_eq_true_2.
    + intros m Hm. apply not_true_is_false. intros Hp.
      apply andb_true_iff in Hp as [Hp _].
      assert (existsb (clashesKey sessionId (Some key)) old = true) as Hex
        by (apply existsb_exists; exists m; split; [by apply list_elem_of_In|done]).
      by rewrite Hex in Hclash.
  - rewrite find_after_none.
    + rewrite Hu1. rewrite (bool_decide_eq_false_2 (USER = ASSISTANT)) by done.
      rewrite andb_false_r. cbn [find].
      rewrite Ha1, Ha2, Ha3, Hu4, !bool_decide_eq_true_2 by done.
      by rewrite Z.eqb_refl.
    + intros m Hm. apply not_true_is_false. intros Hp.
      apply andb_true_iff in Hp as [[Hs Hq]%andb_true_iff _].
      apply bool_decide_eq_true in Hs. apply Z.eqb_eq in Hq.
      specialize (Hfresh m Hm Hs). lia.
Qed.

(** Taking and releasing the lock around a callback keeps the messages
    the callback left. *)
Lemma withSessionLock_inv {T} lockKey (fn : M T) w r w' :
  withSessionLock env lockKey fn w = (r, w') ->
  (from_option locked false (sessionLocks w !! lockKey) = true
   /\ r = inl (AppErr (newAppError ConflictError
               "Session is currently processing another message. Please retry."))
   /\ w' = logged [Failed_to_acquire_session_lock] w)
  \/ (from_option locked false (sessionLocks w !! lockKey) = false
      /\ exists wb,
           fn (logged [Session_lock_acquired]
                 (setLocks (insert lockKey {| locked := true; timestamp := Date_now env |}) w).2)
             = (r, wb)
           /\ w' = logged [Session_lock_released] (setLocks (delete lockKey) wb).2).
Proof.
  unfold withSessionLock.
  destruct (from_option locked false (sessionLocks w !! lockKey)).
  - intros [= <- <-]. by left.
  - right. split; [done|]. unfold bind, tryFinally in H. cbn in H.
    destruct (fn _) as [r1 wb] eqn:Hfn. injection H as <- <-. by exists wb.
Qed.

(** C3. Two invocations with the same session and the same idempotency
    key, a key that is not empty: when the first one returns a response,
    its world holds a USER message with the key and an ASSISTANT message at
    the following sequence number, and the second invocation returns that
    ASSISTANT message, formatted with its provider call, and changes
    nothing but the log, to which it adds two lines: no row is added, the
    lock map, the log of provider attempts and the usage events stay as
    they are. *)
Theorem idempotent_replay tenantId sessionId input key w resp w1 tenantId2 input2 :
  in_idempotencyKey input = Some key -> key <> "" ->
  in_idempotencyKey input2 = Some key ->
  sendMessage env tenantId sessionId input w = (inr resp, w1) ->
  exists userMessage assistantMessage,
    userMessage ∈ tbl_messages w1
    /\ m_role userMessage = USER
    /\ m_sessionId userMessage = sessionId
    /\ m_idempotencyKey userMessage = Some key
    /\ assistantMessage ∈ tbl_messages w1
    /\ m_role assistantMessage = ASSISTANT
    /\ m_sessionId assistantMessage = sessionId
    /\ m_sequenceNumber assistantMessage = m_sequenceNumber userMessage + 1
    /\ sendMessage env tenantId2 sessionId input2 w1 =
       (inr (formatMessageResponse
               (assistantMessage, includeProviderCall w1 assistantMessage)),
        logged [Processing_message true; Returning_cached_response_for_idempotency_key] w1).
Proof.
  intros Hkey Hne Hkey2 Hfirst.
  assert (exists userMessage assistantMessage,
    find (fun m => bool_decide (m_sessionId m = sessionId)
                   && bool_decide (m_idempotencyKey m = Some key)
                   && bool_decide (m_role m = USER)) (tbl_messages w1) = Some userMessage
    /\ find (fun m => bool_decide (m_sessionId m = sessionId)
                      && (m_sequenceNumber m =? m_sequenceNumber userMessage + 1)
                      && bool_decide (m_role m = ASSISTANT)) (tbl_messages w1)
         = Some assistantMessage) as (userMessage & assistantMessage & Hu & Ha).
  { unfold sendMessage, checkIdempotency in Hfirst.
    rewrite Hkey in Hfirst. cbn [truthy] in Hfirst.
    rewrite (bool_decide_eq_false_2 (key = "")) in Hfirst by done.
    rewrite (bind_inr _ _ _ _ _ (log_run _ _)) in Hfirst.
    rewrite (bind_inr _ _ _ _ _ (findByIdempotencyKey_run _ _ _)) in Hfirst.
    match type of Hfirst with
    | context [logged ?l w] => set (w0 := logged l w) in *
    end.
    destruct (find _ (tbl_messages w0)) as [userMessage|] eqn:Hu.
    - destruct (find _ (tbl_messages w0)) as [assistantMessage|] eqn:Ha in Hfirst.
      + (* the first invocation was a replay itself *)
        cbn [fmap option_fmap option_map] in Hfirst.
        rewrite (bind_inr _ _ _ _ _ (log_run _ _)) in Hfirst.
        injection Hfirst as _ <-. by exists userMessage, assistantMessage.
      + cbn [fmap option_fmap option_map] in Hfirst.
        apply withSessionLock_inv in Hfirst as [(_ & [=] & _)|(_ & wb & Hrun & ->)].
        apply processMessage_success_messages in Hrun
          as (u & a & rest & _ & Hclash & _).
        rewrite Hkey in Hclash. apply find_some in Hu as [Hin Hp].
        apply andb_true_iff in Hp as [Hp _].
        assert (existsb (clashesKey sessionId (Some key)) (tbl_messages w0) = true) as Hex
          by (apply existsb_exists; by exists userMessage).
        cbn in Hclash. subst w0. cbn in Hex. by rewrite Hex in Hclash.
    - apply withSessionLock_inv in Hfirst as [(_ & [=] & _)|(_ & wb & Hrun & ->)].
      apply processMessage_success_messages in Hrun
        as (u & a & rest & Hm & Hclash & Hu1 & Hu2 & Hu3 & Hu4 & Ha1 & Ha2 & Ha3).
      match type of Hm with
      | _ = tbl_messages ?x ++ _ => set (wl := x) in *
      end.
      exists u, a. change (tbl_messages (logged _ _)) with (tbl_messages wb). rewrite Hm.
      rewrite Hkey in Hclash, Hu3.
      apply (stored_pair_found sessionId key (tbl_messages wl) u a rest wl Hclash);
        try done.
      intros m Hin Hs. by apply SequenceFacts.next_sequence_fresh. }
  exists userMessage, assistantMessage.
  pose proof (find_some _ _ Hu) as [Hinu Hpu].
  pose proof (find_some _ _ Ha) as [Hina Hpa].
  apply andb_true_iff in Hpu as [[Hu1 Hu2]%andb_true_iff Hu3].
  apply andb_true_iff in Hpa as [[Ha1 Ha2]%andb_true_iff Ha3].
  apply bool_decide_eq_true in Hu1, Hu2, Hu3, Ha1, Ha3. apply Z.eqb_eq in Ha2.
  split; [by apply list_elem_of_In|]. do 3 (split; [done|]).
  split; [by apply list_elem_of_In|]. do 3 (split; [done|]).
  by apply (sendMessage_replays tenantId2 sessionId input2 key w1 userMessage).
Qed.

End Tools.

End PipelineFacts.
(** ** How the pipeline fails *)

Module FailureFacts.
Import Store Service Observe MonadFacts FrameFacts PipelineFacts.

(** *** Step 1 finds nothing *)

Lemma no_clash_not_found sessionId key msgs :
  existsb (clashesKey sessionId (Some key)) msgs = false ->
  find (fun m => bool_decide (m_sessionId m = sessionId)
                 && bool_decide (m_idempotencyKey m = Some key)
                 && bool_decide (m_role m = USER)) msgs = None.
Proof.
  induction msgs as [|m msgs IH]; [done|]. cbn.
  intros [Hm Hrest]%orb_false_iff. rewrite Hm. cbn. by apply IH.
Qed.

Lemma checkIdempotency_none sessionId input w :
  existsb (clashesKey sessionId (in_idempotencyKey input)) (tbl_messages w) = false ->
  checkIdempotency sessionId input w = (inr None, w).
Proof.
  unfold checkIdempotency. destruct (in_idempotencyKey input) as [key|]; [|done].
  cbn [truthy]. case_bool_decide as Hempty; [done|].
  intros Hclash. rewrite findByIdempotencyKey_run. by rewrite no_clash_not_found.
Qed.

(** *** Loading the session *)

Lemma getSessionWithAgent_run tenantId sessionId w :
  getSessionWithAgent tenantId sessionId w
  = ((getSessionWithAgent tenantId sessionId w).1, w).
Proof. unfold getSessionWithAgent. by repeat case_match. Qed.

Lemma getSessionWithAgent_ext tenantId sessionId w1 w2 :
  tbl_sessions w1 = tbl_sessions w2 ->
  (getSessionWithAgent tenantId sessionId w1).1
  = (getSessionWithAgent tenantId sessionId w2).1.
Proof. unfold getSessionWithAgent. intros ->. by repeat case_match. Qed.

Lemma loadConversationHistory_ext env sessionId w1 w2 history :
  tbl_messages w1 = tbl_messages w2 ->
  loadConversationHistory env sessionId w1 = (inr history, w1) ->
  loadConversationHistory env sessionId w2 = (inr history, w2).
Proof.
  intros Hm. rewrite !loadConversationHistory_run, Hm. by intros [= ->].
Qed.

Section Failures.

Variable env : Env.

(** The locked callback when the provider call fails: the USER message and
    the record of the provider call are stored, and a [ValidationError]
    with the message of the orchestrator's error is thrown. *)
Lemma processMessage_provider_failure tenantId sessionId input correlationId w
    session agent history result attempts :
  (getSessionWithAgent tenantId sessionId w).1 = inr (session, agent) ->
  s_status session = ACTIVE ->
  loadConversationHistory env sessionId w = (inr history, w) ->
  existsb (clashesKey sessionId (in_idempotencyKey input)) (tbl_messages w) = false ->
  Orchestrator.executeWithResilience (retry_maxAttempts env) (adapters env)
    (buildProviderRequest agent history (in_content input))
    {| Orchestrator.primaryProvider := a_primaryProvider agent;
       Orchestrator.fallbackProvider := a_fallbackProvider agent;
       Orchestrator.correlationId := Some correlationId |}
    (attemptLog w) = (inr result, attempts) ->
  responseOf result = None ->
  exists userMessage providerCall w',
    processMessage env tenantId sessionId input correlationId w
    = (inl (AppErr (newAppError ValidationError
                      (errorMessageOr result "Failed to get response from AI provider"))),
       w')
    /\ tbl_messages w' = tbl_messages w ++ [userMessage]
    /\ userMessage =
       {| m_id := nextId w; m_sessionId := sessionId;
          m_sequenceNumber := get_next_message_sequence sessionId w;
          m_idempotencyKey := in_idempotencyKey input; m_role := USER;
          m_content := Text (in_content input); m_toolCalls := None;
          m_providerCallId := None |}
    /\ tbl_provider_calls w' = tbl_provider_calls w ++ [providerCall]
    /\ pc_status providerCall = statusOf result
    /\ tbl_usage_events w' = tbl_usage_events w
    /\ sessionLocks w' = sessionLocks w
    /\ attemptLog w' = attempts.
Proof.
  intros Hsession Hactive Hhistory Hclash Horch Hresponse. unfold processMessage.
  pose proof (getSessionWithAgent_run tenantId sessionId w) as Hrun.
  rewrite Hsession in Hrun. rewrite (bind_inr _ _ _ _ _ Hrun).
  rewrite (bool_decide_eq_true_2 _ Hactive). cbn [negb].
  rewrite (bind_inr _ _ _ _ _ Hhistory).
  unfold bind at 1. unfold getNextSequenceNumber at 1.
  unfold bind at 1. unfold message_create at 1.
  rewrite Hclash, SequenceFacts.no_sequence_clash.
  rewrite !(bind_inr _ _ _ _ _ (log_run _ _)).
  unfold bind at 1. unfold executeWithResilience at 1.
  cbn [attemptLog logged]. rewrite Horch.
  unfold bind at 1. unfold providerCall_create at 1.
  rewrite (bind_inr _ _ _ _ _ (log_run _ _)).
  rewrite Hresponse.
  rewrite (bind_inr _ _ _ _ _ (log_run _ _)).
  unfold throw. eexists _, _, _. split; [reflexivity|].
  by cbn.
Qed.

(** The locked callback when the key of the USER message is taken: the
    insert is refused and nothing is stored. *)
Lemma processMessage_key_clash tenantId sessionId input correlationId w session agent
    history :
  (getSessionWithAgent tenantId sessionId w).1 = inr (session, agent) ->
  s_status session = ACTIVE ->
  loadConversationHistory env sessionId w = (inr history, w) ->
  existsb (clashesKey sessionId (in_idempotencyKey input)) (tbl_messages w) = true ->
  processMessage env tenantId sessionId input correlationId w
  = (inl (P2002 "(`sessionId`,`idempotencyKey`)"), w).
Proof.
  intros Hsession Hactive Hhistory Hclash. unfold processMessage.
  pose proof (getSessionWithAgent_run tenantId sessionId w) as Hrun.
  rewrite Hsession in Hrun. rewrite (bind_inr _ _ _ _ _ Hrun).
  rewrite (bool_decide_eq_true_2 _ Hactive). cbn [negb].
  rewrite (bind_inr _ _ _ _ _ Hhistory).
  unfold bind at 1. unfold getNextSequenceNumber at 1.
  unfold bind at 1. unfold message_create at 1.
  by rewrite Hclash.
Qed.

(** Taking the lock, running a callback whose outcome is known, and
    releasing the lock. *)
Lemma withSessionLock_run {T} lockKey (fn : M T) w r wb :
  from_option locked false (sessionLocks w !! lockKey) = false ->
  fn (logged [Session_lock_acquired]
        (setLocks (insert lockKey {| locked := true; timestamp := Date_now env |}) w).2)
    = (r, wb) ->
  withSessionLock env lockKey fn w
  = (r, logged [Session_lock_released] (setLocks (delete lockKey) wb).2).
Proof.
  intros Hfree Hfn. unfold withSessionLock. rewrite Hfree.
  unfold bind at 1. unfold setLocks at 1.
  rewrite (bind_inr _ _ _ _ _ (log_run _ _)).
  unfold tryFinally. cbn [snd setLocks] in Hfn. by rewrite Hfn.
Qed.

(** Steps 2 to 10 when the key of the USER message is taken, whatever the
    reason: the caller gets the error of the unique index, and the tables
    are as before. *)
Lemma lockAndProcess_key_clash tenantId sessionId input w session agent history :
  from_option locked false (sessionLocks w !! uuidToLockKey env sessionId) = false ->
  (getSessionWithAgent tenantId sessionId w).1 = inr (session, agent) ->
  s_status session = ACTIVE ->
  loadConversationHistory env sessionId w = (inr history, w) ->
  existsb (clashesKey sessionId (in_idempotencyKey input)) (tbl_messages w) = true ->
  exists w',
    lockAndProcess env tenantId sessionId input w
    = (inl (P2002 "(`sessionId`,`idempotencyKey`)"), w')
    /\ tbl_messages w' = tbl_messages w
    /\ tbl_provider_calls w' = tbl_provider_calls w
    /\ tbl_usage_events w' = tbl_usage_events w
    /\ attemptLog w' = attemptLog w
    /\ sessionLocks w' !! uuidToLockKey env sessionId = None
    /\ logLines w' = logLines w ++ [Session_lock_acquired; Session_lock_released].
Proof.
  intros Hfree Hsession Hactive Hhistory Hclash. unfold lockAndProcess.
  eexists. split.
  - apply withSessionLock_run; [done|].
    eapply processMessage_key_clash; [| done | | done].
    + rewrite <- Hsession. by apply getSessionWithAgent_ext.
    + by apply (loadConversationHistory_ext env sessionId w).
  - cbn. rewrite lookup_delete_eq, <- app_assoc. done.
Qed.

(** A stored response for the key means that the key is taken. *)
Lemma stored_response_key_taken sessionId input w stored :
  checkIdempotency sessionId input w = (inr (Some stored), w) ->
  existsb (clashesKey sessionId (in_idempotencyKey input)) (tbl_messages w) = true.
Proof.
  unfold checkIdempotency. destruct (in_idempotencyKey input) as [key|]; [|done].
  cbn [truthy]. case_bool_decide as Hempty; [done|].
  rewrite findByIdempotencyKey_run.
  destruct (find _ (tbl_messages w)) as [userMessage|] eqn:Hfind; [|done].
  intros _. apply find_some in Hfind as [Hin [[Hs Hk]%andb_true_iff _]%andb_true_iff].
  apply existsb_exists. exists userMessage. split; [done|]. cbn. by rewrite Hs, Hk.
Qed.

(** C8. The USER insert of steps 2 to 10 meets a row with the same session
    and idempotency key, stored by a caller whose response is there by now
    (the check of step 1, run on this world, finds it).  The pipeline does
    not go back to step 1: the caller gets the P2002 error of the unique
    index, not the stored response; nothing is stored and the lock is
    released. *)
Theorem user_insert_clash_surfaces tenantId sessionId input w session agent history
    stored :
  from_option locked false (sessionLocks w !! uuidToLockKey env sessionId) = false ->
  (getSessionWithAgent tenantId sessionId w).1 = inr (session, agent) ->
  s_status session = ACTIVE ->
  loadConversationHistory env sessionId w = (inr history, w) ->
  checkIdempotency sessionId input w = (inr (Some stored), w) ->
  exists error w',
    lockAndProcess env tenantId sessionId input w = (inl error, w')
    /\ error = P2002 "(`sessionId`,`idempotencyKey`)"
    /\ exnCode error = Some "P2002"
    /\ tbl_messages w' = tbl_messages w
    /\ tbl_provider_calls w' = tbl_provider_calls w
    /\ tbl_usage_events w' = tbl_usage_events w
    /\ attemptLog w' = attemptLog w
    /\ sessionLocks w' !! uuidToLockKey env sessionId = None
    /\ checkIdempotency sessionId input w' = (inr (Some stored), w').
Proof.
  intros Hfree Hsession Hactive Hhistory Hstored.
  destruct (lockAndProcess_key_clash tenantId sessionId input w session agent history
              Hfree Hsession Hactive Hhistory
              (stored_response_key_taken _ _ _ _ Hstored))
    as (w' & Hrun & Hm & Hpc & Hue & Hat & Hlock & _).
  exists (P2002 "(`sessionId`,`idempotencyKey`)"), w'.
  split; [done|]. split; [done|]. split; [done|]. split; [done|]. split; [done|].
  split; [done|]. split; [done|]. split; [done|].
  revert Hstored. unfold checkIdempotency.
  destruct (truthy (in_idempotencyKey input)) as [key|]; [|done].
  rewrite !findByIdempotencyKey_run, Hm. unfold includeProviderCall. rewrite Hpc.
  by intros [= ->].
Qed.

(** C2. The orchestrator reports failure for the provider call of step 6
    (the call is made on a session that is found, ACTIVE and not locked,
    with a history that loads and a key that is not taken).  The pipeline
    ends there: the USER message with the idempotency key and the record of
    the provider call are stored, no other message is, no usage event is
    written and the lock is released.  The error it ends with is a
    [ValidationError], code VALIDATION_ERROR: it is no [ProviderError] and
    its code is not PROVIDER_ERROR. *)
Theorem provider_failure_ends_pipeline tenantId sessionId input w session agent history
    result attempts :
  from_option locked false (sessionLocks w !! uuidToLockKey env sessionId) = false ->
  (getSessionWithAgent tenantId sessionId w).1 = inr (session, agent) ->
  s_status session = ACTIVE ->
  loadConversationHistory env sessionId w = (inr history, w) ->
  existsb (clashesKey sessionId (in_idempotencyKey input)) (tbl_messages w) = false ->
  Orchestrator.executeWithResilience (retry_maxAttempts env) (adapters env)
    (buildProviderRequest agent history (in_content input))
    {| Orchestrator.primaryProvider := a_primaryProvider agent;
       Orchestrator.fallbackProvider := a_fallbackProvider agent;
       Orchestrator.correlationId :=
         Some (from_option id (generateCorrelationId env)
                 (truthy (in_correlationId input))) |}
    (attemptLog w) = (inr result, attempts) ->
  responseOf result = None ->
  exists error userMessage providerCall w',
    sendMessage env tenantId sessionId input w = (inl error, w')
    /\ error = AppErr (newAppError ValidationError
                         (errorMessageOr result "Failed to get response from AI provider"))
    /\ exnCode error = Some "VALIDATION_ERROR"
    /\ exnCode error <> Some (errorCode ProviderError)
    /\ instanceof error ProviderError = false
    /\ tbl_messages w' = tbl_messages w ++ [userMessage]
    /\ m_role userMessage = USER
    /\ m_sessionId userMessage = sessionId
    /\ m_idempotencyKey userMessage = in_idempotencyKey input
    /\ tbl_provider_calls w' = tbl_provider_calls w ++ [providerCall]
    /\ pc_status providerCall = statusOf result
    /\ tbl_usage_events w' = tbl_usage_events w
    /\ sessionLocks w' !! uuidToLockKey env sessionId = None.
Proof.
  intros Hfree Hsession Hactive Hhistory Hclash Horch Hresponse.
  unfold sendMessage.
  rewrite (bind_inr _ _ _ _ _ (log_run _ _)).
  rewrite (bind_inr _ _ _ _ _
             (checkIdempotency_none sessionId input (logged [_] w) Hclash)).
  unfold lockAndProcess.
  match goal with
  | |- context [withSessionLock _ _ ?fn ?w0] =>
      set (wl := logged [Session_lock_acquired]
                   (setLocks (insert (uuidToLockKey env sessionId)
                                {| locked := true; timestamp := Date_now env |}) w0).2);
      destruct (processMessage_provider_failure tenantId sessionId input
                  (from_option id (generateCorrelationId env)
                     (truthy (in_correlationId input)))
                  wl session agent history result attempts)
        as (userMessage & providerCall & wb & Hrun & Hm & Hfields & Hpc & Hstatus
              & Hue & Hlocks & _);
      [rewrite <- Hsession; by apply getSessionWithAgent_ext
      |done
      |by apply (loadConversationHistory_ext env sessionId w)
      |done
      |done
      |done
      |rewrite (withSessionLock_run _ _ w0 _ wb Hfree Hrun)]
  end.
  subst wl. cbn in Hm, Hpc, Hue.
  eexists _, userMessage, providerCall, _. split; [reflexivity|].
  split; [done|]. split; [done|]. split; [done|]. split; [done|].
  split; [exact Hm|]. split; [by rewrite Hfields|]. split; [by rewrite Hfields|].
  split; [by rewrite Hfields|]. split; [exact Hpc|]. split; [done|].
  split; [exact Hue|]. cbn. by rewrite lookup_delete_eq.
Qed.

End Failures.

End FailureFacts.

(** * Further facts *)

(** ** The orchestrator: what its results look like *)

Module ResultFacts.
Import Orchestrator.

Section Facts.

Variable maxAttempts : nat.
Variable adapters : ProviderType -> nat -> ProviderRequest -> AdapterOutcome.

(** A failure that [executeWithResilience] returns is always the one its
    "All attempts failed" tail builds. *)
Lemma failure_is_allAttemptsFailed request config log res :
  (executeWithResilience maxAttempts adapters request config log).1 = inr res ->
  r_success res = false ->
  exists st, allAttemptsFailed config st = inr res.
Proof.
  unfold executeWithResilience.
  destruct (executeWithRetry maxAttempts adapters request (primaryProvider config) _ false log)
    as [[primaryResult st1] log1].
  destruct (r_success primaryResult) eqn:Hp.
  - intros [= <-] Hfail. congruence.
  - destruct (fallbackProvider config) as [fallback|]; [|by exists st1].
    case_bool_decide; [|by exists st1].
    destruct (executeWithRetry maxAttempts adapters request fallback st1 true log1)
      as [[fallbackResult st2] log2].
    destruct (r_success fallbackResult) eqn:Hf; [|by exists st2].
    intros [= <-] Hfail. congruence.
Qed.

(** The loop of one path, when it ends with success: the last attempt it
    logged is the one the adapter resolved. *)
Lemma retryLoop_success request provider isFallback fuel :
  forall attempt st log res st' log',
  retryLoop maxAttempts adapters fuel request provider isFallback attempt st log
    = (res, st', log') ->
  r_success res = true ->
  exists response new,
    log' = log ++ new
    /\ r_response res = Some response
    /\ r_error res = None
    /\ r_latencyMs res = latencyMs response
    /\ r_provider res = provider
    /\ r_isFallback res = isFallback
    /\ last new = Some {| at_provider := provider;
                          at_attempt := (attempt + length new - 1)%nat;
                          at_isFallback := isFallback |}
    /\ adapters provider (length log + length new - 1) request = Resolved response.
Proof.
  induction fuel as [|fuel IH]; intros attempt st log res st' log'; cbn [retryLoop].
  - by intros [= <- <- <-].
  - destruct (negb (attempt <=? maxAttempts)%nat); [by intros [= <- <- <-]|].
    destruct (adapters provider (length log) request) as [response|error ms] eqn:Hout.
    + intros [= <- <- <-] _. eexists response, [_]. split; [reflexivity|]. cbn.
      repeat split; try done.
      * do 3 f_equal. lia.
      * by replace (length log + 1 - 1)%nat with (length log) by lia.
    + destruct (negb (isRetryableError error) || (maxAttempts <=? attempt)%nat);
        [by intros [= <- <- <-]|].
      intros Hrun Hok.
      destruct (IH _ _ _ _ _ _ Hrun Hok)
        as (response & new & -> & Hresp & Herr & Hlat & Hprov & Hfb & Hlast & Hcall).
      eexists response, (_ :: new). split; [by rewrite <- app_assoc|]. cbn.
      assert (new <> []) as Hnew by (by intros ->).
      repeat split; try done.
      * destruct new as [|a new]; [done|]. cbn in Hlast |- *. rewrite Hlast.
        do 2 f_equal. cbn. lia.
      * rewrite length_app in Hcall. cbn in Hcall.
        destruct new as [|a new]; [done|]. cbn in Hcall |- *.
        by replace (length log + S (S (length new)) - 1)%nat
          with (length log + 1 + S (length new) - 1)%nat by lia.
Qed.

(** The loop of one path, when the adapter rejects every attempt with an
    error that can be retried: the path makes all the attempts it has. *)
Lemma retryLoop_all_rejected request provider isFallback fuel :
  forall attempt st log,
  (1 <= fuel)%nat ->
  (attempt + fuel = maxAttempts + 1)%nat ->
  (forall k, (k < fuel)%nat ->
     exists e ms, adapters provider (length log + k) request = Rejected e ms
                  /\ isRetryableError e = true) ->
  exists res st' new e ms,
    retryLoop maxAttempts adapters fuel request provider isFallback attempt st log
      = (res, st', log ++ new)
    /\ length new = fuel
    /\ Forall (fun a => at_provider a = provider /\ at_isFallback a = isFallback) new
    /\ at_attempt <$> new = seq attempt fuel
    /\ attemptNumber st' = (attemptNumber st + fuel)%nat
    /\ length (errors st') = (length (errors st) + fuel)%nat
    /\ adapters provider (length log + fuel - 1) request = Rejected e ms
    /\ last (errors st') = Some {| ee_provider := provider; ee_error := e;
                                   ee_attemptNumber := attemptNumber st' |}
    /\ r_success res = false
    /\ r_error res = Some {| ei_code := getErrorCode e;
                             ei_message := errorObjMessage e;
                             ei_retryable := false;
                             ei_retryAfterMs := getRetryAfterMs e |}.
Proof.
  induction fuel as [|fuel IH]; intros attempt st log Hfuel Hsum Hrej; [lia|].
  cbn [retryLoop].
  replace (attempt <=? maxAttempts)%nat with true by (symmetry; apply Nat.leb_le; lia).
  cbn [negb].
  destruct (Hrej 0%nat ltac:(lia)) as (e & ms & Hout & Hretry).
  rewrite Nat.add_0_r in Hout. rewrite Hout, Hretry. cbn [negb orb].
  destruct (maxAttempts <=? attempt)%nat eqn:Hlast.
  - apply Nat.leb_le in Hlast. assert (fuel = 0)%nat as -> by lia.
    eexists _, _, [_], e, ms. split; [reflexivity|]. cbn.
    repeat split; try done; try lia.
    + by repeat constructor.
    + by rewrite length_app.
    + by replace (length log + 1 - 1)%nat with (length log) by lia.
    + by rewrite last_snoc.
  - apply Nat.leb_gt in Hlast.
    match goal with
    | |- context [retryLoop _ _ fuel request provider isFallback (S attempt) ?st2 ?log1] =>
        destruct (IH (S attempt) st2 log1)
          as (res & st' & new & e' & ms' & Hrun & Hlen & Hflags & Hnums & Hnum & Herrs
                & Hcall & Hlasterr & Hfail & Herror); [lia | lia | | ]
    end.
    { intros k Hk. destruct (Hrej (S k) ltac:(lia)) as (ek & msk & Hk' & Hr).
      exists ek, msk. split; [|done]. rewrite length_app. cbn.
      by replace (length log + 1 + k)%nat with (length log + S k)%nat by lia. }
    rewrite Hrun. eexists res, st', (_ :: new), e', ms'.
    split; [by rewrite <- app_assoc|]. cbn in Hnum, Herrs |- *.
    repeat split; try done; try lia.
    + by constructor.
    + by rewrite Hnums.
    + rewrite length_app in Herrs. cbn in Herrs. lia.
    + rewrite length_app in Hcall. cbn in Hcall.
      by replace (length log + S fuel - 1)%nat with (length log + 1 + fuel - 1)%nat by lia.
Qed.

Lemma fmap_replicate_Forall {A B} (f : A -> B) (x : B) (l : list A) :
  Forall (fun a => f a = x) l -> f <$> l = replicate (length l) x.
Proof. induction 1 as [|a l Ha _ IH]; [done|]. cbn. by rewrite Ha, IH. Qed.

(** X1. A failure that [executeWithResilience] returns never tells a
    timeout, a schema error or a retry delay: its code is RATE_LIMITED
    (when the last error was a [RateLimitError]) or PROVIDER_ERROR, it is
    marked as not retryable, carries no [retryAfterMs] and a latency of 0.
    The status that the message service derives from it for the provider
    call is therefore FAILED or RATE_LIMITED, and never TIMEOUT. *)
Theorem failure_result_shape request config log res :
  (executeWithResilience maxAttempts adapters request config log).1 = inr res ->
  r_success res = false ->
  r_response res = None
  /\ r_latencyMs res = 0
  /\ (exists info,
        r_error res = Some info
        /\ (ei_code info = "RATE_LIMITED" \/ ei_code info = "PROVIDER_ERROR")
        /\ ei_retryable info = false
        /\ ei_retryAfterMs info = None)
  /\ (Service.statusOf res = Store.FAILED \/ Service.statusOf res = Store.RATE_LIMITED)
  /\ Service.statusOf res <> Store.TIMEOUT.
Proof.
  intros Hrun Hfail.
  destruct (failure_is_allAttemptsFailed _ _ _ _ Hrun Hfail) as [st Hst].
  unfold allAttemptsFailed in Hst.
  destruct (last (errors st)) as [lastError|]; [|done].
  injection Hst as <-. unfold Service.statusOf. cbn.
  destruct (instanceof (ee_error lastError) RateLimitError); cbn.
  - split; [done|]. split; [done|]. split; [by eexists; eauto|]. split; [by right|done].
  - split; [done|]. split; [done|]. split; [by eexists; eauto|]. split; [by left|done].
Qed.

(** X2. A success that [executeWithResilience] returns is the answer of
    the adapter to the last attempt made: it carries the response and the
    latency the adapter resolved with and no error, it names the provider
    of that attempt, and it is marked as fallback exactly when that
    provider is the configured fallback, different from the primary. *)
Theorem success_result_is_adapter_response request config log res :
  (executeWithResilience maxAttempts adapters request config log).1 = inr res ->
  r_success res = true ->
  exists response new lastAttempt,
    (executeWithResilience maxAttempts adapters request config log).2 = log ++ new
    /\ r_response res = Some response
    /\ r_error res = None
    /\ r_latencyMs res = latencyMs response
    /\ last new = Some lastAttempt
    /\ at_provider lastAttempt = r_provider res
    /\ at_isFallback lastAttempt = r_isFallback res
    /\ adapters (r_provider res) (length log + length new - 1) request = Resolved response
    /\ (if r_isFallback res
        then fallbackProvider config = Some (r_provider res)
             /\ r_provider res <> primaryProvider config
        else r_provider res = primaryProvider config).
Proof.
  unfold executeWithResilience.
  destruct (OrchestratorFacts.executeWithRetry_run maxAttempts adapters request
              (primaryProvider config) {| attemptNumber := 0; errors := [] |} false log)
    as (new1 & errs1 & Hrun1).
  destruct (executeWithRetry maxAttempts adapters request (primaryProvider config) _ false log)
    as [[primaryResult st1] log1] eqn:Hprimary.
  cbn in Hrun1. pose proof (run_log _ _ _ _ _ _ _ _ _ _ _ _ _ _ Hrun1) as Hlog1.
  destruct (r_success primaryResult) eqn:Hp.
  - intros [= <-] _. cbn.
    destruct (retryLoop_success _ _ _ _ _ _ _ _ _ _ Hprimary Hp)
      as (response & new & -> & Hresp & Herr & Hlat & Hprov & Hfb & Hlast & Hcall).
    eexists response, new, _. split; [done|].
    split; [done|]. split; [done|]. split; [done|]. split; [exact Hlast|].
    split; [done|]. split; [done|]. split; [by rewrite Hprov|]. by rewrite Hfb.
  - destruct (fallbackProvider config) as [fallback|] eqn:Hfallback.
    2:{ intros Hres Hok. unfold allAttemptsFailed in Hres.
        destruct (last (errors st1)); cbn in Hres; [|done].
        injection Hres as <-. done. }
    case_bool_decide as Hdiff.
    2:{ intros Hres Hok. unfold allAttemptsFailed in Hres.
        destruct (last (errors st1)); cbn in Hres; [|done].
        injection Hres as <-. done. }
    destruct (executeWithRetry maxAttempts adapters request fallback st1 true log1)
      as [[fallbackResult st2] log2] eqn:Hsecond.
    destruct (r_success fallbackResult) eqn:Hf.
    2:{ intros Hres Hok. unfold allAttemptsFailed in Hres.
        destruct (last (errors st2)); cbn in Hres; [|done].
        injection Hres as <-. done. }
    intros [= <-] _. cbn.
    destruct (retryLoop_success _ _ _ _ _ _ _ _ _ _ Hsecond Hf)
      as (response & new2 & -> & Hresp & Herr & Hlat & Hprov & Hfb & Hlast & Hcall).
    assert (new2 <> []) as Hnew2 by (by intros ->).
    eexists response, (new1 ++ new2), _. split; [by rewrite Hlog1, <- app_assoc|].
    split; [done|]. split; [done|]. split; [done|].
    split; [rewrite last_app, Hlast; reflexivity|].
    split; [done|]. split; [done|].
    split.
    + rewrite Hprov. rewrite Hlog1, !length_app in Hcall. rewrite length_app.
      destruct new2 as [|a new2]; [done|]. cbn in Hcall |- *.
      by replace (length log + (length new1 + S (length new2)) - 1)%nat
        with (length log + length new1 + S (length new2) - 1)%nat by lia.
    + rewrite Hfb, Hprov. done.
Qed.

(** X3. When every adapter call is rejected with an error that can be
    retried, [executeWithResilience] makes every attempt it has: attempts 1
    to [maxAttempts] on the primary provider, then, if a fallback different
    from the primary is configured, attempts 1 to [maxAttempts] on the
    fallback; and it returns a failure whose [attemptNumber] counts them
    all and whose message is the one of the last rejection. *)
Theorem persistent_failures_use_every_attempt request config log :
  (1 <= maxAttempts)%nat ->
  (forall p k, exists e ms,
     adapters p k request = Rejected e ms /\ isRetryableError e = true) ->
  let paths :=
    primaryProvider config ::
    match fallbackProvider config with
    | Some f => if bool_decide (f <> primaryProvider config) then [f] else []
    | None => []
    end in
  exists new res e ms,
    executeWithResilience maxAttempts adapters request config log = (inr res, log ++ new)
    /\ at_provider <$> new = mjoin (replicate maxAttempts <$> paths)
    /\ at_attempt <$> new = mjoin ((fun _ => seq 1 maxAttempts) <$> paths)
    /\ length new = (length paths * maxAttempts)%nat
    /\ r_success res = false
    /\ r_attemptNumber res = length new
    /\ last paths = Some (r_provider res)
    /\ adapters (r_provider res) (length log + length new - 1) request = Rejected e ms
    /\ ei_message <$> r_error res = Some (errorObjMessage e).
Proof.
  intros Hmax Hrej paths. subst paths. unfold executeWithResilience.
  destruct (retryLoop_all_rejected request (primaryProvider config) false maxAttempts 1
              {| attemptNumber := 0; errors := [] |} log Hmax ltac:(lia)
              ltac:(intros; apply Hrej))
    as (res1 & st1 & new1 & e1 & ms1 & Hrun1 & Hlen1 & Hflags1 & Hnums1 & Hnum1 & _
          & Hcall1 & Hlast1 & Hfail1 & _).
  unfold executeWithRetry. rewrite Hrun1, Hfail1.
  assert (at_provider <$> new1 = replicate maxAttempts (primaryProvider config)) as Hprov1.
  { rewrite <- Hlen1. apply fmap_replicate_Forall.
    eapply Forall_impl; [exact Hflags1|]. by intros a [? _]. }
  assert (allAttemptsFailed config st1 =
          inr {| r_success := false; r_response := None;
                 r_error := Some {| ei_code := if instanceof e1 RateLimitError
                                               then "RATE_LIMITED" else "PROVIDER_ERROR";
                                    ei_message := errorObjMessage e1;
                                    ei_retryable := false;
                                    ei_retryAfterMs := None |};
                 r_provider := primaryProvider config;
                 r_isFallback := match fallbackProvider config with
                                 | Some f => bool_decide (primaryProvider config = f)
                                 | None => false
                                 end;
                 r_attemptNumber := attemptNumber st1;
                 r_latencyMs := 0 |}) as Hall1
    by (unfold allAttemptsFailed; by rewrite Hlast1).
  assert (forall rest : list ProviderType, rest = [] ->
            exists new res e ms,
              (allAttemptsFailed config st1, log ++ new1) = (inr res, log ++ new)
              /\ at_provider <$> new
                 = mjoin (replicate maxAttempts <$> primaryProvider config :: rest)
              /\ at_attempt <$> new
                 = mjoin ((fun _ => seq 1 maxAttempts) <$> primaryProvider config :: rest)
              /\ length new = (length (primaryProvider config :: rest) * maxAttempts)%nat
              /\ r_success res = false
              /\ r_attemptNumber res = length new
              /\ last (primaryProvider config :: rest) = Some (r_provider res)
              /\ adapters (r_provider res) (length log + length new - 1) request
                 = Rejected e ms
              /\ ei_message <$> r_error res = Some (errorObjMessage e)) as Halone.
  { intros rest ->. rewrite Hall1. eexists new1, _, e1, ms1. split; [reflexivity|]. cbn.
    rewrite !app_nil_r, Hlen1, Hnum1. cbn.
    repeat split; try done; lia. }
  destruct (fallbackProvider config) as [fallback|] eqn:Hfallback; [|by apply Halone].
  destruct (decide (fallback <> primaryProvider config)) as [Hdiff|Hsame];
    [rewrite !(bool_decide_eq_true_2 _ Hdiff)
    |rewrite !(bool_decide_eq_false_2 _ Hsame); by apply Halone].
  destruct (retryLoop_all_rejected request fallback true maxAttempts 1 st1 (log ++ new1)
              Hmax ltac:(lia) ltac:(intros; apply Hrej))
    as (res2 & st2 & new2 & e2 & ms2 & Hrun2 & Hlen2 & Hflags2 & Hnums2 & Hnum2 & _
          & Hcall2 & Hlast2 & Hfail2 & _).
  rewrite Hrun2, Hfail2. unfold allAttemptsFailed. rewrite Hlast2. cbn.
  assert (at_provider <$> new2 = replicate maxAttempts fallback) as Hprov2.
  { rewrite <- Hlen2. apply fmap_replicate_Forall.
    eapply Forall_impl; [exact Hflags2|]. by intros a [? _]. }
  eexists (new1 ++ new2), _, e2, ms2. split; [by rewrite <- app_assoc|]. cbn.
  rewrite !fmap_app, !app_nil_r, !length_app, Hprov1, Hprov2, Hnums1, Hnums2, Hlen1, Hlen2.
  rewrite Hnum2, Hnum1. cbn.
  repeat split; try done; try lia.
  rewrite length_app, Hlen1 in Hcall2.
  by replace (length log + (maxAttempts + maxAttempts) - 1)%nat
    with (length log + maxAttempts + maxAttempts - 1)%nat by lia.
Qed.

End Facts.

End ResultFacts.

(** ** How the steps of the pipeline compose *)

Module ComposeFacts.
Import Store Service Observe Behaviour MonadFacts FrameFacts PipelineFacts.

(** *** Errors *)

Section Throws.

Context (allowed : Exn -> Prop).

Lemma Throws_ret {A} (a : A) : Throws allowed (ret a).
Proof. by intros w e w' [=]. Qed.

Lemma Throws_throw {A} e : allowed e -> Throws allowed (@throw A e).
Proof. by intros He w e' w' [= <- <-]. Qed.

Lemma Throws_bind {A B} (m : M A) (k : A -> M B) :
  Throws allowed m -> (forall a, Throws allowed (k a)) -> Throws allowed (bind m k).
Proof.
  intros Hm Hk w e w' [(e' & H & [= <-])|(a & w1 & _ & H)]%bind_inv.
  - by apply Hm in H.
  - by apply Hk in H.
Qed.

(** What [try]/[catch] throws is what its handler throws, on the errors
    of the body. *)
Lemma Throws_tryCatch {A} (caught : Exn -> Prop) (body : M A) handler :
  Throws caught body -> (forall e, caught e -> Throws allowed (handler e)) ->
  Throws allowed (tryCatch body handler).
Proof.
  intros Hb Hh w e w'. unfold tryCatch.
  destruct (body w) as [[e1|a] w1] eqn:Hbody; [|done].
  apply Hb in Hbody. by apply Hh.
Qed.

Lemma Throws_tryFinally {A} (body : M A) fin :
  Throws allowed body -> Throws allowed fin -> Throws allowed (tryFinally body fin).
Proof.
  intros Hb Hf w e w'. unfold tryFinally.
  destruct (body w) as [r1 w1] eqn:Hbody.
  destruct (fin w1) as [[e2|[]] w2] eqn:Hfin; intros [= -> <-].
  - by apply Hf in Hfin.
  - by apply Hb in Hbody.
Qed.

Lemma Throws_transaction {A} (body : M A) :
  Throws allowed body -> Throws allowed (transaction body).
Proof.
  intros Hb w e w'. unfold transaction.
  destruct (body w) as [[e1|a] w1] eqn:Hbody; [|done].
  intros [= <- <-]. by apply Hb in Hbody.
Qed.

Lemma Throws_impl {A} (stronger : Exn -> Prop) (m : M A) :
  Throws stronger m -> (forall e, stronger e -> allowed e) -> Throws allowed m.
Proof. intros Hm Himpl w e w' H. apply Himpl. by apply Hm in H. Qed.

(** A computation that always returns throws nothing. *)
Lemma Throws_total {A} (m : M A) :
  (forall w, exists a w', m w = (inr a, w')) -> Throws allowed m.
Proof. intros Hm w e w' H. destruct (Hm w) as (a & w1 & Ha). congruence. Qed.

Lemma Throws_log l : Throws allowed (log l).
Proof. by intros w e w' [=]. Qed.

Lemma Throws_setLocks f : Throws allowed (setLocks f).
Proof. by intros w e w' [=]. Qed.

Lemma Throws_findFirst p : Throws allowed (message_findFirst p).
Proof. by intros w e w' [=]. Qed.

Lemma Throws_findMany sessionId k : Throws allowed (message_findMany sessionId k).
Proof. by intros w e w' [=]. Qed.

Lemma Throws_providerCall_create sessionId correlationId result status :
  Throws allowed (providerCall_create sessionId correlationId result status).
Proof. by intros w e w' [=]. Qed.

Lemma Throws_updateMany id : Throws allowed (providerCall_updateMany_billed id).
Proof. by intros w e w' [=]. Qed.

Lemma Throws_toolExecution_create row : Throws allowed (toolExecution_create row).
Proof. by intros w e w' [=]. Qed.

Lemma Throws_getNextSequenceNumber sessionId :
  Throws allowed (getNextSequenceNumber sessionId).
Proof. by intros w e w' [=]. Qed.

Lemma Throws_read {A} (f : World -> A) : Throws allowed (fun w => (inr (f w), w)).
Proof. by intros w e w' [=]. Qed.

End Throws.

Create HintDb throws.

#[export] Hint Resolve
  Throws_log Throws_setLocks Throws_findFirst Throws_findMany
  Throws_providerCall_create Throws_updateMany Throws_toolExecution_create
  Throws_getNextSequenceNumber Throws_read : throws.

(** Solves [Throws allowed m] by following the structure of [m]. *)
Ltac throws :=
  repeat first
    [ progress intros
    | solve [eauto with throws]
    | apply Throws_ret
    | apply Throws_throw; solve [constructor | done]
    | apply Throws_bind
    | apply Throws_tryFinally
    | apply Throws_transaction
    | match goal with
      | |- Throws _ (match ?x with _ => _ end) => destruct x
      end ].

(** *** The errors of the steps *)

Lemma Throws_message_create sessionId sequenceNumber key role content toolCalls providerCallId :
  Throws (fun e => exists target, e = P2002 target)
    (message_create sessionId sequenceNumber key role content toolCalls providerCallId).
Proof.
  intros w e w'. unfold message_create.
  repeat case_match; intros [= <- <-]; by eexists.
Qed.

Lemma Throws_usageEvent_create tenantId agentId sessionId providerCall costCents :
  Throws (fun e => exists target, e = P2002 target)
    (usageEvent_create tenantId agentId sessionId providerCall costCents).
Proof.
  intros w e w'. unfold usageEvent_create.
  case_match; intros [= <- <-]; by eexists.
Qed.

Lemma Throws_getSessionWithAgent tenantId sessionId :
  Throws (fun e => exists msg, e = AppErr (newAppError NotFoundError msg))
    (getSessionWithAgent tenantId sessionId).
Proof.
  intros w e w'. unfold getSessionWithAgent.
  repeat case_match; intros [= <- <-]; by eexists.
Qed.

Lemma mapThrowing_inl {A B} (f : A -> Exn + B) l e :
  mapThrowing f l = inl e -> exists x, x ∈ l /\ f x = inl e.
Proof.
  induction l as [|x l IH]; [done|]. cbn.
  destruct (f x) as [e1|y] eqn:Hx.
  - intros [= <-]. exists x. split; [left|done].
  - destruct (mapThrowing f l); [|done].
    intros [= <-]. destruct (IH eq_refl) as (x' & Hin & Hx').
    exists x'. split; [by right|done].
Qed.

Lemma Throws_loadConversationHistory env sessionId :
  Throws (fun e => exists msg, e = JsErr msg) (loadConversationHistory env sessionId).
Proof.
  intros w e w'. rewrite loadConversationHistory_run.
  intros [= (x & _ & Hx)%mapThrowing_inl _].
  unfold toConversationMessage in Hx. repeat case_match; simplify_eq. by eexists.
Qed.

Lemma Throws_executeWithResilience env request config :
  Throws (fun e => exists msg, e = JsErr msg) (executeWithResilience env request config).
Proof.
  intros w e w'. unfold executeWithResilience, Orchestrator.executeWithResilience,
    Orchestrator.allAttemptsFailed.
  repeat case_match; simplify_eq; intros [= <- <-]; by eexists.
Qed.

(** The billing recorder catches what its transaction throws. *)
Lemma Throws_createUsageEvent allowed tenantId agentId sessionId demoMode providerCall :
  Throws allowed (createUsageEvent tenantId agentId sessionId demoMode providerCall).
Proof.
  unfold createUsageEvent. destruct demoMode; [throws|].
  destruct (negb _); [throws|]. apply Throws_bind; [throws|]. intros _.
  apply (Throws_tryCatch _ (fun e => exists target, e = P2002 target)).
  - apply Throws_transaction, Throws_bind; [throws|]. intros n.
    destruct (n =? 0)%nat; [throws|].
    apply Throws_bind; [apply Throws_usageEvent_create|throws].
  - intros e [target ->]. rewrite bool_decide_eq_true_2 by done. throws.
Qed.

Lemma Throws_executeToolCalls allowed env toolCalls agent context :
  Throws allowed (executeToolCalls env toolCalls agent context).
Proof.
  apply Throws_total. intros w.
  destruct (executeToolCalls_total env toolCalls agent context w) as (r & w' & H & _).
  by exists r, w'.
Qed.

Lemma PipelineError_unique e : (exists target, e = P2002 target) -> PipelineError e.
Proof. intros [target ->]. constructor. Qed.

Lemma PipelineError_javascript e : (exists msg, e = JsErr msg) -> PipelineError e.
Proof. intros [msg ->]. constructor. Qed.

Lemma PipelineError_not_found e :
  (exists msg, e = AppErr (newAppError NotFoundError msg)) -> PipelineError e.
Proof. intros [msg ->]. constructor. Qed.

#[export] Hint Resolve Throws_createUsageEvent Throws_executeToolCalls : throws.

#[export] Hint Extern 1 (Throws PipelineError (message_create _ _ _ _ _ _ _)) =>
  eapply Throws_impl; [apply Throws_message_create|apply PipelineError_unique] : throws.
#[export] Hint Extern 1 (Throws PipelineError (getSessionWithAgent _ _)) =>
  eapply Throws_impl; [apply Throws_getSessionWithAgent|apply PipelineError_not_found]
  : throws.
#[export] Hint Extern 1 (Throws PipelineError (loadConversationHistory _ _)) =>
  eapply Throws_impl; [apply Throws_loadConversationHistory|apply PipelineError_javascript]
  : throws.
#[export] Hint Extern 1 (Throws PipelineError (executeWithResilience _ _ _)) =>
  eapply Throws_impl; [apply Throws_executeWithResilience|apply PipelineError_javascript]
  : throws.

Section Errors.

Variable env : Env.

Lemma Throws_storeToolResults sessionId toolResults :
  Throws PipelineError (storeToolResults sessionId toolResults).
Proof.
  induction toolResults as [|toolResult rest IH]; cbn [storeToolResults]; throws.
Qed.

Lemma Throws_handleToolCalls tenantId sessionId correlationId agent response toolCalls
    providerCall :
  Throws PipelineError
    (handleToolCalls env tenantId sessionId correlationId agent response toolCalls
       providerCall).
Proof.
  unfold handleToolCalls. pose proof Throws_storeToolResults. throws.
Qed.

Lemma Throws_processMessage tenantId sessionId input correlationId :
  Throws PipelineError (processMessage env tenantId sessionId input correlationId).
Proof.
  unfold processMessage. pose proof Throws_handleToolCalls. throws.
Qed.

Lemma Throws_withSessionLock {T} lockKey (fn : M T) :
  Throws PipelineError fn -> Throws PipelineError (withSessionLock env lockKey fn).
Proof.
  intros Hfn w e w'. unfold withSessionLock.
  destruct (from_option locked false _).
  - intros [= <- <-]. constructor.
  - revert w e w'. fold (Throws PipelineError
      (setLocks (insert lockKey {| locked := true; timestamp := Date_now env |});;
       log Session_lock_acquired;;
       tryFinally fn (setLocks (delete lockKey);; log Session_lock_released))).
    throws.
Qed.

Lemma Throws_sendMessage tenantId sessionId input :
  Throws PipelineError (sendMessage env tenantId sessionId input).
Proof.
  unfold sendMessage, checkIdempotency, lockAndProcess, findByIdempotencyKey.
  pose proof Throws_processMessage. pose proof (@Throws_withSessionLock MessageResponse).
  throws.
Qed.

End Errors.

End ComposeFacts.

(** ** The transcript only grows *)

Module TranscriptFacts.
Import Store Service Observe Behaviour MonadFacts FrameFacts PipelineFacts.

Lemma consecutiveFrom_app start n k :
  consecutiveFrom start (n + k)
  = consecutiveFrom start n ++ consecutiveFrom (start + Z.of_nat n) k.
Proof.
  unfold consecutiveFrom. rewrite seq_app, fmap_app. f_equal.
  replace (0 + n)%nat with (n + 0)%nat by lia.
  rewrite <- (fmap_add_seq n 0 k), <- list_fmap_compose.
  apply list_fmap_ext. intros _ i _. cbn. lia.
Qed.

Lemma consecutiveFrom_S start n :
  consecutiveFrom start (S n) = consecutiveFrom start n ++ [start + Z.of_nat n].
Proof.
  replace (S n) with (n + 1)%nat by lia. rewrite consecutiveFrom_app.
  f_equal. cbn. f_equal. lia.
Qed.

Lemma consecutiveFrom_bounds start n z :
  z ∈ consecutiveFrom start n -> start <= z < start + Z.of_nat n.
Proof.
  unfold consecutiveFrom. intros (i & -> & Hi%elem_of_seq)%list_elem_of_fmap. lia.
Qed.

Lemma oneToN_consecutive n : oneToN n = consecutiveFrom 1 n.
Proof.
  unfold oneToN, consecutiveFrom.
  replace (seq 1 n) with (seq (1 + 0) n) by done.
  rewrite <- (fmap_add_seq 1 0 n), <- list_fmap_compose.
  apply list_fmap_ext. intros _ i _. cbn. lia.
Qed.

Lemma filter_session_all sessionId (l : list Message) :
  Forall (fun x => m_sessionId x = sessionId) l ->
  List.filter (ofSession sessionId) l = l.
Proof.
  induction 1 as [|x l Hx _ IH]; [done|]. cbn. unfold ofSession at 1.
  by rewrite bool_decide_eq_true_2, IH.
Qed.

Lemma filter_session_none sessionId other (l : list Message) :
  other <> sessionId ->
  Forall (fun x => m_sessionId x = sessionId) l ->
  List.filter (ofSession other) l = [].
Proof.
  intros Hne. induction 1 as [|x l Hx _ IH]; [done|]. cbn. unfold ofSession at 1.
  by rewrite bool_decide_eq_false_2, IH by congruence.
Qed.

(** Messages appended with consecutive numbers move the next number on by
    their count. *)
Lemma get_next_appended sessionId w w' new :
  tbl_messages w' = tbl_messages w ++ new ->
  Forall (fun x => m_sessionId x = sessionId) new ->
  m_sequenceNumber <$> new
    = consecutiveFrom (get_next_message_sequence sessionId w) (length new) ->
  get_next_message_sequence sessionId w'
  = get_next_message_sequence sessionId w + Z.of_nat (length new).
Proof.
  intros Hm Hs Hq. unfold get_next_message_sequence at 1.
  rewrite Hm, List.filter_app, fmap_app, (filter_session_all _ _ Hs), Hq.
  fold (sessionSequence sessionId w).
  destruct (length new) as [|n]; [rewrite app_nil_r; unfold get_next_message_sequence;
                                  fold (sessionSequence sessionId w); cbn; lia|].
  rewrite consecutiveFrom_S, app_assoc, SequenceFacts.sqlMax_snoc; [cbn; lia|].
  intros y [Hy|Hy%consecutiveFrom_bounds]%elem_of_app; [|lia].
  apply SequenceFacts.sessionSequence_inv in Hy as (m & Hin & Hms & <-).
  pose proof (SequenceFacts.next_sequence_fresh _ _ _ Hin Hms). lia.
Qed.

(** *** Composition *)

Section Appends.

Variable sessionId : string.

Lemma Appends_keeps {A} (m : M A) : Keeps tbl_messages m -> Appends sessionId m.
Proof.
  intros Hm w r w' H. apply Hm in H. exists []. by rewrite app_nil_r.
Qed.

Lemma Appends_bind {A B} (m : M A) (k : A -> M B) :
  Appends sessionId m -> (forall a, Appends sessionId (k a)) ->
  Appends sessionId (bind m k).
Proof.
  intros Hm Hk w r w' [(e & H & _)|(a & w1 & H & Hk')]%bind_inv.
  - by apply Hm in H.
  - apply Hm in H as (new1 & Hm1 & Hs1 & Hq1).
    apply Hk in Hk' as (new2 & Hm2 & Hs2 & Hq2).
    exists (new1 ++ new2). split; [by rewrite Hm2, Hm1, <- app_assoc|].
    split; [by apply Forall_app|].
    rewrite fmap_app, length_app, consecutiveFrom_app, Hq1, Hq2.
    by rewrite (get_next_appended sessionId w w1 new1).
Qed.

(** The one way the pipeline stores a message: at the number it has just
    allocated. *)
Lemma Appends_allocate {B} key role content toolCalls providerCallId (k : Message -> M B) :
  (forall row, Appends sessionId (k row)) ->
  Appends sessionId
    (bind (getNextSequenceNumber sessionId)
       (fun n => bind (message_create sessionId n key role content toolCalls providerCallId) k)).
Proof.
  intros Hk. apply (Appends_bind
    (fun w => message_create sessionId (get_next_message_sequence sessionId w)
                key role content toolCalls providerCallId w) k) in Hk.
  - intros w r w' H. apply (Hk w r w'). revert H. unfold bind, getNextSequenceNumber. done.
  - intros w r w'. unfold message_create.
    repeat case_match; intros [= <- <-]; try (exists []; by rewrite app_nil_r).
    eexists [_]. cbn. split; [done|]. split; [by repeat constructor|].
    unfold consecutiveFrom. cbn. do 2 f_equal. lia.
Qed.

Lemma Appends_tryFinally {A} (body : M A) fin :
  Appends sessionId body -> Keeps tbl_messages fin ->
  Appends sessionId (tryFinally body fin).
Proof.
  intros Hb Hf w r w'. unfold tryFinally.
  destruct (body w) as [r1 w1] eqn:Hbody.
  destruct (fin w1) as [[e|[]] w2] eqn:Hfin; intros [= <- <-];
    apply Hb in Hbody as (new & Hm & Hs & Hq); apply Hf in Hfin;
    exists new; by rewrite Hfin.
Qed.

End Appends.

(** Solves [Appends sessionId m] by following the structure of [m]. *)
Ltac appends :=
  repeat first
    [ progress intros
    | solve [eauto with keeps]
    | apply Appends_keeps; solve [keeps]
    | apply Appends_allocate
    | apply Appends_bind
    | match goal with
      | |- Appends _ (match ?x with _ => _ end) => destruct x
      end ].

Section Transcript.

Variable env : Env.

Lemma Appends_storeToolResults sessionId toolResults :
  Appends sessionId (storeToolResults sessionId toolResults).
Proof.
  induction toolResults as [|toolResult rest IH]; cbn [storeToolResults]; appends.
Qed.

Lemma Appends_handleToolCalls tenantId sessionId correlationId agent response toolCalls
    providerCall :
  Appends sessionId
    (handleToolCalls env tenantId sessionId correlationId agent response toolCalls
       providerCall).
Proof.
  unfold handleToolCalls.
  pose proof Appends_storeToolResults. pose proof (messages_executeToolCalls env).
  pose proof (messages_loadConversationHistory env). appends.
Qed.

Lemma Appends_processMessage tenantId sessionId input correlationId :
  Appends sessionId (processMessage env tenantId sessionId input correlationId).
Proof.
  unfold processMessage.
  pose proof Appends_handleToolCalls. pose proof (messages_loadConversationHistory env).
  pose proof messages_createUsageEvent. appends.
Qed.

Lemma Appends_sendMessage tenantId sessionId input :
  Appends sessionId (sendMessage env tenantId sessionId input).
Proof.
  unfold sendMessage. apply Appends_bind; [appends|]. intros _.
  apply Appends_bind.
  { apply Appends_keeps. unfold checkIdempotency.
    pose proof messages_findByIdempotencyKey. keeps. }
  intros [existing|]; [appends|].
  unfold lockAndProcess. intros w r w'.
  intros [(_ & -> & ->)|(_ & wb & Hfn & ->)]%withSessionLock_inv.
  - exists []. by rewrite app_nil_r.
  - apply Appends_processMessage in Hfn as (new & Hm & Hs & Hq). by exists new.
Qed.

End Transcript.

End TranscriptFacts.

(** ** One invocation of [sendMessage], whatever its outcome *)

Module InvocationFacts.
Import Store Service Observe Behaviour MonadFacts FrameFacts PipelineFacts.
Import ComposeFacts TranscriptFacts.

(** *** Failures and the usage events *)

Section OnFailure.

Context {C : Type} (component : World -> C).

Lemma KeepsOnFailure_keeps {A} (m : M A) :
  Keeps component m -> KeepsOnFailure component m.
Proof. intros Hm w e w' H. by apply Hm in H. Qed.

Lemma KeepsOnFailure_never {A} (m : M A) :
  Throws (fun _ => False) m -> KeepsOnFailure component m.
Proof. intros Hm w e w' H. by apply Hm in H. Qed.

Lemma KeepsOnFailure_bind {A B} (m : M A) (k : A -> M B) :
  Keeps component m -> (forall a, KeepsOnFailure component (k a)) ->
  KeepsOnFailure component (bind m k).
Proof.
  intros Hm Hk w e w' [(e' & H & _)|(a & w1 & H & Hk')]%bind_inv.
  - by apply Hm in H.
  - apply Hm in H. apply Hk in Hk'. congruence.
Qed.

Lemma KeepsOnFailure_tryFinally {A} (body : M A) fin :
  KeepsOnFailure component body -> Keeps component fin ->
  Throws (fun _ => False) fin ->
  KeepsOnFailure component (tryFinally body fin).
Proof.
  intros Hb Hf Hnever w e w'. unfold tryFinally.
  destruct (body w) as [r1 w1] eqn:Hbody.
  destruct (fin w1) as [[e2|[]] w2] eqn:Hfin; intros [= -> <-].
  - by apply Hnever in Hfin.
  - apply Hb in Hbody. apply Hf in Hfin. congruence.
Qed.

End OnFailure.

(** Solves [KeepsOnFailure component m]: the steps that can throw keep the
    component, and the steps after them never throw. *)
Ltac keeps_on_failure :=
  repeat first
    [ progress intros
    | apply KeepsOnFailure_keeps; solve [keeps]
    | apply KeepsOnFailure_never; solve [throws]
    | apply KeepsOnFailure_bind; [solve [keeps]|]
    | match goal with
      | |- KeepsOnFailure _ (match ?x with _ => _ end) => destruct x
      end ].

Lemma checkIdempotency_run sessionId input w :
  exists stored, checkIdempotency sessionId input w = (inr stored, w).
Proof.
  unfold checkIdempotency. destruct (truthy _); [|by eexists].
  rewrite findByIdempotencyKey_run. by eexists.
Qed.

Section Invocation.

Variable env : Env.

Lemma usage_executeToolCalls toolCalls agent context :
  Keeps tbl_usage_events (executeToolCalls env toolCalls agent context).
Proof.
  induction toolCalls as [|toolCall rest IH]; cbn [executeToolCalls]; [keeps|].
  assert (forall n a c e, Keeps tbl_usage_events (Registry.execute (registry env) n a c e))
    by (intros; unfold Registry.execute; keeps).
  keeps.
Qed.

Lemma usage_storeToolResults sessionId toolResults :
  Keeps tbl_usage_events (storeToolResults sessionId toolResults).
Proof.
  induction toolResults as [|toolResult rest IH]; cbn [storeToolResults]; keeps.
Qed.

Lemma usage_loadConversationHistory sessionId :
  Keeps tbl_usage_events (loadConversationHistory env sessionId).
Proof. unfold loadConversationHistory. keeps. Qed.

Lemma usage_handleToolCalls tenantId sessionId correlationId agent response toolCalls
    providerCall :
  Keeps tbl_usage_events
    (handleToolCalls env tenantId sessionId correlationId agent response toolCalls
       providerCall).
Proof.
  unfold handleToolCalls.
  pose proof usage_executeToolCalls. pose proof usage_storeToolResults.
  pose proof usage_loadConversationHistory. keeps.
Qed.

Lemma usage_createUsageEvent_demo tenantId agentId sessionId providerCall :
  Keeps tbl_usage_events (createUsageEvent tenantId agentId sessionId true providerCall).
Proof. unfold createUsageEvent. keeps. Qed.

Lemma usage_processMessage_failure tenantId sessionId input correlationId :
  KeepsOnFailure tbl_usage_events
    (processMessage env tenantId sessionId input correlationId).
Proof.
  unfold processMessage.
  pose proof usage_handleToolCalls. pose proof usage_loadConversationHistory.
  keeps_on_failure.
Qed.

Lemma usage_processMessage_demo tenantId sessionId input correlationId w session agent :
  (getSessionWithAgent tenantId sessionId w).1 = inr (session, agent) ->
  s_demoMode session = true ->
  forall r w', processMessage env tenantId sessionId input correlationId w = (r, w') ->
               tbl_usage_events w' = tbl_usage_events w.
Proof.
  intros Hsession Hdemo r w'. unfold processMessage.
  pose proof (FailureFacts.getSessionWithAgent_run tenantId sessionId w) as Hrun.
  rewrite Hsession in Hrun. rewrite (bind_inr _ _ _ _ _ Hrun). rewrite Hdemo.
  intros H.
  match type of H with
  | ?m _ = _ =>
      assert (Keeps tbl_usage_events m) as Hkeeps
        by (pose proof usage_handleToolCalls; pose proof usage_loadConversationHistory;
            pose proof usage_createUsageEvent_demo; keeps)
  end.
  by apply Hkeeps in H.
Qed.

(** *** Errors *)

(** X4. Whatever the adapters and the tools do, an error that leaves
    [sendMessage] is one of: a [NotFoundError], a [ValidationError] or a
    [ConflictError] with the status code of its class (404, 400, 409), the
    refusal of a unique index (P2002), or a plain JavaScript error.  The
    errors of the providers ([ProviderError], [ProviderSchemaError],
    [RateLimitError], [TimeoutError]) never reach the caller as such. *)
Theorem sendMessage_error_kinds tenantId sessionId input w e w' :
  sendMessage env tenantId sessionId input w = (inl e, w') ->
  PipelineError e
  /\ instanceof e ProviderError = false
  /\ instanceof e ProviderSchemaError = false
  /\ instanceof e RateLimitError = false
  /\ instanceof e TimeoutError = false
  /\ match e with
     | AppErr a => statusCode a = 404 \/ statusCode a = 400 \/ statusCode a = 409
     | _ => True
     end.
Proof.
  intros H. apply Throws_sendMessage in H.
  destruct H; (split; [constructor|]); repeat split; try done; cbn; auto.
Qed.

(** *** The transcript *)

Lemma appended_sequence sessionId w w' new :
  tbl_messages w' = tbl_messages w ++ new ->
  Forall (fun x => m_sessionId x = sessionId) new ->
  m_sequenceNumber <$> new
    = consecutiveFrom (get_next_message_sequence sessionId w) (length new) ->
  (forall n, sessionSequence sessionId w = oneToN n ->
             sessionSequence sessionId w' = oneToN (n + length new))
  /\ (forall other, other <> sessionId ->
                    sessionSequence other w' = sessionSequence other w).
Proof.
  intros Hm Hs Hq. split.
  - intros n Hn. unfold sessionSequence in *.
    rewrite Hm, List.filter_app, fmap_app, (filter_session_all _ _ Hs), Hq, Hn.
    fold (sessionSequence sessionId w) in Hn.
    rewrite (SequenceFacts.next_on_oneToN _ _ _ Hn).
    rewrite !oneToN_consecutive, consecutiveFrom_app. do 2 f_equal. lia.
  - intros other Hne. unfold sessionSequence.
    by rewrite Hm, List.filter_app, (filter_session_none _ _ _ Hne Hs), app_nil_r.
Qed.

(** X5. Whatever its outcome, [sendMessage] leaves the stored messages as
    they are and only appends messages of its own session, numbered
    consecutively from the next sequence number of the session.  So a
    transcript numbered 1 to n stays numbered without gap or repetition,
    also when the invocation fails half-way, and the transcripts of the
    other sessions do not change. *)
Theorem sendMessage_appends_to_transcript tenantId sessionId input w r w' :
  sendMessage env tenantId sessionId input w = (r, w') ->
  exists new,
    tbl_messages w' = tbl_messages w ++ new
    /\ Forall (fun x => m_sessionId x = sessionId) new
    /\ m_sequenceNumber <$> new
       = consecutiveFrom (get_next_message_sequence sessionId w) (length new)
    /\ (forall n, sessionSequence sessionId w = oneToN n ->
                  sessionSequence sessionId w' = oneToN (n + length new))
    /\ (forall other, other <> sessionId ->
                      sessionSequence other w' = sessionSequence other w).
Proof.
  intros H. apply Appends_sendMessage in H as (new & Hm & Hs & Hq).
  exists new. split; [done|]. split; [done|]. split; [done|].
  by apply appended_sequence.
Qed.

(** *** The lock *)

(** How an invocation ends, in terms of the outcome of the idempotency
    check and of the callback. *)
Lemma sendMessage_cases tenantId sessionId input w r w' :
  sendMessage env tenantId sessionId input w = (r, w') ->
  let w1 := logged [Processing_message
                      (bool_decide (is_Some (truthy (in_idempotencyKey input))))] w in
  (exists existing,
     checkIdempotency sessionId input w1 = (inr (Some existing), w1)
     /\ r = inr (formatMessageResponse existing)
     /\ w' = logged [Returning_cached_response_for_idempotency_key] w1)
  \/ (checkIdempotency sessionId input w1 = (inr None, w1)
      /\ lockAndProcess env tenantId sessionId input w1 = (r, w')).
Proof.
  intros H w1. unfold sendMessage in H.
  rewrite (bind_inr _ _ _ _ _ (log_run _ _)) in H. fold w1 in H.
  destruct (checkIdempotency_run sessionId input w1) as [stored Hstored].
  rewrite (bind_inr _ _ _ _ _ Hstored) in H.
  destruct stored as [existing|]; [|by right].
  left. exists existing. rewrite (bind_inr _ _ _ _ _ (log_run _ _)) in H.
  by injection H as <- <-.
Qed.

(** X6. Whatever its outcome, [sendMessage] leaves the locks of the other
    sessions alone, leaves a lock that another invocation holds as it is,
    and never leaves the lock of its own session held. *)
Theorem sendMessage_lock_discipline tenantId sessionId input w r w' :
  sendMessage env tenantId sessionId input w = (r, w') ->
  (forall k, k <> uuidToLockKey env sessionId -> sessionLocks w' !! k = sessionLocks w !! k)
  /\ (held (uuidToLockKey env sessionId) w = true -> sessionLocks w' = sessionLocks w)
  /\ (held (uuidToLockKey env sessionId) w = false ->
      held (uuidToLockKey env sessionId) w' = false).
Proof.
  intros [(existing & _ & _ & ->)|[_ H]]%sendMessage_cases; [done|].
  unfold lockAndProcess in H.
  apply withSessionLock_inv in H as [(Hheld & _ & ->)|(Hfree & wb & Hfn & ->)]; [done|].
  apply locks_processMessage in Hfn. cbn in Hfn, Hfree. unfold held. cbn. rewrite Hfn.
  split; [|split].
  - intros k Hk. by rewrite lookup_delete_ne, lookup_insert_ne.
  - intros Hheld. congruence.
  - intros _. by rewrite lookup_delete_eq.
Qed.

(** *** Billing *)

(** X7. An invocation that ends with an error has written no usage
    event, whatever it stored before the error: a provider call of a
    failed invocation is not billed, even when the call itself succeeded
    (as the first call of a tool round whose second call fails). *)
Theorem failed_invocation_writes_no_usage_event tenantId sessionId input w e w' :
  sendMessage env tenantId sessionId input w = (inl e, w') ->
  tbl_usage_events w' = tbl_usage_events w.
Proof.
  intros [(existing & _ & [=] & _)|[_ H]]%sendMessage_cases.
  unfold lockAndProcess in H.
  apply withSessionLock_inv in H as [(_ & _ & ->)|(_ & wb & Hfn & ->)]; [done|].
  by apply usage_processMessage_failure in Hfn.
Qed.

(** X8. An invocation on a demo session writes no usage event, whatever
    its outcome and however many provider calls it makes. *)
Theorem demo_session_is_never_billed tenantId sessionId input w session agent r w' :
  (getSessionWithAgent tenantId sessionId w).1 = inr (session, agent) ->
  s_demoMode session = true ->
  sendMessage env tenantId sessionId input w = (r, w') ->
  tbl_usage_events w' = tbl_usage_events w.
Proof.
  intros Hsession Hdemo [(existing & _ & _ & ->)|[_ H]]%sendMessage_cases; [done|].
  unfold lockAndProcess in H.
  apply withSessionLock_inv in H as [(_ & _ & ->)|(_ & wb & Hfn & ->)]; [done|].
  eapply usage_processMessage_demo in Hfn; [exact Hfn| |exact Hdemo].
  rewrite <- Hsession. by apply FailureFacts.getSessionWithAgent_ext.
Qed.

(** *** Invocations that are turned down *)

(** An invocation whose callback throws before it stores anything: unless
    the idempotency check finds a stored response, the caller gets the
    error, the tables are as before and the lock is released. *)
Lemma sendMessage_turned_down tenantId sessionId input w e :
  held (uuidToLockKey env sessionId) w = false ->
  (forall w1 correlationId, tbl_sessions w1 = tbl_sessions w ->
     processMessage env tenantId sessionId input correlationId w1 = (inl e, w1)) ->
  exists stored w',
    checkIdempotency sessionId input w = (inr stored, w)
    /\ sendMessage env tenantId sessionId input w
       = (match stored with
          | Some existing => inr (formatMessageResponse existing)
          | None => inl e
          end, w')
    /\ tbl_messages w' = tbl_messages w
    /\ tbl_provider_calls w' = tbl_provider_calls w
    /\ tbl_usage_events w' = tbl_usage_events w
    /\ attemptLog w' = attemptLog w
    /\ held (uuidToLockKey env sessionId) w' = false.
Proof.
  intros Hfree Hfn.
  destruct (checkIdempotency_run sessionId input w) as [stored Hstored].
  assert (forall w1, tbl_messages w1 = tbl_messages w ->
                     tbl_provider_calls w1 = tbl_provider_calls w ->
                     checkIdempotency sessionId input w1 = (inr stored, w1)) as Hcheck.
  { intros w1 Hm Hpc. revert Hstored. unfold checkIdempotency.
    destruct (truthy _); [|by intros [= <-]].
    rewrite !findByIdempotencyKey_run, Hm. unfold includeProviderCall. rewrite Hpc.
    by intros [= <-]. }
  exists stored. unfold sendMessage.
  rewrite (bind_inr _ _ _ _ _ (log_run _ _)).
  rewrite (bind_inr _ _ _ _ _ (Hcheck (logged [_] w) eq_refl eq_refl)).
  destruct stored as [existing|].
  - rewrite (bind_inr _ _ _ _ _ (log_run _ _)). eexists. split; [done|].
    split; [reflexivity|]. done.
  - unfold lockAndProcess. eexists. split; [done|]. split.
    + apply FailureFacts.withSessionLock_run; [exact Hfree|]. by apply Hfn.
    + unfold held. cbn. by rewrite lookup_delete_eq.
Qed.

(** X9. A session that does not exist, or that belongs to another tenant:
    unless the idempotency check, which does not look at the tenant, finds
    a stored response for the key, the invocation ends with the
    [NotFoundError] 'Session not found' in both cases alike; nothing is
    stored, no provider is called and the lock is released. *)
Theorem foreign_session_is_not_found tenantId sessionId input w :
  (forall session, session ∈ tbl_sessions w -> s_id session = sessionId ->
                   s_tenantId session <> tenantId) ->
  held (uuidToLockKey env sessionId) w = false ->
  exists stored w',
    checkIdempotency sessionId input w = (inr stored, w)
    /\ sendMessage env tenantId sessionId input w
       = (match stored with
          | Some existing => inr (formatMessageResponse existing)
          | None => inl (AppErr (newAppError NotFoundError "Session not found"))
          end, w')
    /\ tbl_messages w' = tbl_messages w
    /\ tbl_provider_calls w' = tbl_provider_calls w
    /\ tbl_usage_events w' = tbl_usage_events w
    /\ attemptLog w' = attemptLog w
    /\ held (uuidToLockKey env sessionId) w' = false.
Proof.
  intros Hforeign Hfree. apply sendMessage_turned_down; [done|].
  intros w1 correlationId Hs. unfold processMessage, bind, getSessionWithAgent.
  rewrite Hs.
  destruct (find _ (tbl_sessions w)) as [session|] eqn:Hfind; [|done].
  apply find_some in Hfind as [Hin [Hid Ht]%andb_true_iff].
  apply bool_decide_eq_true in Hid, Ht.
  by destruct (Hforeign session (proj2 (list_elem_of_In _ _) Hin) Hid).
Qed.

(** X10. A session that is not ACTIVE: unless the idempotency check finds a
    stored response for the key, the invocation ends with the
    [ValidationError] 'Cannot send message to ended session'; nothing is
    stored, no provider is called and the lock is released. *)
Theorem ended_session_takes_no_message tenantId sessionId input w session agent :
  (getSessionWithAgent tenantId sessionId w).1 = inr (session, agent) ->
  s_status session <> ACTIVE ->
  held (uuidToLockKey env sessionId) w = false ->
  exists stored w',
    checkIdempotency sessionId input w = (inr stored, w)
    /\ sendMessage env tenantId sessionId input w
       = (match stored with
          | Some existing => inr (formatMessageResponse existing)
          | None => inl (AppErr (newAppError ValidationError
                                   "Cannot send message to ended session"))
          end, w')
    /\ tbl_messages w' = tbl_messages w
    /\ tbl_provider_calls w' = tbl_provider_calls w
    /\ tbl_usage_events w' = tbl_usage_events w
    /\ attemptLog w' = attemptLog w
    /\ held (uuidToLockKey env sessionId) w' = false.
Proof.
  intros Hsession Hended Hfree. apply sendMessage_turned_down; [done|].
  intros w1 correlationId Hs. unfold processMessage.
  pose proof (FailureFacts.getSessionWithAgent_run tenantId sessionId w1) as Hrun.
  rewrite (FailureFacts.getSessionWithAgent_ext _ _ w1 w Hs), Hsession in Hrun.
  rewrite (bind_inr _ _ _ _ _ Hrun).
  by rewrite (bool_decide_eq_false_2 _ Hended).
Qed.

(** X11. While another invocation holds the lock of the session: unless the
    idempotency check finds a stored response for the key, the invocation
    ends with the [ConflictError] (status 409) that asks to retry; it
    changes nothing but the log, and the lock stays with its holder. *)
Theorem locked_session_is_a_conflict tenantId sessionId input w :
  held (uuidToLockKey env sessionId) w = true ->
  exists stored,
    checkIdempotency sessionId input w = (inr stored, w)
    /\ sendMessage env tenantId sessionId input w
       = match stored with
         | Some existing =>
             (inr (formatMessageResponse existing),
              logged [Processing_message true;
                      Returning_cached_response_for_idempotency_key] w)
         | None =>
             (inl (AppErr (newAppError ConflictError
                     "Session is currently processing another message. Please retry.")),
              logged [Processing_message
                        (bool_decide (is_Some (truthy (in_idempotencyKey input))));
                      Failed_to_acquire_session_lock] w)
         end.
Proof.
  intros Hheld.
  destruct (checkIdempotency_run sessionId input w) as [stored Hstored].
  exists stored. split; [done|]. unfold sendMessage.
  rewrite (bind_inr _ _ _ _ _ (log_run _ _)).
  assert (checkIdempotency sessionId input
            (logged [Processing_message
                       (bool_decide (is_Some (truthy (in_idempotencyKey input))))] w)
          = (inr stored, logged [Processing_message
                                   (bool_decide (is_Some (truthy (in_idempotencyKey input))))] w))
    as Hcheck.
  { revert Hstored. unfold checkIdempotency. destruct (truthy _); [|by intros [= <-]].
    rewrite !findByIdempotencyKey_run. by intros [= <-]. }
  rewrite (bind_inr _ _ _ _ _ Hcheck).
  destruct stored as [existing|].
  - rewrite (bind_inr _ _ _ _ _ (log_run _ _)).
    assert (truthy (in_idempotencyKey input) <> None) as Hkey.
    { intros Hnone. unfold checkIdempotency in Hstored. by rewrite Hnone in Hstored. }
    destruct (truthy (in_idempotencyKey input)) as [key|]; [|done].
    rewrite (bool_decide_eq_true_2 (is_Some (Some key))) by done.
    unfold ret, logged. cbn. by rewrite <- app_assoc.
  - unfold lockAndProcess, withSessionLock. unfold held in Hheld. cbn [sessionLocks logged].
    rewrite Hheld. rewrite (bind_inr _ _ _ _ _ (log_run _ _)).
    unfold throw, logged. cbn. by rewrite <- app_assoc.
Qed.

End Invocation.

End InvocationFacts.

(** ** Billing within the pipeline *)

Module BillingPipelineFacts.
Import Store Service Observe Behaviour MonadFacts FrameFacts PipelineFacts.
Import ComposeFacts InvocationFacts.

(** *** The invariant *)

Lemma Preserves_keeps {A} (m : M A) :
  Keeps tbl_usage_events m -> Keeps tbl_provider_calls m ->
  Preserves BillingConsistent m.
Proof.
  intros Hu Hp w r w' [Huniq Hbilled] H.
  pose proof (Hu _ _ _ H) as Hue. pose proof (Hp _ _ _ H) as Hpc.
  split; unfold usageCount in *; rewrite Hue; [done|]. intros pc. rewrite Hpc. apply Hbilled.
Qed.

Lemma Preserves_bind {A B} (invariant : World -> Prop) (m : M A) (k : A -> M B) :
  Preserves invariant m -> (forall a, Preserves invariant (k a)) ->
  Preserves invariant (bind m k).
Proof.
  intros Hm Hk w r w' Hw [(e & H & _)|(a & w1 & H & Hk')]%bind_inv.
  - by eapply Hm.
  - eapply Hk; [|exact Hk']. by eapply Hm.
Qed.

Lemma Preserves_providerCall_create sessionId correlationId result status :
  Preserves BillingConsistent (providerCall_create sessionId correlationId result status).
Proof.
  intros w r w' Hw H.
  destruct (BillingFacts.providerCall_create_consistent sessionId correlationId result
              status w Hw) as (row & w1 & Hrun & _ & _ & Hw1).
  congruence.
Qed.

Lemma no_row_none_unbilled id (l : list ProviderCall) :
  (forall row, row ∈ l -> pc_id row <> id) -> List.filter (unbilled id) l = [].
Proof.
  induction l as [|x l IH]; [done|]. intros Hno. cbn. unfold unbilled at 1.
  rewrite bool_decide_eq_false_2 by (apply Hno; left). cbn.
  apply IH. intros row Hrow. apply Hno. by right.
Qed.

Lemma Preserves_createUsageEvent tenantId agentId sessionId demoMode providerCall :
  Preserves BillingConsistent
    (createUsageEvent tenantId agentId sessionId demoMode providerCall).
Proof.
  intros w r w' Hw.
  destruct demoMode; [by unfold createUsageEvent; intros [= <- <-]; destruct Hw|].
  destruct (decide (pc_status providerCall = SUCCESS)) as [Hstatus|Hstatus].
  2:{ unfold createUsageEvent. rewrite (bool_decide_eq_false_2 _ Hstatus). cbn.
      intros [= <- <-]. by destruct Hw. }
  destruct (find (fun row => bool_decide (pc_id row = pc_id providerCall))
              (tbl_provider_calls w)) as [row|] eqn:Hfind.
  - assert (exists row, row ∈ tbl_provider_calls w /\ pc_id row = pc_id providerCall)
      as Hrow.
    { apply find_some in Hfind as [Hin Hid%bool_decide_eq_true].
      exists row. split; [by apply list_elem_of_In|done]. }
    destruct (BillingFacts.createUsageEvent_once tenantId agentId sessionId providerCall w
                Hw Hrow Hstatus) as (w1 & Hrun & Hw1 & _).
    rewrite Hrun. by intros [= <- <-].
  - assert (~ exists row, row ∈ tbl_provider_calls w /\ pc_id row = pc_id providerCall)
      as Hno.
    { intros (row & Hin & Hid). apply list_elem_of_In in Hin.
      pose proof (find_none _ _ Hfind row Hin) as Hn. cbn in Hn.
      by rewrite bool_decide_eq_true_2 in Hn. }
    unfold createUsageEvent. rewrite (bool_decide_eq_true_2 _ Hstatus). cbn [negb].
    rewrite (bind_inr _ _ _ _ _ (log_run _ _)).
    unfold tryCatch, transaction, bind, providerCall_updateMany_billed.
    cbn [tbl_provider_calls logged].
    rewrite no_row_none_unbilled by (intros row Hin Hid; apply Hno; by exists row).
    cbn. intros [= <- <-]. destruct Hw as [Huniq Hbilled].
    split; unfold usageCount in *; cbn; [done|].
    intros pc (pc0 & -> & Hin)%list_elem_of_fmap.
    rewrite BillingFacts.markBilled_id. unfold markBilled, unbilled.
    rewrite bool_decide_eq_false_2 by (intros Hid; apply Hno; by exists pc0).
    cbn. by apply Hbilled.
Qed.

(** *** What is written *)

Section Bills.

Variables tenantId sessionId : string.

Lemma Bills_keeps {A} (m : M A) : Keeps tbl_usage_events m -> Bills tenantId sessionId m.
Proof. intros Hm w r w' H. apply Hm in H. exists []. by rewrite app_nil_r. Qed.

Lemma Bills_bind {A B} (m : M A) (k : A -> M B) :
  Bills tenantId sessionId m -> (forall a, Bills tenantId sessionId (k a)) ->
  Bills tenantId sessionId (bind m k).
Proof.
  intros Hm Hk w r w' [(e & H & _)|(a & w1 & H & Hk')]%bind_inv.
  - by apply Hm in H.
  - apply Hm in H as (new1 & Hu1 & Hp1). apply Hk in Hk' as (new2 & Hu2 & Hp2).
    exists (new1 ++ new2). split; [by rewrite Hu2, Hu1, <- app_assoc|by apply Forall_app].
Qed.

Lemma Bills_createUsageEvent agentId demoMode providerCall :
  Bills tenantId sessionId
    (createUsageEvent tenantId agentId sessionId demoMode providerCall).
Proof.
  intros w r w'. unfold createUsageEvent.
  destruct demoMode; [intros [= <- <-]; exists []; by rewrite app_nil_r|].
  destruct (negb _); [intros [= <- <-]; exists []; by rewrite app_nil_r|].
  rewrite (bind_inr _ _ _ _ _ (log_run _ _)).
  unfold tryCatch, transaction, bind, providerCall_updateMany_billed, usageEvent_create.
  cbn [tbl_usage_events tbl_provider_calls logged].
  destruct (_ =? 0)%nat; [intros [= <- <-]; exists []; by rewrite app_nil_r|].
  destruct (existsb _ _).
  - cbn. intros [= <- <-]. exists []. by rewrite app_nil_r.
  - cbn. intros [= <- <-]. eexists [_]. split; [done|]. by repeat constructor.
Qed.

End Bills.

(** Solves [Preserves BillingConsistent m] and [Bills t s m] by following
    the structure of [m]. *)
Ltac billing :=
  repeat first
    [ progress intros
    | solve [eauto with keeps]
    | apply Preserves_keeps; solve [keeps]
    | apply Bills_keeps; solve [keeps]
    | apply Preserves_providerCall_create
    | apply Preserves_createUsageEvent
    | apply Bills_createUsageEvent
    | apply Preserves_bind
    | apply Bills_bind
    | match goal with
      | |- Preserves _ (match ?x with _ => _ end) => destruct x
      | |- Bills _ _ (match ?x with _ => _ end) => destruct x
      end ].

Section Pipeline.

Variable env : Env.

Lemma calls_loadConversationHistory sessionId :
  Keeps tbl_provider_calls (loadConversationHistory env sessionId).
Proof. unfold loadConversationHistory. keeps. Qed.

Lemma Preserves_handleToolCalls tenantId sessionId correlationId agent response toolCalls
    providerCall :
  Preserves BillingConsistent
    (handleToolCalls env tenantId sessionId correlationId agent response toolCalls
       providerCall).
Proof.
  unfold handleToolCalls.
  pose proof (usage_executeToolCalls env). pose proof usage_storeToolResults.
  pose proof (usage_loadConversationHistory env).
  pose proof (provider_calls_executeToolCalls env). pose proof provider_calls_storeToolResults.
  pose proof calls_loadConversationHistory.
  billing.
Qed.

Lemma Preserves_processMessage tenantId sessionId input correlationId :
  Preserves BillingConsistent (processMessage env tenantId sessionId input correlationId).
Proof.
  unfold processMessage.
  pose proof Preserves_handleToolCalls.
  pose proof (usage_loadConversationHistory env). pose proof calls_loadConversationHistory.
  billing.
Qed.

Lemma Bills_processMessage tenantId sessionId input correlationId :
  Bills tenantId sessionId (processMessage env tenantId sessionId input correlationId).
Proof.
  unfold processMessage.
  pose proof (usage_handleToolCalls env). pose proof (usage_loadConversationHistory env).
  billing.
Qed.

(** X12. Whatever its outcome, [sendMessage] keeps the billing consistent
    (no provider call has two usage events, and every provider call marked
    as billed has its event) and leaves the usage events it found as they
    are.  The events it adds are events of its tenant and session, whose
    total is the sum of their token counts and whose cost and pricing
    snapshot are the ones [calculateCost] and [getPricingSnapshot] give
    for their provider and token counts. *)
Theorem sendMessage_keeps_billing_consistent tenantId sessionId input w r w' :
  BillingConsistent w ->
  sendMessage env tenantId sessionId input w = (r, w') ->
  BillingConsistent w'
  /\ exists new,
       tbl_usage_events w' = tbl_usage_events w ++ new
       /\ Forall (WellPriced tenantId sessionId) new.
Proof.
  intros Hw [(existing & _ & _ & ->)|[_ H]]%sendMessage_cases.
  { split; [by destruct Hw|]. exists []. by rewrite app_nil_r. }
  unfold lockAndProcess in H.
  apply withSessionLock_inv in H as [(_ & _ & ->)|(_ & wb & Hfn & ->)].
  { split; [by destruct Hw|]. exists []. by rewrite app_nil_r. }
  split.
  - apply Preserves_processMessage in Hfn; [by destruct Hfn|by destruct Hw].
  - by apply Bills_processMessage in Hfn.
Qed.

End Pipeline.

End BillingPipelineFacts.


(** ** The job queue *)

Module JobFacts.
Import Store Service Observe Sessions Jobs JobBehaviour MonadFacts FrameFacts.

(** The first row that satisfies a test, and the rows before it. *)
Lemma find_split {A} (p : A -> bool) (l : list A) x :
  find p l = Some x ->
  exists before after,
    l = before ++ x :: after /\ Forall (fun y => p y = false) before /\ p x = true.
Proof.
  induction l as [|y l IH]; [done|]. cbn. destruct (p y) eqn:Hy.
  - intros [= ->]. by exists [], l.
  - intros (before & after & -> & Hb & Hx)%IH.
    exists (y :: before), after. split; [done|]. split; [by constructor|done].
Qed.

Lemma find_first {A} (p : A -> bool) (before after : list A) x :
  Forall (fun y => p y = false) before -> p x = true ->
  find p (before ++ x :: after) = Some x.
Proof.
  induction 1 as [|y before Hy _ IH]; cbn; intros Hx; [by rewrite Hx|].
  rewrite Hy. by apply IH.
Qed.

Lemma find_app_r {A} (p : A -> bool) (l1 l2 : list A) :
  find p l1 = None -> find p (l1 ++ l2) = find p l2.
Proof.
  induction l1 as [|x l1 IH]; [done|]. cbn. destruct (p x); [done|]. apply IH.
Qed.

(** The update of the row with a given primary key. *)
Lemma update_row id (data : Job -> Job) before job after :
  NoDup (j_id <$> before ++ job :: after) -> j_id job = id ->
  (fun row => if bool_decide (j_id row = id) then data row else row)
    <$> before ++ job :: after
  = before ++ data job :: after.
Proof.
  intros Hnd Hid. rewrite fmap_app, fmap_cons, bool_decide_eq_true_2 by done.
  rewrite fmap_app, fmap_cons in Hnd.
  apply NoDup_app in Hnd as (_ & Hbefore & [Hafter _]%NoDup_cons).
  f_equal; [|f_equal].
  - rewrite <- (list_fmap_id before) at 2. apply list_fmap_ext.
    intros i row Hrow. rewrite bool_decide_eq_false_2; [done|].
    intros Heq. apply (Hbefore (j_id row)).
    + apply list_elem_of_fmap_2. by eapply list_elem_of_lookup_2.
    + rewrite Heq, <- Hid. left.
  - rewrite <- (list_fmap_id after) at 2. apply list_fmap_ext.
    intros i row Hrow. rewrite bool_decide_eq_false_2; [done|].
    intros Heq. apply Hafter. rewrite Hid, <- Heq.
    apply list_elem_of_fmap_2. by eapply list_elem_of_lookup_2.
Qed.

Lemma update_keeps_ids before job job' after :
  j_id job' = j_id job ->
  j_id <$> before ++ job' :: after = j_id <$> before ++ job :: after.
Proof. intros H. by rewrite !fmap_app, !fmap_cons, H. Qed.

Section Worker.

Variable env : Env.
Variable worker : Worker.

(** The rows of the table after a round that found a job. *)
Lemma processNextJob_found clock db before job after :
  NoDup (j_id <$> tbl_jobs db) ->
  tbl_jobs db = before ++ job :: after ->
  Forall (fun row => available worker (at_start clock) row = false) before ->
  available worker (at_start clock) job = true ->
  exists job',
    tbl_jobs (processNextJob env worker clock db) = before ++ job' :: after
    /\ Ran worker clock job job'.
Proof.
  intros Hnd Hdb Hbefore Hjob. rewrite Hdb in Hnd.
  unfold processNextJob, claim. rewrite Hdb, (find_first _ _ _ _ Hbefore Hjob).
  set (job1 := claimed _ _ _ job).
  assert (Hnd1 : forall row, j_id row = j_id job ->
                             NoDup (j_id <$> before ++ row :: after))
    by (intros row Hrow; by rewrite (update_keeps_ids _ job)).
  unfold executeJob, executeSendMessage, sendCallback.
  repeat first
    [ progress cbn [tbl_jobs job_update withWorld world nextJobId requests]
    | rewrite Hdb
    | rewrite update_row by (solve [apply Hnd1; reflexivity | reflexivity])
    | match goal with
      | |- context [match j_type ?j with _ => _ end] => destruct (j_type j) eqn:?
      | |- context [sendMessage ?e ?t ?s ?i ?w] =>
          destruct (sendMessage e t s i w) as [[?|?] ?] eqn:?
      | |- context [?a <? ?b] => destruct (Z.ltb_spec a b)
      | |- context [isTruthy ?s] => destruct (isTruthy s) eqn:?
      | |- context [truthy ?s] => destruct (truthy s) eqn:?
      | |- context [fetch ?w ?u ?p] => destruct (fetch w u p) eqn:?
      end ];
    (eexists; split; [reflexivity|]);
    (split; try reflexivity; cbn;
     first [ left; repeat split; solve [eauto | lia]
           | right; left; repeat split; solve [eauto | lia]
           | right; right; repeat split; solve [eauto | lia] ]).
Qed.

Lemma processNextJob_idle clock db :
  find (available worker (at_start clock)) (tbl_jobs db) = None ->
  processNextJob env worker clock db = db.
Proof. intros H. unfold processNextJob, claim. by rewrite H. Qed.

(** X17. One round of the worker, on a table whose primary keys
    are distinct.  Without a job that is available at the start of the
    round, the round changes nothing.  Otherwise it runs the oldest
    available job and no other: the rows before and after it stay as they
    are, and its own row has one attempt more, which is within the bound of
    the claim, carries no lock, and is COMPLETED with its output, PENDING
    with attempts left, or FAILED with its error message. *)
Theorem processNextJob_runs_the_oldest_available_job clock db :
  NoDup (j_id <$> tbl_jobs db) ->
  match find (available worker (at_start clock)) (tbl_jobs db) with
  | None => processNextJob env worker clock db = db
  | Some job =>
      exists before after job',
        tbl_jobs db = before ++ job :: after
        /\ Forall (fun row => available worker (at_start clock) row = false) before
        /\ tbl_jobs (processNextJob env worker clock db) = before ++ job' :: after
        /\ Ran worker clock job job'
        /\ j_attempts job' <= attemptsBound worker job
  end.
Proof.
  intros Hnd. destruct (find _ _) as [job|] eqn:Hfind; [|by apply processNextJob_idle].
  destruct (find_split _ _ _ Hfind) as (before & after & Hdb & Hbefore & Hjob).
  destruct (processNextJob_found clock db before job after Hnd Hdb Hbefore Hjob)
    as (job' & Htbl & Hran).
  exists before, after, job'. split; [done|]. split; [done|]. split; [done|].
  split; [done|]. rewrite (ran_attempts _ _ _ _ Hran).
  unfold available in Hjob. apply andb_true_iff in Hjob as [_ Hlt%Z.ltb_lt]. lia.
Qed.

Lemma rounds_cons clock clocks db :
  rounds env worker (clock :: clocks) db
  = rounds env worker clocks (processNextJob env worker clock db).
Proof. done. Qed.

(** *** Jobs that are never run *)

Lemma Settled_not_available now job : Settled worker job -> available worker now job = false.
Proof.
  unfold available. intros [H|[H|H]].
  - rewrite H. by cbn.
  - rewrite H. by cbn.
  - apply andb_false_iff. right. by apply Z.ltb_ge.
Qed.

Lemma processNextJob_keeps_settled clock db i job :
  NoDup (j_id <$> tbl_jobs db) ->
  tbl_jobs db !! i = Some job ->
  Settled worker job ->
  NoDup (j_id <$> tbl_jobs (processNextJob env worker clock db))
  /\ tbl_jobs (processNextJob env worker clock db) !! i = Some job.
Proof.
  intros Hnd Hi Hsettled.
  destruct (find (available worker (at_start clock)) (tbl_jobs db)) as [found|] eqn:Hfind;
    [|by rewrite processNextJob_idle].
  destruct (find_split _ _ _ Hfind) as (before & after & Hdb & Hbefore & Hfound).
  destruct (processNextJob_found clock db before found after Hnd Hdb Hbefore Hfound)
    as (job' & -> & Hran).
  rewrite Hdb in Hnd, Hi. split.
  - by rewrite (update_keeps_ids _ found _ _ (ran_id _ _ _ _ Hran)).
  - destruct (decide (i < length before)%nat) as [Hlt|Hge].
    + rewrite lookup_app_l in Hi |- * by done. done.
    + rewrite lookup_app_r in Hi |- * by lia.
      destruct (i - length before)%nat as [|k]; [|done].
      injection Hi as ->. by rewrite Settled_not_available in Hfound.
Qed.

(** X18. A job that is COMPLETED or FAILED, or whose attempts have reached
    the bound of the claim, is never run again: whatever the clock shows,
    any number of rounds of the worker leave its row as it is.  For a job
    that is PENDING or PROCESSING with its attempts used up, this means
    that it is neither completed nor failed by the worker. *)
Theorem settled_job_is_never_run clocks db i job :
  NoDup (j_id <$> tbl_jobs db) ->
  tbl_jobs db !! i = Some job ->
  j_status job = J_COMPLETED \/ j_status job = J_FAILED
  \/ attemptsBound worker job <= j_attempts job ->
  tbl_jobs (rounds env worker clocks db) !! i = Some job.
Proof.
  revert db. induction clocks as [|clock clocks IH]; intros db Hnd Hi Hsettled; [done|].
  rewrite rounds_cons.
  destruct (processNextJob_keeps_settled clock db i job Hnd Hi Hsettled).
  by apply IH.
Qed.

(** *** Callbacks *)

(** X19. What a round of the worker posts.  A round that finds no job,
    or whose job has no callback URL, or whose job is left PENDING for
    another attempt, sends nothing and leaves [callbackSent] as it is.
    Otherwise it sends one request, to the URL of the job, with the id and
    the type of the job: for a COMPLETED job the output and no error, for a
    FAILED job the error message and no result; the status it announces is
    'FAILED' when the error message is not empty and 'COMPLETED'
    otherwise.  [callbackSent] is set when the request is answered,
    whatever the status of the answer, and stays as it is when it is not. *)
Theorem processNextJob_posts_one_callback clock db :
  NoDup (j_id <$> tbl_jobs db) ->
  match find (available worker (at_start clock)) (tbl_jobs db) with
  | None => requests (processNextJob env worker clock db) = requests db
  | Some job =>
      exists before after job',
        tbl_jobs db = before ++ job :: after
        /\ tbl_jobs (processNextJob env worker clock db) = before ++ job' :: after
        /\ match truthy (j_callbackUrl job) with
           | None =>
               requests (processNextJob env worker clock db) = requests db
               /\ j_callbackSent job' = j_callbackSent job
           | Some callbackUrl =>
               if bool_decide (j_status job' = J_PENDING)
               then requests (processNextJob env worker clock db) = requests db
                    /\ j_callbackSent job' = j_callbackSent job
               else
                 exists payload,
                   requests (processNextJob env worker clock db)
                   = requests db ++ [(callbackUrl, payload)]
                   /\ cb_jobId payload = j_id job
                   /\ cb_type payload = j_type job
                   /\ cb_completedAt payload = at_callback clock
                   /\ cb_error payload
                      = (if bool_decide (j_status job' = J_FAILED)
                         then j_lastError job' else None)
                   /\ cb_result payload
                      = (if bool_decide (j_status job' = J_FAILED)
                         then None else j_output job')
                   /\ cb_status payload
                      = (if isTruthy (cb_error payload) then "FAILED" else "COMPLETED")
                   /\ j_callbackSent job'
                      = match fetch worker callbackUrl payload with
                        | Responded _ => true
                        | FetchRejected _ => j_callbackSent job
                        end
           end
  end.
Proof.
  intros Hnd.
  destruct (find _ _) as [job|] eqn:Hfind; [|by rewrite processNextJob_idle].
  destruct (find_split _ _ _ Hfind) as (before & after & Hdb & Hbefore & Hjob).
  exists before, after. rewrite Hdb in Hnd.
  unfold processNextJob, claim. rewrite Hfind.
  assert (Hnd1 : forall row, j_id row = j_id job ->
                             NoDup (j_id <$> before ++ row :: after))
    by (intros row Hrow; by rewrite (update_keeps_ids _ job)).
  unfold executeJob, executeSendMessage, sendCallback, isTruthy.
  cbn [j_callbackUrl claimed].
  destruct (truthy (j_callbackUrl job)) as [callbackUrl|] eqn:Hurl;
  repeat first
    [ progress cbn [tbl_jobs job_update withWorld world nextJobId requests
                    j_type j_id claimed j_attempts j_maxAttempts]
    | rewrite Hdb
    | rewrite update_row by (solve [apply Hnd1; reflexivity | reflexivity])
    | match goal with
      | |- context [match j_type ?j with _ => _ end] => destruct (j_type j) eqn:?
      | |- context [sendMessage ?e ?t ?s ?i ?w] =>
          destruct (sendMessage e t s i w) as [[?|?] ?] eqn:?
      | |- context [?a <? ?b] => destruct (a <? b) eqn:?
      | |- context [fetch ?w ?u ?p] => destruct (fetch w u p) eqn:?
      end ];
    (eexists; split; [reflexivity|]; split; [reflexivity|]);
    cbn [j_status j_callbackSent completed failed withCallbackSent];
    repeat case_bool_decide; try done;
    (eexists; split; [reflexivity|]);
    cbn [j_status j_callbackSent j_lastError j_output j_id j_type completed failed
         withCallbackSent claimed withProgress
         cb_jobId cb_type cb_completedAt cb_error cb_result cb_status];
    repeat case_bool_decide; try done;
    repeat match goal with
           | H : fetch ?w ?u ?p = _ |- context [fetch ?w ?u ?q] =>
               replace q with p by reflexivity; rewrite H
           end;
    repeat split; by repeat case_match.
Qed.

(** *** Jobs that fail every time *)

(** A round on a queue whose first available job is a voice job. *)
Lemma processNextJob_voice clock db before job after :
  NoDup (j_id <$> tbl_jobs db) ->
  tbl_jobs db = before ++ job :: after ->
  Forall (Settled worker) before ->
  j_type job = VOICE_PROCESS ->
  j_status job = J_PENDING ->
  j_lockedAt job = None ->
  j_attempts job < attemptsBound worker job ->
  attemptsBound worker job = orNumber (j_maxAttempts job) (jobs_maxAttempts worker) ->
  exists job',
    tbl_jobs (processNextJob env worker clock db) = before ++ job' :: after
    /\ world (processNextJob env worker clock db) = world db
    /\ j_id job' = j_id job
    /\ j_type job' = VOICE_PROCESS
    /\ j_maxAttempts job' = j_maxAttempts job
    /\ j_lockedAt job' = None
    /\ j_attempts job' = j_attempts job + 1
    /\ j_lastError job' = Some "Voice processing not implemented"
    /\ j_status job'
       = (if j_attempts job' <? attemptsBound worker job then J_PENDING else J_FAILED)
    /\ j_errorMessage job'
       = (if j_attempts job' <? attemptsBound worker job then None
          else Some "Voice processing not implemented").
Proof.
  intros Hnd Hdb Hbefore Htype Hstatus Hlock Hlt Hbound. rewrite Hdb in Hnd.
  assert (Hjob : available worker (at_start clock) job = true).
  { unfold available. rewrite Hstatus, Hlock. cbn. by apply Z.ltb_lt. }
  assert (Hnone : Forall (fun row => available worker (at_start clock) row = false) before)
    by (eapply Forall_impl; [exact Hbefore|]; intros row; apply Settled_not_available).
  unfold processNextJob, claim. rewrite Hdb, (find_first _ _ _ _ Hnone Hjob).
  assert (Hnd1 : forall row, j_id row = j_id job ->
                             NoDup (j_id <$> before ++ row :: after))
    by (intros row Hrow; by rewrite (update_keeps_ids _ job)).
  unfold executeJob, sendCallback. cbn [j_type claimed]. rewrite Htype.
  cbn [errorObjMessage j_attempts j_maxAttempts claimed]. rewrite <- Hbound.
  destruct (j_attempts job + 1 <? attemptsBound worker job) eqn:Hretry;
  repeat first
    [ progress cbn [tbl_jobs job_update withWorld world nextJobId requests
                    j_id claimed j_callbackUrl]
    | rewrite Hdb
    | rewrite update_row by (solve [apply Hnd1; reflexivity | reflexivity])
    | match goal with
      | |- context [isTruthy ?s] => destruct (isTruthy s) eqn:?
      | |- context [match truthy ?s with _ => _ end] => destruct (truthy s) eqn:?
      | |- context [fetch ?w ?u ?p] => destruct (fetch w u p) eqn:?
      end ];
    (eexists; split; [reflexivity|]); cbn; by rewrite Hretry.
Qed.

(** X20. A voice job fails on every attempt: as long as it is the first
    job that is not settled, each round of the worker uses one of its
    attempts and records the error 'Voice processing not implemented'; the
    job stays PENDING while attempts are left and is FAILED, with that
    error message, once the last one is used.  The rest of the database
    is not touched. *)
Theorem voice_job_fails_after_its_attempts clocks db before job after :
  NoDup (j_id <$> tbl_jobs db) ->
  tbl_jobs db = before ++ job :: after ->
  Forall (Settled worker) before ->
  j_type job = VOICE_PROCESS ->
  j_status job = J_PENDING ->
  j_lockedAt job = None ->
  attemptsBound worker job = orNumber (j_maxAttempts job) (jobs_maxAttempts worker) ->
  clocks <> [] ->
  j_attempts job + Z.of_nat (length clocks) <= attemptsBound worker job ->
  exists job',
    tbl_jobs (rounds env worker clocks db) = before ++ job' :: after
    /\ world (rounds env worker clocks db) = world db
    /\ j_attempts job' = j_attempts job + Z.of_nat (length clocks)
    /\ j_lastError job' = Some "Voice processing not implemented"
    /\ j_status job'
       = (if j_attempts job' <? attemptsBound worker job then J_PENDING else J_FAILED)
    /\ j_errorMessage job'
       = (if j_attempts job' <? attemptsBound worker job then None
          else Some "Voice processing not implemented").
Proof.
  revert db job.
  induction clocks as [|clock clocks IH];
    intros db job Hnd Hdb Hbefore Htype Hstatus Hlock Hbound Hne Hle; [done|].
  rewrite rounds_cons. cbn [length] in Hle.
  destruct (processNextJob_voice clock db before job after)
    as (job1 & Htbl & Hworld & Hid & Htype1 & Hmax & Hlock1 & Hatt & Herr & Hstatus1 & Hmsg);
    try done; [lia|].
  assert (Hbound1 : attemptsBound worker job1 = attemptsBound worker job)
    by (unfold attemptsBound; by rewrite Hmax).
  destruct clocks as [|clock2 clocks].
  - exists job1. cbn. split; [done|]. split; [done|]. split; [lia|]. done.
  - destruct (IH (processNextJob env worker clock db) job1)
      as (job' & Htbl' & Hworld' & Hatt' & Herr' & Hstatus' & Hmsg'); try done.
    + rewrite Htbl. rewrite Hdb in Hnd. by rewrite (update_keeps_ids _ job).
    + rewrite Hstatus1. cbn [length] in Hle.
      rewrite (proj2 (Z.ltb_lt _ _)); [done|lia].
    + by rewrite Hbound1, Hmax.
    + rewrite Hbound1. cbn [length] in *. lia.
    + exists job'.
      rewrite Htbl', Hworld', Hworld, Hatt', Hatt, Herr', Hstatus', Hmsg', Hbound1, Hatt', Hatt.
      cbn [length]. repeat split; try done. lia.
Qed.

(** *** Recovery *)

(** X23. The recovery at the start of the worker resets the status and the
    lock of the jobs that are PROCESSING under a lock that has expired,
    and changes no other row and no other column: the attempts stay as
    they are.  It makes no difference to the claim: at the time of the
    recovery and at any later time, every job is available after it
    exactly if it was before, so that the next round runs the same job
    with or without it. *)
Theorem recovery_is_invisible_to_the_claim now db t :
  now <= t ->
  world (recoverStaleJobs now db) = world db
  /\ length (tbl_jobs (recoverStaleJobs now db)) = length (tbl_jobs db)
  /\ (forall i job,
        tbl_jobs db !! i = Some job ->
        exists job',
          tbl_jobs (recoverStaleJobs now db) !! i = Some job'
          /\ job' = (if isStale now job then recovered job else job)
          /\ j_id job' = j_id job
          /\ j_attempts job' = j_attempts job
          /\ available worker t job' = available worker t job)
  /\ j_id <$> find (available worker t) (tbl_jobs (recoverStaleJobs now db))
     = j_id <$> find (available worker t) (tbl_jobs db).
Proof.
  intros Hle.
  assert (forall job,
            let job' := if isStale now job then recovered job else job in
            j_id job' = j_id job /\ j_attempts job' = j_attempts job
            /\ available worker t job' = available worker t job) as Hrow.
  { intros job. cbn zeta. destruct (isStale now job) eqn:Hstale; [|done].
    split; [done|]. split; [done|].
    unfold isStale, sqlLt in Hstale. apply andb_true_iff in Hstale as [Hstatus Hlock].
    apply bool_decide_eq_true in Hstatus.
    destruct (j_lockExpiresAt job) as [expiresAt|] eqn:Hexpires; [|done].
    cbn in Hlock. apply Z.ltb_lt in Hlock.
    unfold available, attemptsBound, sqlLt. rewrite Hstatus, Hexpires. cbn.
    rewrite (proj2 (Z.ltb_lt expiresAt t)) by lia. rewrite orb_true_r.
    by repeat case_bool_decide. }
  split; [done|]. split; [unfold recoverStaleJobs; cbn; by rewrite length_fmap|]. split.
  - intros i job Hi. eexists. split.
    + unfold recoverStaleJobs. cbn [tbl_jobs]. rewrite list_lookup_fmap, Hi. reflexivity.
    + split; [done|]. apply Hrow.
  - unfold recoverStaleJobs. cbn [tbl_jobs].
    induction (tbl_jobs db) as [|job jobs IH]; [done|]. rewrite fmap_cons. cbn [find].
    destruct (Hrow job) as (Hid & _ & ->).
    destruct (available worker t job); [|done]. cbn. by rewrite Hid.
Qed.

(** *** The queue and the route *)

(** A round keeps the sessions, and who a job belongs to. *)
Lemma sessions_sendMessage tenantId sessionId input :
  Keeps tbl_sessions (sendMessage env tenantId sessionId input).
Proof.
  assert (forall toolCalls agent context,
            Keeps tbl_sessions (executeToolCalls env toolCalls agent context)) as Htools.
  { intros toolCalls agent context.
    induction toolCalls as [|toolCall rest IH]; cbn [executeToolCalls]; [keeps|].
    assert (forall n a c e, Keeps tbl_sessions (Registry.execute (registry env) n a c e))
      by (intros; unfold Registry.execute; keeps).
    keeps. }
  assert (forall sid toolResults, Keeps tbl_sessions (storeToolResults sid toolResults))
    as Hstore.
  { intros sid toolResults.
    induction toolResults as [|toolResult rest IH]; cbn [storeToolResults]; keeps. }
  assert (forall correlationId,
            Keeps tbl_sessions (processMessage env tenantId sessionId input correlationId))
    as Hprocess.
  { intros correlationId.
    unfold processMessage, handleToolCalls, createUsageEvent, loadConversationHistory.
    keeps. }
  assert (Keeps tbl_sessions (lockAndProcess env tenantId sessionId input)) as Hlocked.
  { intros w r w'. unfold lockAndProcess.
    intros [(_ & _ & ->)|(_ & wb & Hrun & ->)]%PipelineFacts.withSessionLock_inv; [done|].
    by apply Hprocess in Hrun. }
  unfold sendMessage, checkIdempotency, findByIdempotencyKey.
  keeps.
Qed.

Lemma sessions_processNextJob clock db :
  tbl_sessions (world (processNextJob env worker clock db)) = tbl_sessions (world db).
Proof.
  unfold processNextJob, claim, executeJob, executeSendMessage, sendCallback.
  repeat first
    [ progress cbn [tbl_jobs job_update withWorld world nextJobId requests]
    | match goal with
      | |- context [find ?p ?l] => destruct (find p l) eqn:?
      | |- context [match j_type ?j with _ => _ end] => destruct (j_type j) eqn:?
      | |- context [sendMessage ?e ?t ?s ?i ?w] =>
          let H := fresh in
          destruct (sendMessage e t s i w) as [[?|?] ?] eqn:H;
          apply sessions_sendMessage in H; cbn in H
      | |- context [?a <? ?b] => destruct (a <? b) eqn:?
      | |- context [isTruthy ?s] => destruct (isTruthy s) eqn:?
      | |- context [match truthy ?s with _ => _ end] => destruct (truthy s) eqn:?
      | |- context [fetch ?w ?u ?p] => destruct (fetch w u p) eqn:?
      end ]; done.
Qed.

Lemma identities_processNextJob clock db :
  NoDup (j_id <$> tbl_jobs db) ->
  identity <$> tbl_jobs (processNextJob env worker clock db) = identity <$> tbl_jobs db.
Proof.
  intros Hnd.
  destruct (find (available worker (at_start clock)) (tbl_jobs db)) as [found|] eqn:Hfind;
    [|by rewrite processNextJob_idle].
  destruct (find_split _ _ _ Hfind) as (before & after & Hdb & Hbefore & Hfound).
  destruct (processNextJob_found clock db before found after Hnd Hdb Hbefore Hfound)
    as (job' & -> & Hran).
  rewrite Hdb, !fmap_app, !fmap_cons. unfold identity at 2 5.
  by rewrite (ran_id _ _ _ _ Hran), (ran_tenantId _ _ _ _ Hran),
    (ran_idempotencyKey _ _ _ _ Hran).
Qed.

Lemma identities_ids (l1 l2 : list Job) :
  identity <$> l1 = identity <$> l2 -> j_id <$> l1 = j_id <$> l2.
Proof.
  intros H. apply (f_equal (fmap (fun x => x.1.1))) in H.
  by rewrite <- !list_fmap_compose in H.
Qed.

Lemma rounds_keep clocks db :
  NoDup (j_id <$> tbl_jobs db) ->
  identity <$> tbl_jobs (rounds env worker clocks db) = identity <$> tbl_jobs db
  /\ tbl_sessions (world (rounds env worker clocks db)) = tbl_sessions (world db).
Proof.
  revert db. induction clocks as [|clock clocks IH]; intros db Hnd; [done|].
  rewrite rounds_cons.
  pose proof (identities_processNextJob clock db Hnd) as Hid.
  destruct (IH (processNextJob env worker clock db)) as [Hids Hsessions].
  - by rewrite (identities_ids _ _ Hid).
  - by rewrite Hids, Hid, Hsessions, sessions_processNextJob.
Qed.

(** Whom the lookup by key finds depends on the identities alone. *)
Lemma job_findUnique_identity tenantId key (l1 l2 : list Job) :
  identity <$> l1 = identity <$> l2 ->
  j_id <$> find (fun job => bool_decide (j_tenantId job = tenantId)
                            && bool_decide (j_idempotencyKey job = Some key)) l1
  = j_id <$> find (fun job => bool_decide (j_tenantId job = tenantId)
                              && bool_decide (j_idempotencyKey job = Some key)) l2.
Proof.
  revert l2. induction l1 as [|x l1 IH]; intros [|y l2]; try done.
  rewrite !fmap_cons. intros [= Hid Htenant Hkey Hrest]. cbn.
  rewrite Htenant, Hkey. destruct (_ && _); [by cbn; rewrite Hid|by apply IH].
Qed.

Lemma getSessionById_run tenantId sessionId w :
  getSessionById tenantId sessionId w = ((getSessionById tenantId sessionId w).1, w).
Proof. unfold getSessionById, session_findFirst, bind. cbn. by case_match. Qed.

Lemma getSessionById_ext tenantId sessionId w1 w2 :
  tbl_sessions w1 = tbl_sessions w2 ->
  (getSessionById tenantId sessionId w1).1 = (getSessionById tenantId sessionId w2).1.
Proof.
  unfold getSessionById, session_findFirst, bind. cbn. intros ->. by case_match.
Qed.

Lemma withWorld_same db : withWorld (world db) db = db.
Proof. by destruct db. Qed.

(** X21. Submitting a message for asynchronous processing twice with the
    same idempotency key, a key that is not empty: once a submission was
    accepted, every later submission of the tenant with that key, whatever
    its content and callback URL, and however many rounds the worker has
    run in between, is answered with status 200 and the id of the job of
    the first submission, with the status the job has by then; it creates
    no job and changes nothing. *)
Theorem resubmission_returns_the_first_job tenantId sessionId key content callbackUrl db
    reply db1 clocks content2 callbackUrl2 :
  key <> "" ->
  NoDup (j_id <$> tbl_jobs db) ->
  Forall (fun job => (j_id job < nextJobId db)%nat) (tbl_jobs db) ->
  sendMessageAsync tenantId sessionId (Some key) content callbackUrl db = (inr reply, db1) ->
  exists job,
    job ∈ tbl_jobs (rounds env worker clocks db1)
    /\ j_id job = rp_jobId reply
    /\ j_tenantId job = tenantId
    /\ j_idempotencyKey job = Some key
    /\ sendMessageAsync tenantId sessionId (Some key) content2 callbackUrl2
         (rounds env worker clocks db1)
       = (inr {| rp_statusCode := 200; rp_jobId := rp_jobId reply;
                 rp_status := j_status job |},
          rounds env worker clocks db1).
Proof.
  intros Hkey Hnd Hfresh Hfirst.
  unfold sendMessageAsync in Hfirst. rewrite getSessionById_run in Hfirst.
  destruct (getSessionById tenantId sessionId (world db)).1 as [?|session] eqn:Hsession;
    [done|].
  rewrite withWorld_same in Hfirst. cbn [truthy] in Hfirst.
  rewrite (bool_decide_eq_false_2 (key = "")) in Hfirst by done.
  assert (exists first,
    find (fun job => bool_decide (j_tenantId job = tenantId)
                     && bool_decide (j_idempotencyKey job = Some key)) (tbl_jobs db1)
      = Some first
    /\ j_id first = rp_jobId reply
    /\ NoDup (j_id <$> tbl_jobs db1)
    /\ tbl_sessions (world db1) = tbl_sessions (world db)) as (first & Hfind & Hid & Hnd1 & Hs).
  { unfold job_findUnique in Hfirst.
    destruct (find _ (tbl_jobs db)) as [existingJob|] eqn:Hexisting.
    - injection Hfirst as <- <-. by exists existingJob.
    - unfold job_create in Hfirst. destruct (existsb _ _) eqn:Hclash; [done|].
      injection Hfirst as <- <-. cbn [tbl_jobs world rp_jobId].
      eexists. split.
      { rewrite find_app_r by done. cbn. by rewrite !bool_decide_eq_true_2. }
      split; [reflexivity|]. split; [|done].
      + rewrite fmap_app. apply NoDup_app. split; [done|]. split; [|apply NoDup_singleton].
        intros n Hn Hnew. cbn in Hnew. apply list_elem_of_singleton in Hnew. subst n.
        apply list_elem_of_fmap in Hn as (job & Hjob & Hin).
        rewrite Forall_forall in Hfresh. specialize (Hfresh _ Hin). lia. }
  destruct (rounds_keep clocks db1 Hnd1) as [Hids Hsessions].
  pose proof (job_findUnique_identity tenantId key _ _ Hids) as Hsame.
  rewrite Hfind in Hsame.
  destruct (find _ (tbl_jobs (rounds env worker clocks db1))) as [job|] eqn:Hjob; [|done].
  injection Hsame as Hsame.
  pose proof (find_some _ _ Hjob) as [Hin [Ht Hk]%andb_true_iff].
  apply bool_decide_eq_true in Ht, Hk.
  exists job. split; [by apply list_elem_of_In|]. split; [congruence|].
  split; [done|]. split; [done|].
  unfold sendMessageAsync. rewrite getSessionById_run.
  rewrite (getSessionById_ext _ _ _ (world db)) by (by rewrite Hsessions, Hs).
  rewrite Hsession, withWorld_same. cbn [truthy].
  rewrite (bool_decide_eq_false_2 (key = "")) by done.
  unfold job_findUnique. rewrite Hjob. by rewrite Hsame, Hid.
Qed.

(** X22. Submitting with an empty idempotency key: the key is not
    looked up, so the submission is never answered from an earlier job; it
    is stored with the job it creates, and from then on the unique index
    on tenant and key refuses every further submission of the tenant with
    an empty key, which ends with the error P2002 and creates nothing. *)
Theorem empty_key_is_stored_and_refused tenantId sessionId content callbackUrl db reply db1
    content2 callbackUrl2 :
  sendMessageAsync tenantId sessionId (Some "") content callbackUrl db = (inr reply, db1) ->
  rp_statusCode reply = 202
  /\ rp_jobId reply = nextJobId db
  /\ (exists job, tbl_jobs db1 = tbl_jobs db ++ [job]
                  /\ j_id job = rp_jobId reply /\ j_idempotencyKey job = Some "")
  /\ sendMessageAsync tenantId sessionId (Some "") content2 callbackUrl2 db1
     = (inl (P2002 "(`tenantId`,`idempotencyKey`)"), db1).
Proof.
  intros Hfirst. unfold sendMessageAsync in Hfirst |- *.
  rewrite getSessionById_run in Hfirst.
  destruct (getSessionById tenantId sessionId (world db)).1 as [?|session] eqn:Hsession;
    [done|].
  rewrite withWorld_same in Hfirst. cbn [truthy] in Hfirst |- *.
  rewrite (bool_decide_eq_true_2 ("" = "")) in Hfirst |- * by done.
  unfold job_create in Hfirst. destruct (existsb _ _) eqn:Hclash; [done|].
  injection Hfirst as <- <-. cbn [rp_statusCode rp_jobId j_id world].
  split; [done|]. split; [done|]. split; [by eexists|].
  rewrite getSessionById_run, Hsession. unfold withWorld, job_create.
  cbn [world tbl_jobs nextJobId requests]. rewrite existsb_app. cbn.
  rewrite !bool_decide_eq_true_2 by done. by rewrite orb_true_r.
Qed.

End Worker.

End JobFacts.

(** ** Trying again *)

Module RetryFacts.
Import Store Service Observe Behaviour MonadFacts FrameFacts PipelineFacts FailureFacts
  TranscriptFacts.

Lemma checkIdempotency_ext sessionId input w1 w2 stored :
  tbl_messages w1 = tbl_messages w2 ->
  tbl_provider_calls w1 = tbl_provider_calls w2 ->
  checkIdempotency sessionId input w1 = (inr stored, w1) ->
  checkIdempotency sessionId input w2 = (inr stored, w2).
Proof.
  intros Hm Hpc. unfold checkIdempotency. destruct (truthy _); [|by intros [= <-]].
  rewrite !findByIdempotencyKey_run, Hm. unfold includeProviderCall. rewrite Hpc.
  by intros [= <-].
Qed.

Lemma find_nothing {A} (p : A -> bool) (l : list A) :
  (forall x, x ∈ l -> p x = false) -> find p l = None.
Proof.
  induction l as [|x l IH]; [done|]. intros H. cbn.
  rewrite (H x) by left. apply IH. intros y Hy. apply H. by right.
Qed.

(** *** What is stored after the USER message *)

Section Answers.

Variable sessionId : string.

Lemma Answers_throw {A} e : Answers sessionId (@throw A e).
Proof. intros w r w' [= <- <-]. left. split; [done|by eexists]. Qed.

Lemma Answers_after {A B} (m : M A) (k : A -> M B) :
  Keeps tbl_messages m -> (forall a, Answers sessionId (k a)) ->
  Answers sessionId (bind m k).
Proof.
  intros Hm Hk w r w' [(e & H & ->)|(a & w1 & H & Hk')]%bind_inv.
  - apply Hm in H. left. split; [done|by eexists].
  - apply Hm in H. apply Hk in Hk' as [[Hsame Hfailed]|(reply & rest & Hm' & Hfields)].
    + left. split; [congruence|done].
    + right. exists reply, rest. rewrite Hm', H. split; [done|].
      by rewrite <- (get_next_ext sessionId w1 w H).
Qed.

Lemma Answers_allocate {B} content toolCalls providerCallId (k : Message -> M B) :
  (forall row, Appends sessionId (k row)) ->
  Answers sessionId
    (bind (getNextSequenceNumber sessionId)
       (fun n => bind (message_create sessionId n None ASSISTANT content toolCalls
                         providerCallId) k)).
Proof.
  intros Hk w r w'. unfold bind at 1. unfold getNextSequenceNumber.
  destruct (message_create_next sessionId ASSISTANT content toolCalls providerCallId w)
    as (row & w1 & Hcreate).
  rewrite (bind_inr _ _ _ _ _ Hcreate). intros Hrun.
  apply message_create_inv in Hcreate as (Hm1 & Hfields & _).
  apply Hk in Hrun as (new & Hm & _). right. exists row, new.
  split; [by rewrite Hm, Hm1, <- app_assoc|]. by rewrite Hfields.
Qed.

Lemma Answers_then {A B} (m : M A) (k : A -> M B) :
  Answers sessionId m -> (forall a, Appends sessionId (k a)) ->
  Answers sessionId (bind m k).
Proof.
  intros Hm Hk w r w' [(e & H & ->)|(a & w1 & H & Hk')]%bind_inv.
  - apply Hm in H as [[Hsame _]|Hstored]; [left|by right].
    split; [done|by eexists].
  - apply Hm in H as [[_ [e [=]]]|(reply & rest & Hm1 & Hfields)].
    apply Hk in Hk' as (new & Hm2 & _). right. exists reply, (rest ++ new).
    split; [by rewrite Hm2, Hm1, <- app_assoc|done].
Qed.

End Answers.

Section Retries.

Variable env : Env.

Lemma Answers_handleToolCalls tenantId sessionId correlationId agent response toolCalls
    providerCall :
  Answers sessionId
    (handleToolCalls env tenantId sessionId correlationId agent response toolCalls
       providerCall).
Proof.
  unfold handleToolCalls. apply Answers_after; [keeps|]. intros _.
  apply Answers_allocate. intros row.
  pose proof Appends_storeToolResults. pose proof (messages_executeToolCalls env).
  pose proof (messages_loadConversationHistory env). appends.
Qed.

(** What the locked callback stores, however it ends: nothing, or the
    USER message alone, in which case it has failed, or the USER message
    and right after it an ASSISTANT message. *)
Lemma processMessage_stores tenantId sessionId input correlationId w r w' :
  processMessage env tenantId sessionId input correlationId w = (r, w') ->
  tbl_messages w' = tbl_messages w
  \/ exists userMessage more session agent,
       tbl_messages w' = tbl_messages w ++ userMessage :: more
       /\ (getSessionWithAgent tenantId sessionId w).1 = inr (session, agent)
       /\ s_status session = ACTIVE
       /\ HistoryLoads env sessionId w
       /\ existsb (clashesKey sessionId (in_idempotencyKey input)) (tbl_messages w) = false
       /\ m_role userMessage = USER
       /\ m_sessionId userMessage = sessionId
       /\ m_idempotencyKey userMessage = in_idempotencyKey input
       /\ m_sequenceNumber userMessage = get_next_message_sequence sessionId w
       /\ m_content userMessage = Text (in_content input)
       /\ match more with
          | [] => exists e, r = inl e
          | reply :: _ =>
              m_role reply = ASSISTANT /\ m_sessionId reply = sessionId
              /\ m_sequenceNumber reply = get_next_message_sequence sessionId w + 1
          end.
Proof.
  unfold processMessage. intros H.
  apply bind_inv in H as [(e & H & _)|([session agent] & w1 & Hsession & H)];
    [left; by apply messages_getSessionWithAgent in H|].
  pose proof (getSessionWithAgent_run tenantId sessionId w) as Hrun.
  rewrite Hsession in Hrun. cbn in Hrun. injection Hrun as ->.
  destruct (bool_decide (s_status session = ACTIVE)) eqn:Hactive; cbn [negb] in H;
    [|left; by injection H as _ <-].
  apply bool_decide_eq_true in Hactive.
  apply bind_inv in H as [(e & H & _)|(history & w2 & Hhistory & H)];
    [left; by apply messages_loadConversationHistory in H|].
  pose proof (loadConversationHistory_run env sessionId w) as Hrun.
  rewrite Hhistory in Hrun. injection Hrun as Hloaded ->.
  apply bind_inv in H as [(e & [=] & _)|(userSequence & w2' & Hseq & H)].
  unfold getNextSequenceNumber in Hseq. injection Hseq as <- <-.
  apply bind_inv in H as [(e & H & _)|(userMessage & w3 & Huser & H)].
  { left. revert H. unfold message_create. repeat case_match; by intros [= _ <-]. }
  apply message_create_inv in Huser as (Hm3 & Hfields & Hkey).
  match type of H with
  | ?m _ = _ => assert (Answers sessionId m) as Hanswers
  end.
  { do 5 (apply Answers_after; [keeps|]; intros ?).
    destruct (responseOf _) as [response|];
      [|apply Answers_after; [keeps|]; intros _; apply Answers_throw].
    pose proof messages_createUsageEvent.
    destruct (toolCalls response) as [[|toolCall rest]|].
    - apply Answers_after; [keeps|]. intros [[? ?] ?].
      apply Answers_allocate. intros row. appends.
    - apply Answers_then.
      + apply Answers_then; [apply Answers_handleToolCalls|]. intros [? ?]. appends.
      + intros [[? ?] ?]. appends.
    - apply Answers_after; [keeps|]. intros [[? ?] ?].
      apply Answers_allocate. intros row. appends. }
  right. exists userMessage.
  assert (get_next_message_sequence sessionId w3 = get_next_message_sequence sessionId w + 1)
    as Hnext.
  { apply (get_next_snoc sessionId w w3 userMessage); [done|by rewrite Hfields..]. }
  apply Hanswers in H as [[Hsame Hfailed]|(reply & rest & Hm & Hr1 & Hr2 & Hr3)].
  - exists [], session, agent. rewrite Hsame, Hm3.
    split; [done|]. split; [by rewrite Hsession|]. split; [done|].
    split; [by exists history|]. split; [done|]. by rewrite Hfields.
  - exists (reply :: rest), session, agent. rewrite Hm, Hm3, <- app_assoc.
    split; [done|]. split; [by rewrite Hsession|]. split; [done|].
    split; [by exists history|]. split; [done|]. rewrite Hfields.
    do 5 (split; [done|]). by rewrite Hr3, Hnext.
Qed.

(** An invocation on a blocked key is refused by the unique index, and
    leaves the key blocked. *)
Lemma blocked_key_refuses tenantId sessionId input w :
  KeyBlocked env tenantId sessionId input w ->
  exists w',
    sendMessage env tenantId sessionId input w
    = (inl (P2002 "(`sessionId`,`idempotencyKey`)"), w')
    /\ tbl_messages w' = tbl_messages w
    /\ tbl_provider_calls w' = tbl_provider_calls w
    /\ tbl_usage_events w' = tbl_usage_events w
    /\ attemptLog w' = attemptLog w
    /\ KeyBlocked env tenantId sessionId input w'.
Proof.
  intros [Hfree (session & agent & Hsession & Hactive) [history Hhistory] Htaken Hcheck].
  unfold sendMessage. rewrite (bind_inr _ _ _ _ _ (log_run _ _)).
  set (w0 := logged [Processing_message
                       (bool_decide (is_Some (truthy (in_idempotencyKey input))))] w).
  rewrite (bind_inr _ _ _ _ _
             (checkIdempotency_ext sessionId input w w0 None eq_refl eq_refl Hcheck)).
  destruct (lockAndProcess_key_clash env tenantId sessionId input w0 session agent history)
    as (w' & Hrun & Hm & Hpc & Hue & Hat & Hlock & _); try done.
  { rewrite <- Hsession. by apply getSessionWithAgent_ext. }
  { by apply (loadConversationHistory_ext env sessionId w). }
  exists w'. split; [exact Hrun|]. do 4 (split; [done|]).
  assert (tbl_sessions w' = tbl_sessions w) as Hs.
  { unfold lockAndProcess in Hrun.
    apply withSessionLock_inv in Hrun as [(_ & _ & ->)|(_ & wb & Hfn & ->)]; [done|].
    rewrite (processMessage_key_clash env tenantId sessionId input _ _ session agent history)
      in Hfn; [by injection Hfn as <-| |done| |done].
    - rewrite <- Hsession. by apply getSessionWithAgent_ext.
    - by apply (loadConversationHistory_ext env sessionId w). }
  split.
  - unfold held. by rewrite Hlock.
  - exists session, agent. split; [|done].
    rewrite <- Hsession. by apply getSessionWithAgent_ext.
  - exists history. by apply (loadConversationHistory_ext env sessionId w).
  - by rewrite Hm.
  - by apply (checkIdempotency_ext sessionId input w).
Qed.


(** The USER message that a failed provider call leaves behind blocks its
    key. *)
Lemma stranded_message_blocks tenantId sessionId input2 key w w1 userMessage session agent :
  held (uuidToLockKey env sessionId) w1 = false ->
  (getSessionWithAgent tenantId sessionId w1).1 = inr (session, agent) ->
  s_status session = ACTIVE ->
  HistoryLoads env sessionId w ->
  existsb (clashesKey sessionId (Some key)) (tbl_messages w) = false ->
  tbl_messages w1 = tbl_messages w ++ [userMessage] ->
  m_sessionId userMessage = sessionId ->
  m_sequenceNumber userMessage = get_next_message_sequence sessionId w ->
  m_idempotencyKey userMessage = Some key ->
  m_role userMessage = USER ->
  in_idempotencyKey input2 = Some key ->
  KeyBlocked env tenantId sessionId input2 w1.
Proof.
  intros Hfree Hsession Hactive Hloads Hclash Hm Hs Hq Hk Hr Hkey2. split.
  - done.
  - by exists session, agent.
  - eapply (HistoryLoads_snoc env sessionId w w1 userMessage); [done|done|done|done|].
    unfold toConversationMessage. by rewrite Hr.
  - rewrite Hkey2, Hm, existsb_app. apply orb_true_iff. right.
    cbn. by rewrite Hs, Hk, !bool_decide_eq_true_2.
  - unfold checkIdempotency. rewrite Hkey2. cbn [truthy].
    case_bool_decide as Hempty; [done|].
    rewrite findByIdempotencyKey_run, Hm.
    assert (find (fun m => bool_decide (m_sessionId m = sessionId)
                           && bool_decide (m_idempotencyKey m = Some key)
                           && bool_decide (m_role m = USER))
                 (tbl_messages w ++ [userMessage]) = Some userMessage) as ->.
    { rewrite JobFacts.find_app_r.
      - cbn. by rewrite Hs, Hk, Hr, !bool_decide_eq_true_2.
      - by apply no_clash_not_found. }
    match goal with
    | |- (inr (_ <$> ?f), _) = _ => assert (f = None) as ->; [|done]
    end.
    apply find_nothing. intros m Hin.
    apply elem_of_app in Hin as [Hin|Hin%list_elem_of_singleton].
    + destruct (bool_decide (m_sessionId m = sessionId)) eqn:Hms; [|done].
      apply bool_decide_eq_true in Hms.
      pose proof (SequenceFacts.next_sequence_fresh _ _ _ Hin Hms) as Hlt.
      rewrite (proj2 (Z.eqb_neq _ _)); [done|lia].
    + subst m. rewrite Hr. cbn. by rewrite andb_false_r.
Qed.


End Retries.

End RetryFacts.

(** ** The stored response *)

Module ReplayFacts.
Import Store Service Observe Behaviour MonadFacts FrameFacts PipelineFacts FailureFacts
  TranscriptFacts RetryFacts.

(** A response tells nothing of the [billed] flag. *)
Lemma formatMessageResponse_billed message w1 w2 :
  callsButBilled w1 = callsButBilled w2 ->
  formatMessageResponse (message, includeProviderCall w1 message)
  = formatMessageResponse (message, includeProviderCall w2 message).
Proof.
  unfold callsButBilled, includeProviderCall.
  destruct (m_providerCallId message) as [id|]; [|done].
  generalize (tbl_provider_calls w1) (tbl_provider_calls w2).
  induction l as [|x l IH]; intros [|y l2]; try done.
  rewrite !fmap_cons. intros [= Hid Hsession Hcorrelation Hprovider Hfallback Hin Hout
                                Hlatency Hstatus Hcode Hmessage Hattempt Hrest].
  cbn [find]. rewrite Hid. destruct (bool_decide (pc_id y = id)); [|by apply IH].
  unfold formatMessageResponse. cbn.
  by rewrite Hprovider, Hin, Hout, Hlatency, Hcorrelation, Hfallback.
Qed.

Lemma unbilledCopy_markBilled id pc : unbilledCopy (markBilled id pc) = unbilledCopy pc.
Proof. unfold markBilled. by destruct (unbilled id pc). Qed.

Lemma calls_updateMany id : Keeps callsButBilled (providerCall_updateMany_billed id).
Proof.
  intros w r w' [= <- <-]. unfold callsButBilled. cbn.
  rewrite <- list_fmap_compose. apply list_fmap_ext. intros i pc _. cbn.
  apply unbilledCopy_markBilled.
Qed.

Lemma calls_createUsageEvent tenantId agentId sessionId demoMode providerCall :
  Keeps callsButBilled (createUsageEvent tenantId agentId sessionId demoMode providerCall).
Proof.
  unfold createUsageEvent. pose proof calls_updateMany. keeps.
Qed.

Section Replay.

Variable env : Env.

(** The interim message of a tool round carries the tool calls. *)
Lemma handleToolCalls_interim tenantId sessionId correlationId agent response toolCalls
    providerCall w x w' :
  handleToolCalls env tenantId sessionId correlationId agent response toolCalls
    providerCall w = (inr x, w') ->
  exists interim rest,
    tbl_messages w' = tbl_messages w ++ interim :: rest
    /\ m_toolCalls interim = Some toolCalls.
Proof.
  unfold handleToolCalls. intros H.
  apply bind_inr_inv in H as ([] & w1 & Hlog & H). rewrite log_run in Hlog.
  injection Hlog as <-.
  apply bind_inr_inv in H as (assistantSequence & w1' & Hseq & H).
  unfold getNextSequenceNumber in Hseq. injection Hseq as <- <-.
  apply bind_inr_inv in H as (interim & w2 & Hinterim & H).
  apply message_create_inv in Hinterim as (Hm2 & Hfields & _).
  match type of H with
  | ?m _ = _ =>
      assert (Appends sessionId m) as Hrest
        by (pose proof Appends_storeToolResults; pose proof (messages_executeToolCalls env);
            pose proof (messages_loadConversationHistory env); appends)
  end.
  apply Hrest in H as (rest & Hm & _). exists interim, rest.
  split; [by rewrite Hm, Hm2, <- app_assoc|]. by rewrite Hfields.
Qed.

(** The response of a run that went through is the last message it
    stored, formatted with its provider call; the message it stored
    right after the USER message is the same one, or, after a tool round,
    the interim message with the tool calls. *)
Lemma processMessage_success_response tenantId sessionId input correlationId w resp w' :
  processMessage env tenantId sessionId input correlationId w = (inr resp, w') ->
  exists userMessage reply rest final,
    tbl_messages w' = tbl_messages w ++ userMessage :: reply :: rest
    /\ last (reply :: rest) = Some final
    /\ resp = formatMessageResponse (final, includeProviderCall w' final)
    /\ (rest = []
        \/ rest <> [] /\ exists toolCall toolCalls,
             m_toolCalls reply = Some (toolCall :: toolCalls)).
Proof.
  unfold processMessage. intros H.
  apply bind_inr_inv in H as ([session agent] & w1 & Hsession & H).
  apply messages_getSessionWithAgent in Hsession as Hm1.
  destruct (negb (bool_decide (s_status session = ACTIVE))); [done|].
  apply bind_inr_inv in H as (history & w2 & Hhistory & H).
  apply messages_loadConversationHistory in Hhistory as Hm2.
  apply bind_inr_inv in H as (userSequence & w2' & Hseq & H).
  unfold getNextSequenceNumber in Hseq. injection Hseq as <- <-.
  apply bind_inr_inv in H as (userMessage & w3 & Huser & H).
  apply message_create_inv in Huser as (Hm3 & _ & _).
  apply bind_inr_inv in H as ([] & w4 & Hlog & H). rewrite log_run in Hlog.
  injection Hlog as <-.
  apply bind_inr_inv in H as ([] & w5 & Hlog & H). rewrite log_run in Hlog.
  injection Hlog as <-.
  apply bind_inr_inv in H as (result & w6 & Hcall & H).
  apply messages_executeWithResilience in Hcall as Hm6.
  apply bind_inr_inv in H as (providerCall & w7 & Hpc & H).
  apply messages_providerCall_create in Hpc as Hm7.
  apply bind_inr_inv in H as ([] & w8 & Hlog & H). rewrite log_run in Hlog.
  injection Hlog as <-.
  destruct (responseOf result) as [response|];
    [|by apply bind_inr_inv in H as (? & ? & _ & ?)].
  apply bind_inr_inv in H as ([[finalResponse finalProviderCall] initial] & w9 & Hround & H).
  apply bind_inr_inv in H as (assistantSequence & w9' & Hseq & H).
  unfold getNextSequenceNumber in Hseq. injection Hseq as <- <-.
  apply bind_inr_inv in H as (assistantMessage & w10 & Hassistant & H).
  apply message_create_inv in Hassistant as (Hm10 & _ & _).
  apply bind_inr_inv in H as (included & w10' & Hincluded & H).
  injection Hincluded as <- <-.
  apply bind_inr_inv in H as ([] & w11 & Hlog & H). rewrite log_run in Hlog.
  injection Hlog as <-.
  apply bind_inr_inv in H as ([] & w12 & Hinitial & H).
  apply bind_inr_inv in H as ([] & w13 & Hfinal & H).
  apply bind_inr_inv in H as ([] & w14 & Hlog & H). rewrite log_run in Hlog.
  injection Hlog as <-. injection H as <- <-.
  assert (callsButBilled w12 = callsButBilled w10 /\ tbl_messages w12 = tbl_messages w10)
    as [Hc12 Hm12].
  { destruct initial as [initialCall|].
    - split; [by apply calls_createUsageEvent in Hinitial
             |by apply messages_createUsageEvent in Hinitial].
    - by injection Hinitial as <-. }
  apply calls_createUsageEvent in Hfinal as Hc13.
  apply messages_createUsageEvent in Hfinal as Hm13.
  assert (tbl_messages w3 = tbl_messages w ++ [userMessage]) as Hafter
    by (by rewrite Hm3, Hm2, Hm1).
  assert (tbl_messages
            (logged [Provider_call_record_stored (pc_id providerCall)] w7)
          = tbl_messages w3) as Hm8 by (cbn; by rewrite Hm7, Hm6).
  assert (formatMessageResponse (assistantMessage, includeProviderCall w10 assistantMessage)
          = formatMessageResponse
              (assistantMessage,
               includeProviderCall (logged [Message_processing_completed_successfully] w13)
                 assistantMessage)) as Hformat.
  { apply formatMessageResponse_billed.
    change (callsButBilled (logged _ w13)) with (callsButBilled w13).
    by rewrite Hc13, Hc12. }
  assert (tbl_messages (logged [Message_processing_completed_successfully] w13)
          = tbl_messages w9 ++ [assistantMessage]) as Hend.
  { change (tbl_messages (logged _ w13)) with (tbl_messages w13).
    by rewrite Hm13, Hm12, Hm10. }
  destruct (toolCalls response) as [[|toolCall rest]|] eqn:Hcalls.
  - injection Hround as <- <- <- <-.
    exists userMessage, assistantMessage, [], assistantMessage.
    split; [by rewrite Hend, Hm8, Hafter, <- app_assoc|]. split; [done|].
    split; [done|by left].
  - apply bind_inr_inv in Hround as ([finalResponse' finalProviderCall'] & w9'' & Htools & Hret).
    injection Hret as <- <- <- <-.
    apply handleToolCalls_interim in Htools as (interim & toolRows & Hm9 & Hi).
    exists userMessage, interim, (toolRows ++ [assistantMessage]), assistantMessage.
    split; [rewrite Hend, Hm9, Hm8, Hafter, <- !app_assoc; done|].
    split; [by rewrite app_comm_cons, last_snoc|]. split; [done|].
    right. split; [by destruct toolRows|]. by exists toolCall, rest.
  - injection Hround as <- <- <- <-.
    exists userMessage, assistantMessage, [], assistantMessage.
    split; [by rewrite Hend, Hm8, Hafter, <- app_assoc|]. split; [done|].
    split; [done|by left].
Qed.

(** X14. An invocation with an idempotency key that is not empty goes
    through the pipeline and returns a response; the same key is then
    sent again.  The response of the first invocation is the last message
    it stored; what the second one returns is the message stored right
    after the USER message.  Without a tool round the two are the same
    message, and the second invocation returns the response of the first.
    After a tool round they are not: the second invocation returns the
    interim ASSISTANT message, which carries the tool calls, where the
    first one returned the final answer. *)
Theorem replay_returns_the_message_after_the_user_message tenantId sessionId input key w
    resp w1 :
  in_idempotencyKey input = Some key -> key <> "" ->
  checkIdempotency sessionId input w = (inr None, w) ->
  sendMessage env tenantId sessionId input w = (inr resp, w1) ->
  exists userMessage reply rest final,
    tbl_messages w1 = tbl_messages w ++ userMessage :: reply :: rest
    /\ last (reply :: rest) = Some final
    /\ resp = formatMessageResponse (final, includeProviderCall w1 final)
    /\ (forall tenantId2 input2,
          in_idempotencyKey input2 = Some key ->
          sendMessage env tenantId2 sessionId input2 w1
          = (inr (formatMessageResponse (reply, includeProviderCall w1 reply)),
             logged [Processing_message true;
                     Returning_cached_response_for_idempotency_key] w1))
    /\ (rest = [] -> formatMessageResponse (reply, includeProviderCall w1 reply) = resp)
    /\ (rest <> [] ->
        exists toolCall toolCalls,
          mr_toolCalls (formatMessageResponse (reply, includeProviderCall w1 reply))
          = Some (toolCall :: toolCalls)).
Proof.
  intros Hkey Hne Hcheck Hrun.
  apply InvocationFacts.sendMessage_cases in Hrun as [(existing & Hreplay & _)|[_ Hrun]].
  { match type of Hreplay with
    | checkIdempotency _ _ ?w0 = _ =>
        rewrite (checkIdempotency_ext sessionId input w w0 None eq_refl eq_refl Hcheck)
          in Hreplay
    end. done. }
  unfold lockAndProcess in Hrun.
  apply withSessionLock_inv in Hrun as [(_ & [=] & _)|(_ & wb & Hfn & ->)].
  pose proof (processMessage_stores env _ _ _ _ _ _ _ Hfn)
    as [Hsame|(userMessage' & more & session & agent & Hm' & _ & _ & _
               & Hclash & Hu1 & Hu2 & Hu3 & Hu4 & _ & Hmore)].
  { apply processMessage_success_response in Hfn as (? & ? & ? & ? & Hm & _).
    rewrite Hsame in Hm. rewrite <- (app_nil_r (tbl_messages _)) in Hm at 1.
    by apply app_inv_head in Hm. }
  apply processMessage_success_response in Hfn
    as (userMessage & reply & rest & final & Hm & Hlast & Hresp & Hround).
  rewrite Hm in Hm'. apply app_inv_head in Hm'. injection Hm' as <- <-.
  destruct Hmore as (Ha1 & Ha2 & Ha3).
  match type of Hm with
  | _ = tbl_messages ?x ++ _ => set (wl := x) in *
  end.
  assert (tbl_messages wl = tbl_messages w) as Hwl by done.
  assert (get_next_message_sequence sessionId wl = get_next_message_sequence sessionId w)
    as Hnext by (by apply get_next_ext).
  match goal with
  | |- context [tbl_messages ?x = _] => set (w1 := x) in *
  end.
  assert (tbl_messages w1 = tbl_messages w ++ userMessage :: reply :: rest) as Hm1
    by (by rewrite <- Hwl, <- Hm).
  assert (forall message, includeProviderCall w1 message = includeProviderCall wb message)
    as Hinclude by done.
  rewrite Hkey in Hclash, Hu3. rewrite Hwl in Hclash. rewrite Hnext in Hu4, Ha3.
  exists userMessage, reply, rest, final.
  split; [done|]. split; [done|]. split; [by rewrite Hinclude|]. split; [|split].
  - intros tenantId2 input2 Hkey2.
    destruct (stored_pair_found sessionId key (tbl_messages w) userMessage reply rest w)
      as [Hfu Hfa]; try done.
    { intros m Hin Hs. by apply SequenceFacts.next_sequence_fresh. }
    rewrite <- Hm1 in Hfu, Hfa.
    by apply (sendMessage_replays env tenantId2 sessionId input2 key w1 userMessage).
  - intros ->. cbn in Hlast. injection Hlast as <-. by rewrite Hinclude.
  - intros Hrest. destruct Hround as [->|[_ (toolCall & toolCalls & Hcalls)]]; [done|].
    by exists toolCall, toolCalls.
Qed.

End Replay.

End ReplayFacts.

(** ** API keys *)

Module AccountFacts.
Import Accounts AccountBehaviour.

Lemma find_digest_none keyHash (keys : list ApiKey) :
  existsb (fun key => bool_decide (k_keyHash key = keyHash)) keys = false ->
  find (fun key => bool_decide (k_keyHash key = keyHash)) keys = None.
Proof.
  induction keys as [|key keys IH]; [done|]. cbn.
  destruct (bool_decide (k_keyHash key = keyHash)); [done|]. apply IH.
Qed.

Lemma find_digest_new keyHash (keys : list ApiKey) row :
  existsb (fun key => bool_decide (k_keyHash key = keyHash)) keys = false ->
  k_keyHash row = keyHash ->
  find (fun key => bool_decide (k_keyHash key = keyHash)) (keys ++ [row]) = Some row.
Proof.
  intros Hnone Hrow. rewrite JobFacts.find_app_r by (by apply find_digest_none).
  cbn. by rewrite bool_decide_eq_true_2.
Qed.

(** The lookup by digest, under the unique index. *)
Lemma find_digest_unique (keys : list ApiKey) key :
  NoDup (k_keyHash <$> keys) -> key ∈ keys ->
  find (fun row => bool_decide (k_keyHash row = k_keyHash key)) keys = Some key.
Proof.
  induction keys as [|x keys IH]; intros Hnd Hin; [by apply elem_of_nil in Hin|].
  rewrite fmap_cons in Hnd. apply NoDup_cons in Hnd as [Hx Hnd]. cbn.
  apply elem_of_cons in Hin as [->|Hin]; [by rewrite bool_decide_eq_true_2|].
  rewrite bool_decide_eq_false_2; [by apply IH|].
  intros Heq. apply Hx. rewrite Heq. by apply list_elem_of_fmap_2.
Qed.

Section Keys.

Variable crypto : Crypto.

(** X24. A key that [createApiKey] returns is one that nobody could log
    in with before, and that logs in from then on: [authenticate] accepts
    it for the tenant and with the role it was created for, until the
    time it expires at, if it has one, and rejects it as expired after
    that time.  The table holds its digest and its first twelve
    characters. *)
Theorem created_key_authenticates tenantId input dir apiKey plainKey dir1 now usedAt :
  createApiKey crypto tenantId input dir = (inr (apiKey, plainKey), dir1) ->
  plainKey <> "" ->
  authenticate crypto (Some plainKey) now usedAt dir
  = (inl (AppErr (newAppError UnauthorizedError "Invalid API key")), dir)
  /\ authenticate crypto (Some plainKey) now usedAt dir1
     = (if from_option (fun expiresAt => expiresAt <? now) false (ck_expiresAt input)
        then (inl (AppErr (newAppError UnauthorizedError "API key has expired")), dir1)
        else (inr {| rc_tenantId := tenantId; rc_keyRole := ck_role input;
                     rc_apiKey := apiKey |},
              apiKey_update (k_id apiKey) (withLastUsedAt usedAt) dir1))
  /\ k_keyHash apiKey = hashApiKey crypto plainKey
  /\ k_keyPrefix apiKey = getKeyPrefix plainKey
  /\ tbl_api_keys dir1 = tbl_api_keys dir ++ [apiKey].
Proof.
  unfold createApiKey, draw, apiKey_create. cbn [tbl_api_keys nextKeyId drawn].
  destruct (existsb _ _) eqn:Hclash; [done|]. intros [= <- <- <-] Hne.
  unfold authenticate. cbn [Service.truthy].
  rewrite (bool_decide_eq_false_2 (_ = "")) by done.
  cbn [tbl_api_keys]. rewrite (find_digest_none _ _ Hclash).
  split; [done|]. rewrite (find_digest_new _ _ _ Hclash) by done.
  cbn [k_revokedAt k_expiresAt k_tenantId k_role k_id].
  split; [|done]. by destruct (from_option _ _ _).
Qed.

(** *** Revocation *)

Lemma RevokedDigest_update keyHash id data dir :
  (forall key, k_keyHash (data key) = k_keyHash key) ->
  (forall key, k_revokedAt key <> None -> k_revokedAt (data key) <> None) ->
  RevokedDigest keyHash dir -> RevokedDigest keyHash (apiKey_update id data dir).
Proof.
  intros Hhash Hrevoked [(key & Hin & Hkey) Hall]. split.
  - exists (if bool_decide (k_id key = id) then data key else key). split.
    + unfold apiKey_update. cbn. apply list_elem_of_fmap. by exists key.
    + case_bool_decide; [by rewrite Hhash|done].
  - intros row Hrow Hh. unfold apiKey_update in Hrow. cbn in Hrow.
    apply list_elem_of_fmap in Hrow as (old & -> & Hold).
    case_bool_decide.
    + rewrite Hhash in Hh. by apply Hrevoked, Hall.
    + by apply Hall.
Qed.

Lemma RevokedDigest_create keyHash tenantId keyPrefix newHash name role expiresAt dir r dir1 :
  RevokedDigest keyHash dir ->
  apiKey_create tenantId keyPrefix newHash name role expiresAt dir = (r, dir1) ->
  RevokedDigest keyHash dir1.
Proof.
  intros Hdir. pose proof Hdir as [(key & Hin & Hkey) Hall]. unfold apiKey_create.
  destruct (existsb _ _) eqn:Hclash; intros [= <- <-]; [exact Hdir|]. split.
  - exists key. split; [|done]. cbn. apply elem_of_app. by left.
  - cbn. intros row [Hrow|Hrow%list_elem_of_singleton]%elem_of_app Hh; [by apply Hall|].
    subst row. cbn in Hh. subst newHash.
    assert (existsb (fun k => bool_decide (k_keyHash k = keyHash)) (tbl_api_keys dir) = true)
      as Hex; [|congruence].
    apply existsb_exists. exists key. split; [by apply list_elem_of_In|].
    by apply bool_decide_eq_true.
Qed.

Lemma RevokedDigest_perform keyHash call dir :
  RevokedDigest keyHash dir -> RevokedDigest keyHash (perform crypto call dir).
Proof.
  intros Hdir.
  assert (RevokedDigest keyHash (draw crypto dir).2) as Hdrawn by done.
  destruct call as [tenantId input|tenantId keyId now|tenantId keyId now|header now usedAt];
    cbn [perform].
  - unfold createApiKey. destruct (draw crypto dir) as [plainKey dir1].
    destruct (apiKey_create _ _ _ _ _ _ dir1) as [[error|apiKey] dir2] eqn:Hcreate;
      exact (RevokedDigest_create _ _ _ _ _ _ _ _ _ _ Hdrawn Hcreate).
  - unfold revokeApiKey. destruct (apiKey_findFirst _ _ _); [|done].
    by apply RevokedDigest_update.
  - unfold rotateApiKey. destruct (apiKey_findFirst _ _ _); [|done].
    destruct (draw crypto dir) as [plainKey dir1].
    destruct (apiKey_create _ _ _ _ _ _ dir1) as [[error|apiKey] dir2] eqn:Hcreate; [done|].
    apply RevokedDigest_update; [done..|].
    exact (RevokedDigest_create _ _ _ _ _ _ _ _ _ _ Hdrawn Hcreate).
  - unfold authenticate. repeat case_match; try done.
    by apply RevokedDigest_update.
Qed.

Lemma RevokedDigest_authenticate keyHash header now usedAt dir :
  RevokedDigest keyHash dir -> header <> "" -> hashApiKey crypto header = keyHash ->
  authenticate crypto (Some header) now usedAt dir
  = (inl (AppErr (newAppError UnauthorizedError "API key has been revoked")), dir).
Proof.
  intros [(key & Hin & Hkey) Hall] Hne Hhash. unfold authenticate. cbn [Service.truthy].
  rewrite (bool_decide_eq_false_2 (_ = "")) by done. rewrite Hhash.
  destruct (find _ _) as [found|] eqn:Hfind.
  - apply find_some in Hfind as [Hfound Hdigest]. apply bool_decide_eq_true in Hdigest.
    destruct (k_revokedAt found) eqn:Hrevoked; [done|].
    by destruct (Hall found (proj2 (list_elem_of_In _ _) Hfound) Hdigest).
  - pose proof (find_none _ _ Hfind key (proj1 (list_elem_of_In _ _) Hin)) as Hno.
    cbn beta in Hno. by apply bool_decide_eq_false in Hno.
Qed.

(** X25. Revocation is final.  Once [revokeApiKey] has returned for a key,
    [authenticate] rejects the key with 'API key has been revoked', at any
    time and after any further creations, revocations, rotations and
    log-ins, also a rotation of the revoked key itself; the key is no
    longer listed. *)
Theorem revoked_key_stays_revoked tenantId keyId revokedAt dir revoked dir1 calls header
    now usedAt :
  NoDup (k_keyHash <$> tbl_api_keys dir) ->
  revokeApiKey tenantId keyId revokedAt dir = (inr revoked, dir1) ->
  header <> "" ->
  hashApiKey crypto header = k_keyHash revoked ->
  authenticate crypto (Some header) now usedAt (performAll crypto calls dir1)
  = (inl (AppErr (newAppError UnauthorizedError "API key has been revoked")),
     performAll crypto calls dir1)
  /\ Forall (fun key => k_keyHash key <> k_keyHash revoked)
       (listApiKeys tenantId (performAll crypto calls dir1)).
Proof.
  intros Hnd Hrevoke Hne Hhash.
  assert (RevokedDigest (k_keyHash revoked) dir1) as Hdir1.
  { unfold revokeApiKey, apiKey_findFirst in Hrevoke.
    destruct (find _ _) as [key|] eqn:Hfind; [|done]. injection Hrevoke as <- <-.
    apply find_some in Hfind as [Hin [Hid _]%andb_true_iff].
    apply list_elem_of_In in Hin. apply bool_decide_eq_true in Hid.
    split.
    - exists (withRevokedAt revokedAt key). split; [|done]. cbn.
      apply list_elem_of_fmap. exists key. by rewrite bool_decide_eq_true_2.
    - cbn. intros row (old & -> & Hold)%list_elem_of_fmap Hh.
      case_bool_decide; [done|]. exfalso.
      assert (old = key) as ->; [|done].
      pose proof (find_digest_unique _ _ Hnd Hin) as Hkey.
      pose proof (find_digest_unique _ _ Hnd Hold) as Hfound.
      rewrite Hh in Hfound. cbn in Hfound. congruence. }
  assert (RevokedDigest (k_keyHash revoked) (performAll crypto calls dir1)) as Hafter.
  { clear Hrevoke. revert dir1 Hdir1.
    induction calls as [|call calls IH]; intros dir1 Hdir1; [done|].
    cbn. apply IH. by apply RevokedDigest_perform. }
  split; [by apply (RevokedDigest_authenticate (k_keyHash revoked))|].
  apply Forall_forall. intros key Hkey Hdigest. unfold listApiKeys in Hkey.
  apply elem_of_reverse, list_elem_of_In, List.filter_In in Hkey
    as [Hin [_ Hlisted%bool_decide_eq_true]%andb_true_iff].
  destruct Hafter as [_ Hall].
  by apply (Hall key (proj2 (list_elem_of_In _ _) Hin) Hdigest).
Qed.

(** *** Rotation *)

Lemma find_app_l {A} (p : A -> bool) (l1 l2 : list A) x :
  find p l1 = Some x -> find p (l1 ++ l2) = Some x.
Proof.
  induction l1 as [|y l1 IH]; [done|]. cbn. destruct (p y); [done|]. apply IH.
Qed.

Lemma update_keeps_digests id data (keys : list ApiKey) :
  (forall key, k_keyHash (data key) = k_keyHash key) ->
  k_keyHash <$> ((fun key => if bool_decide (k_id key = id) then data key else key) <$> keys)
  = k_keyHash <$> keys.
Proof.
  intros Hdata. rewrite <- list_fmap_compose. apply list_fmap_ext.
  intros i key _. cbn. by case_bool_decide.
Qed.

(** X26. Rotation.  When [rotateApiKey] returns, the new key logs in
    for the tenant with the role of the old key, at any time: it has no
    expiry, whatever the old key had.  The old key, unless it was revoked,
    logs in until 24 hours after the rotation and is rejected as expired
    after that, whatever its expiry was before the rotation: also a key
    that had expired logs in again for that day. *)
Theorem rotation_grace_period tenantId keyId now dir newKey plainKey validUntil dir1 :
  NoDup (k_keyHash <$> tbl_api_keys dir) ->
  Forall (fun key => (k_id key < nextKeyId dir)%nat) (tbl_api_keys dir) ->
  rotateApiKey crypto tenantId keyId now dir = (inr (newKey, plainKey, validUntil), dir1) ->
  plainKey <> "" ->
  validUntil = now + 86400000
  /\ exists oldKey,
       apiKey_findFirst tenantId keyId dir = Some oldKey
       /\ k_tenantId newKey = tenantId
       /\ k_role newKey = k_role oldKey
       /\ k_expiresAt newKey = None
       /\ (forall t usedAt,
             authenticate crypto (Some plainKey) t usedAt dir1
             = (inr {| rc_tenantId := tenantId; rc_keyRole := k_role oldKey;
                       rc_apiKey := newKey |},
                apiKey_update (k_id newKey) (withLastUsedAt usedAt) dir1))
       /\ (forall header t usedAt,
             header <> "" ->
             hashApiKey crypto header = k_keyHash oldKey ->
             k_revokedAt oldKey = None ->
             authenticate crypto (Some header) t usedAt dir1
             = if validUntil <? t
               then (inl (AppErr (newAppError UnauthorizedError "API key has expired")),
                     dir1)
               else (inr {| rc_tenantId := tenantId; rc_keyRole := k_role oldKey;
                            rc_apiKey := withExpiresAt validUntil oldKey |},
                     apiKey_update keyId (withLastUsedAt usedAt) dir1)).
Proof.
  intros Hnd Hfresh Hrotate Hne. unfold rotateApiKey in Hrotate.
  destruct (apiKey_findFirst tenantId keyId dir) as [oldKey|] eqn:Hold; [|done].
  unfold draw, apiKey_create in Hrotate. cbn [tbl_api_keys nextKeyId drawn] in Hrotate.
  destruct (existsb _ _) eqn:Hclash; [done|].
  match type of Hrotate with
  | (inr (?row, _, _), _) = _ => set (newRow := row) in *
  end.
  injection Hrotate as <- <- <- <-.
  split; [unfold gracePeriodMs; lia|].
  exists oldKey. split; [done|]. split; [done|]. split; [done|]. split; [done|].
  unfold apiKey_findFirst in Hold.
  apply find_some in Hold as [Hin [Hid Htenant]%andb_true_iff].
  apply list_elem_of_In in Hin. apply bool_decide_eq_true in Hid, Htenant.
  assert (keyId <> nextKeyId dir) as Hother.
  { rewrite Forall_forall in Hfresh. specialize (Hfresh _ Hin). lia. }
  set (update := fun key : ApiKey =>
                   if bool_decide (k_id key = keyId)
                   then withExpiresAt (now + gracePeriodMs) key else key).
  assert (forall key, k_keyHash (update key) = k_keyHash key) as Hdigest
    by (intros key; unfold update; by case_bool_decide).
  assert (k_keyHash <$> (update <$> tbl_api_keys dir) = k_keyHash <$> tbl_api_keys dir)
    as Hdigests by (by apply update_keeps_digests).
  match goal with
  | |- context [apiKey_update keyId _ ?d] =>
      assert (apiKey_update keyId (withExpiresAt (now + gracePeriodMs)) d
              = {| tbl_api_keys := (update <$> tbl_api_keys dir) ++ [newRow];
                   nextKeyId := S (nextKeyId dir); drawn := S (drawn dir) |}) as ->
  end.
  { unfold apiKey_update. cbn [tbl_api_keys nextKeyId drawn]. fold update.
    rewrite fmap_app. cbn [fmap list_fmap]. unfold update at 2. unfold newRow.
    cbn [k_id]. by rewrite (bool_decide_eq_false_2 (nextKeyId dir = keyId)). }
  set (dir1 := {| tbl_api_keys := (update <$> tbl_api_keys dir) ++ [newRow];
                  nextKeyId := S (nextKeyId dir); drawn := S (drawn dir) |}).
  unfold authenticate. cbn [Service.truthy].
  split.
  - intros t usedAt. rewrite (bool_decide_eq_false_2 (_ = "")) by done.
    unfold dir1 at 1. cbn [tbl_api_keys].
    rewrite JobFacts.find_app_r.
    + cbn. by rewrite bool_decide_eq_true_2.
    + apply find_digest_none. rewrite <- Hclash.
      generalize (hashApiKey crypto (generateApiKey crypto (drawn dir))).
      intros digest. induction (tbl_api_keys dir) as [|key keys IH] in |- *; [done|].
      cbn. by rewrite Hdigest, IH.
  - intros header t usedAt Hheader Hhash Hrevoked.
    rewrite (bool_decide_eq_false_2 (_ = "")) by done. rewrite Hhash.
    assert (find (fun key => bool_decide (k_keyHash key = k_keyHash oldKey))
              (update <$> tbl_api_keys dir)
            = Some (withExpiresAt (now + gracePeriodMs) oldKey)) as Hfind.
    { assert (update oldKey = withExpiresAt (now + gracePeriodMs) oldKey) as <-
        by (unfold update; by rewrite bool_decide_eq_true_2).
      rewrite <- (Hdigest oldKey). apply find_digest_unique; [by rewrite Hdigests|].
      by apply list_elem_of_fmap_2. }
    unfold dir1 at 1. cbn [tbl_api_keys].
    rewrite (find_app_l _ _ _ _ Hfind). cbn [k_revokedAt withExpiresAt]. rewrite Hrevoked.
    cbn [k_expiresAt from_option k_tenantId k_role k_id withExpiresAt].
    by rewrite Hid, Htenant.
Qed.

End Keys.

End AccountFacts.

(** ** Sessions and their transcripts *)

Module SessionFacts.
Import Store Service Observe Behaviour Sessions MonadFacts FrameFacts PipelineFacts
  FailureFacts TranscriptFacts RetryFacts ReplayFacts.

(** Rows appended with consecutive numbers above those of a list sort to
    its end, in their order. *)
Lemma orderBySequenceAsc_consecutive l start new :
  Forall (fun m => m_sequenceNumber m < start) l ->
  m_sequenceNumber <$> new = consecutiveFrom start (length new) ->
  orderBySequenceAsc (l ++ new) = orderBySequenceAsc l ++ new.
Proof.
  intros Hl. induction new as [|x new IH] using rev_ind; intros Hseq.
  - by rewrite !app_nil_r.
  - rewrite length_app, Nat.add_comm in Hseq. cbn [length Nat.add] in Hseq.
    rewrite consecutiveFrom_S, fmap_app in Hseq. cbn in Hseq.
    apply app_inj_tail in Hseq as [Hnew Hx].
    rewrite !app_assoc, HistoryFacts.orderBySequenceAsc_snoc, IH; [done|done|].
    apply Forall_app. split.
    + eapply Forall_impl; [exact Hl|]. cbn. intros m Hm. lia.
    + apply Forall_forall. intros m Hm.
      assert (m_sequenceNumber m ∈ consecutiveFrom start (length new)) as Hin
        by (rewrite <- Hnew; by apply list_elem_of_fmap_2).
      apply consecutiveFrom_bounds in Hin. lia.
Qed.

Lemma getSessionMessages_run tenantId sessionId w :
  getSessionMessages tenantId sessionId w
  = (match find (fun s => bool_decide (s_id s = sessionId)
                          && bool_decide (s_tenantId s = tenantId)) (tbl_sessions w) with
     | None => inl (AppErr (newAppError NotFoundError "Session not found"))
     | Some _ =>
         inr (orderBySequenceAsc (List.filter (ofSession sessionId) (tbl_messages w)))
     end, w).
Proof.
  unfold getSessionMessages, session_findFirst, bind. cbn. by destruct (find _ _).
Qed.

Section Transcripts.

Variable env : Env.

(** X15. What was sent is read back.  When an invocation that is no
    replay returns a response, the transcript that [getSessionMessages]
    gives for the session is the one it gave before, followed by the
    messages of the invocation in the order they were stored: first the
    USER message with the content that was sent, last the message that
    the response shows. *)
Theorem sent_messages_are_read_back tenantId sessionId input w resp w1 before :
  getSessionMessages tenantId sessionId w = (inr before, w) ->
  checkIdempotency sessionId input w = (inr None, w) ->
  sendMessage env tenantId sessionId input w = (inr resp, w1) ->
  exists userMessage answers final,
    getSessionMessages tenantId sessionId w1
    = (inr (before ++ userMessage :: answers), w1)
    /\ m_role userMessage = USER
    /\ m_content userMessage = Text (in_content input)
    /\ m_idempotencyKey userMessage = in_idempotencyKey input
    /\ last answers = Some final
    /\ mr_id resp = m_id final
    /\ mr_role resp = m_role final
    /\ mr_content resp = m_content final.
Proof.
  intros Hbefore Hcheck Hrun.
  pose proof (JobFacts.sessions_sendMessage env tenantId sessionId input _ _ _ Hrun)
    as Hsessions.
  apply InvocationFacts.sendMessage_cases in Hrun as [(existing & Hreplay & _)|[_ Hrun]].
  { match type of Hreplay with
    | checkIdempotency _ _ ?w0 = _ =>
        rewrite (checkIdempotency_ext sessionId input w w0 None eq_refl eq_refl Hcheck)
          in Hreplay
    end. done. }
  unfold lockAndProcess in Hrun.
  apply withSessionLock_inv in Hrun as [(_ & [=] & _)|(_ & wb & Hfn & ->)].
  pose proof (Appends_processMessage env _ _ _ _ _ _ _ Hfn) as (new & Hnew & Hall & Hseq).
  pose proof (processMessage_stores env _ _ _ _ _ _ _ Hfn)
    as [Hsame|(userMessage' & more & session & agent & Hm' & _ & _ & _
               & _ & Hu1 & _ & Hu3 & _ & Hu5 & _)].
  { apply processMessage_success_response in Hfn as (? & ? & ? & ? & Hm & _).
    rewrite Hsame in Hm. rewrite <- (app_nil_r (tbl_messages _)) in Hm at 1.
    by apply app_inv_head in Hm. }
  apply processMessage_success_response in Hfn
    as (userMessage & reply & rest & final & Hm & Hlast & Hresp & _).
  rewrite Hm in Hm', Hnew. apply app_inv_head in Hm', Hnew.
  injection Hm' as <- <-. subst new.
  exists userMessage, (reply :: rest), final.
  rewrite getSessionMessages_run in Hbefore |- *. rewrite Hsessions.
  destruct (find _ (tbl_sessions w)); [|done]. injection Hbefore as <-.
  split; [|by rewrite Hresp].
  f_equal. f_equal.
  change (tbl_messages (logged _ _)) with (tbl_messages wb). rewrite Hm.
  match goal with
  | |- context [tbl_messages ?x ++ _] => change (tbl_messages x) with (tbl_messages w) in *
  end.
  rewrite List.filter_app, (filter_session_all _ _ Hall).
  apply (orderBySequenceAsc_consecutive _ (get_next_message_sequence sessionId w)).
  - apply Forall_forall. intros m [Hin Hs%bool_decide_eq_true]%list_elem_of_In%List.filter_In.
    apply SequenceFacts.next_sequence_fresh; [by apply list_elem_of_In|done].
  - exact Hseq.
Qed.

(** *** Ending a session *)

Lemma find_updated {A} (p : A -> bool) (f : A -> A) (l : list A) :
  (forall x, p (f x) = p x) -> find p (f <$> l) = f <$> find p l.
Proof.
  intros Hp. induction l as [|x l IH]; [done|]. cbn. rewrite Hp.
  by destruct (p x).
Qed.

(** Under the primary key, the row with an id is the first with that id. *)
Lemma find_by_id sessionId (l : list Session) session :
  NoDup (s_id <$> l) -> session ∈ l -> s_id session = sessionId ->
  find (fun s => bool_decide (s_id s = sessionId)) l = Some session.
Proof.
  intros Hnd Hin Hid. induction l as [|x l IH]; [by apply elem_of_nil in Hin|].
  rewrite fmap_cons in Hnd. apply NoDup_cons in Hnd as [Hx Hnd]. cbn.
  apply elem_of_cons in Hin as [->|Hin]; [by rewrite bool_decide_eq_true_2|].
  rewrite bool_decide_eq_false_2; [by apply IH|].
  intros Heq. apply Hx. rewrite Heq, <- Hid. by apply list_elem_of_fmap_2.
Qed.

(** X16. Ending a session.  A tenant can end its own sessions only: for
    a session of another tenant, or none, [endSession] throws 'Session not
    found' and changes nothing.  When it returns, the session is ENDED, the
    other sessions and all messages are as before, and from then on an
    invocation of [sendMessage] for the session stores nothing and calls
    no provider: unless the idempotency check finds a stored response for
    its key, it ends with 'Cannot send message to ended session'. *)
Theorem ended_session_is_closed tenantId sessionId w r w1 :
  NoDup (s_id <$> tbl_sessions w) ->
  endSession tenantId sessionId w = (r, w1) ->
  match find (fun s => bool_decide (s_id s = sessionId)
                       && bool_decide (s_tenantId s = tenantId)) (tbl_sessions w) with
  | None =>
      r = inl (AppErr (newAppError NotFoundError "Session not found")) /\ w1 = w
  | Some session =>
      r = inr (ended session)
      /\ tbl_sessions w1
         = (fun s => if bool_decide (s_id s = sessionId) then ended s else s)
             <$> tbl_sessions w
      /\ tbl_messages w1 = tbl_messages w
      /\ tbl_provider_calls w1 = tbl_provider_calls w
      /\ tbl_usage_events w1 = tbl_usage_events w
      /\ sessionLocks w1 = sessionLocks w
      /\ forall agent input,
           s_agent session = Some agent ->
           held (uuidToLockKey env sessionId) w1 = false ->
           exists stored w2,
             checkIdempotency sessionId input w1 = (inr stored, w1)
             /\ sendMessage env tenantId sessionId input w1
                = (match stored with
                   | Some existing => inr (formatMessageResponse existing)
                   | None => inl (AppErr (newAppError ValidationError
                                            "Cannot send message to ended session"))
                   end, w2)
             /\ tbl_messages w2 = tbl_messages w1
             /\ tbl_provider_calls w2 = tbl_provider_calls w1
             /\ tbl_usage_events w2 = tbl_usage_events w1
             /\ attemptLog w2 = attemptLog w1
  end.
Proof.
  intros Hnd. unfold endSession, getSessionById, session_findFirst, bind. cbn.
  destruct (find _ (tbl_sessions w)) as [session|] eqn:Hfind; [|by intros [= <- <-]].
  cbn. unfold session_update_ended.
  pose proof (find_some _ _ Hfind) as [Hin [Hid Htenant]%andb_true_iff].
  apply bool_decide_eq_true in Hid, Htenant. apply list_elem_of_In in Hin.
  rewrite (find_by_id sessionId _ session Hnd Hin Hid).
  intros [= <- <-]. cbn [tbl_sessions tbl_messages tbl_provider_calls tbl_usage_events
                         sessionLocks].
  do 6 (split; [done|]). intros agent input Hagent Hfree.
  match goal with
  | |- context [checkIdempotency _ _ ?x] => set (w1 := x) in *
  end.
  assert ((getSessionWithAgent tenantId sessionId w1).1 = inr (ended session, agent))
    as Hsession.
  { unfold getSessionWithAgent, w1. cbn [tbl_sessions].
    rewrite (find_updated _ (fun s => if bool_decide (s_id s = sessionId)
                                       then ended s else s))
      by (intros s; destruct (bool_decide (s_id s = sessionId)) eqn:E; cbn;
          rewrite ?E; reflexivity).
    rewrite Hfind. cbn. rewrite bool_decide_eq_true_2 by done. cbn. by rewrite Hagent. }
  destruct (InvocationFacts.sendMessage_turned_down env tenantId sessionId input w1
              (AppErr (newAppError ValidationError "Cannot send message to ended session"))
              Hfree)
    as (stored & w2 & Hcheck & Hrun & Hm & Hpc & Hue & Hat & _).
  { intros w' correlationId Hs. unfold processMessage.
    pose proof (getSessionWithAgent_run tenantId sessionId w') as Hrun.
    rewrite (getSessionWithAgent_ext _ _ w' w1 Hs), Hsession in Hrun.
    by rewrite (bind_inr _ _ _ _ _ Hrun). }
  by exists stored, w2.
Qed.

End Transcripts.

End SessionFacts.

(** ** The message route *)

Module RouteFacts.
Import Store Service Observe Behaviour Accounts Routes ComposeFacts.

Section Route.

Variable env : Env.
Variable crypto : Crypto.

Lemma authenticate_throws header now usedAt dir e dir1 :
  authenticate crypto header now usedAt dir = (inl e, dir1) ->
  dir1 = dir /\ exists msg, e = AppErr (newAppError UnauthorizedError msg).
Proof.
  unfold authenticate. repeat case_match; intros [= <- <-]; (split; [done|by eexists]).
Qed.

(** X27. What the synchronous message route answers.  Its status is 200, with
    the response of [sendMessage], or one of 400, 401, 403, 404, 409 and
    500 with an error document; the correlation id of the request is on
    every answer.  A request that does not get past the hooks (401 for a
    key that is missing, unknown, revoked or expired, 403 for a key that
    is no ADMIN key) or whose body is refused leaves the sessions and
    their messages untouched.  Status 500 always comes with the code
    INTERNAL_ERROR and the message 'Internal server error', whatever was
    thrown; the statuses 429, 502 and 504 of the provider errors are never
    sent. *)
Theorem postMessage_answers request now usedAt dir w reply dir1 w1 :
  postMessage env crypto request now usedAt (dir, w) = (reply, (dir1, w1)) ->
  re_correlationId reply = correlationIdOf env request
  /\ match re_body reply with
     | Sent response =>
         re_statusCode reply = 200
         /\ exists tenant,
              authenticate crypto (rq_apiKey request) now usedAt dir = (inr tenant, dir1)
              /\ rc_keyRole tenant = ADMIN
     | Failed code message correlationId =>
         correlationId = correlationIdOf env request
         /\ (re_statusCode reply = 400 /\ code = "VALIDATION_ERROR"
             \/ re_statusCode reply = 401 /\ code = "UNAUTHORIZED" /\ w1 = w /\ dir1 = dir
             \/ re_statusCode reply = 403 /\ code = "FORBIDDEN"
                /\ message = "Insufficient permissions" /\ w1 = w
             \/ re_statusCode reply = 404 /\ code = "NOT_FOUND"
             \/ re_statusCode reply = 409 /\ code = "CONFLICT"
             \/ re_statusCode reply = 500 /\ code = "INTERNAL_ERROR"
                /\ message = "Internal server error")
     end
  /\ (SendMessageSchema (rq_content request) = None -> w1 = w).
Proof.
  unfold postMessage.
  destruct (authenticate crypto _ now usedAt dir) as [[error|tenant] dir'] eqn:Hauth.
  { apply authenticate_throws in Hauth as [-> [msg ->]]. intros [= <- <- <-].
    cbn. split; [done|]. split; [|done]. split; [done|]. right; left. done. }
  unfold requireRole. case_bool_decide as Hrole.
  2:{ intros [= <- <- <-]. cbn. split; [done|]. split; [|done]. split; [done|].
      do 2 right; left. done. }
  apply list_elem_of_singleton in Hrole.
  destruct (SendMessageSchema _) as [content|] eqn:Hbody.
  2:{ intros [= <- <- <-]. cbn. split; [done|]. split; [|done]. split; [done|].
      left. done. }
  destruct (sendMessage _ _ _ _ w) as [[error|response] w'] eqn:Hsend;
    intros [= <- <- <-].
  - apply Throws_sendMessage in Hsend. split; [by destruct error|]. split; [|done].
    destruct Hsend; cbn; (split; [done|]).
    + do 3 right; left. done.
    + left. done.
    + do 4 right; left. done.
    + do 5 right. done.
    + do 5 right. done.
  - cbn. split; [done|]. split; [|done]. split; [done|]. by exists tenant.
Qed.

End Route.

End RouteFacts.

(** ** The attempts of a job with an idempotency key *)

Module JobRetryFacts.
Import Store Service Observe Behaviour Sessions Jobs JobBehaviour JobAttempts.
Import MonadFacts FrameFacts PipelineFacts FailureFacts.

Section Worker.

Variable env : Env.
Variable worker : Worker.

(** An invocation with a key that stored one message has thrown, and has
    left the key blocked. *)
Lemma sendMessage_strands tenantId sessionId input key w r w1 userMessage :
  in_idempotencyKey input = Some key ->
  sendMessage env tenantId sessionId input w = (r, w1) ->
  tbl_messages w1 = tbl_messages w ++ [userMessage] ->
  (exists e, r = inl e) /\ KeyBlocked env tenantId sessionId input w1.
Proof.
  intros Hkey Hrun Hone.
  assert (Hgrown : tbl_messages w1 <> tbl_messages w).
  { rewrite Hone. intros H. apply (f_equal length) in H.
    rewrite length_app in H. cbn in H. lia. }
  pose proof (JobFacts.sessions_sendMessage env tenantId sessionId input _ _ _ Hrun)
    as Hsessions.
  apply InvocationFacts.sendMessage_cases in Hrun as [(existing & _ & _ & ->)|[_ Hrun]];
    [done|].
  unfold lockAndProcess in Hrun.
  apply withSessionLock_inv in Hrun as [(_ & _ & ->)|(_ & wb & Hfn & ->)]; [done|].
  apply RetryFacts.processMessage_stores in Hfn
    as [Hsame|(stored & more & session & agent & Hm & Hsession & Hactive & Hloads
               & Hclash & Hu1 & Hu2 & Hu3 & Hu4 & _ & Hmore)]; [done|].
  match type of Hm with
  | _ = tbl_messages ?x ++ _ => set (wl := x) in *
  end.
  assert (tbl_messages wl = tbl_messages w) as Hwl by done.
  assert (get_next_message_sequence sessionId wl = get_next_message_sequence sessionId w)
    as Hnext by (by apply get_next_ext).
  match type of Hone with
  | tbl_messages ?x = _ => set (w2 := x) in *
  end.
  assert (tbl_messages w2 = tbl_messages w ++ stored :: more) as Hm1
    by (by rewrite <- Hwl, <- Hm).
  rewrite Hone in Hm1. apply app_inv_head in Hm1. injection Hm1 as <- <-.
  rewrite Hkey in Hclash, Hu3. rewrite Hwl in Hclash. rewrite Hnext in Hu4.
  split; [done|].
  apply (RetryFacts.stranded_message_blocks env tenantId sessionId input key w w2
           userMessage session agent); try done.
  - unfold held, w2. cbn. by rewrite lookup_delete_eq.
  - rewrite <- Hsession. apply getSessionWithAgent_ext. by rewrite Hsessions.
  - by apply (HistoryLoads_ext env sessionId wl).
Qed.

(** A round on a queue whose first job that is not settled is a message
    job: the world it leaves is the one [sendMessage] leaves, and an error
    of [sendMessage] uses one attempt. *)
Lemma processNextJob_send clock db before job after r w1 :
  NoDup (j_id <$> tbl_jobs db) ->
  tbl_jobs db = before ++ job :: after ->
  Forall (Settled worker) before ->
  j_type job = SEND_MESSAGE ->
  j_status job = J_PENDING ->
  j_lockedAt job = None ->
  j_attempts job < attemptsBound worker job ->
  attemptsBound worker job = orNumber (j_maxAttempts job) (jobs_maxAttempts worker) ->
  sendMessage env (j_tenantId job) (ji_sessionId (j_input job)) (messageOf job) (world db)
  = (r, w1) ->
  world (processNextJob env worker clock db) = w1
  /\ forall e, r = inl e ->
     exists job',
       tbl_jobs (processNextJob env worker clock db) = before ++ job' :: after
       /\ identity job' = identity job
       /\ j_type job' = SEND_MESSAGE
       /\ j_input job' = j_input job
       /\ j_maxAttempts job' = j_maxAttempts job
       /\ j_lockedAt job' = None
       /\ j_attempts job' = j_attempts job + 1
       /\ j_lastError job' = Some (errorObjMessage e)
       /\ j_status job'
          = (if j_attempts job' <? attemptsBound worker job then J_PENDING else J_FAILED)
       /\ j_errorMessage job'
          = (if j_attempts job' <? attemptsBound worker job then None
             else Some (errorObjMessage e)).
Proof.
  intros Hnd Hdb Hbefore Htype Hstatus Hlock Hlt Hbound Hsend. rewrite Hdb in Hnd.
  assert (Hjob : available worker (at_start clock) job = true).
  { unfold available. rewrite Hstatus, Hlock. cbn. by apply Z.ltb_lt. }
  assert (Hnone : Forall (fun row => available worker (at_start clock) row = false) before)
    by (eapply Forall_impl; [exact Hbefore|]; intros row;
        apply JobFacts.Settled_not_available).
  unfold processNextJob, claim. rewrite Hdb, (JobFacts.find_first _ _ _ _ Hnone Hjob).
  assert (Hnd1 : forall row, j_id row = j_id job ->
                             NoDup (j_id <$> before ++ row :: after))
    by (intros row Hrow; by rewrite (JobFacts.update_keeps_ids _ job)).
  unfold executeJob, executeSendMessage, sendCallback. cbn [j_type claimed]. rewrite Htype.
  cbn [j_input j_tenantId j_idempotencyKey claimed job_update world j_id].
  unfold messageOf in Hsend. rewrite Hsend.
  cbn [errorObjMessage j_attempts j_maxAttempts claimed]. rewrite <- Hbound.
  destruct r as [e|result].
  - destruct (j_attempts job + 1 <? attemptsBound worker job) eqn:Hretry;
    repeat first
      [ progress cbn [tbl_jobs job_update withWorld world nextJobId requests
                      j_id claimed j_callbackUrl]
      | rewrite Hdb
      | rewrite JobFacts.update_row by (solve [apply Hnd1; reflexivity | reflexivity])
      | match goal with
        | |- context [isTruthy ?s] => destruct (isTruthy s) eqn:?
        | |- context [match truthy ?s with _ => _ end] => destruct (truthy s) eqn:?
        | |- context [fetch ?w ?u ?p] => destruct (fetch w u p) eqn:?
        end ];
      (split; [reflexivity|]); intros ? [= <-];
      (eexists; split; [reflexivity|]); cbn; by rewrite Hretry.
  - repeat first
      [ progress cbn [tbl_jobs job_update withWorld world nextJobId requests
                      j_id claimed j_callbackUrl]
      | match goal with
        | |- context [isTruthy ?s] => destruct (isTruthy s) eqn:?
        | |- context [match truthy ?s with _ => _ end] => destruct (truthy s) eqn:?
        | |- context [fetch ?w ?u ?p] => destruct (fetch w u p) eqn:?
        end ];
      (split; [reflexivity|done]).
Qed.

(** The rounds on a job whose key is blocked. *)
Lemma rounds_blocked clocks db before job after :
  NoDup (j_id <$> tbl_jobs db) ->
  tbl_jobs db = before ++ job :: after ->
  Forall (Settled worker) before ->
  j_type job = SEND_MESSAGE ->
  j_status job = J_PENDING ->
  j_lockedAt job = None ->
  attemptsBound worker job = orNumber (j_maxAttempts job) (jobs_maxAttempts worker) ->
  KeyBlocked env (j_tenantId job) (ji_sessionId (j_input job)) (messageOf job) (world db) ->
  clocks <> [] ->
  j_attempts job + Z.of_nat (length clocks) <= attemptsBound worker job ->
  exists job',
    tbl_jobs (rounds env worker clocks db) = before ++ job' :: after
    /\ tbl_messages (world (rounds env worker clocks db)) = tbl_messages (world db)
    /\ tbl_provider_calls (world (rounds env worker clocks db))
       = tbl_provider_calls (world db)
    /\ tbl_usage_events (world (rounds env worker clocks db)) = tbl_usage_events (world db)
    /\ attemptLog (world (rounds env worker clocks db)) = attemptLog (world db)
    /\ j_attempts job' = j_attempts job + Z.of_nat (length clocks)
    /\ j_lastError job' = Some keyRefusal
    /\ j_status job'
       = (if j_attempts job' <? attemptsBound worker job then J_PENDING else J_FAILED)
    /\ j_errorMessage job'
       = (if j_attempts job' <? attemptsBound worker job then None else Some keyRefusal).
Proof.
  revert db job.
  induction clocks as [|clock clocks IH];
    intros db job Hnd Hdb Hbefore Htype Hstatus Hlock Hbound Hblocked Hne Hle; [done|].
  rewrite JobFacts.rounds_cons. cbn [length] in Hle.
  destruct (RetryFacts.blocked_key_refuses env _ _ _ _ Hblocked)
    as (w1 & Hsend & Hm & Hpc & Hue & Hat & Hblocked1).
  destruct (processNextJob_send clock db before job after _ _ Hnd Hdb Hbefore Htype
              Hstatus Hlock ltac:(lia) Hbound Hsend) as [Hworld Hjob].
  destruct (Hjob _ eq_refl)
    as (job1 & Htbl & Hident & Htype1 & Hinput & Hmax & Hlock1 & Hatt & Herr & Hstatus1
        & Hmsg).
  injection Hident as Hid Htenant Hkey.
  assert (Hbound1 : attemptsBound worker job1 = attemptsBound worker job)
    by (unfold attemptsBound; by rewrite Hmax).
  assert (Hmessage : messageOf job1 = messageOf job)
    by (unfold messageOf; by rewrite Hinput, Hkey).
  destruct clocks as [|clock2 clocks].
  - exists job1. cbn [rounds foldl length]. rewrite Hworld.
    split; [done|]. do 4 (split; [done|]). split; [lia|]. done.
  - destruct (IH (processNextJob env worker clock db) job1)
      as (job' & Htbl' & Hm' & Hpc' & Hue' & Hat' & Hatt' & Herr' & Hstatus' & Hmsg');
      try done.
    + rewrite Htbl. rewrite Hdb in Hnd. by rewrite (JobFacts.update_keeps_ids _ job).
    + rewrite Hstatus1. cbn [length] in Hle.
      rewrite (proj2 (Z.ltb_lt _ _)); [done|lia].
    + by rewrite Hbound1, Hmax.
    + by rewrite Htenant, Hinput, Hmessage, Hworld.
    + rewrite Hbound1. cbn [length] in *. lia.
    + exists job'. rewrite Hworld in Hm', Hpc', Hue', Hat'.
      rewrite Htbl', Hm', Hpc', Hue', Hat', Hatt', Hatt, Herr', Hstatus', Hmsg', Hbound1,
        Hatt', Hatt.
      cbn [length]. repeat split; try done. lia.
Qed.

(** X28. The attempts of a message job with an idempotency key are no
    retries.  When the first round of such a job stored its USER message
    and nothing else -- the provider call failed --, every further round
    hands the same key to [sendMessage] and is refused by the unique index
    on session and key: it stores no message, reaches no provider and
    bills nothing, and uses one attempt.  The job is FAILED once its
    attempts are used up, and the error it reports, in [lastError] and in
    [errorMessage], is the refusal of the index, not the failure of the
    first round. *)
Theorem keyed_job_is_refused_after_its_first_failure clock clocks db before job after key
    userMessage :
  NoDup (j_id <$> tbl_jobs db) ->
  tbl_jobs db = before ++ job :: after ->
  Forall (Settled worker) before ->
  j_type job = SEND_MESSAGE ->
  j_status job = J_PENDING ->
  j_lockedAt job = None ->
  attemptsBound worker job = orNumber (j_maxAttempts job) (jobs_maxAttempts worker) ->
  j_idempotencyKey job = Some key ->
  tbl_messages (world (processNextJob env worker clock db))
  = tbl_messages (world db) ++ [userMessage] ->
  clocks <> [] ->
  j_attempts job + 1 + Z.of_nat (length clocks) <= attemptsBound worker job ->
  let db1 := processNextJob env worker clock db in
  let db' := rounds env worker (clock :: clocks) db in
  exists job',
    tbl_jobs db' = before ++ job' :: after
    /\ tbl_messages (world db') = tbl_messages (world db) ++ [userMessage]
    /\ tbl_provider_calls (world db') = tbl_provider_calls (world db1)
    /\ tbl_usage_events (world db') = tbl_usage_events (world db)
    /\ attemptLog (world db') = attemptLog (world db1)
    /\ j_attempts job' = j_attempts job + 1 + Z.of_nat (length clocks)
    /\ j_lastError job' = Some keyRefusal
    /\ j_status job'
       = (if j_attempts job' <? attemptsBound worker job then J_PENDING else J_FAILED)
    /\ j_errorMessage job'
       = (if j_attempts job' <? attemptsBound worker job then None else Some keyRefusal).
Proof.
  intros Hnd Hdb Hbefore Htype Hstatus Hlock Hbound Hkey Hone Hne Hle db1 db'.
  subst db1 db'. rewrite JobFacts.rounds_cons.
  destruct (sendMessage env (j_tenantId job) (ji_sessionId (j_input job)) (messageOf job)
              (world db)) as [r w1] eqn:Hsend.
  destruct (processNextJob_send clock db before job after _ _ Hnd Hdb Hbefore Htype
              Hstatus Hlock ltac:(lia) Hbound Hsend) as [Hworld Hjob].
  rewrite Hworld in Hone.
  destruct (sendMessage_strands _ _ (messageOf job) key _ _ _ userMessage Hkey Hsend Hone)
    as [[e ->] Hblocked].
  assert (Hunbilled : tbl_usage_events w1 = tbl_usage_events (world db)).
  { pose proof Hsend as [(existing & _ & [=] & _)|[_ H]]%InvocationFacts.sendMessage_cases.
    unfold lockAndProcess in H.
    apply withSessionLock_inv in H as [(_ & _ & ->)|(_ & wb & Hfn & ->)]; [done|].
    by apply InvocationFacts.usage_processMessage_failure in Hfn. }
  destruct (Hjob _ eq_refl)
    as (job1 & Htbl & Hident & Htype1 & Hinput & Hmax & Hlock1 & Hatt & Herr & Hstatus1
        & Hmsg).
  injection Hident as Hid Htenant Hkey1.
  assert (Hbound1 : attemptsBound worker job1 = attemptsBound worker job)
    by (unfold attemptsBound; by rewrite Hmax).
  assert (Hmessage : messageOf job1 = messageOf job)
    by (unfold messageOf; by rewrite Hinput, Hkey1).
  destruct (rounds_blocked clocks (processNextJob env worker clock db) before job1 after)
    as (job' & Htbl' & Hm' & Hpc' & Hue' & Hat' & Hatt' & Herr' & Hstatus' & Hmsg');
    try done.
  - rewrite Htbl. rewrite Hdb in Hnd. by rewrite (JobFacts.update_keeps_ids _ job).
  - rewrite Hstatus1. rewrite (proj2 (Z.ltb_lt _ _)); [done|].
    destruct clocks; [done|]. cbn [length] in Hle. lia.
  - by rewrite Hbound1, Hmax.
  - by rewrite Htenant, Hinput, Hmessage, Hworld.
  - rewrite Hbound1. lia.
  - exists job'. rewrite Hworld in Hm', Hpc', Hue', Hat'.
    rewrite Htbl', Hm', Hpc', Hue', Hat', Hatt', Hatt, Herr', Hstatus', Hmsg', Hbound1,
      Hatt', Hatt, Hworld.
    repeat split; try done.
Qed.

End Worker.

End JobRetryFacts.

(** ** The records of tool executions *)

Module ToolAuditFacts.
Import Store Service Observe ToolAudit MonadFacts FrameFacts.

Section Audit.

Variable env : Env.



End Audit.

End ToolAuditFacts.

(** ** The lock sweeper *)

Module LockFacts.
Import Store Service Observe Behaviour Sessions LockBehaviour.
Import MonadFacts FrameFacts PipelineFacts ComposeFacts.

Lemma CallbackError_unique e : (exists target, e = P2002 target) -> CallbackError e.
Proof. intros [target ->]. constructor. Qed.

Lemma CallbackError_javascript e : (exists msg, e = JsErr msg) -> CallbackError e.
Proof. intros [msg ->]. constructor. Qed.

Lemma CallbackError_not_found e :
  (exists msg, e = AppErr (newAppError NotFoundError msg)) -> CallbackError e.
Proof. intros [msg ->]. constructor. Qed.

#[local] Hint Extern 1 (Throws CallbackError (message_create _ _ _ _ _ _ _)) =>
  eapply Throws_impl; [apply Throws_message_create|apply CallbackError_unique] : throws.
#[local] Hint Extern 1 (Throws CallbackError (getSessionWithAgent _ _)) =>
  eapply Throws_impl; [apply Throws_getSessionWithAgent|apply CallbackError_not_found]
  : throws.
#[local] Hint Extern 1 (Throws CallbackError (loadConversationHistory _ _)) =>
  eapply Throws_impl; [apply Throws_loadConversationHistory|apply CallbackError_javascript]
  : throws.
#[local] Hint Extern 1 (Throws CallbackError (executeWithResilience _ _ _)) =>
  eapply Throws_impl; [apply Throws_executeWithResilience|apply CallbackError_javascript]
  : throws.

Section Locks.

Variable env : Env.

Lemma callback_storeToolResults sessionId toolResults :
  Throws CallbackError (storeToolResults sessionId toolResults).
Proof.
  induction toolResults as [|toolResult rest IH]; cbn [storeToolResults]; throws.
Qed.

Lemma callback_handleToolCalls tenantId sessionId correlationId agent response toolCalls
    providerCall :
  Throws CallbackError
    (handleToolCalls env tenantId sessionId correlationId agent response toolCalls
       providerCall).
Proof.
  unfold handleToolCalls. pose proof callback_storeToolResults. throws.
Qed.

(** The callback never throws the error of the lock. *)
Lemma callback_processMessage tenantId sessionId input correlationId :
  Throws CallbackError (processMessage env tenantId sessionId input correlationId).
Proof.
  unfold processMessage. pose proof callback_handleToolCalls. throws.
Qed.

(** With the lock of its session free, an invocation is not turned down
    for the lock. *)
Lemma free_session_is_no_conflict tenantId sessionId input w r w' :
  held (uuidToLockKey env sessionId) w = false ->
  sendMessage env tenantId sessionId input w = (r, w') ->
  forall msg, r <> inl (AppErr (newAppError ConflictError msg)).
Proof.
  intros Hfree Hrun msg ->.
  apply InvocationFacts.sendMessage_cases in Hrun as [(existing & _ & [=] & _)|[_ Hrun]].
  unfold lockAndProcess in Hrun.
  apply withSessionLock_inv in Hrun as [(Hheld & _)|(_ & wb & Hfn & _)].
  - unfold held in Hfree. cbn in Hheld. congruence.
  - apply callback_processMessage in Hfn. inversion Hfn.
Qed.

(** X30. The sweeper of the lock map and the invocations.  A sweep deletes
    the entries that are held and older than the timeout and nothing else:
    the other entries and all tables stay as they are, so that a session
    whose lock is held and not older than the timeout stays closed.  A
    session whose lock is older than the timeout is open again after the
    sweep, whether or not its holder has finished: no invocation for it is
    turned down with a ConflictError. *)
Theorem sweep_reopens_the_session now lockTimeoutMs tenantId sessionId input w lock :
  sessionLocks w !! uuidToLockKey env sessionId = Some lock ->
  locked lock = true ->
  exists w1,
    cleanupStaleLocks now lockTimeoutMs w = (inr tt, w1)
    /\ (tbl_sessions w1, tbl_messages w1, tbl_provider_calls w1, tbl_usage_events w1,
        tbl_tool_executions w1, attemptLog w1, logLines w1)
       = (tbl_sessions w, tbl_messages w, tbl_provider_calls w, tbl_usage_events w,
          tbl_tool_executions w, attemptLog w, logLines w)
    /\ (forall k entry,
          sessionLocks w1 !! k = Some entry
          <-> sessionLocks w !! k = Some entry
              /\ (locked entry = false \/ now - timestamp entry <= lockTimeoutMs))
    /\ if lockTimeoutMs <? now - timestamp lock
       then held (uuidToLockKey env sessionId) w1 = false
            /\ forall r w', sendMessage env tenantId sessionId input w1 = (r, w') ->
                 forall msg, r <> inl (AppErr (newAppError ConflictError msg))
       else held (uuidToLockKey env sessionId) w1 = true.
Proof.
  intros Hlock Hlocked. eexists. split; [reflexivity|]. split; [reflexivity|].
  assert (Hsweep : forall k entry,
            filter (fun entry => stale now lockTimeoutMs entry.2 = false) (sessionLocks w)
              !! k = Some entry
            <-> sessionLocks w !! k = Some entry
                /\ (locked entry = false \/ now - timestamp entry <= lockTimeoutMs)).
  { intros k entry. rewrite map_lookup_filter_Some. cbn. unfold stale.
    split; intros [Hk Hstale]; (split; [done|]).
    - apply andb_false_iff in Hstale as [?|?%Z.ltb_ge]; [by left|by right].
    - apply andb_false_iff. destruct Hstale as [?|?]; [by left|right; by apply Z.ltb_ge]. }
  split; [exact Hsweep|].
  cbn [cleanupStaleLocks setLocks snd]. unfold held. cbn [sessionLocks].
  destruct (Z.ltb_spec lockTimeoutMs (now - timestamp lock)) as [Hstale|Hfresh].
  - assert (filter (fun entry => stale now lockTimeoutMs entry.2 = false) (sessionLocks w)
              !! uuidToLockKey env sessionId = None) as Hnone.
    { apply eq_None_not_Some. intros [entry [Hk [Hfree|Hle]]%Hsweep];
        rewrite Hlock in Hk; injection Hk as <-; [congruence|lia]. }
    split; [by rewrite Hnone|].
    intros r w'. apply free_session_is_no_conflict. unfold held. cbn [sessionLocks].
    by rewrite Hnone.
  - rewrite (proj2 (Hsweep _ lock)); [done|]. split; [done|]. by right.
Qed.

End Locks.

End LockFacts.

(** ** The scenarios *)

Module ScenarioFacts.
Import Store Service Observe Scenario.

(** *** Billing *)

Lemma billing_exactly_once_witness :
  BillingConsistent stored1.2
  /\ (exists row, row ∈ tbl_provider_calls stored1.2 /\ pc_id row = pc_id providerCall1)
  /\ pc_status providerCall1 = SUCCESS
  /\ exists w',
       repeatM 3 (createUsageEvent "t1" "a1" "s1" false providerCall1) stored1.2
         = (inr tt, w')
       /\ (usageCount (pc_id providerCall1) w' <= 1)%nat
       /\ (usageCount (pc_id providerCall1) stored1.2
           <= usageCount (pc_id providerCall1) w')%nat
       /\ (1 <= 3 -> usageCount (pc_id providerCall1) w' = 1)%nat
       /\ (forall id, id <> pc_id providerCall1 ->
                      usageCount id w' = usageCount id stored1.2)
       /\ BillingConsistent w'.
Proof.
  assert (BillingConsistent stored1.2) as Hcons.
  { split; [intros id; cbn; lia|].
    intros pc [Hin|Hin%list_elem_of_singleton]%elem_of_app Hb.
    - by apply elem_of_nil in Hin.
    - subst pc. discriminate Hb. }
  assert (exists row, row ∈ tbl_provider_calls stored1.2 /\ pc_id row = pc_id providerCall1)
    as Hrow by (exists providerCall1; split; [left|reflexivity]).
  split; [exact Hcons|]. split; [exact Hrow|]. split; [reflexivity|].
  exact (BillingFacts.billing_exactly_once "t1" "a1" "s1" providerCall1 stored1.2 3
           Hcons Hrow eq_refl).
Defined.

(** Three invocations on the stored call leave one usage event, of one
    cent. *)
Example billing_three_times :
  let w' := (repeatM 3 (createUsageEvent "t1" "a1" "s1" false providerCall1) stored1.2).2 in
  (ue_providerCallId <$> tbl_usage_events w') = [0%nat]
  /\ (ue_costCents <$> tbl_usage_events w') = [Some 1]
  /\ (pc_billed <$> tbl_provider_calls w') = [true].
Proof. vm_compute. done. Qed.

(** *** The sequence generator *)

Lemma getNextSequenceNumber_max_plus_one_witness :
  sessionSequence "s1" w0 = []
  /\ Forall (fun d => nm_idempotencyKey d = None) (exchanges 2)
  /\ (exists next,
        getNextSequenceNumber "s1" w51 = (inr next, w51)
        /\ (forall m, m ∈ tbl_messages w51 -> m_sessionId m = "s1" ->
                      m_sequenceNumber m < next)
        /\ (sessionSequence "s1" w51 = [] -> next = 1)
        /\ (sessionSequence "s1" w51 <> [] ->
            exists m, m ∈ tbl_messages w51 /\ m_sessionId m = "s1"
                      /\ next = m_sequenceNumber m + 1))
  /\ getNextSequenceNumber "s1" w0 = (inr 1, w0)
  /\ exists w',
       insertAll "s1" (exchanges 2) w0 = (inr tt, w')
       /\ sessionSequence "s1" w' = oneToN (length (exchanges 2)).
Proof.
  assert (Forall (fun d => nm_idempotencyKey d = None) (exchanges 2)) as Hkeys
    by (repeat constructor).
  split; [reflexivity|]. split; [exact Hkeys|].
  exact (SequenceFacts.getNextSequenceNumber_max_plus_one "s1" w51 w0 (exchanges 2)
           eq_refl Hkeys).
Defined.

Example next_sequence_numbers :
  (getNextSequenceNumber "s1" w0).1 = inr 1
  /\ (getNextSequenceNumber "s1" w51).1 = inr 52
  /\ sessionSequence "s1" (insertAll "s1" (exchanges 2) w0).2 = [1; 2; 3; 4].
Proof. vm_compute. done. Qed.

(** *** The orchestrator *)

Lemma fallback_runs_iff_witness :
  (1 <= 3)%nat
  /\ Orchestrator.executeWithRetry 3 rejecting request1 VENDOR_A
       {| Orchestrator.attemptNumber := 0; Orchestrator.errors := [] |} false []
     = (primaryRun.1.1, primaryRun.1.2, primaryRun.2)
  /\ Orchestrator.r_success primaryRun.1.1 = false
  /\ exists second,
       (Orchestrator.executeWithResilience 3 rejecting request1 configAB []).2
         = primaryRun.2 ++ second
       /\ (second <> [] <->
           exists f, Orchestrator.fallbackProvider configAB = Some f
                     /\ f <> Orchestrator.primaryProvider configAB).
Proof.
  assert (1 <= 3)%nat as Hmax by lia.
  split; [exact Hmax|]. split; [reflexivity|]. split; [reflexivity|].
  destruct (OrchestratorFacts.fallback_runs_iff 3 rejecting request1 configAB []
              primaryRun.1.1 primaryRun.1.2 primaryRun.2 Hmax eq_refl eq_refl)
    as (second & Hlog & Hiff & _).
  exists second. split; [exact Hlog|exact Hiff].
Defined.

(** Vendor A is down and vendor B answers: three attempts on A, then the
    fallback path, whose first attempt is the fourth overall. *)
Example fallback_after_three_attempts :
  let adapters := fun p (_ : nat) (_ : ProviderRequest) =>
    match p with
    | VENDOR_A => Orchestrator.Rejected serverError 5
    | VENDOR_B => Orchestrator.Resolved hello
    end in
  let run := Orchestrator.executeWithResilience 3 adapters request1 configAB [] in
  (Orchestrator.at_provider <$> run.2) = [VENDOR_A; VENDOR_A; VENDOR_A; VENDOR_B]
  /\ exists res,
       run.1 = inr res
       /\ Orchestrator.r_success res = true
       /\ Orchestrator.r_attemptNumber res = 4%nat
       /\ Orchestrator.r_isFallback res = true.
Proof. split; [reflexivity|]. eexists. split; [reflexivity|]. done. Qed.

(** An error that is not retryable ends the primary path at its first
    attempt; the fallback path still runs. *)
Example schema_error_ends_the_path :
  let adapters := fun p (_ : nat) (_ : ProviderRequest) =>
    match p with
    | VENDOR_A => Orchestrator.Rejected schemaError 5
    | VENDOR_B => Orchestrator.Resolved hello
    end in
  let run := Orchestrator.executeWithResilience 3 adapters request1 configAB [] in
  (Orchestrator.at_provider <$> run.2) = [VENDOR_A; VENDOR_B].
Proof. vm_compute. done. Qed.

(** *** The conversation history *)

Lemma history_keeps_oldest_witness :
  sessionSequence "s1" w51 = oneToN 51
  /\ exists rows,
       message_findMany "s1" (session_maxHistoryMessages envOk) w51 = (inr rows, w51)
       /\ m_sequenceNumber <$> rows = oneToN (min (session_maxHistoryMessages envOk) 51)
       /\ ((session_maxHistoryMessages envOk < 51)%nat ->
           forall m, m_sequenceNumber m = Z.of_nat 51 -> m ∉ rows).
Proof.
  split; [reflexivity|].
  destruct (HistoryFacts.history_keeps_oldest envOk "s1" w51 51 eq_refl)
    as (rows & Hrows & Hseq & _ & Hlast).
  exists rows. split; [exact Hrows|]. split; [exact Hseq|exact Hlast].
Defined.

(** With 51 messages in the session, the history of the default
    configuration has 50 entries, begins with the first message and ends
    with the fiftieth: the latest message is not in it. *)
Example history_of_51_messages :
  exists history,
    loadConversationHistory envOk "s1" w51 = (inr history, w51)
    /\ length history = 50%nat
    /\ (cm_content <$> head history) = Some (Text "question")
    /\ (cm_content <$> last history) = Some (Text "answer")
    /\ Forall (fun m => cm_content m <> Text "latest question") history
    /\ (m_content <$> last (tbl_messages w51)) = Some (Text "latest question").
Proof.
  eexists. split; [vm_compute; reflexivity|].
  split; [reflexivity|]. split; [reflexivity|]. split; [reflexivity|].
  split; [|reflexivity]. repeat (constructor; [discriminate|]). constructor.
Qed.

(** *** The pipeline *)

(** Both vendors are down.  The pipeline stores the USER message with its
    idempotency key and the record of the failed provider call, stores no
    ASSISTANT message and releases the lock; the error it ends with is a
    [ValidationError], with code VALIDATION_ERROR and status 400. *)
Example provider_failure_is_validation_error :
  let run := sendMessage envDown "t1" "s1" (withKey "hi" "K") w0 in
  run.1 = inl (AppErr (newAppError ValidationError
                         "VendorB request failed: socket hang up"))
  /\ (exists e, run.1 = inl e
                /\ exnCode e = Some "VALIDATION_ERROR"
                /\ exnCode e <> Some (errorCode ProviderError)
                /\ instanceof e ProviderError = false)
  /\ ((fun m => (m_role m, m_idempotencyKey m, m_sequenceNumber m)) <$> tbl_messages run.2)
     = [(USER, Some "K", 1)]
  /\ (pc_status <$> tbl_provider_calls run.2) = [FAILED]
  /\ (pc_errorCode <$> tbl_provider_calls run.2) = [Some "PROVIDER_ERROR"]
  /\ tbl_usage_events run.2 = []
  /\ sessionLocks run.2 = ∅
  /\ logLines run.2 =
     [Processing_message true; Session_lock_acquired; User_message_stored 0;
      Calling_AI_provider; Provider_call_record_stored 1; Provider_call_failed;
      Session_lock_released].
Proof.
  split; [vm_compute; reflexivity|]. split.
  - eexists. split; [vm_compute; reflexivity|]. by vm_compute.
  - by vm_compute.
Qed.

(** The same key after a failed attempt.  The attempt above left the USER message with key K
    and no answer.  The vendors are back and the caller (the job worker,
    say) tries again with the same key: step 1 finds no stored response,
    the insert of the USER message is refused by the unique index, and the
    refusal is what the caller gets. *)
Example retry_after_failure_is_refused :
  let failed := (sendMessage envDown "t1" "s1" (withKey "hi" "K") w0).2 in
  let run := sendMessage envOk "t1" "s1" (withKey "hi" "K") failed in
  (checkIdempotency "s1" (withKey "hi" "K") failed).1 = inr None
  /\ run.1 = inl (P2002 "(`sessionId`,`idempotencyKey`)")
  /\ tbl_messages run.2 = tbl_messages failed.
Proof. by vm_compute. Qed.

(** Two callers with the same key K.  The second one runs its check of
    step 1 and finds nothing; the first one then runs from beginning to
    end and gets its response; the second one goes on with steps 2 to 10.
    Its insert of the USER message is refused by the unique index on
    (session, idempotencyKey), and the second caller gets the P2002 error,
    while the check of step 1 would now find the response of the first
    caller. *)
Example duplicate_key_race_surfaces_error :
  let input := withKey "hi" "K" in
  let check2 := checkIdempotency "s1" input w0 in
  let first := sendMessage envOk "t1" "s1" input w0 in
  let second := lockAndProcess envOk "t1" "s1" input first.2 in
  check2 = (inr None, w0)
  /\ (exists response stored,
        first.1 = inr response
        /\ checkIdempotency "s1" input first.2 = (inr (Some stored), first.2)
        /\ formatMessageResponse stored = response)
  /\ second.1 = inl (P2002 "(`sessionId`,`idempotencyKey`)")
  /\ exnCode <$> (match second.1 with inl e => Some e | inr _ => None end)
     = Some (Some "P2002")
  /\ tbl_messages second.2 = tbl_messages first.2.
Proof.
  split; [reflexivity|]. split.
  - eexists _, _. split; [vm_compute; reflexivity|]. split; [vm_compute; reflexivity|].
    by vm_compute.
  - by vm_compute.
Qed.

Lemma provider_failure_ends_pipeline_witness :
  let input := withKey "hi" "K" in
  from_option locked false (sessionLocks w0 !! uuidToLockKey envDown "s1") = false
  /\ (getSessionWithAgent "t1" "s1" w0).1 = inr (session1, agent1)
  /\ s_status session1 = ACTIVE
  /\ loadConversationHistory envDown "s1" w0 = (inr [], w0)
  /\ existsb (clashesKey "s1" (in_idempotencyKey input)) (tbl_messages w0) = false
  /\ exists result error userMessage providerCall w',
       (Orchestrator.executeWithResilience (retry_maxAttempts envDown) (adapters envDown)
          (buildProviderRequest agent1 [] "hi") configAB []).1 = inr result
       /\ Orchestrator.r_success result = false
       /\ sendMessage envDown "t1" "s1" input w0 = (inl error, w')
       /\ exnCode error = Some "VALIDATION_ERROR"
       /\ instanceof error ProviderError = false
       /\ tbl_messages w' = [userMessage]
       /\ m_role userMessage = USER
       /\ m_idempotencyKey userMessage = Some "K"
       /\ tbl_provider_calls w' = [providerCall]
       /\ pc_status providerCall = FAILED
       /\ sessionLocks w' !! uuidToLockKey envDown "s1" = None.
Proof.
  intros input.
  assert (from_option locked false (sessionLocks w0 !! uuidToLockKey envDown "s1") = false)
    as Hfree by reflexivity.
  assert ((getSessionWithAgent "t1" "s1" w0).1 = inr (session1, agent1))
    as Hsession by reflexivity.
  assert (s_status session1 = ACTIVE) as Hactive by reflexivity.
  assert (loadConversationHistory envDown "s1" w0 = (inr [], w0))
    as Hhistory by reflexivity.
  assert (existsb (clashesKey "s1" (in_idempotencyKey input)) (tbl_messages w0) = false)
    as Hclash by reflexivity.
  assert (exists result attempts,
            Orchestrator.executeWithResilience (retry_maxAttempts envDown)
              (adapters envDown) (buildProviderRequest agent1 [] (in_content input))
              {| Orchestrator.primaryProvider := a_primaryProvider agent1;
                 Orchestrator.fallbackProvider := a_fallbackProvider agent1;
                 Orchestrator.correlationId :=
                   Some (from_option id (generateCorrelationId envDown)
                           (truthy (in_correlationId input))) |}
              (attemptLog w0) = (inr result, attempts)
            /\ responseOf result = None
            /\ Orchestrator.r_success result = false
            /\ statusOf result = FAILED
            /\ (Orchestrator.executeWithResilience (retry_maxAttempts envDown)
                  (adapters envDown) (buildProviderRequest agent1 [] "hi") configAB []).1
               = inr result)
    as (result & attempts & Horch & Hresponse & Hfailed & Hstatus & Hsame)
    by (eexists _, _; split; [vm_compute; reflexivity|by vm_compute]).
  split; [exact Hfree|]. split; [exact Hsession|]. split; [exact Hactive|].
  split; [exact Hhistory|]. split; [exact Hclash|].
  destruct (FailureFacts.provider_failure_ends_pipeline envDown "t1" "s1" input w0
              session1 agent1 [] result attempts
              Hfree Hsession Hactive Hhistory Hclash Horch Hresponse)
    as (error & userMessage & providerCall & w' & Hrun & _ & Hcode & _ & Hno & Hm & Hrole
          & _ & Hkey & Hpc & Hst & _ & Hlock).
  exists result, error, userMessage, providerCall, w'.
  split; [exact Hsame|]. split; [exact Hfailed|]. split; [exact Hrun|].
  split; [exact Hcode|]. split; [exact Hno|]. split; [exact Hm|]. split; [exact Hrole|].
  split; [exact Hkey|]. split; [exact Hpc|]. split; [by rewrite Hst|exact Hlock].
Defined.

Lemma user_insert_clash_surfaces_witness :
  let input := withKey "hi" "K" in
  let w1 := (sendMessage envOk "t1" "s1" input w0).2 in
  from_option locked false (sessionLocks w1 !! uuidToLockKey envOk "s1") = false
  /\ (getSessionWithAgent "t1" "s1" w1).1 = inr (session1, agent1)
  /\ s_status session1 = ACTIVE
  /\ checkIdempotency "s1" input w0 = (inr None, w0)
  /\ exists response stored w',
       (sendMessage envOk "t1" "s1" input w0).1 = inr response
       /\ checkIdempotency "s1" input w1 = (inr (Some stored), w1)
       /\ formatMessageResponse stored = response
       /\ lockAndProcess envOk "t1" "s1" input w1
          = (inl (P2002 "(`sessionId`,`idempotencyKey`)"), w')
       /\ tbl_messages w' = tbl_messages w1
       /\ checkIdempotency "s1" input w' = (inr (Some stored), w').
Proof.
  intros input w1.
  assert (from_option locked false (sessionLocks w1 !! uuidToLockKey envOk "s1") = false)
    as Hfree by (by vm_compute).
  assert ((getSessionWithAgent "t1" "s1" w1).1 = inr (session1, agent1))
    as Hsession by (by vm_compute).
  assert (s_status session1 = ACTIVE) as Hactive by reflexivity.
  assert (exists history, loadConversationHistory envOk "s1" w1 = (inr history, w1))
    as [history Hhistory] by (eexists; vm_compute; reflexivity).
  assert (exists response stored,
            (sendMessage envOk "t1" "s1" input w0).1 = inr response
            /\ checkIdempotency "s1" input w1 = (inr (Some stored), w1)
            /\ formatMessageResponse stored = response)
    as (response & stored & Hfirst & Hstored & Hsame)
    by (eexists _, _; split; [vm_compute; reflexivity|];
        split; [vm_compute; reflexivity|by vm_compute]).
  split; [exact Hfree|]. split; [exact Hsession|]. split; [exact Hactive|].
  split; [reflexivity|].
  destruct (FailureFacts.user_insert_clash_surfaces envOk "t1" "s1" input w1
              session1 agent1 history stored Hfree Hsession Hactive Hhistory Hstored)
    as (error & w' & Hrun & -> & _ & Hm & _ & _ & _ & _ & Hagain).
  exists response, stored, w'.
  split; [exact Hfirst|]. split; [exact Hstored|]. split; [exact Hsame|].
  split; [exact Hrun|]. split; [exact Hm|exact Hagain].
Defined.

(** An empty idempotency key.  The first invocation goes through; the
    second one is not answered from the stored response: step 1 skips an
    empty key, the lock is taken, and the insert of the second USER message
    with the same key is refused. *)
Lemma empty_key_is_not_replayed :
  let input := withKey "hi" "" in
  let first := sendMessage envOk "t1" "s1" input w0 in
  let second := sendMessage envOk "t1" "s1" input first.2 in
  (exists response, first.1 = inr response)
  /\ second.1 = inl (P2002 "(`sessionId`,`idempotencyKey`)")
  /\ logLines second.2 =
     logLines first.2 ++
     [Processing_message false; Session_lock_acquired; Session_lock_released].
Proof.
  split; [eexists; vm_compute; reflexivity|]. by vm_compute.
Qed.

Lemma idempotent_replay_witness :
  let input := withKey "status of order #12345" "K" in
  let first := sendMessage envTools "t1" "s1" input w0 in
  in_idempotencyKey input = Some "K" /\ "K" <> ""
  /\ exists response userMessage assistantMessage,
       first = (inr response, first.2)
       /\ m_sequenceNumber assistantMessage = m_sequenceNumber userMessage + 1
       /\ sendMessage envTools "t2" "s1" (withKey "again" "K") first.2 =
          (inr (formatMessageResponse
                  (assistantMessage, includeProviderCall first.2 assistantMessage)),
           logged [Processing_message true;
                   Returning_cached_response_for_idempotency_key] first.2).
Proof.
  assert ("K" <> "") as Hne by discriminate.
  split; [reflexivity|]. split; [exact Hne|].
  assert (exists response,
            sendMessage envTools "t1" "s1" (withKey "status of order #12345" "K") w0
            = (inr response,
               (sendMessage envTools "t1" "s1" (withKey "status of order #12345" "K") w0).2))
    as [response Hfirst] by (eexists; vm_compute; reflexivity).
  destruct (PipelineFacts.idempotent_replay envTools "t1" "s1"
              (withKey "status of order #12345" "K") "K" w0 response _
              "t2" (withKey "again" "K") eq_refl Hne eq_refl Hfirst)
    as (userMessage & assistantMessage & _ & _ & _ & _ & _ & _ & _ & Hseq & Hsecond).
  exists response, userMessage, assistantMessage.
  split; [exact Hfirst|]. split; [exact Hseq|exact Hsecond].
Defined.

(** After a tool round the stored message that a replay returns is the
    interim one, which carries the tool calls: the first invocation
    returned the final answer. *)
Example replay_after_tool_round :
  let input := withKey "status of order #12345" "K" in
  let first := sendMessage envTools "t1" "s1" input w0 in
  let second := sendMessage envTools "t1" "s1" input first.2 in
  (exists r1 r2,
     first.1 = inr r1 /\ second.1 = inr r2
     /\ mr_content r1 = Text "Your order has shipped." /\ mr_toolCalls r1 = None
     /\ mr_content r2 = Text "" /\ mr_toolCalls r2 = Some twoCalls)
  /\ tbl_messages second.2 = tbl_messages first.2.
Proof.
  split; [|by vm_compute].
  eexists _, _. split; [vm_compute; reflexivity|]. split; [vm_compute; reflexivity|].
  by vm_compute.
Qed.

Lemma tool_failures_never_abort_witness :
  (1 <= retry_maxAttempts envTools)%nat
  /\ HistoryLoads envTools "s1" w0
  /\ exists r w' interim toolRows,
       handleToolCalls envTools "t1" "s1" "corr_1" agent1 asking twoCalls providerCall1 w0
         = (r, w')
       /\ tbl_messages w' = tbl_messages w0 ++ interim :: toolRows
       /\ length toolRows = length twoCalls
       /\ Forall (fun row => m_role row = TOOL /\ m_sessionId row = "s1") toolRows.
Proof.
  assert (1 <= retry_maxAttempts envTools)%nat as Hmax by (cbn; lia).
  assert (HistoryLoads envTools "s1" w0) as Hloads by (by exists []).
  split; [exact Hmax|]. split; [exact Hloads|].
  destruct (PipelineFacts.tool_failures_never_abort envTools "t1" "s1" "corr_1" agent1
              asking twoCalls providerCall1 w0 Hmax Hloads)
    as (r & w' & interim & results & toolRows & updatedHistory & finalResult
          & finalProviderCall & Hrun & _ & Hm & _ & _ & _ & Hroles & Hlen & _).
  exists r, w', interim, toolRows.
  split; [exact Hrun|]. split; [exact Hm|]. split; [exact Hlen|exact Hroles].
Defined.

(** A tool that is not registered: the pipeline goes on.  The transcript is
    USER, ASSISTANT with the tool calls, one TOOL message per call (the
    second with the error), and the final ASSISTANT message. *)
Example unregistered_tool_does_not_abort :
  let run := sendMessage envTools "t1" "s1" (withKey "status of order #12345" "K") w0 in
  (exists response, run.1 = inr response
                    /\ mr_content response = Text "Your order has shipped.")
  /\ ((fun m => (m_sequenceNumber m, m_role m)) <$> tbl_messages run.2)
     = [(1, USER); (2, ASSISTANT); (3, TOOL); (4, TOOL); (5, ASSISTANT)]
  /\ (m_content <$> List.filter (fun m => bool_decide (m_role m = TOOL)) (tbl_messages run.2))
     = [ToolJson {| tr_id := "call_1"; tr_result := Some "{status:'shipped'}";
                    tr_error := None |};
        ToolJson {| tr_id := "call_2"; tr_result := None;
                    tr_error := Some "Tool 'Refund' not found" |}]
  /\ (pc_status <$> tbl_provider_calls run.2) = [SUCCESS; SUCCESS]
  /\ (ue_providerCallId <$> tbl_usage_events run.2) = [1%nat; 5%nat].
Proof.
  split; [eexists; split; [vm_compute; reflexivity|by vm_compute]|]. by vm_compute.
Qed.

End ScenarioFacts.
(** ** Further scenarios *)

Module CaseFacts.
Import Store Service Observe Behaviour Scenario Cases.

(** *** The orchestrator *)

(** Every attempt times out: the failure returned says PROVIDER_ERROR, and
    the status derived from it is FAILED. *)
Lemma failure_result_shape_witness :
  exists res,
    (Orchestrator.executeWithResilience 3 timingOut request1 configAB []).1 = inr res
    /\ Orchestrator.r_success res = false
    /\ Orchestrator.ei_code <$> Orchestrator.r_error res = Some "PROVIDER_ERROR"
    /\ Orchestrator.ei_retryable <$> Orchestrator.r_error res = Some false
    /\ Orchestrator.r_latencyMs res = 0
    /\ statusOf res = FAILED
    /\ statusOf res <> TIMEOUT.
Proof.
  assert (exists res,
            (Orchestrator.executeWithResilience 3 timingOut request1 configAB []).1 = inr res
            /\ Orchestrator.r_success res = false
            /\ Orchestrator.ei_code <$> Orchestrator.r_error res = Some "PROVIDER_ERROR"
            /\ Orchestrator.ei_retryable <$> Orchestrator.r_error res = Some false
            /\ statusOf res = FAILED)
    as (res & Hrun & Hfail & Hcode & Hretry & Hstatus)
    by (eexists; split; [vm_compute; reflexivity|by vm_compute]).
  destruct (ResultFacts.failure_result_shape 3 timingOut request1 configAB [] res Hrun Hfail)
    as (_ & Hlatency & _ & _ & Hnever).
  exists res. split; [exact Hrun|]. split; [exact Hfail|]. split; [exact Hcode|].
  split; [exact Hretry|]. split; [exact Hlatency|]. split; [exact Hstatus|exact Hnever].
Defined.

Lemma success_result_is_adapter_response_witness :
  exists res new,
    (Orchestrator.executeWithResilience 3 failingOver request1 configAB []).1 = inr res
    /\ Orchestrator.r_success res = true
    /\ (Orchestrator.executeWithResilience 3 failingOver request1 configAB []).2 = [] ++ new
    /\ Orchestrator.r_response res = Some hello
    /\ Orchestrator.r_provider res = VENDOR_B
    /\ failingOver (Orchestrator.r_provider res) (length new - 1) request1
       = Orchestrator.Resolved hello.
Proof.
  assert (exists res,
            (Orchestrator.executeWithResilience 3 failingOver request1 configAB []).1 = inr res
            /\ Orchestrator.r_success res = true
            /\ Orchestrator.r_provider res = VENDOR_B
            /\ Orchestrator.r_response res = Some hello)
    as (res & Hrun & Hok & Hprovider & Hhello)
    by (eexists; split; [vm_compute; reflexivity|by vm_compute]).
  destruct (ResultFacts.success_result_is_adapter_response 3 failingOver request1 configAB
              [] res Hrun Hok)
    as (response & new & lastAttempt & Hlog & Hresp & _ & _ & _ & _ & _ & Hcall & _).
  exists res, new. split; [exact Hrun|]. split; [exact Hok|]. split; [exact Hlog|].
  split; [exact Hhello|]. split; [exact Hprovider|].
  rewrite Hhello in Hresp. injection Hresp as <-. exact Hcall.
Defined.

Lemma persistent_failures_use_every_attempt_witness :
  (1 <= 3)%nat
  /\ (forall p k, exists e ms,
        rejecting p k request1 = Orchestrator.Rejected e ms
        /\ Orchestrator.isRetryableError e = true)
  /\ exists new res,
       Orchestrator.executeWithResilience 3 rejecting request1 configAB []
         = (inr res, [] ++ new)
       /\ Orchestrator.at_provider <$> new
          = [VENDOR_A; VENDOR_A; VENDOR_A; VENDOR_B; VENDOR_B; VENDOR_B]
       /\ Orchestrator.at_attempt <$> new = [1; 2; 3; 1; 2; 3]%nat
       /\ Orchestrator.r_attemptNumber res = 6%nat.
Proof.
  assert (1 <= 3)%nat as Hmax by lia.
  assert (forall p k, exists e ms,
            rejecting p k request1 = Orchestrator.Rejected e ms
            /\ Orchestrator.isRetryableError e = true) as Hrej
    by (intros [] k; eexists _, _; split; reflexivity).
  split; [exact Hmax|]. split; [exact Hrej|].
  destruct (ResultFacts.persistent_failures_use_every_attempt 3 rejecting request1 configAB
              [] Hmax Hrej)
    as (new & res & e & ms & Hrun & Hprov & Hnums & Hlen & _ & Hnum & _).
  exists new, res. split; [exact Hrun|]. split; [exact Hprov|]. split; [exact Hnums|].
  rewrite Hnum. exact Hlen.
Defined.

(** *** One invocation *)

Lemma sendMessage_error_kinds_witness :
  exists e w',
    sendMessage envDown "t1" "s1" (withKey "hi" "K") w0 = (inl e, w')
    /\ PipelineError e
    /\ instanceof e ProviderError = false
    /\ instanceof e TimeoutError = false.
Proof.
  assert (exists e w', sendMessage envDown "t1" "s1" (withKey "hi" "K") w0 = (inl e, w'))
    as (e & w' & Hrun) by (eexists _, _; vm_compute; reflexivity).
  destruct (InvocationFacts.sendMessage_error_kinds envDown "t1" "s1" (withKey "hi" "K")
              w0 e w' Hrun) as (Hkind & Hprovider & _ & _ & Htimeout & _).
  exists e, w'. split; [exact Hrun|]. split; [exact Hkind|].
  split; [exact Hprovider|exact Htimeout].
Defined.

Lemma sendMessage_appends_to_transcript_witness :
  exists r w' new,
    sendMessage envTools "t1" "s1" (withKey "status of order #12345" "K") w0 = (r, w')
    /\ tbl_messages w' = tbl_messages w0 ++ new
    /\ m_sequenceNumber <$> new = consecutiveFrom 1 (length new)
    /\ length new = 5%nat
    /\ sessionSequence "s1" w' = oneToN 5.
Proof.
  assert (exists r w',
            sendMessage envTools "t1" "s1" (withKey "status of order #12345" "K") w0 = (r, w')
            /\ length (tbl_messages w') = 5%nat)
    as (r & w' & Hrun & Hlen) by (eexists _, _; split; vm_compute; reflexivity).
  destruct (InvocationFacts.sendMessage_appends_to_transcript envTools "t1" "s1"
              (withKey "status of order #12345" "K") w0 r w' Hrun)
    as (new & Hm & _ & Hq & Hgap & _).
  assert (length new = 5%nat) as Hnew by (by rewrite Hm in Hlen).
  exists r, w', new. split; [exact Hrun|]. split; [exact Hm|]. split; [exact Hq|].
  split; [exact Hnew|]. rewrite <- Hnew. exact (Hgap 0%nat eq_refl).
Defined.

Lemma sendMessage_lock_discipline_witness :
  exists r w',
    sendMessage envOk "t1" "s1" (withKey "hi" "K") w0 = (r, w')
    /\ held (uuidToLockKey envOk "s1") w0 = false
    /\ held (uuidToLockKey envOk "s1") w' = false
    /\ sessionLocks w' !! 7 = sessionLocks w0 !! 7.
Proof.
  assert (exists r w', sendMessage envOk "t1" "s1" (withKey "hi" "K") w0 = (r, w'))
    as (r & w' & Hrun) by (eexists _, _; vm_compute; reflexivity).
  destruct (InvocationFacts.sendMessage_lock_discipline envOk "t1" "s1" (withKey "hi" "K")
              w0 r w' Hrun) as (Hothers & _ & Hfree).
  exists r, w'. split; [exact Hrun|]. split; [reflexivity|].
  split; [exact (Hfree eq_refl)|]. apply Hothers. discriminate.
Defined.

(** The vendors answer the first request with tool calls and are down for
    the second: a provider call with status SUCCESS is stored, and no
    usage event. *)
Lemma failed_invocation_writes_no_usage_event_witness :
  exists e w',
    sendMessage envToolsThenDown "t1" "s1" (withKey "status of order #12345" "K") w0
      = (inl e, w')
    /\ pc_status <$> tbl_provider_calls w' = [SUCCESS; FAILED]
    /\ pc_billed <$> tbl_provider_calls w' = [false; false]
    /\ tbl_usage_events w' = tbl_usage_events w0.
Proof.
  assert (exists e w',
            sendMessage envToolsThenDown "t1" "s1"
              (withKey "status of order #12345" "K") w0 = (inl e, w')
            /\ pc_status <$> tbl_provider_calls w' = [SUCCESS; FAILED]
            /\ pc_billed <$> tbl_provider_calls w' = [false; false])
    as (e & w' & Hrun & Hstatus & Hbilled)
    by (eexists _, _; split; [vm_compute; reflexivity|by vm_compute]).
  exists e, w'. split; [exact Hrun|]. split; [exact Hstatus|]. split; [exact Hbilled|].
  exact (InvocationFacts.failed_invocation_writes_no_usage_event envToolsThenDown "t1" "s1"
           (withKey "status of order #12345" "K") w0 e w' Hrun).
Defined.

Lemma demo_session_is_never_billed_witness :
  (getSessionWithAgent "t1" "s1" (withSession demoSession)).1 = inr (demoSession, agent1)
  /\ s_demoMode demoSession = true
  /\ exists response w',
       sendMessage envOk "t1" "s1" (withKey "hi" "K") (withSession demoSession)
         = (inr response, w')
       /\ pc_status <$> tbl_provider_calls w' = [SUCCESS]
       /\ tbl_usage_events w' = tbl_usage_events (withSession demoSession).
Proof.
  assert (exists response w',
            sendMessage envOk "t1" "s1" (withKey "hi" "K") (withSession demoSession)
              = (inr response, w')
            /\ pc_status <$> tbl_provider_calls w' = [SUCCESS])
    as (response & w' & Hrun & Hstatus)
    by (eexists _, _; split; vm_compute; reflexivity).
  split; [reflexivity|]. split; [reflexivity|].
  exists response, w'. split; [exact Hrun|]. split; [exact Hstatus|].
  exact (InvocationFacts.demo_session_is_never_billed envOk "t1" "s1" (withKey "hi" "K")
           (withSession demoSession) demoSession agent1 (inr response) w'
           eq_refl eq_refl Hrun).
Defined.

Lemma foreign_session_is_not_found_witness :
  (forall session, session ∈ tbl_sessions w0 -> s_id session = "s1" ->
                   s_tenantId session <> "t2")
  /\ held (uuidToLockKey envOk "s1") w0 = false
  /\ exists w',
       sendMessage envOk "t2" "s1" (withKey "hi" "K") w0
         = (inl (AppErr (newAppError NotFoundError "Session not found")), w')
       /\ tbl_messages w' = tbl_messages w0
       /\ attemptLog w' = attemptLog w0.
Proof.
  assert (forall session, session ∈ tbl_sessions w0 -> s_id session = "s1" ->
                          s_tenantId session <> "t2") as Hforeign.
  { intros session Hin%list_elem_of_singleton _. by subst session. }
  split; [exact Hforeign|]. split; [reflexivity|].
  destruct (InvocationFacts.foreign_session_is_not_found envOk "t2" "s1" (withKey "hi" "K")
              w0 Hforeign eq_refl)
    as (stored & w' & Hcheck & Hrun & Hm & _ & _ & Hattempts & _).
  assert (stored = None) as -> by (vm_compute in Hcheck; congruence).
  exists w'. split; [exact Hrun|]. split; [exact Hm|exact Hattempts].
Defined.

Lemma ended_session_takes_no_message_witness :
  (getSessionWithAgent "t1" "s1" (withSession endedSession)).1 = inr (endedSession, agent1)
  /\ s_status endedSession <> ACTIVE
  /\ held (uuidToLockKey envOk "s1") (withSession endedSession) = false
  /\ exists w',
       sendMessage envOk "t1" "s1" (withKey "hi" "K") (withSession endedSession)
         = (inl (AppErr (newAppError ValidationError
                           "Cannot send message to ended session")), w')
       /\ tbl_messages w' = [].
Proof.
  assert (s_status endedSession <> ACTIVE) as Hended by discriminate.
  split; [reflexivity|]. split; [exact Hended|]. split; [reflexivity|].
  destruct (InvocationFacts.ended_session_takes_no_message envOk "t1" "s1"
              (withKey "hi" "K") (withSession endedSession) endedSession agent1
              eq_refl Hended eq_refl)
    as (stored & w' & Hcheck & Hrun & Hm & _).
  assert (stored = None) as -> by (vm_compute in Hcheck; congruence).
  exists w'. split; [exact Hrun|exact Hm].
Defined.

Lemma locked_session_is_a_conflict_witness :
  held (uuidToLockKey envOk "s1") wLocked = true
  /\ sendMessage envOk "t1" "s1" (withKey "hi" "K") wLocked
     = (inl (AppErr (newAppError ConflictError
               "Session is currently processing another message. Please retry.")),
        logged [Processing_message true; Failed_to_acquire_session_lock] wLocked).
Proof.
  split; [reflexivity|].
  destruct (InvocationFacts.locked_session_is_a_conflict envOk "t1" "s1" (withKey "hi" "K")
              wLocked eq_refl) as (stored & Hcheck & Hrun).
  assert (stored = None) as -> by (vm_compute in Hcheck; congruence).
  exact Hrun.
Defined.

Lemma sendMessage_keeps_billing_consistent_witness :
  BillingConsistent w0
  /\ exists r w' new,
       sendMessage envTools "t1" "s1" (withKey "status of order #12345" "K") w0 = (r, w')
       /\ BillingConsistent w'
       /\ tbl_usage_events w' = tbl_usage_events w0 ++ new
       /\ length new = 2%nat
       /\ Forall (WellPriced "t1" "s1") new.
Proof.
  assert (BillingConsistent w0) as Hw0.
  { split; [intros id; cbn; lia|]. intros pc Hin. by apply elem_of_nil in Hin. }
  assert (exists r w',
            sendMessage envTools "t1" "s1" (withKey "status of order #12345" "K") w0 = (r, w')
            /\ length (tbl_usage_events w') = 2%nat)
    as (r & w' & Hrun & Hlen) by (eexists _, _; split; vm_compute; reflexivity).
  split; [exact Hw0|].
  destruct (BillingPipelineFacts.sendMessage_keeps_billing_consistent envTools "t1" "s1"
              (withKey "status of order #12345" "K") w0 r w' Hw0 Hrun)
    as (Hw' & new & Hevents & Hpriced).
  exists r, w', new. split; [exact Hrun|]. split; [exact Hw'|]. split; [exact Hevents|].
  split; [by rewrite Hevents in Hlen|exact Hpriced].
Defined.


(** An invocation with a tool round, and its key again. *)
Lemma replay_returns_the_message_after_the_user_message_witness :
  let input := withKey "status of order #12345" "K" in
  in_idempotencyKey input = Some "K"
  /\ "K" <> ""
  /\ checkIdempotency "s1" input w0 = (inr None, w0)
  /\ exists resp w1,
       sendMessage envTools "t1" "s1" input w0 = (inr resp, w1)
       /\ exists userMessage reply rest final,
            tbl_messages w1 = tbl_messages w0 ++ userMessage :: reply :: rest
            /\ last (reply :: rest) = Some final
            /\ resp = formatMessageResponse (final, includeProviderCall w1 final)
            /\ (forall tenantId2 input2,
                  in_idempotencyKey input2 = Some "K" ->
                  sendMessage envTools tenantId2 "s1" input2 w1
                  = (inr (formatMessageResponse (reply, includeProviderCall w1 reply)),
                     logged [Processing_message true;
                             Returning_cached_response_for_idempotency_key] w1))
            /\ (rest = [] ->
                formatMessageResponse (reply, includeProviderCall w1 reply) = resp)
            /\ (rest <> [] ->
                exists toolCall toolCalls,
                  mr_toolCalls (formatMessageResponse (reply, includeProviderCall w1 reply))
                  = Some (toolCall :: toolCalls)).
Proof.
  intros input.
  assert ("K" <> "") as Hne by done.
  assert (checkIdempotency "s1" input w0 = (inr None, w0)) as Hcheck by done.
  split; [done|]. split; [exact Hne|]. split; [exact Hcheck|].
  assert (exists resp, sendMessage envTools "t1" "s1" input w0
                       = (inr resp, (sendMessage envTools "t1" "s1" input w0).2))
    as [resp Hfirst] by (eexists; vm_compute; reflexivity).
  exists resp, (sendMessage envTools "t1" "s1" input w0).2. split; [exact Hfirst|].
  exact (ReplayFacts.replay_returns_the_message_after_the_user_message envTools "t1" "s1"
           input "K" w0 resp _ eq_refl Hne Hcheck Hfirst).
Defined.

(** The first exchange of a session, read back. *)
Lemma sent_messages_are_read_back_witness :
  let input := withKey "hi" "K" in
  Sessions.getSessionMessages "t1" "s1" w0 = (inr [], w0)
  /\ checkIdempotency "s1" input w0 = (inr None, w0)
  /\ exists resp w1,
       sendMessage envOk "t1" "s1" input w0 = (inr resp, w1)
       /\ exists userMessage answers final,
            Sessions.getSessionMessages "t1" "s1" w1
            = (inr ([] ++ userMessage :: answers), w1)
            /\ m_role userMessage = USER
            /\ m_content userMessage = Text (in_content input)
            /\ m_idempotencyKey userMessage = in_idempotencyKey input
            /\ last answers = Some final
            /\ mr_id resp = m_id final
            /\ mr_role resp = m_role final
            /\ mr_content resp = m_content final.
Proof.
  intros input.
  assert (Sessions.getSessionMessages "t1" "s1" w0 = (inr [], w0)) as Hbefore by done.
  assert (checkIdempotency "s1" input w0 = (inr None, w0)) as Hcheck by done.
  split; [exact Hbefore|]. split; [exact Hcheck|].
  assert (exists resp, sendMessage envOk "t1" "s1" input w0
                       = (inr resp, (sendMessage envOk "t1" "s1" input w0).2))
    as [resp Hfirst] by (eexists; vm_compute; reflexivity).
  exists resp, (sendMessage envOk "t1" "s1" input w0).2. split; [exact Hfirst|].
  exact (SessionFacts.sent_messages_are_read_back envOk "t1" "s1" input w0 resp _ []
           Hbefore Hcheck Hfirst).
Defined.

(** The session of [w0] is ended by its tenant. *)
Lemma ended_session_is_closed_witness :
  NoDup (s_id <$> tbl_sessions w0)
  /\ exists w1,
       Sessions.endSession "t1" "s1" w0 = (inr (Sessions.ended session1), w1)
       /\ tbl_messages w1 = tbl_messages w0
       /\ forall input,
            exists stored w2,
              checkIdempotency "s1" input w1 = (inr stored, w1)
              /\ sendMessage envOk "t1" "s1" input w1
                 = (match stored with
                    | Some existing => inr (formatMessageResponse existing)
                    | None => inl (AppErr (newAppError ValidationError
                                             "Cannot send message to ended session"))
                    end, w2)
              /\ tbl_messages w2 = tbl_messages w1
              /\ tbl_provider_calls w2 = tbl_provider_calls w1
              /\ tbl_usage_events w2 = tbl_usage_events w1
              /\ attemptLog w2 = attemptLog w1.
Proof.
  assert (NoDup (s_id <$> tbl_sessions w0)) as Hnd by (apply NoDup_singleton).
  split; [exact Hnd|].
  exists (Sessions.endSession "t1" "s1" w0).2. split; [reflexivity|].
  pose proof (SessionFacts.ended_session_is_closed envOk "t1" "s1" w0
                (inr (Sessions.ended session1)) (Sessions.endSession "t1" "s1" w0).2
                Hnd eq_refl) as Hclosed.
  cbn in Hclosed. destruct Hclosed as (_ & _ & Hm & _ & _ & _ & Hsend).
  split; [exact Hm|]. intros input. exact (Hsend agent1 input eq_refl eq_refl).
Defined.

End CaseFacts.

Module JobCaseFacts.
Import Store Service Observe Sessions Jobs JobBehaviour Scenario JobCases.

Lemma distinct_ids (l : list Job) :
  bool_decide (NoDup (j_id <$> l)) = true -> NoDup (j_id <$> l).
Proof. apply bool_decide_eq_true_1. Qed.

(** The round at time 400000 passes over the abandoned job and runs the
    second one. *)
Lemma processNextJob_runs_the_oldest_available_job_witness :
  NoDup (j_id <$> tbl_jobs db2)
  /\ match find (available worker1 (at_start (tick 400000))) (tbl_jobs db2) with
     | None => processNextJob envOk worker1 (tick 400000) db2 = db2
     | Some job =>
         exists before after job',
           tbl_jobs db2 = before ++ job :: after
           /\ Forall (fun row => available worker1 (at_start (tick 400000)) row = false)
                before
           /\ tbl_jobs (processNextJob envOk worker1 (tick 400000) db2)
              = before ++ job' :: after
           /\ Ran worker1 (tick 400000) job job'
           /\ j_attempts job' <= attemptsBound worker1 job
     end.
Proof.
  split; [by apply distinct_ids|].
  apply (JobFacts.processNextJob_runs_the_oldest_available_job envOk worker1
           (tick 400000) db2).
  by apply distinct_ids.
Defined.

(** The abandoned job stays PROCESSING, with the lock of its worker. *)
Lemma settled_job_is_never_run_witness :
  NoDup (j_id <$> tbl_jobs db2)
  /\ tbl_jobs db2 !! 0%nat = Some abandoned
  /\ attemptsBound worker1 abandoned <= j_attempts abandoned
  /\ tbl_jobs (rounds envOk worker1 [tick 400000; tick 800000; tick 1200000] db2) !! 0%nat
     = Some abandoned.
Proof.
  split; [by apply distinct_ids|]. split; [done|]. split; [done|].
  apply (JobFacts.settled_job_is_never_run envOk worker1); [by apply distinct_ids|done|].
  right; right. done.
Defined.

(** The second job of the queue completes, and its callback is posted. *)
Lemma processNextJob_posts_one_callback_witness :
  NoDup (j_id <$> tbl_jobs db2)
  /\ match find (available worker1 (at_start (tick 400000))) (tbl_jobs db2) with
     | None => requests (processNextJob envOk worker1 (tick 400000) db2) = requests db2
     | Some job =>
         exists before after job',
           tbl_jobs db2 = before ++ job :: after
           /\ tbl_jobs (processNextJob envOk worker1 (tick 400000) db2)
              = before ++ job' :: after
           /\ match truthy (j_callbackUrl job) with
              | None =>
                  requests (processNextJob envOk worker1 (tick 400000) db2) = requests db2
                  /\ j_callbackSent job' = j_callbackSent job
              | Some callbackUrl =>
                  if bool_decide (j_status job' = J_PENDING)
                  then requests (processNextJob envOk worker1 (tick 400000) db2)
                       = requests db2
                       /\ j_callbackSent job' = j_callbackSent job
                  else
                    exists payload,
                      requests (processNextJob envOk worker1 (tick 400000) db2)
                      = requests db2 ++ [(callbackUrl, payload)]
                      /\ cb_jobId payload = j_id job
                      /\ cb_type payload = j_type job
                      /\ cb_completedAt payload = at_callback (tick 400000)
                      /\ cb_error payload
                         = (if bool_decide (j_status job' = J_FAILED)
                            then j_lastError job' else None)
                      /\ cb_result payload
                         = (if bool_decide (j_status job' = J_FAILED)
                            then None else j_output job')
                      /\ cb_status payload
                         = (if isTruthy (cb_error payload) then "FAILED" else "COMPLETED")
                      /\ j_callbackSent job'
                         = match fetch worker1 callbackUrl payload with
                           | Responded _ => true
                           | FetchRejected _ => j_callbackSent job
                           end
              end
     end.
Proof.
  split; [by apply distinct_ids|].
  apply (JobFacts.processNextJob_posts_one_callback envOk worker1 (tick 400000) db2).
  by apply distinct_ids.
Defined.

(** Three rounds on a queue whose first open job is a voice job. *)
Lemma voice_job_fails_after_its_attempts_witness :
  NoDup (j_id <$> tbl_jobs voiceQueue)
  /\ tbl_jobs voiceQueue = [abandoned] ++ newJob 1 VOICE_PROCESS None :: []
  /\ Forall (Settled worker1) [abandoned]
  /\ attemptsBound worker1 (newJob 1 VOICE_PROCESS None)
     = orNumber (j_maxAttempts (newJob 1 VOICE_PROCESS None)) (jobs_maxAttempts worker1)
  /\ j_attempts (newJob 1 VOICE_PROCESS None) + Z.of_nat (length [tick 1; tick 2; tick 3])
     <= attemptsBound worker1 (newJob 1 VOICE_PROCESS None)
  /\ exists job',
       tbl_jobs (rounds envOk worker1 [tick 1; tick 2; tick 3] voiceQueue)
       = [abandoned] ++ job' :: []
       /\ world (rounds envOk worker1 [tick 1; tick 2; tick 3] voiceQueue)
          = world voiceQueue
       /\ j_attempts job'
          = j_attempts (newJob 1 VOICE_PROCESS None)
            + Z.of_nat (length [tick 1; tick 2; tick 3])
       /\ j_lastError job' = Some "Voice processing not implemented"
       /\ j_status job'
          = (if j_attempts job' <? attemptsBound worker1 (newJob 1 VOICE_PROCESS None)
             then J_PENDING else J_FAILED)
       /\ j_errorMessage job'
          = (if j_attempts job' <? attemptsBound worker1 (newJob 1 VOICE_PROCESS None)
             then None else Some "Voice processing not implemented").
Proof.
  assert (Forall (Settled worker1) [abandoned]) as Hsettled.
  { constructor; [|constructor]. right; right. done. }
  split; [by apply distinct_ids|]. split; [done|]. split; [done|]. split; [done|].
  split; [done|].
  apply (JobFacts.voice_job_fails_after_its_attempts envOk worker1
           [tick 1; tick 2; tick 3] voiceQueue [abandoned] (newJob 1 VOICE_PROCESS None) []);
    try done.
  by apply distinct_ids.
Defined.

(** A submission with the key k2, a round of the worker, and the same
    submission again. *)
Lemma resubmission_returns_the_first_job_witness :
  "k2" <> ""
  /\ NoDup (j_id <$> tbl_jobs db2)
  /\ Forall (fun job => (j_id job < nextJobId db2)%nat) (tbl_jobs db2)
  /\ sendMessageAsync "t1" "s1" (Some "k2") "Hi" None db2 = (inr accepted, db3)
  /\ exists job,
       job ∈ tbl_jobs (rounds envOk worker1 [tick 400000] db3)
       /\ j_id job = rp_jobId accepted
       /\ j_tenantId job = "t1"
       /\ j_idempotencyKey job = Some "k2"
       /\ sendMessageAsync "t1" "s1" (Some "k2") "Hello again" None
            (rounds envOk worker1 [tick 400000] db3)
          = (inr {| rp_statusCode := 200; rp_jobId := rp_jobId accepted;
                    rp_status := j_status job |},
             rounds envOk worker1 [tick 400000] db3).
Proof.
  assert (Forall (fun job => (j_id job < nextJobId db2)%nat) (tbl_jobs db2)) as Hfresh.
  { repeat constructor. }
  split; [done|]. split; [by apply distinct_ids|]. split; [done|]. split; [done|].
  apply (JobFacts.resubmission_returns_the_first_job envOk worker1 "t1" "s1" "k2" "Hi" None
           db2 accepted db3 [tick 400000] "Hello again" None); try done.
  by apply distinct_ids.
Defined.

(** Two submissions with an empty key. *)
Lemma empty_key_is_stored_and_refused_witness :
  sendMessageAsync "t1" "s1" (Some "") "Hi" None db2 = (inr accepted, db4)
  /\ rp_statusCode accepted = 202
  /\ rp_jobId accepted = nextJobId db2
  /\ (exists job, tbl_jobs db4 = tbl_jobs db2 ++ [job]
                  /\ j_id job = rp_jobId accepted /\ j_idempotencyKey job = Some "")
  /\ sendMessageAsync "t1" "s1" (Some "") "Hello again" None db4
     = (inl (P2002 "(`tenantId`,`idempotencyKey`)"), db4).
Proof.
  split; [done|].
  by apply (JobFacts.empty_key_is_stored_and_refused "t1" "s1" "Hi" None db2 accepted db4
              "Hello again" None).
Defined.

(** The recovery at time 400000, and a claim at time 500000. *)
Lemma recovery_is_invisible_to_the_claim_witness :
  400000 <= 500000
  /\ world (recoverStaleJobs 400000 db2) = world db2
  /\ length (tbl_jobs (recoverStaleJobs 400000 db2)) = length (tbl_jobs db2)
  /\ (forall i job,
        tbl_jobs db2 !! i = Some job ->
        exists job',
          tbl_jobs (recoverStaleJobs 400000 db2) !! i = Some job'
          /\ job' = (if isStale 400000 job then recovered job else job)
          /\ j_id job' = j_id job
          /\ j_attempts job' = j_attempts job
          /\ available worker1 500000 job' = available worker1 500000 job)
  /\ j_id <$> find (available worker1 500000) (tbl_jobs (recoverStaleJobs 400000 db2))
     = j_id <$> find (available worker1 500000) (tbl_jobs db2).
Proof.
  assert (400000 <= 500000) as Hle by lia.
  split; [exact Hle|].
  exact (JobFacts.recovery_is_invisible_to_the_claim worker1 400000 db2 500000 Hle).
Defined.

End JobCaseFacts.

Module AccountCaseFacts.
Import Accounts AccountBehaviour AccountCases.

(** A key for reports, used at time 1000. *)
Lemma created_key_authenticates_witness :
  exists apiKey plainKey dir1,
    createApiKey crypto1 "t1" analystKey dir0 = (inr (apiKey, plainKey), dir1)
    /\ plainKey <> ""
    /\ authenticate crypto1 (Some plainKey) 1000 1001 dir0
       = (inl (AppErr (newAppError UnauthorizedError "Invalid API key")), dir0)
    /\ authenticate crypto1 (Some plainKey) 1000 1001 dir1
       = (if from_option (fun expiresAt => expiresAt <? 1000) false
               (ck_expiresAt analystKey)
          then (inl (AppErr (newAppError UnauthorizedError "API key has expired")), dir1)
          else (inr {| rc_tenantId := "t1"; rc_keyRole := ck_role analystKey;
                       rc_apiKey := apiKey |},
                apiKey_update (k_id apiKey) (withLastUsedAt 1001) dir1))
    /\ k_keyHash apiKey = hashApiKey crypto1 plainKey
    /\ k_keyPrefix apiKey = getKeyPrefix plainKey
    /\ tbl_api_keys dir1 = tbl_api_keys dir0 ++ [apiKey].
Proof.
  assert (exists apiKey plainKey,
            createApiKey crypto1 "t1" analystKey dir0
            = (inr (apiKey, plainKey), (createApiKey crypto1 "t1" analystKey dir0).2)
            /\ plainKey <> "")
    as (apiKey & plainKey & Hcreate & Hne)
    by (eexists _, _; split; [vm_compute; reflexivity|done]).
  exists apiKey, plainKey, (createApiKey crypto1 "t1" analystKey dir0).2.
  split; [exact Hcreate|]. split; [exact Hne|].
  exact (AccountFacts.created_key_authenticates crypto1 "t1" analystKey dir0 apiKey plainKey
           _ 1000 1001 Hcreate Hne).
Defined.

(** The first key is revoked at time 50; it is then rotated, another key
    is created, and the revoked key is tried. *)
Lemma revoked_key_stays_revoked_witness :
  let calls := [RotateApiKey "t1" 0%nat 60; CreateApiKey "t1" analystKey;
                Authenticate (Some "vb_live_first") 70 71] in
  NoDup (k_keyHash <$> tbl_api_keys dir0)
  /\ exists revoked dir1,
       revokeApiKey "t1" 0%nat 50 dir0 = (inr revoked, dir1)
       /\ "vb_live_first" <> ""
       /\ hashApiKey crypto1 "vb_live_first" = k_keyHash revoked
       /\ authenticate crypto1 (Some "vb_live_first") 80 81 (performAll crypto1 calls dir1)
          = (inl (AppErr (newAppError UnauthorizedError "API key has been revoked")),
             performAll crypto1 calls dir1)
       /\ Forall (fun key => k_keyHash key <> k_keyHash revoked)
            (listApiKeys "t1" (performAll crypto1 calls dir1)).
Proof.
  intros calls.
  assert (NoDup (k_keyHash <$> tbl_api_keys dir0)) as Hnd
    by (apply NoDup_singleton).
  assert ("vb_live_first" <> "") as Hne by done.
  split; [exact Hnd|].
  exists (withRevokedAt 50 key0), (revokeApiKey "t1" 0%nat 50 dir0).2.
  split; [reflexivity|]. split; [exact Hne|]. split; [reflexivity|].
  exact (AccountFacts.revoked_key_stays_revoked crypto1 "t1" 0%nat 50 dir0
           (withRevokedAt 50 key0) _ calls "vb_live_first" 80 81
           Hnd eq_refl Hne eq_refl).
Defined.

(** The first key, which expired at time 100, is rotated at time 1000. *)
Lemma rotation_grace_period_witness :
  NoDup (k_keyHash <$> tbl_api_keys dir0)
  /\ Forall (fun key => (k_id key < nextKeyId dir0)%nat) (tbl_api_keys dir0)
  /\ exists newKey plainKey validUntil dir1,
       rotateApiKey crypto1 "t1" 0%nat 1000 dir0
       = (inr (newKey, plainKey, validUntil), dir1)
       /\ plainKey <> ""
       /\ validUntil = 1000 + 86400000
       /\ exists oldKey,
            apiKey_findFirst "t1" 0%nat dir0 = Some oldKey
            /\ k_tenantId newKey = "t1"
            /\ k_role newKey = k_role oldKey
            /\ k_expiresAt newKey = None
            /\ (forall t usedAt,
                  authenticate crypto1 (Some plainKey) t usedAt dir1
                  = (inr {| rc_tenantId := "t1"; rc_keyRole := k_role oldKey;
                            rc_apiKey := newKey |},
                     apiKey_update (k_id newKey) (withLastUsedAt usedAt) dir1))
            /\ (forall header t usedAt,
                  header <> "" ->
                  hashApiKey crypto1 header = k_keyHash oldKey ->
                  k_revokedAt oldKey = None ->
                  authenticate crypto1 (Some header) t usedAt dir1
                  = if validUntil <? t
                    then (inl (AppErr (newAppError UnauthorizedError
                                         "API key has expired")), dir1)
                    else (inr {| rc_tenantId := "t1"; rc_keyRole := k_role oldKey;
                                 rc_apiKey := withExpiresAt validUntil oldKey |},
                          apiKey_update 0%nat (withLastUsedAt usedAt) dir1)).
Proof.
  assert (NoDup (k_keyHash <$> tbl_api_keys dir0)) as Hnd
    by (apply NoDup_singleton).
  assert (Forall (fun key => (k_id key < nextKeyId dir0)%nat) (tbl_api_keys dir0))
    as Hfresh by (repeat constructor).
  split; [exact Hnd|]. split; [exact Hfresh|].
  assert (exists newKey plainKey validUntil,
            rotateApiKey crypto1 "t1" 0%nat 1000 dir0
            = (inr (newKey, plainKey, validUntil),
               (rotateApiKey crypto1 "t1" 0%nat 1000 dir0).2)
            /\ plainKey <> "")
    as (newKey & plainKey & validUntil & Hrotate & Hne)
    by (eexists _, _, _; split; [vm_compute; reflexivity|done]).
  exists newKey, plainKey, validUntil, (rotateApiKey crypto1 "t1" 0%nat 1000 dir0).2.
  split; [exact Hrotate|]. split; [exact Hne|].
  exact (AccountFacts.rotation_grace_period crypto1 "t1" 0%nat 1000 dir0 newKey plainKey
           validUntil _ Hnd Hfresh Hrotate Hne).
Defined.

End AccountCaseFacts.

Module RouteCaseFacts.
Import Store Service Scenario Accounts AccountCases Routes RouteCases.

(** The greeting at time 50, before the key expires, while both providers
    are down: the answer is 400, not 500 or 502. *)
Lemma postMessage_answers_witness :
  exists reply dir1 w1,
    postMessage envDown crypto1 greeting 50 51 (dir0, w0) = (reply, (dir1, w1))
    /\ re_statusCode reply = 400
    /\ re_correlationId reply = "corr_client"
    /\ match re_body reply with
       | Sent response =>
           re_statusCode reply = 200
           /\ exists tenant,
                authenticate crypto1 (rq_apiKey greeting) 50 51 dir0 = (inr tenant, dir1)
                /\ rc_keyRole tenant = ADMIN
       | Failed code message correlationId =>
           correlationId = correlationIdOf envDown greeting
           /\ (re_statusCode reply = 400 /\ code = "VALIDATION_ERROR"
               \/ re_statusCode reply = 401 /\ code = "UNAUTHORIZED" /\ w1 = w0 /\ dir1 = dir0
               \/ re_statusCode reply = 403 /\ code = "FORBIDDEN"
                  /\ message = "Insufficient permissions" /\ w1 = w0
               \/ re_statusCode reply = 404 /\ code = "NOT_FOUND"
               \/ re_statusCode reply = 409 /\ code = "CONFLICT"
               \/ re_statusCode reply = 500 /\ code = "INTERNAL_ERROR"
                  /\ message = "Internal server error")
       end.
Proof.
  assert (exists reply dir1 w1,
            postMessage envDown crypto1 greeting 50 51 (dir0, w0) = (reply, (dir1, w1))
            /\ re_statusCode reply = 400 /\ re_correlationId reply = "corr_client")
    as (reply & dir1 & w1 & Hrun & Hstatus & Hid)
    by (eexists _, _, _; split; [vm_compute; reflexivity|split; reflexivity]).
  exists reply, dir1, w1. split; [exact Hrun|]. split; [exact Hstatus|].
  split; [exact Hid|].
  exact (proj1 (proj2 (RouteFacts.postMessage_answers envDown crypto1 greeting 50 51
                         dir0 w0 reply dir1 w1 Hrun))).
Defined.

End RouteCaseFacts.

Module JobRetryCaseFacts.
Import Store Service Scenario Jobs JobBehaviour JobAttempts JobCases.

(** The job with the key k1 while both providers are down: three rounds,
    of which the first stores the USER message. *)
Lemma keyed_job_is_refused_after_its_first_failure_witness :
  let job := newJob 1 SEND_MESSAGE (Some "k1") in
  let clocks := [tick 2; tick 3] in
  let db1 := processNextJob envDown worker1 (tick 1) db2 in
  let db' := rounds envDown worker1 (tick 1 :: clocks) db2 in
  NoDup (j_id <$> tbl_jobs db2)
  /\ tbl_jobs db2 = [abandoned] ++ job :: []
  /\ Forall (Settled worker1) [abandoned]
  /\ attemptsBound worker1 job = orNumber (j_maxAttempts job) (jobs_maxAttempts worker1)
  /\ j_attempts job + 1 + Z.of_nat (length clocks) <= attemptsBound worker1 job
  /\ exists userMessage,
       tbl_messages (world db1) = tbl_messages (world db2) ++ [userMessage]
       /\ exists job',
            tbl_jobs db' = [abandoned] ++ job' :: []
            /\ tbl_messages (world db') = tbl_messages (world db2) ++ [userMessage]
            /\ tbl_provider_calls (world db') = tbl_provider_calls (world db1)
            /\ tbl_usage_events (world db') = tbl_usage_events (world db2)
            /\ attemptLog (world db') = attemptLog (world db1)
            /\ j_attempts job' = j_attempts job + 1 + Z.of_nat (length clocks)
            /\ j_lastError job' = Some keyRefusal
            /\ j_status job'
               = (if j_attempts job' <? attemptsBound worker1 job
                  then J_PENDING else J_FAILED)
            /\ j_errorMessage job'
               = (if j_attempts job' <? attemptsBound worker1 job
                  then None else Some keyRefusal).
Proof.
  intros job clocks db1 db'.
  assert (NoDup (j_id <$> tbl_jobs db2)) as Hnd
    by (by apply JobCaseFacts.distinct_ids).
  assert (Forall (Settled worker1) [abandoned]) as Hsettled.
  { constructor; [|constructor]. right; right. done. }
  assert (exists userMessage,
            tbl_messages (world db1) = tbl_messages (world db2) ++ [userMessage])
    as [userMessage Hone] by (eexists; vm_compute; reflexivity).
  split; [exact Hnd|]. split; [done|]. split; [done|]. split; [done|]. split; [done|].
  exists userMessage. split; [exact Hone|].
  exact (JobRetryFacts.keyed_job_is_refused_after_its_first_failure envDown worker1
           (tick 1) clocks db2 [abandoned] job [] "k1" userMessage
           Hnd eq_refl Hsettled eq_refl eq_refl eq_refl eq_refl eq_refl Hone
           ltac:(done) ltac:(done)).
Defined.

End JobRetryCaseFacts.

Module LockCaseFacts.
Import Store Service Behaviour Sessions Scenario Cases.

(** The lock of session s1, taken at time 0, and a sweep a minute later
    with the timeout of 30 seconds. *)
Lemma sweep_reopens_the_session_witness :
  let lock := {| locked := true; timestamp := 0 |} in
  sessionLocks wLocked !! uuidToLockKey envOk "s1" = Some lock
  /\ locked lock = true
  /\ exists w1,
       cleanupStaleLocks 60000 30000 wLocked = (inr tt, w1)
       /\ (tbl_sessions w1, tbl_messages w1, tbl_provider_calls w1, tbl_usage_events w1,
           tbl_tool_executions w1, attemptLog w1, logLines w1)
          = (tbl_sessions wLocked, tbl_messages wLocked, tbl_provider_calls wLocked,
             tbl_usage_events wLocked, tbl_tool_executions wLocked, attemptLog wLocked,
             logLines wLocked)
       /\ (forall k entry,
             sessionLocks w1 !! k = Some entry
             <-> sessionLocks wLocked !! k = Some entry
                 /\ (locked entry = false \/ 60000 - timestamp entry <= 30000))
       /\ if 30000 <? 60000 - timestamp lock
          then held (uuidToLockKey envOk "s1") w1 = false
               /\ forall r w', sendMessage envOk "t1" "s1" (withKey "hi" "K") w1 = (r, w') ->
                    forall msg, r <> inl (AppErr (newAppError ConflictError msg))
          else held (uuidToLockKey envOk "s1") w1 = true.
Proof.
  intros lock.
  assert (sessionLocks wLocked !! uuidToLockKey envOk "s1" = Some lock) as Hlock
    by reflexivity.
  split; [exact Hlock|]. split; [reflexivity|].
  exact (LockFacts.sweep_reopens_the_session envOk 60000 30000 "t1" "s1" (withKey "hi" "K")
           wLocked lock Hlock eq_refl).
Defined.

End LockCaseFacts.
